(* ===== verification/_CoqProject ===== *)
-Q . S2P
Prelude.v
Utf8.v
Parser.v
ParserSyntax.v
ProtocolReply.v
Damage.v
Types.v
LineIds.v
GraphemeStore.v
HistoryTypes.v
Wrap.v
Memory.v
WrapIndex.v
Eviction.v
HistoryStore.v
WrapParagraphs.v
HistoryRetain.v
HistoryTruncate.v
Reflow.v
Screen.v
ScreenSafe.v
Grapheme.v
Osc.v
Selection.v
HistoryQuery.v
Mouse.v
Core.v
CoreSafe.v
CoreChunks.v
KeyboardSpec.v
AltScreen.v
Wire.v
WirePane.v
WireControl.v
WireText.v
WireBlocks.v
WireHistory.v
HistoryReply.v
WireMessage.v
FrameStream.v
Ids.v
Attachments.v
CommandTimeline.v
Display.v
Projection.v
DisplayEncode.v
DisplayClient.v
DisplayCells.v
DisplayPlan.v
DisplayApply.v
DisplayBatch.v
DisplayMirror.v
ProjectionSafe.v
DisplayTerminal.v
