(* ===== verification/Prelude.v ===== *)
(** Verification of the Seyal terminal engine.

    The program is a terminal: bytes from a child process go through a VT parser
    ([crates/seyal-terminal/src/parser.rs]), whose actions edit one of two screens
    ([screen/], [terminal/vt/]); rows that leave the primary screen become source lines of a
    bounded history ([history/]), which can be searched, copied and laid out again for
    another width; the host reads damage, replies and events.  A Runtime process owns the
    terminals and serves clients over a local socket: frames are received, decoded and
    dispatched, attachments decide who may write, and history ranges, the timeline of command
    blocks and the screen itself are sent back.  The screen travels as a projection, cut into
    spans that fit a frame; the client assembles the chunks of one update and applies it to
    its cache, or asks for a new snapshot.

    * Files and the code they model

    All paths are below [crates/seyal-terminal/src/] unless they start with [crates/].

    - [Prelude]: integers, vectors, the program monad and its weakest preconditions.
    - [Utf8]: UTF-8 of the Rust standard library: encoding, [from_utf8], [from_utf8_lossy].
    - [Parser], [ParserSyntax]: [parser.rs], the byte state machine with its [Actions]; the
      second file specifies text and control sequences.
    - [ProtocolReply]: [protocol_reply.rs].  [Damage]: [damage.rs].
    - [Types]: the value types ([cell.rs], [style.rs], [cursor.rs], [modes.rs], ...).
    - [LineIds]: [line.rs].  [GraphemeStore]: [grapheme_store.rs].
    - [HistoryTypes]: source lines ([history/types.rs]) and the interface [HistoryLog] with its
      laws [HistoryLaws], which is all that the screen knows of the history.
    - [Wrap], [WrapIndex], [WrapParagraphs]: [history/wrap.rs], the columns at which a
      soft-wrapped paragraph continues, as arithmetic on runs and as a maintained index; the
      third file follows the whole index and what the store reads from it.
    - [Memory]: capacities and sizes that the history accounts for, as a class.
    - [Eviction]: the index of evicted identities of [history/eviction.rs].
    - [HistoryStore], [HistoryRetain], [HistoryTruncate]: [history/store.rs] and the eviction
      loops; the first holds the operations and the instance of [HistoryLog], the others the
      theorems on appending and truncating.
    - [Reflow]: [history/reflow.rs].  [HistoryQuery]: [history/query.rs].
    - [Screen], [ScreenSafe]: [screen/mod.rs] and [screen/ops.rs], every editing operation of the
      grid, and its safety calculus.
    - [Grapheme]: [width.rs] and [active_grapheme.rs], over the Unicode tables as a class.
    - [Osc]: [presentation.rs], the OSC payloads and shell markers.
    - [Selection]: [selection.rs].  [Mouse]: [mouse.rs] and the routing of
      [crates/seyal-runtime/src/runtime/local/ingress.rs].
    - [Core], [CoreSafe], [CoreChunks], [KeyboardSpec], [AltScreen]: [terminal/vt/] and
      [terminal/state.rs], the terminal core that composes all of the above, and its theorems.
    - [Wire]: [crates/seyal-protocol/src/framing/envelope.rs], the frame header, and the
      interface every message codec implements: [WireFormat] (encoder, decoder, validity),
      [WireLaws] (what is encoded is read back) and [WireCanonical] (nothing else is accepted).
    - [WireControl], [WirePane], [WireText], [WireBlocks], [WireHistory]: the codecs of
      [crates/seyal-protocol/src/framing/] and [pass7/], fixed-size messages first, then those
      with text, lists, the block timeline and history snapshots.
    - [WireMessage]: [framing/message.rs], [framing/presentation.rs] and [pass8.rs], the dispatch
      over all message types and the presentation envelope, proved against the interface.
    - [HistoryReply]: the reply of [crates/seyal-runtime/src/runtime/local/history_blocks.rs].
    - [FrameStream]: the receiving side of [crates/seyal-runtime/src/local_ipc/connection/]; the
      socket is a script of reads.
    - [Ids]: [crates/seyal-core/src/lib.rs], process-unique identities.
    - [Attachments]: [crates/seyal-runtime/src/local_ipc/attachment.rs] and the admission checks of
      [runtime/local/session.rs], as a step relation.
    - [CommandTimeline]: [crates/seyal-runtime/src/command_block_timeline.rs] and its publication.
    - [Display]: [crates/seyal-protocol/src/display/], the display chunks of both schemas, their
      decoders, the transport batches and the client's cache.
    - [Projection], [ProjectionSafe]: [crates/seyal-exec/src/projection.rs], the visible cells of a
      terminal as values; the second file shows that reachable terminals have a projection.
    - [DisplayEncode]: [crates/seyal-runtime/src/display/], validation, the plan of spans and the
      encoder of schema 2.
    - [DisplayClient]: [crates/seyal-client/src/local/display_apply.rs] and the display branch of
      [poll.rs].
    - [DisplayCells], [DisplayPlan], [DisplayApply], [DisplayBatch], [DisplayMirror],
      [DisplayTerminal]: the theorems on the display, from one cell on the wire to the plan, the
      grid, the client's assembly, whole projections and reachable terminals.

    * How state and operations correspond

    A Rust struct is a record with the same fields, an enum an inductive type, a [HashMap] a
    [gmap], a [Vec] a list; unsigned integers are [N] with their wrapping, saturating or checked
    arithmetic written out.  A method with [&mut self] is a state-passing function or a
    computation in the monad [M]; indexing, slicing, [expect] and unchecked subtraction give
    [None] or the panic outcome exactly where Rust panics.  Interior mutability (caches) is
    explicit: the operation also returns the store.  External crates (Unicode tables), the
    allocator and the layout of types are parameters with documented laws.

    * What the theorems show

    - Input: the parser is total, insensitive to chunking, and decodes text and control
      sequences as specified; replies read back through it (C1 to C5).
    - Parts: damage, identities and graphemes meet their specifications (C6 to C8).
    - Safety: no sequence of grid operations, and no sequence of the calls that feed a terminal
      of a fixed size and drain its damage, replies and events, panics, hangs or breaks an
      invariant, and chunking of the input does not matter (C9 to C11).
    - Terminal protocols: the keyboard stack and the alternate screen (C12, C13).
    - Host side: selection, copy, search stepping, paste and mouse (C14 to C19).
    - History: wrap columns (C20, C21), eviction (C22), retention, truncation and readability
      (C23 to C25), reflow and its cache (C26 to C29), queries (C30 to C32), and the whole way
      of a unit from append to query (C33).  Several of these say what the code does where it
      does not do what it means to: columns beyond 256, identities evicted out of order, cuts
      behind the newest segment, units wider than the grid.
    - Local protocol: every message survives the wire and nothing a peer sends breaks or
      confuses the decoder (C34, C35); frames are delivered in order however the stream is
      cut, and where delivery stops (C36); history replies (C37) and block timelines (C38)
      arrive as they were built, with the exact conditions under which they do not.
    - Authority: in every reachable state of the registry control is exclusive (C39).
    - Display: what a client holds after an update is the terminal's screen, and the exact
      conditions under which an update is not shown (C40).  The claim rests on the invariant of
      C9 and C10: cells hold scalars, byte colours and text in UTF-8.

    * Bounds and fuel

    Loops that are not structural take fuel, computed where the loop is entered: twice the
    input plus two for the parser (every byte is put back at most once), the number of columns
    for cycle detection, the number of segments plus three for eviction, the number of records
    plus one for making room in a timeline, the number of rows or columns left plus one for the
    plan of spans.  The totality theorems show that it never runs
    out, so no theorem is about partial runs.  The frame loops of [FrameStream] are different:
    there the count is the 64 frames per readiness of the code itself.

    * Not modelled

    Process, socket and timer I/O of the daemon and client crates, the schema 1 display encoder
    for older clients, the damage rows handed to the renderer, outbound queues, rebuilding the
    grids at a new size (the reflow and the history suffix it calls are modelled), PTY
    handling, the Swift user interface, persistence, and code generated or fetched at build
    time.  The manifest lists every part with the reason.

    * Shared vocabulary of this file

    - machine integers: the Rust unsigned types are [N]; the saturating and
      checked operations are written out with their width;
    - vectors: a Rust slice, array or [Vec] is a [list]; the indexing operations
      below return [None] exactly where the Rust operation panics;
    - the program monad [M E St A]: a computation over a state [St] that returns a
      value, returns a Rust [Err], panics, or runs out of the fuel given to a
      loop; an [Err] keeps the mutations done before it, as [&mut self] does;
    - [wp], the weakest precondition of a computation: it is [False] for a panic
      and for exhausted fuel, so a [wp] theorem is a total-correctness theorem;
    - the tactics and the hint database [vt] the component files use. *)

From stdpp Require Export base numbers list sets gmap.
From Stdlib Require Export Lia ZifyBool ZifyN.
From coqutil Require Export Datatypes.RecordSettersUsingExistingGetters.
Export RecordSetNotations1.
#[global] Arguments const {E} _ _ /.

#[export] Set Default Goal Selector "!".

Open Scope N_scope.

(** * Machine integers *)

Definition u8_max : N := 255.
Definition u16_max : N := 65535.
Definition u32_max : N := 4294967295.
Definition u64_max : N := 18446744073709551615.

(** [a.saturating_add(b)] and [a.saturating_mul(b)] at the width whose largest
    value is [top].  [saturating_sub] is [N.sub], which truncates at zero. *)
Definition sat_add (top a b : N) : N := N.min (a + b) top.
Definition sat_mul (top a b : N) : N := N.min (a * b) top.

(** [a.checked_add(b)]. *)
Definition checked_add (top a b : N) : option N :=
  if a + b <=? top then Some (a + b) else None.

(** [a.checked_mul(b)]. *)
Definition checked_mul (top a b : N) : option N :=
  if a * b <=? top then Some (a * b) else None.

(** [a.checked_sub(b)]; also [a - b], which panics below zero. *)
Definition checked_sub (a b : N) : option N := if b <=? a then Some (a - b) else None.

(** [lo <= b <= hi], the range patterns of the source. *)
Definition inr (lo hi b : N) : bool := (lo <=? b) && (b <=? hi).

Lemma inr_spec lo hi b : inr lo hi b = true ↔ lo ≤ b ∧ b ≤ hi.
Proof. unfold inr. rewrite andb_true_iff, !N.leb_le. done. Qed.

Lemma inr_false lo hi b : inr lo hi b = false ↔ b < lo ∨ hi < b.
Proof. unfold inr. rewrite andb_false_iff, !N.leb_gt. done. Qed.

(** * Vectors *)

Abbreviation vlen l := (N.of_nat (length l)).

Section vectors.
Context {A : Type}.
Implicit Types (l : list A) (i lo hi dst : N) (x : A).

(** [v[i]]. *)
Definition vget l i : option A := l !! N.to_nat i.

(** [v[i] = x]. *)
Definition vset l i x : option (list A) :=
  if i <? vlen l then Some (<[N.to_nat i := x]> l) else None.

(** [&v[lo..hi]]. *)
Definition vslice l lo hi : option (list A) :=
  if (lo <=? hi) && (hi <=? vlen l)
  then Some (take (N.to_nat (hi - lo)) (drop (N.to_nat lo) l)) else None.

(** [v[lo..hi].fill(x)]. *)
Definition vfill l lo hi x : option (list A) :=
  if (lo <=? hi) && (hi <=? vlen l)
  then Some (take (N.to_nat lo) l ++ replicate (N.to_nat (hi - lo)) x
               ++ drop (N.to_nat hi) l)
  else None.

(** [v.copy_within(lo..hi, dst)]. *)
Definition vcopy_within l lo hi dst : option (list A) :=
  if (lo <=? hi) && (hi <=? vlen l) && (dst <=? vlen l - (hi - lo))
  then Some (take (N.to_nat dst) l
               ++ take (N.to_nat (hi - lo)) (drop (N.to_nat lo) l)
               ++ drop (N.to_nat (dst + (hi - lo))) l)
  else None.

(** [v[lo..lo+|src|].copy_from_slice(src)]. *)
Definition vcopy_from l lo (src : list A) : option (list A) :=
  if lo + vlen src <=? vlen l
  then Some (take (N.to_nat lo) l ++ src ++ drop (N.to_nat (lo + vlen src)) l)
  else None.

Lemma vget_Some l i : i < vlen l → ∃ x, vget l i = Some x.
Proof. intros H. apply lookup_lt_is_Some_2. lia. Qed.

Lemma vget_lt l i x : vget l i = Some x → i < vlen l.
Proof. intros H. apply lookup_lt_Some in H. lia. Qed.

Lemma vset_ok l i x : i < vlen l → vset l i x = Some (<[N.to_nat i := x]> l).
Proof. intros H. unfold vset. by apply N.ltb_lt in H as ->. Qed.

Lemma vslice_ok l lo hi :
  lo ≤ hi → hi ≤ vlen l →
  vslice l lo hi = Some (take (N.to_nat (hi - lo)) (drop (N.to_nat lo) l)).
Proof. intros H1 H2. unfold vslice. by apply N.leb_le in H1 as ->, H2 as ->. Qed.

Lemma length_vslice l lo hi r :
  vslice l lo hi = Some r → vlen r = hi - lo.
Proof.
  unfold vslice. destruct (_ <=? _) eqn:?; [|done].
  destruct (hi <=? _) eqn:?; [|done]. intros [= <-].
  rewrite length_take, length_drop. lia.
Qed.

Lemma lookup_vslice l lo hi r (j : nat) :
  vslice l lo hi = Some r → (j < N.to_nat (hi - lo))%nat →
  r !! j = l !! (N.to_nat lo + j)%nat.
Proof.
  unfold vslice. destruct (_ <=? _) eqn:?; [|done].
  destruct (hi <=? _) eqn:?; [|done]. intros [= <-] Hj.
  by rewrite lookup_take_lt, lookup_drop.
Qed.

Lemma vfill_ok l lo hi x :
  lo ≤ hi → hi ≤ vlen l → ∃ l', vfill l lo hi x = Some l'.
Proof.
  intros H1 H2. unfold vfill. apply N.leb_le in H1 as ->, H2 as ->. eauto.
Qed.

Lemma length_vfill l lo hi x l' :
  vfill l lo hi x = Some l' → length l' = length l.
Proof.
  unfold vfill. destruct (lo <=? hi) eqn:?; [|done].
  destruct (hi <=? _) eqn:?; [|done]. intros [= <-].
  rewrite !length_app, length_take, length_replicate, length_drop. lia.
Qed.

Lemma lookup_vfill l lo hi x l' (j : nat) :
  vfill l lo hi x = Some l' →
  l' !! j = if inr lo (hi - 1) (N.of_nat j) && (lo <? hi) then Some x else l !! j.
Proof.
  unfold vfill, inr. destruct (lo <=? hi) eqn:H1; [|done].
  destruct (hi <=? _) eqn:H2; [|done]. intros [= <-].
  destruct (decide (j < N.to_nat lo)%nat).
  { rewrite lookup_app_l by (rewrite length_take; lia).
    rewrite lookup_take_lt by lia.
    destruct (lo <=? N.of_nat j) eqn:?; [lia|done]. }
  rewrite lookup_app_r by (rewrite length_take; lia).
  rewrite length_take. replace (N.to_nat lo `min` length l)%nat with (N.to_nat lo) by lia.
  destruct (decide (j < N.to_nat hi)%nat).
  - rewrite lookup_app_l by (rewrite length_replicate; lia).
    rewrite lookup_replicate_2 by lia.
    destruct (lo <=? N.of_nat j) eqn:?, (N.of_nat j <=? hi - 1) eqn:?, (lo <? hi) eqn:?;
      (done || lia).
  - rewrite lookup_app_r by (rewrite length_replicate; lia).
    rewrite length_replicate, lookup_drop.
    destruct (lo <=? N.of_nat j) eqn:?, (N.of_nat j <=? hi - 1) eqn:?, (lo <? hi) eqn:?;
      try lia; simpl; f_equal; lia.
Qed.

Lemma vcopy_within_ok l lo hi dst :
  lo ≤ hi → hi ≤ vlen l → dst + (hi - lo) ≤ vlen l →
  ∃ l', vcopy_within l lo hi dst = Some l'.
Proof.
  intros H1 H2 H3. assert (dst ≤ vlen l - (hi - lo)) as H3' by lia. unfold vcopy_within.
  apply N.leb_le in H1 as ->, H2 as ->, H3' as ->. eauto.
Qed.

Lemma length_vcopy_within l lo hi dst l' :
  vcopy_within l lo hi dst = Some l' → length l' = length l.
Proof.
  unfold vcopy_within. destruct (lo <=? hi) eqn:?; [|done].
  destruct (hi <=? _) eqn:?; [|done]. destruct (dst <=? _) eqn:?; [|done].
  intros [= <-]. rewrite !length_app, !length_take, !length_drop. lia.
Qed.

Lemma lookup_vcopy_within l lo hi dst l' (j : nat) :
  vcopy_within l lo hi dst = Some l' →
  l' !! j = if (dst <=? N.of_nat j) && (N.of_nat j <? dst + (hi - lo))
            then l !! N.to_nat (lo + (N.of_nat j - dst)) else l !! j.
Proof.
  unfold vcopy_within. destruct (lo <=? hi) eqn:?; [|done].
  destruct (hi <=? _) eqn:?; [|done]. destruct (dst <=? _) eqn:?; [|done].
  intros [= <-].
  destruct (decide (j < N.to_nat dst)%nat).
  { rewrite lookup_app_l by (rewrite length_take; lia).
    rewrite lookup_take_lt by lia.
    destruct (dst <=? N.of_nat j) eqn:?; [lia|done]. }
  rewrite lookup_app_r by (rewrite length_take; lia). rewrite length_take.
  replace (N.to_nat dst `min` length l)%nat with (N.to_nat dst) by lia.
  destruct (decide (j < N.to_nat (dst + (hi - lo)))%nat).
  - rewrite lookup_app_l by (rewrite length_take, length_drop; lia).
    rewrite lookup_take_lt, lookup_drop by lia.
    destruct (dst <=? N.of_nat j) eqn:?, (N.of_nat j <? _) eqn:?; try lia.
    simpl. f_equal. lia.
  - rewrite lookup_app_r by (rewrite length_take, length_drop; lia).
    rewrite length_take, length_drop, lookup_drop.
    destruct (dst <=? N.of_nat j) eqn:?, (N.of_nat j <? _) eqn:?; try lia;
      simpl; f_equal; lia.
Qed.

Lemma length_vset l i x l' : vset l i x = Some l' → length l' = length l.
Proof. unfold vset. case_match; [|done]. intros [= <-]. apply length_insert. Qed.

Lemma lookup_vset l i x l' (j : nat) :
  vset l i x = Some l' → l' !! j = if N.of_nat j =? i then Some x else l !! j.
Proof.
  unfold vset. destruct (i <? _) eqn:?; [|done]. intros [= <-].
  destruct (N.of_nat j =? i) eqn:?.
  - replace (N.to_nat i) with j by lia. apply list_lookup_insert_eq. lia.
  - apply list_lookup_insert_ne. lia.
Qed.

Lemma Forall_vset (P : A → Prop) l i x l' :
  vset l i x = Some l' → Forall P l → P x → Forall P l'.
Proof. unfold vset. case_match; [|done]. intros [= <-] ??. by apply Forall_insert. Qed.

Lemma Forall_vslice (P : A → Prop) l lo hi l' :
  vslice l lo hi = Some l' → Forall P l → Forall P l'.
Proof.
  unfold vslice. case_match; [|done]. intros [= <-] ?.
  by apply Forall_take, Forall_drop.
Qed.

Lemma Forall_vfill (P : A → Prop) l lo hi x l' :
  vfill l lo hi x = Some l' → Forall P l → P x → Forall P l'.
Proof.
  unfold vfill. case_match; [|done]. intros [= <-] ??.
  rewrite !Forall_app. split_and!; [by apply Forall_take| |by apply Forall_drop].
  by apply Forall_replicate.
Qed.

Lemma Forall_vcopy_within (P : A → Prop) l lo hi dst l' :
  vcopy_within l lo hi dst = Some l' → Forall P l → Forall P l'.
Proof.
  unfold vcopy_within. case_match; [|done]. intros [= <-] ?.
  rewrite !Forall_app.
  split_and!; [by apply Forall_take|by apply Forall_take, Forall_drop|by apply Forall_drop].
Qed.

Lemma take_take_app l k (n : nat) : take n (take n l ++ k) = take n (l ++ k).
Proof.
  rewrite !take_app, take_take, length_take, Nat.min_id.
  f_equal. f_equal. lia.
Qed.

Lemma take_S_insert l (n : nat) x :
  (n < length l)%nat → take (n + 1) (<[n := x]> l) = take n l ++ [x].
Proof.
  intros Hn. rewrite insert_take_drop by lia.
  by rewrite take_app_add' by (rewrite length_take; lia).
Qed.

Lemma list_omap_cons {B} (f : A → option B) x l :
  omap f (x :: l) = match f x with Some y => y :: omap f l | None => omap f l end.
Proof. done. Qed.
End vectors.

(** Rust's [Result], for functions without state. *)
Inductive result (E A : Type) : Type := Ok (a : A) | Err (e : E).
Arguments Ok {E A} a.
Arguments Err {E A} e.

(** * The program monad *)

(** What a call does: it returns, it returns [Err] with the state as mutated so
    far, it panics, or a loop used up the fuel of its model. *)
Inductive outcome (E St A : Type) : Type :=
| Ret (a : A) (s : St)
| Fail (e : E) (s : St)
| Panic
| NoFuel.
Arguments Ret {E St A} a s.
Arguments Fail {E St A} e s.
Arguments Panic {E St A}.
Arguments NoFuel {E St A}.

Definition M (E St A : Type) : Type := St → outcome E St A.

Section monad.
Context {E St : Type}.

Definition ret {A} (a : A) : M E St A := λ s, Ret a s.
Definition fail {A} (e : E) : M E St A := λ s, Fail e s.
Definition panic {A} : M E St A := λ _, Panic.
Definition nofuel {A} : M E St A := λ _, NoFuel.

Definition bind {A B} (m : M E St A) (k : A → M E St B) : M E St B := λ s,
  match m s with
  | Ret a s' => k a s'
  | Fail e s' => Fail e s'
  | Panic => Panic
  | NoFuel => NoFuel
  end.

Definition gets {A} (f : St → A) : M E St A := λ s, Ret (f s) s.
Definition modify (f : St → St) : M E St unit := λ s, Ret tt (f s).

(** A Rust operation that panics where its model is [None]. *)
Definition or_panic {A} (o : option A) : M E St A := λ s,
  match o with Some a => Ret a s | None => Panic end.

(** [for i in lo..lo+n]. *)
Fixpoint for_from (lo : N) (n : nat) (body : N → M E St unit) : M E St unit :=
  match n with
  | O => ret tt
  | S n => bind (body lo) (λ _, for_from (lo + 1) n body)
  end.

(** [for x in xs]. *)
Fixpoint for_each {X} (xs : list X) (body : X → M E St unit) : M E St unit :=
  match xs with
  | [] => ret tt
  | x :: xs => bind (body x) (λ _, for_each xs body)
  end.

Lemma bind_Ret {A B} (m : M E St A) (k : A → M E St B) s a s' :
  m s = Ret a s' → bind m k s = k a s'.
Proof. unfold bind. by intros ->. Qed.

Lemma for_each_app {X} (xs ys : list X) body s :
  for_each (xs ++ ys) body s = bind (for_each xs body) (λ _, for_each ys body) s.
Proof.
  revert s. induction xs as [|x xs IH]; intros s; [done|].
  simpl. unfold bind in *. by destruct (body x s).
Qed.
End monad.

(** Run a computation on a part of the state. *)
Definition zoom {E St T A} (get : St → T) (put : T → St → St) (m : M E T A) : M E St A := λ s,
  match m (get s) with
  | Ret a t => Ret a (put t s)
  | Fail e t => Fail e (put t s)
  | Panic => Panic
  | NoFuel => NoFuel
  end.

(** The value and the state of a computation that is known to return. *)
Definition returns {E St A} (o : outcome E St A) : Prop :=
  match o with Ret _ _ => True | _ => False end.
Definition returned_value {E St A} (o : outcome E St A) : returns o → A :=
  match o with Ret a _ => λ _, a | _ => λ H, match H with end end.
Definition returned_state {E St A} (o : outcome E St A) : returns o → St :=
  match o with Ret _ s => λ _, s | _ => λ H, match H with end end.

Declare Scope prog_scope.
Delimit Scope prog_scope with prog.
Notation "'let!' x := m 'in' k" := (bind m (λ x, k))
  (at level 10, x pattern at level 0, m at level 100, k at level 200,
   format "'[v' 'let!'  x  :=  m  'in' '//' k ']'") : prog_scope.
Notation "m ;;; k" := (bind m (λ _, k))
  (at level 199, right associativity, format "'[v' m ;;; '//' k ']'") : prog_scope.
Open Scope prog_scope.

(** * Weakest preconditions *)

Section wp.
Context {E St : Type}.

Definition wp {A} (m : M E St A) (Q : A → St → Prop) (F : E → St → Prop) (s : St) : Prop :=
  match m s with
  | Ret a s' => Q a s'
  | Fail e s' => F e s'
  | Panic | NoFuel => False
  end.

Lemma wp_ret {A} (a : A) Q F s : Q a s → wp (ret a) Q F s.
Proof. done. Qed.

Lemma wp_fail {A} (e : E) Q F s : F e s → wp (@fail E St A e) Q F s.
Proof. done. Qed.

Lemma wp_bind {A B} (m : M E St A) (k : A → M E St B) Q F s :
  wp m (λ a s', wp (k a) Q F s') F s → wp (bind m k) Q F s.
Proof. unfold wp, bind. by destruct (m s). Qed.

Lemma wp_bind_inv {A B} (m : M E St A) (k : A → M E St B) Q F s :
  wp (bind m k) Q F s → wp m (λ a s', wp (k a) Q F s') F s.
Proof. unfold wp, bind. by destruct (m s). Qed.

Lemma wp_gets {A} (f : St → A) Q F s : Q (f s) s → wp (gets f) Q F s.
Proof. done. Qed.

Lemma wp_modify (f : St → St) Q F s : Q tt (f s) → wp (modify f) Q F s.
Proof. done. Qed.

Lemma wp_or_panic {A} (o : option A) a Q F s :
  o = Some a → Q a s → wp (or_panic o) Q F s.
Proof. by intros ->. Qed.

Lemma wp_mono {A} (m : M E St A) (Q Q' : A → St → Prop) (F F' : E → St → Prop) s :
  wp m Q F s → (∀ a s', Q a s' → Q' a s') → (∀ e s', F e s' → F' e s') →
  wp m Q' F' s.
Proof. unfold wp. destruct (m s); naive_solver. Qed.

(** [for i in lo..lo+n] keeps an invariant indexed by the next index. *)
Lemma wp_for_from (I : N → St → Prop) F lo n body s :
  I lo s →
  (∀ i s, lo ≤ i → i < lo + N.of_nat n → I i s →
    wp (body i) (λ _, I (i + 1)) F s) →
  wp (for_from lo n body) (λ _, I (lo + N.of_nat n)) F s.
Proof.
  revert lo s. induction n as [|n IH]; intros lo s HI Hb; cbn [for_from].
  - apply wp_ret. by rewrite N.add_0_r.
  - apply wp_bind. eapply wp_mono; [apply Hb; [lia..|done]| |done].
    intros [] s' HI'. replace (lo + N.of_nat (S n)) with ((lo + 1) + N.of_nat n) by lia.
    apply IH; [done|]. intros i s'' ???. apply Hb; (lia || done).
Qed.

(** [for x in xs] keeps an invariant over the elements still to visit. *)
Lemma wp_for_each {X} (I : list X → St → Prop) F xs body s :
  I xs s →
  (∀ x xs s, I (x :: xs) s → wp (body x) (λ _, I xs) F s) →
  wp (for_each xs body) (λ _, I []) F s.
Proof.
  revert s. induction xs as [|x xs IH]; intros s HI Hb; cbn [for_each].
  - by apply wp_ret.
  - apply wp_bind. eapply wp_mono; [by apply Hb| |done]. intros [] s' ?. by apply IH.
Qed.

(** Checked arithmetic returns inside its range. *)
Lemma wp_checked_sub a b Q F s :
  b ≤ a → Q (a - b) s → wp (or_panic (checked_sub a b)) Q F s.
Proof. intros Hle HQ. unfold checked_sub. by apply N.leb_le in Hle as ->. Qed.

Lemma wp_checked_add top a b Q F s :
  a + b ≤ top → Q (a + b) s → wp (or_panic (checked_add top a b)) Q F s.
Proof. intros Hle HQ. unfold checked_add. by apply N.leb_le in Hle as ->. Qed.

(** The vector operations return inside their bounds. *)
Lemma wp_vget {A} (l : list A) i Q F s :
  i < vlen l → (∀ x, vget l i = Some x → Q x s) → wp (or_panic (vget l i)) Q F s.
Proof. intros [x Hx]%vget_Some HQ. by eapply wp_or_panic, HQ. Qed.

Lemma wp_vset {A} (l : list A) i x Q F s :
  i < vlen l → (∀ l', vset l i x = Some l' → Q l' s) → wp (or_panic (vset l i x)) Q F s.
Proof. intros Hi HQ. pose proof (vset_ok l i x Hi). by eapply wp_or_panic, HQ. Qed.

Lemma wp_vslice {A} (l : list A) lo hi Q F s :
  lo ≤ hi → hi ≤ vlen l → (∀ r, vslice l lo hi = Some r → Q r s) →
  wp (or_panic (vslice l lo hi)) Q F s.
Proof. intros ?? HQ. eapply wp_or_panic; [by apply vslice_ok|]. by apply HQ, vslice_ok. Qed.

Lemma wp_vfill {A} (l : list A) lo hi x Q F s :
  lo ≤ hi → hi ≤ vlen l → (∀ r, vfill l lo hi x = Some r → Q r s) →
  wp (or_panic (vfill l lo hi x)) Q F s.
Proof. intros ?? HQ. destruct (vfill_ok l lo hi x) as [r Hr]; [done..|]. by eapply wp_or_panic, HQ. Qed.

Lemma wp_vcopy_within {A} (l : list A) lo hi dst Q F s :
  lo ≤ hi → hi ≤ vlen l → dst + (hi - lo) ≤ vlen l →
  (∀ r, vcopy_within l lo hi dst = Some r → Q r s) →
  wp (or_panic (vcopy_within l lo hi dst)) Q F s.
Proof.
  intros ??? HQ. destruct (vcopy_within_ok l lo hi dst) as [r Hr]; [done..|].
  by eapply wp_or_panic, HQ.
Qed.
End wp.

Lemma wp_zoom {E St T A} (get : St → T) (put : T → St → St) (m : M E T A) Q F s :
  wp m (λ a t, Q a (put t s)) (λ e t, F e (put t s)) (get s) →
  wp (zoom get put m) Q F s.
Proof. unfold wp, zoom. by destruct (m (get s)). Qed.

(** * Preserved properties *)

(** [m] keeps [I] whenever it returns, with a value or an error.  This is partial
    correctness: it is used for what an operation leaves alone. *)
Definition keeps {E St A} (I : St → Prop) (m : M E St A) : Prop := ∀ s, I s →
  match m s with Ret _ s' | Fail _ s' => I s' | Panic | NoFuel => True end.

Section keeps.
Context {E St : Type} (I : St → Prop).

Lemma keeps_ret {A} (a : A) : keeps (E := E) I (ret a).
Proof. by intros s. Qed.

Lemma keeps_fail {A} (e : E) : keeps (A := A) I (fail e).
Proof. by intros s. Qed.

Lemma keeps_nofuel {A} : keeps (E := E) (A := A) I nofuel.
Proof. by intros s. Qed.

Lemma keeps_gets {A} (f : St → A) : keeps (E := E) I (gets f).
Proof. by intros s. Qed.

Lemma keeps_modify f : (∀ s, I s → I (f s)) → keeps (E := E) I (modify f).
Proof. intros Hf s Hs. by apply Hf. Qed.

Lemma keeps_or_panic {A} (o : option A) : keeps (E := E) I (or_panic o).
Proof. intros s Hs. by destruct o. Qed.

Lemma keeps_bind {A B} (m : M E St A) (k : A → M E St B) :
  keeps I m → (∀ a, keeps I (k a)) → keeps I (bind m k).
Proof.
  intros Hm Hk s Hs. specialize (Hm s Hs). unfold bind. destruct (m s); try done. by apply Hk.
Qed.

Lemma keeps_for_each {X} (xs : list X) (body : X → M E St unit) :
  (∀ x, keeps I (body x)) → keeps I (for_each xs body).
Proof. intros Hb. induction xs; [apply keeps_ret|]. by apply keeps_bind. Qed.

Lemma keeps_for_from lo n (body : N → M E St unit) :
  (∀ i, lo ≤ i → i < lo + N.of_nat n → keeps I (body i)) → keeps I (for_from lo n body).
Proof.
  revert lo. induction n as [|n IH]; intros lo Hb; [apply keeps_ret|].
  apply keeps_bind; [apply Hb; lia|]. intros _. apply IH. intros i ??. apply Hb; lia.
Qed.

Lemma keeps_zoom {T A} (get : St → T) (put : T → St → St) (m : M E T A) :
  (∀ s x, I s → I (put x s)) → keeps I (zoom get put m).
Proof. intros Hp s Hs. unfold zoom. destruct (m (get s)); try done; by apply Hp. Qed.

Lemma keeps_wp {A} (m : M E St A) (Q : A → St → Prop) (F : E → St → Prop) s :
  keeps I m → I s → wp m Q F s → wp m (λ a s', Q a s' ∧ I s') (λ e s', F e s' ∧ I s') s.
Proof. intros Hm Hs. specialize (Hm s Hs). unfold wp. by destruct (m s). Qed.
End keeps.

(** * Automation *)

Create HintDb vt.
#[export] Hint Resolve wp_ret wp_gets wp_modify : vt.
#[export] Hint Resolve length_vfill length_vcopy_within : vt.

(** One step of the weakest-precondition calculus on the head of the goal. *)
Ltac wp_step :=
  lazymatch goal with
  | |- wp (bind _ _) _ _ _ => apply wp_bind
  | |- wp (ret _) _ _ _ => apply wp_ret
  | |- wp (gets _) _ _ _ => apply wp_gets
  | |- wp (modify _) _ _ _ => apply wp_modify
  | |- wp (fail _) _ _ _ => apply wp_fail
  | |- wp (if ?b then _ else _) _ _ _ => destruct b eqn:?
  | |- wp (match ?o with _ => _ end) _ _ _ => destruct o eqn:?
  end.
Ltac wp_run := repeat (cbv beta match; wp_step; cbv beta in *; simpl in * ).

(** Turn the boolean tests of the code into propositions. *)
Ltac to_prop :=
  repeat match goal with
  | H : (_ && _) = true |- _ => apply andb_true_iff in H as [? ?]
  | H : (_ || _) = false |- _ => apply orb_false_iff in H as [? ?]
  | H : (_ || _) = true |- _ => apply orb_true_iff in H
  | H : (_ && _) = false |- _ => apply andb_false_iff in H
  | H : negb _ = true |- _ => apply negb_true_iff in H
  | H : negb _ = false |- _ => apply negb_false_iff in H
  | H : (_ <? _) = true |- _ => apply N.ltb_lt in H
  | H : (_ <? _) = false |- _ => apply N.ltb_ge in H
  | H : (_ <=? _) = true |- _ => apply N.leb_le in H
  | H : (_ <=? _) = false |- _ => apply N.leb_gt in H
  | H : (_ =? _) = true |- _ => apply N.eqb_eq in H
  | H : (_ =? _) = false |- _ => apply N.eqb_neq in H
  | H : inr _ _ _ = true |- _ => apply inr_spec in H as [? ?]
  | H : inr _ _ _ = false |- _ => apply inr_false in H
  end.

(** Add the length equation of every vector update in the context. *)
Ltac vlens :=
  repeat match goal with
  | H : vset ?l _ _ = Some ?r |- _ =>
    lazymatch goal with _ : length r = length l |- _ => fail | _ => pose proof (length_vset _ _ _ _ H) end
  | H : vfill ?l _ _ _ = Some ?r |- _ =>
    lazymatch goal with _ : length r = length l |- _ => fail | _ => pose proof (length_vfill _ _ _ _ _ H) end
  | H : vcopy_within ?l _ _ _ = Some ?r |- _ =>
    lazymatch goal with _ : length r = length l |- _ => fail | _ => pose proof (length_vcopy_within _ _ _ _ _ H) end
  | H : vslice ?l ?lo ?hi = Some ?r |- _ =>
    lazymatch goal with _ : vlen r = hi - lo |- _ => fail | _ => pose proof (length_vslice _ _ _ _ H) end
  end.
