(* ===== verification/Utf8.v ===== *)
(** UTF-8, as the Rust standard library defines it: a [char] is a Unicode scalar
    value, [char::encode_utf8] writes its shortest encoding and
    [str::from_utf8] accepts exactly the well-formed byte sequences.  Bytes and
    scalar values are [N]; a [String] is the list of its scalar values. *)

From stdpp Require Import base numbers list.
From Stdlib Require Import Lia.
From S2P Require Import Prelude.

Open Scope N_scope.

(** A Rust [char]: every code point but the surrogates. *)
Definition is_scalar (c : N) : bool := (c <? 55296) || inr 57344 1114111 c.

(** [char::encode_utf8]. *)
Definition encode_utf8 (c : N) : list N :=
  if c <? 128 then [c]
  else if c <? 2048 then [192 + c / 64; 128 + c mod 64]
  else if c <? 65536 then
    [224 + c / 4096; 128 + (c / 64) mod 64; 128 + c mod 64]
  else
    [240 + c / 262144; 128 + (c / 4096) mod 64; 128 + (c / 64) mod 64; 128 + c mod 64].

(** [char::len_utf8]. *)
Definition len_utf8 (c : N) : N := vlen (encode_utf8 c).

(** The bytes of a [String]. *)
Definition utf8_bytes (text : list N) : list N := text ≫= encode_utf8.

Definition is_cont (b : N) : bool := inr 128 191 b.

(** The first scalar of a byte string that starts with a well-formed sequence,
    with the bytes after it. *)
Definition decode_one (l : list N) : option (N * list N) :=
  match l with
  | [] => None
  | b0 :: l1 =>
    if b0 <? 128 then Some (b0, l1) else
    match l1 with
    | [] => None
    | b1 :: l2 =>
      if inr 194 223 b0 then
        if is_cont b1 then Some ((b0 - 192) * 64 + (b1 - 128), l2) else None
      else
      match l2 with
      | [] => None
      | b2 :: l3 =>
        if inr 224 239 b0 then
          let second_ok :=
            if b0 =? 224 then inr 160 191 b1
            else if b0 =? 237 then inr 128 159 b1
            else is_cont b1 in
          if second_ok && is_cont b2
          then Some ((b0 - 224) * 4096 + (b1 - 128) * 64 + (b2 - 128), l3) else None
        else
        match l3 with
        | [] => None
        | b3 :: l4 =>
          if inr 240 244 b0 then
            let second_ok :=
              if b0 =? 240 then inr 144 191 b1
              else if b0 =? 244 then inr 128 143 b1
              else is_cont b1 in
            if second_ok && is_cont b2 && is_cont b3
            then Some ((b0 - 240) * 262144 + (b1 - 128) * 4096
                         + (b2 - 128) * 64 + (b3 - 128), l4)
            else None
          else None
        end
      end
    end
  end.

(** [str::from_utf8(l).ok()], as the list of scalars; [fuel] bounds the number
    of scalars and [length l] is enough. *)
Fixpoint decode_utf8 (fuel : nat) (l : list N) : option (list N) :=
  match l, fuel with
  | [], _ => Some []
  | _, O => None
  | _, S fuel =>
    match decode_one l with
    | Some (c, rest) => cons c <$> decode_utf8 fuel rest
    | None => None
    end
  end.

Definition from_utf8 (l : list N) : option (list N) := decode_utf8 (length l) l.

(** [std::str::from_utf8(l).ok().and_then(|text| text.chars().next())]. *)
Definition first_scalar (l : list N) : option N :=
  match from_utf8 l with Some (c :: _) => Some c | _ => None end.

(** How many bytes of an ill-formed start [String::from_utf8_lossy] replaces by one
    U+FFFD: the longest prefix of a well-formed sequence, at least one byte. *)
Definition invalid_len (l : list N) : nat :=
  match l with
  | b0 :: b1 :: l2 =>
    if inr 224 239 b0 then
      let second_ok :=
        if b0 =? 224 then inr 160 191 b1
        else if b0 =? 237 then inr 128 159 b1
        else is_cont b1 in
      if second_ok then 2%nat else 1%nat
    else if inr 240 244 b0 then
      let second_ok :=
        if b0 =? 240 then inr 144 191 b1
        else if b0 =? 244 then inr 128 143 b1
        else is_cont b1 in
      if second_ok then
        match l2 with
        | b2 :: _ => if is_cont b2 then 3%nat else 2%nat
        | [] => 2%nat
        end
      else 1%nat
    else 1%nat
  | _ => 1%nat
  end.

(** [String::from_utf8_lossy(l)], as bytes; every step consumes a byte. *)
Fixpoint lossy_loop (fuel : nat) (l : list N) : list N :=
  match l, fuel with
  | [], _ | _, O => []
  | _, S fuel =>
    match decode_one l with
    | Some (c, rest) => encode_utf8 c ++ lossy_loop fuel rest
    | None => [239; 191; 189] ++ lossy_loop fuel (drop (invalid_len l) l)
    end
  end.

Definition utf8_lossy (l : list N) : list N := lossy_loop (length l) l.

(** ** The encoding round-trips *)

Local Ltac Zify.zify_post_hook ::= Z.div_mod_to_equations.

Lemma decode_one_encode c rest :
  is_scalar c = true → decode_one (encode_utf8 c ++ rest) = Some (c, rest).
Proof.
  unfold is_scalar, encode_utf8, is_cont, inr. intros Hc.
  destruct (c <? 128) eqn:?; [cbn; by rewrite Heqb|].
  destruct (c <? 2048) eqn:?; [|destruct (c <? 65536) eqn:?]; cbn -[N.mul N.add N.sub N.div N.modulo N.leb N.ltb N.eqb];
    unfold inr, is_cont, inr;
    repeat (case_match; try lia; try (f_equal; f_equal; lia)).
Qed.

Lemma encode_utf8_length c :
  is_scalar c = true → (1 ≤ length (encode_utf8 c) ≤ 4)%nat.
Proof. intros _. unfold encode_utf8. repeat case_match; simpl; lia. Qed.

Lemma decode_utf8_bytes fuel text :
  Forall (λ c, is_scalar c = true) text →
  (length text ≤ fuel)%nat → decode_utf8 fuel (utf8_bytes text) = Some text.
Proof.
  revert fuel. induction text as [|c text IH]; intros fuel Ht Hf.
  { by destruct fuel. }
  inversion Ht; subst. destruct fuel as [|fuel]; [simpl in Hf; lia|].
  change (utf8_bytes (c :: text)) with (encode_utf8 c ++ utf8_bytes text).
  assert (1 ≤ length (encode_utf8 c))%nat by (by apply encode_utf8_length).
  cbn [decode_utf8]. rewrite decode_one_encode by done.
  destruct (encode_utf8 c) eqn:?; simpl in *; [lia|].
  rewrite IH; [done..|lia].
Qed.

Lemma utf8_bytes_length text :
  Forall (λ c, is_scalar c = true) text → (length text ≤ length (utf8_bytes text))%nat.
Proof.
  induction 1 as [|c text Hc Ht IH]; [done|].
  change (utf8_bytes (c :: text)) with (encode_utf8 c ++ utf8_bytes text).
  rewrite length_app. pose proof (encode_utf8_length c Hc). simpl. lia.
Qed.

Lemma from_utf8_bytes text :
  Forall (λ c, is_scalar c = true) text → from_utf8 (utf8_bytes text) = Some text.
Proof.
  intros Ht. apply decode_utf8_bytes; [done|]. by apply utf8_bytes_length.
Qed.

Lemma first_scalar_encode c : is_scalar c = true → first_scalar (encode_utf8 c) = Some c.
Proof.
  intros Hc. unfold first_scalar.
  rewrite <-(app_nil_r (encode_utf8 c)). change (encode_utf8 c ++ []) with (utf8_bytes [c]).
  by rewrite from_utf8_bytes by (repeat constructor; done).
Qed.

(** ** Only scalar values are decoded *)

Lemma decode_one_scalar l c rest : decode_one l = Some (c, rest) → is_scalar c = true.
Proof.
  unfold decode_one, is_cont, is_scalar, inr. intros Hd.
  repeat (case_match; try done); simplify_eq; lia.
Qed.

Lemma first_scalar_scalar l c : first_scalar l = Some c → is_scalar c = true.
Proof.
  unfold first_scalar, from_utf8. destruct l as [|b l]; [done|].
  change (length (b :: l)) with (S (length l)). cbn [decode_utf8].
  destruct (decode_one (b :: l)) as [[c' rest]|] eqn:Hd; [|done].
  destruct (decode_utf8 _ rest); [|done]. intros [= ->].
  by eapply decode_one_scalar.
Qed.

(** ** The shape of an encoding *)

Lemma encode_utf8_ascii c : c < 128 → encode_utf8 c = [c].
Proof. intros Hc. unfold encode_utf8. by replace (c <? 128) with true by lia. Qed.

Lemma encode_utf8_multi c :
  is_scalar c = true → 128 ≤ c →
  ∃ lead rest, encode_utf8 c = lead :: rest ∧ Forall (λ b, is_cont b = true) rest ∧
    ((inr 194 223 lead = true ∧ length rest = 1%nat) ∨
     (inr 224 239 lead = true ∧ length rest = 2%nat) ∨
     (inr 240 244 lead = true ∧ length rest = 3%nat)).
Proof.
  unfold is_scalar, encode_utf8, is_cont, inr. intros Hc Hc'.
  replace (c <? 128) with false by lia.
  destruct (c <? 2048) eqn:?; [|destruct (c <? 65536) eqn:?];
    (do 2 eexists; split_and!; [done|repeat constructor; lia|]).
  - left. split; [lia|done].
  - right; left. split; [lia|done].
  - right; right. split; [lia|done].
Qed.

(** ** Lossy decoding changes nothing in well-formed text *)

Lemma utf8_lossy_bytes text :
  Forall (λ c, is_scalar c = true) text → utf8_lossy (utf8_bytes text) = utf8_bytes text.
Proof.
  intros Ht. unfold utf8_lossy.
  assert (∀ fuel, (length (utf8_bytes text) ≤ fuel)%nat →
    lossy_loop fuel (utf8_bytes text) = utf8_bytes text) as Hg; [|by apply Hg].
  induction Ht as [|c text Hc Ht IH]; intros fuel Hf; [by destruct fuel|].
  change (utf8_bytes (c :: text)) with (encode_utf8 c ++ utf8_bytes text) in *.
  pose proof (encode_utf8_length c Hc) as [Hl _]. rewrite length_app in Hf.
  destruct fuel as [|fuel]; [lia|].
  destruct (encode_utf8 c ++ utf8_bytes text) as [|b l] eqn:Heq.
  { apply app_eq_nil in Heq as [Heq _]. rewrite Heq in Hl. simpl in Hl. lia. }
  cbn [lossy_loop]. rewrite <- Heq, decode_one_encode by done. f_equal. apply IH. lia.
Qed.
