(* ===== verification/Parser.v ===== *)
(** The VT byte parser, [crates/seyal-terminal/src/parser.rs].

    The parser is a byte-at-a-time state machine over fixed arrays, generic in
    the [Actions] trait it calls.  The trait is the class [Actions]; the log of
    calls ([event]) is one of its instances, and the theorems reduce every other
    instance to the replay of that log. *)

From stdpp Require Import base numbers list.
From S2P Require Import Prelude Utf8.

Open Scope N_scope.

Definition MAX_PARAMS : N := 32.
Definition MAX_UTF8 : N := 4.
Definition MAX_OSC_BYTES : N := 4096.

(** * The [Actions] trait *)

Class Actions (A : Type) := {
  act_print : N → M Empty_set A unit;
  act_execute : N → M Empty_set A unit;
  act_csi : list N → option N → bool → N → M Empty_set A unit;
  act_esc : N → bool → M Empty_set A unit;
  act_osc : list N → bool → M Empty_set A unit;
  act_deferred_string : M Empty_set A unit;
  act_malformed : M Empty_set A unit;
}.

(** * Data *)

Inductive PState :=
| Ground | Escape | EscapeIntermediate | Csi | Osc | OscEscape
| IgnoredString | IgnoredStringEscape.

#[export] Instance PState_eq_dec : EqDecision PState.
Proof. solve_decision. Defined.

Record Parser := mkParser {
  state : PState;
  params : list N;
  param_len : N;
  param_acc : N;
  has_param_acc : bool;
  private : option N;
  ignored : bool;
  utf8 : list N;
  utf8_len : N;
  utf8_needed : N;
  putback : option N;
  osc_buf : list N;
  osc_len : N;
  osc_truncated : bool;
}.

Definition new_parser : Parser := {|
  state := Ground;
  params := replicate (N.to_nat MAX_PARAMS) 0;
  param_len := 0;
  param_acc := 0;
  has_param_acc := false;
  private := None;
  ignored := false;
  utf8 := replicate (N.to_nat MAX_UTF8) 0;
  utf8_len := 0;
  utf8_needed := 0;
  putback := None;
  osc_buf := replicate (N.to_nat MAX_OSC_BYTES) 0;
  osc_len := 0;
  osc_truncated := false;
|}.

(** * Operations *)

Section parser.
Context {A : Type} `{Actions A}.

(** [&mut self] and [actions: &mut impl Actions] together. *)
Abbreviation P := (M Empty_set (Parser * A)).

Definition getp {X} (f : Parser → X) : P X := gets (λ s, f s.1).
Definition modp (f : Parser → Parser) : P unit := modify (λ s, (f s.1, s.2)).
Definition call {X} (m : M Empty_set A X) : P X := zoom snd (λ a s, (s.1, a)) m.
Definition set_state (st : PState) : P unit := modp (λ p, p <| state := st |>).

Definition reset_sequence : P unit :=
  modp (λ p, p <| params := replicate (N.to_nat MAX_PARAMS) 0 |>
               <| param_len := 0 |> <| param_acc := 0 |> <| has_param_acc := false |>
               <| private := None |> <| ignored := false |>).

Definition reset_osc : P unit :=
  modp (λ p, p <| osc_len := 0 |> <| osc_truncated := false |>).

Definition push_osc (byte : N) : P unit :=
  let! len := getp osc_len in
  if len <? MAX_OSC_BYTES then
    let! buf := getp osc_buf in
    let! buf := or_panic (vset buf len byte) in
    modp (λ p, p <| osc_buf := buf |> <| osc_len := len + 1 |>)
  else modp (λ p, p <| osc_truncated := true |>).

Definition start_utf8 (lead needed : N) : P unit :=
  let! buf := or_panic (vset (replicate (N.to_nat MAX_UTF8) 0) 0 lead) in
  modp (λ p, p <| utf8 := buf |> <| utf8_len := 1 |> <| utf8_needed := needed |>).

Definition replacement : P unit :=
  call act_malformed ;;; call (act_print 65533).

Definition finish_utf8 : P unit :=
  let! needed := getp utf8_needed in
  let! buf := getp utf8 in
  let! bytes := or_panic (vslice buf 0 needed) in
  modp (λ p, p <| utf8_len := 0 |> <| utf8_needed := 0 |>) ;;;
  match first_scalar bytes with
  | Some character => call (act_print character)
  | None => replacement
  end.

Definition abort_utf8 : P unit :=
  modp (λ p, p <| utf8_len := 0 |> <| utf8_needed := 0 |>) ;;; replacement.

Definition push_digit (digit : N) : P unit :=
  let! acc := getp param_acc in
  let acc := sat_add u32_max (sat_mul u32_max acc 10) digit in
  modp (λ p, p <| has_param_acc := true |> <| param_acc := acc |>) ;;;
  if u16_max <? acc then modp (λ p, p <| ignored := true |>) else ret tt.

Definition finish_param : P unit :=
  let! len := getp param_len in
  if len =? MAX_PARAMS then
    modp (λ p, p <| ignored := true |> <| param_acc := 0 |> <| has_param_acc := false |>)
  else
    let! ps := getp params in
    let! acc := getp param_acc in
    let! ps := or_panic (vset ps len (N.min acc u16_max)) in
    modp (λ p, p <| params := ps |> <| param_len := len + 1 |>
                 <| param_acc := 0 |> <| has_param_acc := false |>).

(** [0x00..=0x17 | 0x19 | 0x1c..=0x1f], the C0 controls that are executed
    without leaving the current state. *)
Definition is_c0 (byte : N) : bool :=
  inr 0 23 byte || (byte =? 25) || inr 28 31 byte.
(** [0x18 | 0x1a]: CAN and SUB. *)
Definition is_cancel (byte : N) : bool := (byte =? 24) || (byte =? 26).

Definition ground (byte : N) : P unit :=
  let! needed := getp utf8_needed in
  if negb (needed =? 0) then
    if inr 128 191 byte then
      let! buf := getp utf8 in
      let! len := getp utf8_len in
      let! buf := or_panic (vset buf len byte) in
      modp (λ p, p <| utf8 := buf |> <| utf8_len := len + 1 |>) ;;;
      if len + 1 =? needed then finish_utf8 else ret tt
    else
      abort_utf8 ;;; modp (λ p, p <| putback := Some byte |>)
  else if is_c0 byte then call (act_execute byte)
  else if is_cancel byte then call (act_execute byte)
  else if byte =? 27 then reset_sequence ;;; set_state Escape
  else if inr 32 126 byte then call (act_print byte)
  else if byte =? 127 then ret tt
  else if inr 194 223 byte then start_utf8 byte 2
  else if inr 224 239 byte then start_utf8 byte 3
  else if inr 240 244 byte then start_utf8 byte 4
  else replacement.

Definition escape (byte : N) : P unit :=
  if is_c0 byte then call (act_execute byte)
  else if is_cancel byte then set_state Ground ;;; call (act_execute byte)
  else if byte =? 27 then reset_sequence
  else if byte =? 91 then reset_sequence ;;; set_state Csi
  else if byte =? 93 then reset_sequence ;;; reset_osc ;;; set_state Osc
  else if (byte =? 80) || (byte =? 88) || (byte =? 94) || (byte =? 95) then
    reset_sequence ;;; set_state IgnoredString
  else if inr 32 47 byte then set_state EscapeIntermediate
  else if inr 48 126 byte then
    call (act_esc byte false) ;;; set_state Ground ;;; reset_sequence
  else call act_malformed ;;; set_state Ground ;;; reset_sequence.

Definition escape_intermediate (byte : N) : P unit :=
  if is_c0 byte then call (act_execute byte)
  else if is_cancel byte then set_state Ground ;;; call (act_execute byte)
  else if byte =? 27 then reset_sequence ;;; set_state Escape
  else if inr 32 47 byte then ret tt
  else if inr 48 126 byte then
    call (act_esc byte true) ;;; set_state Ground ;;; reset_sequence
  else call act_malformed ;;; set_state Ground ;;; reset_sequence.

(** The guard of the private-marker arm of [csi_byte]. *)
Definition at_sequence_start (p : Parser) : bool :=
  (param_len p =? 0) && negb (has_param_acc p) && bool_decide (private p = None).

(** [actions.csi(&self.params[..self.param_len], ..)] and the return to the
    ground state. *)
Definition dispatch_csi_sequence (byte : N) : P unit :=
  let! ps := getp params in
  let! len := getp param_len in
  let! ps := or_panic (vslice ps 0 len) in
  let! priv := getp private in
  let! ign := getp ignored in
  call (act_csi ps priv ign byte) ;;;
  set_state Ground ;;; reset_sequence.

Definition csi_byte (byte : N) : P unit :=
  if is_c0 byte then call (act_execute byte)
  else if is_cancel byte then
    set_state Ground ;;; call (act_execute byte) ;;; reset_sequence
  else if byte =? 27 then reset_sequence ;;; set_state Escape
  else if inr 48 57 byte then push_digit (byte - 48)
  else if byte =? 59 then finish_param
  else if byte =? 58 then modp (λ p, p <| ignored := true |>)
  else
    let! start := getp at_sequence_start in
    if inr 60 63 byte && start then modp (λ p, p <| private := Some byte |>)
    else if inr 32 47 byte || inr 60 63 byte then modp (λ p, p <| ignored := true |>)
    else if inr 64 126 byte then
      let! has := getp has_param_acc in
      let! len := getp param_len in
      (if has || negb (len =? 0) then finish_param else ret tt) ;;;
      dispatch_csi_sequence byte
    else if byte =? 127 then ret tt
    else modp (λ p, p <| ignored := true |>).

(** [actions.osc(&self.osc[..self.osc_len], self.osc_truncated)] and the
    return to the ground state, the common tail of both terminators. *)
Definition dispatch_osc_string : P unit :=
  let! buf := getp osc_buf in
  let! len := getp osc_len in
  let! bytes := or_panic (vslice buf 0 len) in
  let! truncated := getp osc_truncated in
  call (act_osc bytes truncated) ;;; set_state Ground ;;; reset_osc.

Definition osc (byte : N) : P unit :=
  if byte =? 7 then dispatch_osc_string
  else if is_cancel byte then set_state Ground ;;; call (act_execute byte)
  else if byte =? 27 then set_state OscEscape
  else push_osc byte.

Definition osc_escape (byte : N) : P unit :=
  if byte =? 92 then dispatch_osc_string
  else
    set_state Escape ;;; reset_sequence ;;;
    modp (λ p, p <| putback := Some byte |>).

Definition ignored_string (byte : N) : P unit :=
  if is_cancel byte then set_state Ground ;;; call (act_execute byte)
  else if byte =? 27 then set_state IgnoredStringEscape
  else ret tt.

Definition ignored_string_escape (byte : N) : P unit :=
  if byte =? 92 then call act_deferred_string ;;; set_state Ground
  else if byte =? 27 then set_state IgnoredStringEscape
  else set_state IgnoredString.

Definition step (byte : N) : P unit :=
  let! st := getp state in
  match st with
  | Ground => ground byte
  | Escape => escape byte
  | EscapeIntermediate => escape_intermediate byte
  | Csi => csi_byte byte
  | Osc => osc byte
  | OscEscape => osc_escape byte
  | IgnoredString => ignored_string byte
  | IgnoredStringEscape => ignored_string_escape byte
  end.

(** The loop of [feed]: the putback byte first, then the next input byte. *)
Fixpoint feed_loop (fuel : nat) (bytes : list N) : P unit :=
  match fuel with
  | O => nofuel
  | S fuel =>
    let! pb := getp putback in
    match pb, bytes with
    | Some byte, _ =>
      modp (λ p, p <| putback := None |>) ;;; step byte ;;; feed_loop fuel bytes
    | None, byte :: bytes => step byte ;;; feed_loop fuel bytes
    | None, [] => ret tt
    end
  end.

(** Every input byte is stepped at most twice, and one more turn sees the end. *)
Definition feed (bytes : list N) : P unit :=
  feed_loop (2 * length bytes + 2)%nat bytes.

Definition finish : P unit :=
  let! needed := getp utf8_needed in
  (if negb (needed =? 0) then abort_utf8 else ret tt) ;;;
  let! st := getp state in
  (if bool_decide (st = Ground) then ret tt else call act_malformed) ;;;
  set_state Ground ;;;
  modp (λ p, p <| putback := None |>) ;;;
  reset_sequence.
End parser.

(** * The log of calls *)

Inductive event :=
| EvPrint (character : N)
| EvExecute (byte : N)
| EvCsi (params : list N) (private : option N) (ignored : bool) (final_byte : N)
| EvEsc (final_byte : N) (had_intermediate : bool)
| EvOsc (bytes : list N) (truncated : bool)
| EvDeferredString
| EvMalformed.

#[export] Instance event_eq_dec : EqDecision event.
Proof. solve_decision. Defined.

Definition emit (e : event) : M Empty_set (list event) unit := modify (λ l, l ++ [e]).

#[export] Instance log_actions : Actions (list event) := {|
  act_print c := emit (EvPrint c);
  act_execute b := emit (EvExecute b);
  act_csi ps priv ign f := emit (EvCsi ps priv ign f);
  act_esc f i := emit (EvEsc f i);
  act_osc bs t := emit (EvOsc bs t);
  act_deferred_string := emit EvDeferredString;
  act_malformed := emit EvMalformed;
|}.

(** Perform one logged call on another implementation of the trait. *)
Definition perform {A} `{Actions A} (e : event) : M Empty_set A unit :=
  match e with
  | EvPrint c => act_print c
  | EvExecute b => act_execute b
  | EvCsi ps priv ign f => act_csi ps priv ign f
  | EvEsc f i => act_esc f i
  | EvOsc bs t => act_osc bs t
  | EvDeferredString => act_deferred_string
  | EvMalformed => act_malformed
  end.

Definition replay {A} `{Actions A} (es : list event) : M Empty_set A unit :=
  for_each es perform.

(** * The invariant of the parser *)

(** A partial UTF-8 sequence lives only in the ground state and has room for its
    missing bytes; the parameter and OSC counters stay inside their arrays. *)
Record parser_wf (p : Parser) : Prop := {
  wf_params : vlen (params p) = MAX_PARAMS;
  wf_param_len : param_len p ≤ MAX_PARAMS;
  wf_param_acc : param_acc p ≤ u32_max;
  wf_param_range : Forall (λ v, v ≤ u16_max) (params p);
  wf_utf8 : vlen (utf8 p) = MAX_UTF8;
  wf_utf8_state :
    utf8_needed p = 0 ∨
    (2 ≤ utf8_needed p ≤ MAX_UTF8 ∧ utf8_len p < utf8_needed p ∧ state p = Ground);
  wf_private : ∀ b, private p = Some b → 60 ≤ b ≤ 63;
  wf_putback : ∀ b, putback p = Some b → b ≤ u8_max;
  wf_osc : vlen (osc_buf p) = MAX_OSC_BYTES;
  wf_osc_len : osc_len p ≤ MAX_OSC_BYTES;
  wf_osc_bytes : Forall (λ b, b ≤ u8_max) (osc_buf p);
}.

(** Between two calls of [feed] no byte is put back. *)
Definition quiescent (p : Parser) : Prop := parser_wf p ∧ putback p = None.

(** Right after a byte was put back: the next step consumes it for good. *)
Definition drains (p : Parser) : Prop :=
  putback p = None ∨ state p = Escape ∨ (state p = Ground ∧ utf8_needed p = 0).

(** What the trait promises about its arguments. *)
Definition event_ok (e : event) : Prop :=
  match e with
  | EvPrint c => is_scalar c = true
  | EvExecute b => b ≤ 31
  | EvCsi ps priv _ f =>
    Forall (λ v, v ≤ u16_max) ps ∧ vlen ps ≤ MAX_PARAMS ∧ 64 ≤ f ≤ 126
    ∧ (∀ b, priv = Some b → 60 ≤ b ≤ 63)
  | EvEsc f _ => 48 ≤ f ≤ 126
  | EvOsc bs _ => Forall (λ b, b ≤ u8_max) bs ∧ vlen bs ≤ MAX_OSC_BYTES
  | EvDeferredString | EvMalformed => True
  end.

(** * One step *)

(** The log grows by well-formed calls and the parser stays well formed. *)
Definition log_post (l : list event) (Q : Parser → Prop) (s : Parser * list event) : Prop :=
  ∃ es, s.2 = l ++ es ∧ Forall event_ok es ∧ parser_wf s.1 ∧ Q s.1.

Lemma log_post_intro l es p (Q : Parser → Prop) :
  Forall event_ok es → parser_wf p → Q p → log_post l Q (p, l ++ es).
Proof. unfold log_post. eauto. Qed.

Lemma log_post_nil l p (Q : Parser → Prop) :
  parser_wf p → Q p → log_post l Q (p, l).
Proof. intros. exists []. rewrite app_nil_r. auto. Qed.

(** * One step of the log instance *)

Section log_wp.
Implicit Types (p : Parser) (l : list event).

Lemma wp_getp {X} (f : Parser → X) Q F p l : Q (f p) (p, l) → wp (getp f) Q F (p, l).
Proof. done. Qed.

Lemma wp_modp f Q F p l : Q tt (f p, l) → wp (modp f) Q F (p, l).
Proof. done. Qed.

Lemma wp_call_emit e Q F p l : Q tt (p, l ++ [e]) → wp (call (emit e)) Q F (p, l).
Proof. done. Qed.
End log_wp.

(** Run a parser operation of the log instance up to its vector accesses. *)
Ltac prun :=
  repeat (lazymatch goal with
    | |- wp (bind _ _) _ _ _ => apply wp_bind
    | |- wp (getp _) _ _ _ => apply wp_getp
    | |- wp (modp _) _ _ _ => apply wp_modp
    | |- wp (set_state _) _ _ _ => apply wp_modp
    | |- wp reset_sequence _ _ _ => apply wp_modp
    | |- wp reset_osc _ _ _ => apply wp_modp
    | |- wp replacement _ _ _ => apply wp_bind
    | |- wp (ret _) _ _ _ => apply wp_ret
    | |- wp (call _) _ _ _ => apply wp_call_emit
    | |- wp (or_panic (vset _ _ _)) _ _ _ => apply wp_vset; [|intros ? ?]
    | |- wp (or_panic (vslice _ _ _)) _ _ _ => apply wp_vslice; [| |intros ? ?]
    | |- wp (if ?b then _ else _) _ _ _ => destruct b eqn:?
    end; cbv beta).

Definition nofail {S} (_ : Empty_set) (_ : S) : Prop := False.

Section step_spec.
Implicit Types (p : Parser) (l : list event).

Lemma reset_sequence_wf p :
  parser_wf p →
  parser_wf (p <| params := replicate (N.to_nat MAX_PARAMS) 0 |>
               <| param_len := 0 |> <| param_acc := 0 |> <| has_param_acc := false |>
               <| private := None |> <| ignored := false |>).
Proof. intros []. constructor; simpl; try done; try lia. by repeat constructor. Qed.

Lemma set_state_wf p st :
  parser_wf p → utf8_needed p = 0 → parser_wf (p <| state := st |>).
Proof. intros [] ?. constructor; simpl; try done. by left. Qed.

Lemma reset_osc_wf p :
  parser_wf p → parser_wf (p <| osc_len := 0 |> <| osc_truncated := false |>).
Proof. intros []. by constructor; simpl; try lia. Qed.

Lemma set_ignored_wf p b : parser_wf p → parser_wf (p <| ignored := b |>).
Proof. by intros []; constructor. Qed.

Lemma set_putback_wf p b : parser_wf p → b ≤ 255 → parser_wf (p <| putback := Some b |>).
Proof. intros [] ?. constructor; simpl; try done. by intros ? [= <-]. Qed.

Lemma take_putback_wf p : parser_wf p → parser_wf (p <| putback := None |>).
Proof. by intros []; constructor. Qed.

Lemma clear_utf8_wf p :
  parser_wf p → parser_wf (p <| utf8_len := 0 |> <| utf8_needed := 0 |>).
Proof. intros []. constructor; simpl; try done. by left. Qed.

Lemma set_private_wf p b :
  parser_wf p → 60 ≤ b ≤ 63 → parser_wf (p <| private := Some b |>).
Proof. intros [] ?. constructor; simpl; try done. by intros ? [= <-]. Qed.
End step_spec.
#[export] Hint Resolve reset_sequence_wf set_state_wf reset_osc_wf set_ignored_wf
  set_putback_wf take_putback_wf clear_utf8_wf set_private_wf : vt.

(** Close a branch: split the log into the old part and the calls made. *)
Ltac pleaf :=
  unfold is_c0, is_cancel, inr in *; to_prop; rewrite <-?(assoc_L (++)); cbn [app];
  first
    [ apply log_post_nil
    | apply log_post_intro; [solve [repeat (constructor; simpl; unfold is_scalar, inr; try lia; try done)]|..] ];
  [ auto with vt | try done ].

Lemma log_post_weaken l (Q Q' : Parser → Prop) s :
  log_post l Q s → (∀ p, parser_wf p → Q p → Q' p) → log_post l Q' s.
Proof. intros (es & ? & ? & ? & ?) HQ. exists es. eauto. Qed.

Lemma wp_log_weaken (m : M Empty_set (Parser * list event) unit) l (Q Q' : Parser → Prop) s :
  wp m (λ _, log_post l Q) nofail s → (∀ p, Q p → Q' p) →
  wp m (λ _, log_post l Q') nofail s.
Proof. intros Hm HQ. eapply wp_mono; [done| |done]. intros [] ??. eapply log_post_weaken; eauto. Qed.

Section step_spec2.
Implicit Types (p : Parser) (l : list event).

Lemma replacement_spec p l (Q : Parser → Prop) :
  parser_wf p → Q p →
  wp replacement (λ _, log_post l Q) nofail (p, l).
Proof. intros ??. prun. by pleaf. Qed.

Lemma abort_utf8_spec p l :
  parser_wf p →
  wp abort_utf8 (λ _, log_post l (λ p', p' = p <| utf8_len := 0 |> <| utf8_needed := 0 |>))
     nofail (p, l).
Proof. intros ?. unfold abort_utf8. prun. pleaf. Qed.

Lemma push_digit_spec p l d :
  parser_wf p →
  wp (push_digit d) (λ _, log_post l (λ p', state p' = state p ∧ putback p' = putback p
    ∧ utf8_needed p' = utf8_needed p)) nofail (p, l).
Proof.
  intros []. unfold push_digit. prun; apply log_post_nil; try done;
    constructor; simpl; try done; unfold sat_add; lia.
Qed.

Lemma finish_param_spec p l (Q : unit → Parser * list event → Prop) :
  parser_wf p →
  (∀ p', parser_wf p' → state p' = state p → putback p' = putback p →
     utf8_needed p' = utf8_needed p → Q tt (p', l)) →
  wp finish_param Q nofail (p, l).
Proof.
  intros [] HQ. unfold finish_param. prun; to_prop.
  - apply HQ; try done; constructor; simpl; try done; lia.
  - lia.
  - apply HQ; try done; constructor; simpl; try done; try lia.
    + vlens; simpl in *; congruence.
    + eapply Forall_vset; [done..|lia].
Qed.

Lemma push_osc_spec p l b :
  parser_wf p → b ≤ u8_max →
  wp (push_osc b) (λ _, log_post l (λ p', state p' = state p ∧ putback p' = putback p
    ∧ utf8_needed p' = utf8_needed p)) nofail (p, l).
Proof.
  intros [] ?. unfold push_osc. prun; to_prop; [lia|..]; apply log_post_nil; try done;
    constructor; simpl; try done; try lia.
  - vlens; simpl in *; congruence.
  - by eapply Forall_vset.
Qed.

Lemma start_utf8_spec p l b n :
  parser_wf p → state p = Ground → 2 ≤ n ≤ 4 →
  wp (start_utf8 b n) (λ _, log_post l (λ p', putback p' = putback p)) nofail (p, l).
Proof.
  intros [] ??. unfold start_utf8. prun; [done|]. apply log_post_nil; [|done].
  constructor; simpl; try done.
  - vlens. unfold MAX_UTF8 in *. simpl in *. lia.
  - right. unfold MAX_UTF8. split_and!; (done || lia).
Qed.

Lemma finish_utf8_spec p l :
  parser_wf (p <| utf8_len := 0 |> <| utf8_needed := 0 |>) → utf8_needed p ≤ MAX_UTF8 →
  wp finish_utf8 (λ _, log_post l (λ p', putback p' = putback p)) nofail (p, l).
Proof.
  intros Hwf Hn. pose proof (wf_utf8 _ Hwf). simpl in *. unfold finish_utf8.
  prun; [lia..|]. destruct (first_scalar _) as [c|] eqn:Hc; prun; [|by pleaf].
  apply first_scalar_scalar in Hc. by pleaf.
Qed.

(** In the ground state a byte that ends a partial sequence early is put back;
    nothing else is. *)
Lemma ground_spec p l b :
  parser_wf p → putback p = None → state p = Ground → b ≤ 255 →
  wp (ground b) (λ _, log_post l (λ p',
    (utf8_needed p = 0 → putback p' = None) ∧ drains p')) nofail (p, l).
Proof.
  intros Hwf Hpb Hst Hb. pose proof (wf_utf8_state _ Hwf) as Hu8.
  assert (∀ p', putback p' = putback p →
    (utf8_needed p = 0 → putback p' = None) ∧ drains p') as Hd.
  { intros p' Hp. unfold drains. rewrite Hp. auto. }
  unfold ground. prun; try (pleaf; by apply Hd); to_prop.
  - destruct Hwf. unfold MAX_UTF8 in *. lia.
  - eapply wp_log_weaken; [apply finish_utf8_spec|done]; simpl.
    + destruct Hwf. constructor; simpl; try done; vlens; [congruence|by left].
    + destruct Hu8 as [?|[[]]]; [done|lia].
  - apply log_post_nil; [|by apply Hd].
    destruct Hwf; constructor; simpl; try done; vlens; [congruence|].
    right. destruct Hu8 as [?|(?&?&?)]; [done|]. split_and!; try done; lia.
  - eapply wp_mono; [by apply abort_utf8_spec| |done].
    intros [] [p' l'] (es & ? & ? & ? & Hp'). apply wp_modp. cbn [fst snd] in *. subst.
    apply log_post_intro; [done|by auto with vt|]. split; [done|by right; right].
  - eapply wp_log_weaken; [apply start_utf8_spec; (done || lia)|done].
  - eapply wp_log_weaken; [apply start_utf8_spec; (done || lia)|done].
  - eapply wp_log_weaken; [apply start_utf8_spec; (done || lia)|done].
Qed.

(** Outside the ground state no partial UTF-8 sequence is held. *)
Lemma not_ground_needed p : parser_wf p → state p ≠ Ground → utf8_needed p = 0.
Proof. by intros [????? [?|(_&_&?)]] ?. Qed.

Abbreviation keeps p l := (λ _ : unit, log_post l (λ p', putback p' = putback p)).

Lemma escape_spec p l b :
  parser_wf p → utf8_needed p = 0 → b ≤ 255 →
  wp (escape b) (keeps p l) nofail (p, l).
Proof. intros ???. unfold escape. prun; pleaf. Qed.

Lemma escape_intermediate_spec p l b :
  parser_wf p → utf8_needed p = 0 → b ≤ 255 →
  wp (escape_intermediate b) (keeps p l) nofail (p, l).
Proof. intros ???. unfold escape_intermediate. prun; pleaf. Qed.

Lemma ignored_string_spec p l b :
  parser_wf p → utf8_needed p = 0 →
  wp (ignored_string b) (keeps p l) nofail (p, l).
Proof. intros ??. unfold ignored_string. prun; pleaf. Qed.

Lemma ignored_string_escape_spec p l b :
  parser_wf p → utf8_needed p = 0 →
  wp (ignored_string_escape b) (keeps p l) nofail (p, l).
Proof. intros ??. unfold ignored_string_escape. prun; pleaf. Qed.

Lemma dispatch_osc_string_spec p l :
  parser_wf p → utf8_needed p = 0 →
  wp dispatch_osc_string (keeps p l) nofail (p, l).
Proof.
  intros Hwf ?. destruct (Hwf). unfold dispatch_osc_string. prun; [lia..|].
  vlens. apply log_post_intro; [|by auto with vt|done].
  repeat constructor; [by eapply Forall_vslice|lia].
Qed.

Lemma osc_spec p l b :
  parser_wf p → utf8_needed p = 0 → b ≤ 255 →
  wp (osc b) (keeps p l) nofail (p, l).
Proof.
  intros ???. unfold osc. prun; try pleaf; [by apply dispatch_osc_string_spec|].
  eapply wp_log_weaken; [by apply push_osc_spec|]. by intros ? (_&?&_).
Qed.

Lemma osc_escape_spec p l b :
  parser_wf p → putback p = None → utf8_needed p = 0 → b ≤ 255 →
  wp (osc_escape b) (λ _, log_post l drains) nofail (p, l).
Proof.
  intros ? Hpb ??. unfold osc_escape. prun; [|pleaf; by right; left].
  eapply wp_log_weaken; [by apply dispatch_osc_string_spec|].
  intros p' Hp'. left. by rewrite Hp'.
Qed.

Lemma dispatch_csi_sequence_spec p l b :
  parser_wf p → utf8_needed p = 0 → 64 ≤ b ≤ 126 →
  wp (dispatch_csi_sequence b) (keeps p l) nofail (p, l).
Proof.
  intros Hwf Hn Hb. destruct (Hwf). unfold dispatch_csi_sequence. prun; [lia..|].
  vlens. apply log_post_intro; [|by auto with vt|done].
  repeat constructor; try lia; [by eapply Forall_vslice|..]; simpl; eauto;
    intros; by eapply wf_private.
Qed.

Lemma csi_byte_spec p l b :
  parser_wf p → utf8_needed p = 0 → b ≤ 255 →
  wp (csi_byte b) (keeps p l) nofail (p, l).
Proof.
  intros Hwf Hn Hb. unfold csi_byte. prun; try pleaf; to_prop.
  - eapply wp_log_weaken; [by apply push_digit_spec|]. by intros ? (_&?&_).
  - apply finish_param_spec; [done|]. intros. by apply log_post_nil.
  - apply finish_param_spec; [done|]. intros p' ?? Hp' Hn'. rewrite <-Hp'.
    apply dispatch_csi_sequence_spec; (congruence || done).
  - by apply dispatch_csi_sequence_spec.
Qed.

Lemma step_spec p l b :
  parser_wf p → putback p = None → b ≤ 255 →
  wp (step b) (λ _, log_post l (λ p',
    drains p' ∧ (state p = Escape ∨ (state p = Ground ∧ utf8_needed p = 0) →
                 putback p' = None))) nofail (p, l).
Proof.
  intros Hwf Hpb Hb. unfold step. apply wp_bind, wp_getp.
  assert (∀ p', putback p' = putback p → drains p' ∧
    (state p = Escape ∨ (state p = Ground ∧ utf8_needed p = 0) → putback p' = None)) as H.
  { intros p' Hp. unfold drains. rewrite Hp. auto. }
  pose proof (not_ground_needed p Hwf) as H0.
  destruct (state p) eqn:?;
    first [ eapply wp_log_weaken; [|exact H];
            first [ apply escape_spec | apply escape_intermediate_spec | apply csi_byte_spec
                  | apply osc_spec | apply ignored_string_spec
                  | apply ignored_string_escape_spec ]; first [done | by apply H0]
          | idtac ].
  - eapply wp_log_weaken; [by apply ground_spec|].
    intros p' [??]. split; [done|]. intros [|[]]; [done|auto].
  - eapply wp_log_weaken; [apply osc_escape_spec; first [done | by apply H0]|].
    intros p' ?. split; [done|]. by intros [?|[? _]].
Qed.
End step_spec2.

(** * The feed loop *)

Section drive.
Context {A : Type} `{Actions A}.

(** The loop of [feed] without its fuel: step each byte, then step the byte the
    first step put back, if any. *)
Definition drain : M Empty_set (Parser * A) unit :=
  let! pb := getp putback in
  match pb with
  | Some byte => modp (λ p, p <| putback := None |>) ;;; step byte
  | None => ret tt
  end.
Definition drive (bytes : list N) : M Empty_set (Parser * A) unit :=
  for_each bytes (λ byte, step byte ;;; drain).
End drive.

Definition bytes_ok (bytes : list N) : Prop := Forall (λ b, b ≤ 255) bytes.

Lemma step_drain_spec p (l : list event) b :
  quiescent p → b ≤ 255 →
  wp (step b ;;; drain) (λ _, log_post l (λ p', putback p' = None)) nofail (p, l).
Proof.
  intros [Hwf Hpb] Hb. apply wp_bind.
  eapply wp_mono; [by apply step_spec| |done].
  intros [] [p' l'] (es & Hl & Hes & Hwf' & Hd & _). cbn [fst snd] in *. subst l'.
  unfold drain. apply wp_bind, wp_getp.
  destruct (putback p') as [b'|] eqn:Hpb'; [|by apply wp_ret, log_post_intro].
  apply wp_bind, wp_modp.
  eapply wp_mono; [apply step_spec; [by auto with vt|done|by eapply wf_putback]| |done].
  intros [] [p'' l''] (es' & Hl & Hes' & Hwf'' & _ & Hn). cbn [fst snd] in *. subst l''.
  rewrite <-(assoc_L (++)). apply log_post_intro; [by apply Forall_app|done|].
  apply Hn. simpl. destruct Hd as [?|?]; [congruence|done].
Qed.

Lemma drive_spec bytes p (l : list event) :
  quiescent p → bytes_ok bytes →
  ∃ p' es, drive bytes (p, l) = Ret tt (p', l ++ es) ∧ quiescent p' ∧ Forall event_ok es.
Proof.
  intros Hq Hb. revert p l Hq. induction Hb as [|b bytes Hb _ IH]; intros p l Hq.
  { exists p, []. by rewrite app_nil_r. }
  pose proof (step_drain_spec p l b Hq Hb) as Hs. unfold wp in Hs.
  change (drive (b :: bytes) (p, l)) with (((step b ;;; drain) ;;; drive bytes) (p, l)).
  unfold bind at 1. destruct ((step b ;;; drain) (p, l)) as [[] [p1 l1]|[]| |] eqn:E; try done.
  destruct Hs as (es1 & H1 & Hes1 & Hwf1 & Hpb1). cbn [fst snd] in *. subst l1.
  destruct (IH p1 (l ++ es1)) as (p2 & es2 & H2 & Hq2 & Hes2); [done|].
  exists p2, (es1 ++ es2). rewrite (assoc_L (++)). split_and!; [done..|]. by apply Forall_app.
Qed.

Lemma feed_loop_drive fuel bytes p (l : list event) :
  quiescent p → bytes_ok bytes → (2 * length bytes + 1 ≤ fuel)%nat →
  feed_loop fuel bytes (p, l) = drive bytes (p, l).
Proof.
  intros Hq Hb. revert fuel p l Hq.
  induction Hb as [|b bytes Hb _ IH]; intros fuel p l [Hwf Hpb] Hf.
  { destruct fuel as [|fuel]; [simpl in Hf; lia|].
    cbn [feed_loop]. unfold bind, getp, gets. simpl. by rewrite Hpb. }
  pose proof (step_drain_spec p l b (conj Hwf Hpb) Hb) as Hs.
  destruct fuel as [|fuel]; [simpl in Hf; lia|].
  cbn [feed_loop]. unfold bind at 1, getp, gets. simpl. rewrite Hpb.
  change (drive (b :: bytes) (p, l)) with (((step b ;;; drain) ;;; drive bytes) (p, l)).
  unfold wp, drain in Hs. unfold drain. unfold bind at 1 in Hs. unfold bind at 1 2 3.
  destruct (step b (p, l)) as [[] [p1 l1]|[]| |] eqn:E; try done.
  unfold bind at 1, getp, gets in Hs. unfold bind at 1, getp, gets. simpl in Hs |- *.
  destruct fuel as [|fuel]; [simpl in Hf; lia|].
  cbn [feed_loop]. unfold bind at 1, getp, gets. simpl.
  destruct (putback p1) as [b'|] eqn:Hpb1.
  - unfold bind, modp, modify in Hs |- *. simpl in Hs |- *.
    destruct (step b' _) as [[] [p2 l2]|[]| |]; try done.
    destruct Hs as (? & ? & ? & ? & ?). apply IH; [done|simpl in *; lia].
  - destruct Hs as (? & ? & ? & Hwf1 & _).
    transitivity (feed_loop (S fuel) bytes (p1, l1)).
    { cbn [feed_loop]. unfold bind, getp, gets. simpl. by rewrite Hpb1. }
    apply IH; [done|simpl in *; lia].
Qed.

(** * Every implementation of the trait sees the logged calls *)

Section natural.
Context {A : Type} `{Actions A}.

(** Finish a computation whose parser part is known by performing its calls. *)
Definition after {X} (es : list event) (x : X) (p : Parser) (a : A)
    : outcome Empty_set (Parser * A) X :=
  match replay es a with
  | Ret _ a' => Ret x (p, a')
  | Fail e a' => Fail e (p, a')
  | Panic => Panic
  | NoFuel => NoFuel
  end.

(** [m] over any actions does what its log instance [ml] says it calls. *)
Definition natural {X} (m : M Empty_set (Parser * A) X)
    (ml : M Empty_set (Parser * list event) X) : Prop :=
  ∀ p l, match ml (p, l) with
         | Ret x s => ∃ es, s.2 = l ++ es ∧ ∀ a, m (p, a) = after es x s.1 a
         | _ => True
         end.

Lemma replay_app es1 es2 (a : A) :
  replay (es1 ++ es2) a = (replay es1 ;;; replay es2) a.
Proof.
  revert a. induction es1 as [|e es1 IH]; intros a; [done|].
  unfold replay in *. simpl. unfold bind. destruct (perform e a); [|done..].
  rewrite IH. done.
Qed.

Lemma natural_ret {X} (x : X) : natural (ret x) (ret x).
Proof. intros p l. exists []. by rewrite app_nil_r. Qed.

Lemma natural_getp {X} (f : Parser → X) : natural (getp f) (getp f).
Proof. intros p l. exists []. by rewrite app_nil_r. Qed.

Lemma natural_modp f : natural (modp f) (modp f).
Proof. intros p l. exists []. by rewrite app_nil_r. Qed.

Lemma natural_or_panic {X} (o : option X) : natural (or_panic o) (or_panic o).
Proof. intros p l. destruct o; [|done]. exists []. by rewrite app_nil_r. Qed.

Lemma natural_nofuel {X} : natural (X := X) nofuel nofuel.
Proof. by intros p l. Qed.

Lemma natural_bind {X Y} (m : M _ (Parser * A) X) ml (k : X → M _ (Parser * A) Y) kl :
  natural m ml → (∀ x, natural (k x) (kl x)) → natural (bind m k) (bind ml kl).
Proof.
  intros Hm Hk p l. specialize (Hm p l). unfold bind.
  destruct (ml (p, l)) as [x [p1 l1]|[]| |]; try done.
  destruct Hm as (es1 & H1 & Hm). simpl in *. subst l1.
  specialize (Hk x p1 (l ++ es1)).
  destruct (kl x _) as [y [p2 l2]|[]| |]; try done.
  destruct Hk as (es2 & H2 & Hk). simpl in *. subst l2.
  exists (es1 ++ es2). rewrite (assoc_L (++)). split; [done|]. intros a.
  rewrite Hm. unfold after. rewrite replay_app. unfold bind.
  destruct (replay es1 a) as [[] a1|[]| |]; [|done..]. apply Hk.
Qed.

Lemma natural_call (m : M Empty_set A unit) e :
  (∀ a, m a = perform e a) → natural (call m) (call (emit e)).
Proof.
  intros Hm p l. exists [e]. split; [done|]. intros a.
  unfold call, zoom, after, replay. simpl. rewrite Hm. unfold bind.
  by destruct (perform e a) as [[] |[]| |].
Qed.
End natural.

(** Descend through the syntax of a parser operation. *)
Ltac natural_tac :=
  repeat (intros; lazymatch goal with
    | |- natural (bind _ _) _ => apply natural_bind
    | |- natural (getp _) _ => apply natural_getp
    | |- natural (modp _) _ => apply natural_modp
    | |- natural (set_state _) _ => apply natural_modp
    | |- natural reset_sequence _ => apply natural_modp
    | |- natural reset_osc _ => apply natural_modp
    | |- natural (ret _) _ => apply natural_ret
    | |- natural nofuel _ => apply natural_nofuel
    | |- natural (or_panic _) _ => apply natural_or_panic
    | |- natural (call _) _ => eapply natural_call; reflexivity
    | |- natural (if ?b then _ else _) _ => destruct b
    | |- natural (match ?x with _ => _ end) _ => destruct x
    | |- natural ?m _ => let h := m in progress unfold replacement, abort_utf8, finish_utf8,
        start_utf8, push_digit, finish_param, push_osc, dispatch_osc_string,
        dispatch_csi_sequence, ground, escape, escape_intermediate, csi_byte, osc, osc_escape,
        ignored_string, ignored_string_escape
    end).

Section natural_feed.
Context {A : Type} `{Actions A}.

Lemma natural_step b : natural (A := A) (step b) (step b).
Proof. unfold step. natural_tac. Qed.

Lemma natural_feed_loop fuel bytes : natural (A := A) (feed_loop fuel bytes) (feed_loop fuel bytes).
Proof.
  revert bytes. induction fuel as [|fuel IH]; intros bytes; cbn [feed_loop]; [natural_tac|].
  apply natural_bind; [natural_tac|]. intros [b|]; [|destruct bytes as [|b bytes]].
  - apply natural_bind; [natural_tac|intros _].
    apply natural_bind; [apply natural_step|intros _; apply IH].
  - natural_tac.
  - apply natural_bind; [apply natural_step|intros _; apply IH].
Qed.

Lemma natural_finish : natural (A := A) finish finish.
Proof. unfold finish. natural_tac. Qed.
End natural_feed.

Lemma feed_drive p bytes (l : list event) :
  quiescent p → bytes_ok bytes → feed bytes (p, l) = drive bytes (p, l).
Proof. intros. apply feed_loop_drive; (done || lia). Qed.

Lemma feed_log p bytes (l : list event) :
  quiescent p → bytes_ok bytes →
  ∃ p' es, feed bytes (p, l) = Ret tt (p', l ++ es) ∧ quiescent p' ∧ Forall event_ok es.
Proof.
  intros. rewrite feed_drive by done. by apply drive_spec.
Qed.

Lemma finish_log p (l : list event) :
  quiescent p →
  ∃ p' es, finish (p, l) = Ret tt (p', l ++ es) ∧ quiescent p' ∧ Forall event_ok es.
Proof.
  intros [Hwf Hp].
  assert (wp finish (λ _, log_post l (λ p', putback p' = None)) nofail (p, l)) as Hw.
  { unfold finish. apply wp_bind, wp_getp, wp_bind. destruct (negb _) eqn:Hn.
    - eapply wp_mono; [by apply abort_utf8_spec| |done].
      intros [] [p' l'] (es & ? & ? & ? & Hp'). cbn [fst snd] in *. subst.
      prun; rewrite <-?(assoc_L (++)); (apply log_post_intro; [|by auto 10 with vt|done]); [done|].
      apply Forall_app. split; [done|by repeat constructor].
    - apply wp_ret. prun; first [apply log_post_intro; [by repeat constructor|..] | apply log_post_nil];
        to_prop; by auto 10 with vt. }
  unfold wp in Hw. destruct (finish (p, l)) as [[] [p' l']|[]| |] eqn:E; try done.
  destruct Hw as (es & ? & ? & ? & ?). cbn [fst snd] in *. subst. by exists p', es.
Qed.

Lemma finish_natural {A} `{Actions A} p p' es l :
  finish (p, l) = Ret tt (p', l ++ es) → ∀ a : A, finish (p, a) = after es tt p' a.
Proof.
  intros Hl. pose proof (natural_finish (A := A) p l) as Hn. rewrite Hl in Hn.
  destruct Hn as (es' & Hes & Hn). simpl in *. by apply (inj (l ++.)) in Hes as <-.
Qed.

Lemma feed_natural {A} `{Actions A} p bytes p' es l :
  feed bytes (p, l) = Ret tt (p', l ++ es) → ∀ a : A, feed bytes (p, a) = after es tt p' a.
Proof.
  intros Hl. pose proof (natural_feed_loop (A := A) (2 * length bytes + 2)%nat bytes p l) as Hn.
  unfold feed in *. rewrite Hl in Hn. destruct Hn as (es' & Hes & Hn).
  simpl in *. by apply (inj (l ++.)) in Hes as <-.
Qed.

Lemma replay_log es (l : list event) : replay es l = Ret tt (l ++ es).
Proof.
  revert l. induction es as [|e es IH]; intros l; [by rewrite app_nil_r|].
  transitivity (replay es (l ++ [e])).
  - by destruct e.
  - rewrite IH. by rewrite <-(assoc_L (++)).
Qed.

(** The log of [feed_app] below. *)
Lemma feed_app_log p xs ys :
  quiescent p → bytes_ok xs → bytes_ok ys →
  feed (xs ++ ys) (p, [] : list event) = (feed xs ;;; feed ys) (p, []).
Proof.
  intros Hq Hx Hy. destruct (feed_log p xs [] Hq Hx) as (p1 & es1 & Hf1 & Hq1 & _).
  assert (bytes_ok (xs ++ ys)) by by apply Forall_app.
  unfold bind. rewrite Hf1. rewrite feed_drive in Hf1 |- * by done. rewrite feed_drive by done.
  unfold drive in *. rewrite for_each_app. by rewrite (bind_Ret _ _ _ _ _ Hf1).
Qed.

(** ** The properties of the parser *)

(** C1. The parser never panics and never loops: from any quiescent parser state
    any byte string is consumed, the parser is quiescent again, every call it made
    is well formed (scalar values, at most 32 parameters of 16 bits, bounded OSC
    strings), and what an arbitrary implementation of [Actions] experiences is
    exactly the replay of those calls, in order, on its own state. *)
Theorem feed_total (p : Parser) (bytes : list N) :
  quiescent p → bytes_ok bytes →
  ∃ p' es, feed bytes (p, []) = Ret tt (p', es) ∧ quiescent p' ∧ Forall event_ok es ∧
    ∀ (A : Type) (HA : Actions A) (a : A), feed bytes (p, a) = after es tt p' a.
Proof.
  intros Hq Hb. destruct (feed_log p bytes [] Hq Hb) as (p' & es & Hf & ? & ?).
  exists p', es. split_and!; [done..|]. intros A HA a. by eapply feed_natural with (l := []).
Qed.

Lemma new_parser_quiescent : quiescent new_parser.
Proof.
  split; [|done].
  constructor; unfold new_parser;
    cbn [params param_len param_acc utf8 utf8_needed private putback osc_buf osc_len];
    rewrite ?length_replicate; try done; [by apply Forall_replicate|by left|].
  by apply Forall_replicate.
Qed.

Lemma feed_total_witness :
  ∃ p' es, feed [104; 105; 27; 91; 51; 49; 109; 195; 169] (new_parser, []) = Ret tt (p', es)
    ∧ quiescent p' ∧ Forall event_ok es ∧
    ∀ (A : Type) (HA : Actions A) (a : A),
      feed [104; 105; 27; 91; 51; 49; 109; 195; 169] (new_parser, a) = after es tt p' a.
Proof.
  apply (feed_total new_parser); [exact new_parser_quiescent|].
  repeat constructor; lia.
Defined.

(** C2. Feeding is independent of how the byte stream is cut: feeding [xs] and then
    [ys] is feeding their concatenation, for every implementation of [Actions],
    whatever state a sequence was interrupted in. *)
Theorem feed_app {A} `{Actions A} (p : Parser) (a : A) (xs ys : list N) :
  quiescent p → bytes_ok xs → bytes_ok ys →
  feed (xs ++ ys) (p, a) = (feed xs ;;; feed ys) (p, a).
Proof.
  intros Hq Hx Hy.
  destruct (feed_log p xs [] Hq Hx) as (p1 & es1 & Hf1 & Hq1 & _).
  destruct (feed_log p1 ys es1 Hq1 Hy) as (p2 & es2 & Hf2 & Hq2 & _).
  assert (feed (xs ++ ys) (p, []) = Ret tt (p2, [] ++ (es1 ++ es2))) as Hf.
  { rewrite feed_app_log by done. by rewrite (bind_Ret _ _ _ _ _ Hf1). }
  rewrite (feed_natural _ _ _ _ _ Hf). unfold bind.
  rewrite (feed_natural _ _ _ _ _ Hf1). unfold after. rewrite replay_app. unfold bind.
  destruct (replay es1 a) as [[] a1|[]| |]; [|done..].
  by rewrite (feed_natural _ _ _ _ _ Hf2).
Qed.

Lemma feed_app_witness :
  feed ([27; 91; 49] ++ [50; 72; 226; 130; 172]) (new_parser, [] : list event)
  = (feed [27; 91; 49] ;;; feed [50; 72; 226; 130; 172]) (new_parser, []).
Proof.
  apply (feed_app new_parser); [exact new_parser_quiescent| |]; repeat constructor; lia.
Defined.
