(* ===== verification/ParserSyntax.v ===== *)
(** What the byte parser of [crates/seyal-terminal/src/parser.rs] recognises: UTF-8
    text and CSI sequences.  The theorems relate concrete syntax (an encoded text, a
    control sequence with decimal parameters) to the calls [feed] makes. *)

From stdpp Require Import base numbers list.
From S2P Require Import Prelude Utf8 Parser.

Open Scope N_scope.

(** ** Text *)

(** What the parser calls for one scalar of text outside escape sequences. *)
Definition scalar_events (c : N) : list event :=
  if is_c0 c || is_cancel c then [EvExecute c]
  else if c =? 127 then [] else [EvPrint c].

Definition idle (p : Parser) : Prop :=
  quiescent p ∧ state p = Ground ∧ utf8_needed p = 0.

Lemma wp_eq {S} (m : M Empty_set S unit) s s' :
  wp m (λ _ s'', s'' = s') nofail s → m s = Ret tt s'.
Proof. unfold wp. destruct (m s) as [[] ?|[]| |]; [by intros ->|done..]. Qed.

Lemma wp_ex (m : M Empty_set (Parser * list event) unit) s l' (R : Parser → Prop) :
  wp m (λ _ s', s'.2 = l' ∧ R s'.1) nofail s → ∃ p', m s = Ret tt (p', l') ∧ R p'.
Proof.
  unfold wp. destruct (m s) as [[] [p' l'']|[]| |]; [|done..]. intros [<- ?]. eauto.
Qed.

Section text.
Implicit Types (p : Parser) (l : list event).

(** In the ground state a step is [ground], and a step that puts nothing back
    needs no drain. *)
Lemma drive_ground_cons b bytes p l p' l' :
  state p = Ground → ground b (p, l) = Ret tt (p', l') → putback p' = None →
  drive (b :: bytes) (p, l) = drive bytes (p', l').
Proof.
  intros Hst Hg Hpb. refine (bind_Ret _ (λ _, drive bytes) _ tt _ _). unfold step. unfold bind at 1 2, getp, gets. simpl. rewrite Hst, Hg.
  unfold drain, bind, getp, gets. simpl. by rewrite Hpb.
Qed.

(** A partial sequence: [pre] is read and [n] bytes are needed in all. *)
Definition partial p (pre : list N) (n : N) : Prop :=
  idle (p <| utf8_len := 0 |> <| utf8_needed := 0 |>) ∧ n ≤ MAX_UTF8 ∧ vlen pre < n ∧
  utf8_len p = vlen pre ∧ utf8_needed p = n ∧ take (length pre) (utf8 p) = pre.

Lemma partial_set p pre n b :
  partial p pre n →
  vset (utf8 p) (utf8_len p) b = Some (<[length pre := b]> (utf8 p)) ∧
  take (length pre + 1) (<[length pre := b]> (utf8 p)) = pre ++ [b] ∧
  parser_wf (p <| utf8 := <[length pre := b]> (utf8 p) |>
               <| utf8_len := 0 |> <| utf8_needed := 0 |>).
Proof.
  intros (([Hwf ?] & ? & _) & Hn & Hl & Hlen & _ & Hpre).
  pose proof (wf_utf8 _ Hwf) as Hu8. unfold MAX_UTF8 in *. simpl in *.
  split_and!.
  - rewrite vset_ok by lia. do 2 f_equal. lia.
  - rewrite take_S_insert, Hpre; [done|lia].
  - destruct Hwf; constructor; simpl in *; try done.
    by rewrite length_insert.
Qed.

Lemma ground_continuation p pre n b l :
  partial p pre n → is_cont b = true → vlen pre + 1 < n →
  ∃ p', ground b (p, l) = Ret tt (p', l) ∧ putback p' = None ∧ partial p' (pre ++ [b]) n.
Proof.
  intros Hp Hb Hlt. destruct (partial_set p pre n b Hp) as (Hset & Htake & Hwf).
  destruct Hp as (([? ?] & ? & _) & Hn & Hl & Hlen & Hneed & Hpre).
  exists (p <| utf8 := <[length pre := b]> (utf8 p) |> <| utf8_len := vlen pre + 1 |>).
  split_and!; [|done|].
  - apply wp_eq. unfold ground, is_cont in *.
    prun; to_prop; unfold MAX_UTF8 in *; simpl in *; try lia; simplify_eq.
    + pose proof (wf_utf8 _ Hwf). simpl in *. rewrite length_insert in *. unfold MAX_UTF8 in *. lia.
    + by rewrite Hlen.
  - unfold partial. rewrite length_app. simpl.
    by split_and!; try lia.
Qed.

Lemma ground_last_continuation p pre n b c l :
  partial p pre n → is_cont b = true → vlen pre + 1 = n →
  first_scalar (pre ++ [b]) = Some c →
  ∃ p', ground b (p, l) = Ret tt (p', l ++ [EvPrint c]) ∧ idle p'.
Proof.
  intros Hp Hb Hlt Hc. destruct (partial_set p pre n b Hp) as (Hset & Htake & Hwf).
  destruct Hp as (([? ?] & ? & _) & Hn & Hl & Hlen & Hneed & Hpre).
  exists (p <| utf8 := <[length pre := b]> (utf8 p) |> <| utf8_len := 0 |> <| utf8_needed := 0 |>).
  split; [|unfold idle, quiescent; by split_and!].
  pose proof (wf_utf8 _ Hwf) as Hu8. simpl in Hu8. rewrite length_insert in Hu8.
  apply wp_eq. unfold ground, is_cont, finish_utf8 in *.
  prun; to_prop; unfold MAX_UTF8 in *; simpl in *; try lia; simplify_eq;
    rewrite ?length_insert; try lia.
  replace r with (pre ++ [b]).
  - rewrite Hc. by prun.
  - match goal with Hr : vslice _ _ _ = Some r |- _ => rename Hr into Hslice end.
    rewrite <-Htake. unfold vslice in Hslice. case_match; [|done].
    injection Hslice as <-. simpl. f_equal. lia.
Qed.

Lemma drive_continuation pre rest c p n l :
  partial p pre n → vlen (pre ++ rest) = n → Forall (λ b, is_cont b = true) rest →
  first_scalar (pre ++ rest) = Some c →
  ∃ p', drive rest (p, l) = Ret tt (p', l ++ [EvPrint c]) ∧ idle p'.
Proof.
  intros Hp Hn Hrest Hc. revert pre p l Hp Hn Hc.
  induction Hrest as [|b rest Hb Hrest IH]; intros pre p l Hp Hn Hc.
  { exfalso. destruct Hp as (_ & _ & ? & _). rewrite app_nil_r in Hn. lia. }
  assert (state p = Ground) by by destruct Hp as ((_ & ? & _) & _).
  rewrite length_app in Hn. destruct rest as [|b' rest]; simpl in Hn.
  - destruct (ground_last_continuation p pre n b c l) as (p' & Hg & Hi); try done; [lia|].
    exists p'. split; [|done].
    erewrite drive_ground_cons; [done..|]. by destruct Hi as ([_ ?] & _).
  - destruct (ground_continuation p pre n b l) as (p' & Hg & ? & Hp'); try done; [lia|].
    erewrite drive_ground_cons; [|done..].
    apply (IH (pre ++ [b])); [done|rewrite !length_app; simpl in *; lia|].
    by rewrite <-(assoc_L (++)).
Qed.

Lemma start_utf8_partial p l b n :
  idle p → 2 ≤ n ≤ 4 →
  ∃ p', start_utf8 b n (p, l) = Ret tt (p', l) ∧ putback p' = None ∧ partial p' [b] n.
Proof.
  intros ([[] ?] & ? & ?) Hn.
  exists (p <| utf8 := [b; 0; 0; 0] |> <| utf8_len := 1 |> <| utf8_needed := n |>).
  split_and!; [|done|].
  - apply wp_eq. unfold start_utf8. prun; [done|].
    match goal with Hv : vset _ _ _ = Some _ |- _ => by injection Hv as <- end.
  - unfold partial, idle, quiescent, MAX_UTF8. simpl.
    split_and!; try done; try lia. constructor; simpl; try done. by left.
Qed.

Lemma ground_lead p l lead n :
  idle p →
  (n = 2 ∧ inr 194 223 lead = true) ∨ (n = 3 ∧ inr 224 239 lead = true) ∨
    (n = 4 ∧ inr 240 244 lead = true) →
  ground lead (p, l) = start_utf8 lead n (p, l).
Proof.
  intros (_ & _ & Hn) Hlead. unfold ground, bind at 1, getp, gets. simpl. rewrite Hn. simpl.
  unfold is_c0, is_cancel, inr in *.
  repeat (case_match; try lia); destruct Hlead as [[-> ?]|[[-> ?]|[-> ?]]]; (done || lia).
Qed.

Lemma drive_scalar p l c :
  idle p → is_scalar c = true → c ≠ 27 →
  ∃ p', drive (encode_utf8 c) (p, l) = Ret tt (p', l ++ scalar_events c) ∧ idle p'.
Proof.
  intros Hi Hs Hc. destruct (Hi) as ([Hwf Hpb] & Hst & Hn).
  destruct (decide (c < 128)) as [Hlt|Hge].
  - exists p. split; [|done]. rewrite encode_utf8_ascii by done.
    rewrite (drive_ground_cons _ _ _ _ p (l ++ scalar_events c)); [done..| |done].
    apply wp_eq. unfold ground, scalar_events, is_c0, is_cancel, inr.
    prun; to_prop; try lia; repeat (case_match; try lia); by rewrite ?app_nil_r.
  - destruct (encode_utf8_multi c) as (lead & rest & He & Hcont & Hlead); [done|lia|].
    pose proof (first_scalar_encode c Hs) as Hd. rewrite He in *.
    assert (scalar_events c = [EvPrint c]) as ->.
    { unfold scalar_events, is_c0, is_cancel, inr. repeat (case_match; try lia); done. }
    destruct (start_utf8_partial p l lead (vlen (lead :: rest)) Hi) as (p' & Hs' & Hpb' & Hp').
    { simpl. lia. }
    erewrite drive_ground_cons; [|done|etrans; [apply ground_lead|exact Hs']|done]; [|done|].
    { by eapply (drive_continuation [lead]). }
    destruct Hlead as [[? Hl]|[[? Hl]|[? Hl]]]; simpl; rewrite Hl;
      [left|right; left|right; right]; done.
Qed.
End text.

Lemma drive_app bytes1 bytes2 p (l : list event) p1 l1 :
  drive bytes1 (p, l) = Ret tt (p1, l1) →
  drive (bytes1 ++ bytes2) (p, l) = drive bytes2 (p1, l1).
Proof. intros H1. unfold drive. rewrite for_each_app. by rewrite (bind_Ret _ _ _ _ _ H1). Qed.

Lemma encode_utf8_ok c : is_scalar c = true → bytes_ok (encode_utf8 c).
Proof.
  intros Hs. destruct (decide (c < 128)).
  - rewrite encode_utf8_ascii by done. repeat constructor. lia.
  - destruct (encode_utf8_multi c) as (lead & rest & -> & Hc & Hl); [done|lia|].
    unfold is_cont, inr in *. constructor; [lia|].
    eapply Forall_impl; [exact Hc|]. simpl. intros. unfold inr in *. lia.
Qed.

Lemma utf8_bytes_ok text :
  Forall (λ c, is_scalar c = true) text → bytes_ok (utf8_bytes text).
Proof.
  induction 1 as [|c text Hc _ IH]; [constructor|].
  apply Forall_app. split; [by apply encode_utf8_ok|done].
Qed.

(** C3. Printable text survives the parser: the UTF-8 encoding of any text without
    ESC, fed to an idle parser, calls [print] once per scalar value with exactly that
    scalar, [execute] for the C0 controls in it (and nothing for DEL), and leaves the
    parser idle. *)
Theorem feed_text (p : Parser) (l : list event) (text : list N) :
  idle p → Forall (λ c, is_scalar c = true) text → 27 ∉ text →
  ∃ p', feed (utf8_bytes text) (p, l) = Ret tt (p', l ++ (text ≫= scalar_events)) ∧ idle p'.
Proof.
  intros Hi Ht. rewrite feed_drive by (try apply Hi; by apply utf8_bytes_ok).
  revert p l Hi. induction Ht as [|c text Hc Ht IH]; intros p l Hi Hesc.
  { exists p. by rewrite app_nil_r. }
  apply not_elem_of_cons in Hesc as [Hc27 Hesc].
  destruct (drive_scalar p l c) as (p1 & H1 & Hi1); [done..|].
  destruct (IH p1 (l ++ scalar_events c) Hi1 Hesc) as (p2 & H2 & Hi2).
  exists p2. split; [|done].
  change (utf8_bytes (c :: text)) with (encode_utf8 c ++ utf8_bytes text).
  rewrite (drive_app _ _ _ _ _ _ H1), H2. by rewrite <-(assoc_L (++)).
Qed.

Lemma feed_text_witness :
  ∃ p', feed (utf8_bytes [72; 233; 8364; 128512; 10]) (new_parser, [])
        = Ret tt (p', [] ++ [EvPrint 72; EvPrint 233; EvPrint 8364; EvPrint 128512; EvExecute 10])
        ∧ idle p'.
Proof.
  apply (feed_text new_parser [] [72; 233; 8364; 128512; 10]).
  - split; [exact new_parser_quiescent|done].
  - by repeat constructor.
  - by apply (bool_decide_unpack _).
Defined.

(** ** Control sequences *)

(** The value of a string of decimal digits, read after [acc]. *)
Definition digits_value (acc : N) (ds : list N) : N := foldl (λ a d, a * 10 + d) acc ds.

Lemma digits_value_ge acc ds : acc ≤ digits_value acc ds.
Proof.
  revert acc. induction ds as [|d ds IH]; intros acc; [done|].
  unfold digits_value. simpl. etrans; [|apply IH]. lia.
Qed.

Section csi.
Implicit Types (p : Parser) (l : list event).

(** Inside a control sequence: the finished parameters, the parameter being read. *)
Record csi_at p (fin : list N) (acc : N) (has ign : bool) (priv : option N) : Prop := {
  at_quiescent : quiescent p;
  at_state : state p = Csi;
  at_needed : utf8_needed p = 0;
  at_len : param_len p = vlen fin;
  at_fin : take (length fin) (params p) = fin;
  at_acc : param_acc p = acc;
  at_has : has_param_acc p = has;
  at_ignored : ignored p = ign;
  at_private : private p = priv;
}.

Lemma drive_escape_cons b bytes p l p' l' :
  state p = Escape → escape b (p, l) = Ret tt (p', l') → putback p' = None →
  drive (b :: bytes) (p, l) = drive bytes (p', l').
Proof.
  intros Hst Hg Hpb. refine (bind_Ret _ (λ _, drive bytes) _ tt _ _).
  unfold step. unfold bind at 1 2, getp, gets. simpl. rewrite Hst, Hg.
  unfold drain, bind, getp, gets. simpl. by rewrite Hpb.
Qed.

(** [ESC \[] enters a control sequence with no parameters. *)
Lemma csi_enter p l bytes :
  idle p →
  ∃ p', drive (27 :: 91 :: bytes) (p, l) = drive bytes (p', l) ∧ csi_at p' [] 0 false false None.
Proof.
  intros ([Hwf Hpb] & Hst & Hn).
  destruct (wp_ex (ground 27) (p, l) l (λ p', parser_wf p' ∧ putback p' = None ∧
    utf8_needed p' = 0 ∧ state p' = Escape)) as (p1 & H1 & Hwf1 & Hpb1 & Hn1 & Hst1).
  { unfold ground, is_c0, is_cancel, inr. prun; to_prop; simpl; try lia.
    split_and!; try done. by auto with vt. }
  destruct (wp_ex (escape 91) (p1, l) l (λ p', csi_at p' [] 0 false false None))
    as (p2 & H2 & Hp2).
  { unfold escape, is_c0, is_cancel, inr. prun; to_prop; simpl; try lia.
    split; [done|]. split; simpl; try done. split; [|done]. by auto with vt. }
  exists p2. split; [|done].
  erewrite drive_ground_cons by done. erewrite drive_escape_cons; [done..|].
  apply Hp2.
Qed.

Lemma drive_csi_cons b bytes p l p' l' :
  state p = Csi → csi_byte b (p, l) = Ret tt (p', l') → putback p' = None →
  drive (b :: bytes) (p, l) = drive bytes (p', l').
Proof.
  intros Hst Hg Hpb. refine (bind_Ret _ (λ _, drive bytes) _ tt _ _).
  unfold step. unfold bind at 1 2, getp, gets. simpl. rewrite Hst, Hg.
  unfold drain, bind, getp, gets. simpl. by rewrite Hpb.
Qed.

Lemma csi_digit p fin acc has ign priv d l :
  csi_at p fin acc has ign priv → d < 10 →
  ∃ p', csi_byte (48 + d) (p, l) = Ret tt (p', l) ∧
    csi_at p' fin (N.min (acc * 10 + d) u32_max) true
           (ign || (u16_max <? N.min (acc * 10 + d) u32_max)) priv.
Proof.
  intros [[Hwf Hpb] Hst Hn Hlen Hfin Hacc Hhas Hign Hpriv] Hd.
  pose proof (wf_param_acc _ Hwf) as Hmax.
  assert (sat_add u32_max (sat_mul u32_max (param_acc p) 10) d
          = N.min (acc * 10 + d) u32_max) as Hsat.
  { unfold sat_add, sat_mul. lia. }
  apply wp_ex. unfold csi_byte, push_digit, is_c0, is_cancel, inr.
  prun; try lia; replace (48 + d - 48) with d in * by lia; rewrite Hsat in *;
    (split; [done|]); simpl.
  all: split; simpl; try done;
    [|by match goal with Hi : (u16_max <? _) = _ |- _ =>
        rewrite Hi, ?orb_true_r, ?orb_false_r end].
  all: split; [|done]; destruct Hwf; constructor; simpl; try done; lia.
Qed.

Lemma csi_digits p fin acc has ign priv ds l :
  csi_at p fin (N.min acc u32_max) has ign priv → Forall (λ d, d < 10) ds → ds ≠ [] →
  ∃ p', drive ((λ d, 48 + d) <$> ds) (p, l) = Ret tt (p', l) ∧
    csi_at p' fin (N.min (digits_value acc ds) u32_max) true
           (ign || (u16_max <? digits_value acc ds)) priv.
Proof.
  intros Hp Hds. revert p acc has ign Hp.
  induction Hds as [|d ds Hd Hds IH]; intros p acc has ign Hp Hne; [done|].
  destruct (csi_digit _ _ _ _ _ _ d l Hp Hd) as (p1 & H1 & Hp1).
  rewrite fmap_cons. erewrite drive_csi_cons; [|apply Hp|done|apply Hp1].
  replace (N.min (N.min acc u32_max * 10 + d) u32_max)
    with (N.min (acc * 10 + d) u32_max) in Hp1 by (unfold u32_max; lia).
  destruct ds as [|d' ds].
  - exists p1. split; [done|]. unfold digits_value; simpl.
    replace (u16_max <? N.min (acc * 10 + d) u32_max)
      with (u16_max <? acc * 10 + d) in Hp1; [done|]. unfold u16_max, u32_max. lia.
  - destruct (IH p1 (acc * 10 + d) _ _ Hp1) as (p2 & H2 & Hp2); [done|].
    exists p2. split; [done|].
    change (digits_value acc (d :: d' :: ds)) with (digits_value (acc * 10 + d) (d' :: ds)).
    replace (ign || (u16_max <? digits_value (acc * 10 + d) (d' :: ds)))
      with ((ign || (u16_max <? N.min (acc * 10 + d) u32_max))
            || (u16_max <? digits_value (acc * 10 + d) (d' :: ds))); [done|].
    pose proof (digits_value_ge (acc * 10 + d) (d' :: ds)) as Hge.
    generalize dependent (digits_value (acc * 10 + d) (d' :: ds)). intros v _ Hge.
    unfold u16_max, u32_max. destruct ign; [done|]. cbn [orb]. lia.
Qed.

(** The parameters after one more was finished. *)
Definition push_param (fin : list N) (v : N) : list N :=
  if vlen fin =? MAX_PARAMS then fin else fin ++ [N.min v u16_max].

Lemma finish_param_at p fin acc has ign priv l :
  csi_at p fin acc has ign priv →
  ∃ p', finish_param (p, l) = Ret tt (p', l) ∧
    csi_at p' (push_param fin acc) 0 false (ign || (vlen fin =? MAX_PARAMS)) priv.
Proof.
  intros [[Hwf Hpb] Hst Hn Hlen Hfin Hacc Hhas Hign Hpriv].
  apply wp_ex. unfold finish_param. prun; rewrite ?Hlen, ?Hacc in *.
  - rewrite Heqb. split; [done|]. unfold push_param. rewrite Heqb.
    split; simpl; try done; [|by rewrite orb_true_r].
    split; [|done]. destruct Hwf; by constructor.
  - destruct Hwf. unfold MAX_PARAMS in *. lia.
  - rewrite Heqb, orb_false_r. split; [done|]. unfold push_param. rewrite Heqb.
    match goal with Hv : vset _ _ _ = Some _ |- _ => rename Hv into Hset end.
    pose proof (wf_params _ Hwf) as Hps. pose proof (wf_param_len _ Hwf).
    assert (vlen fin < vlen (params p)) by lia.
    split; simpl; try done.
    + split; [|done]. destruct Hwf; constructor; simpl; try done; try lia.
      * vlens. lia.
      * eapply Forall_vset; [done..|lia].
    + rewrite length_app. simpl. lia.
    + rewrite vset_ok in Hset by done. injection Hset as <-.
      rewrite length_app, Nat2N.id. simpl. rewrite take_S_insert by lia. by rewrite Hfin.
Qed.

Lemma csi_semicolon p fin acc has ign priv l :
  csi_at p fin acc has ign priv →
  ∃ p', csi_byte 59 (p, l) = Ret tt (p', l) ∧
    csi_at p' (push_param fin acc) 0 false (ign || (vlen fin =? MAX_PARAMS)) priv.
Proof. apply finish_param_at. Qed.

Lemma csi_private p b l :
  csi_at p [] 0 false false None → 60 ≤ b ≤ 63 →
  ∃ p', csi_byte b (p, l) = Ret tt (p', l) ∧ csi_at p' [] 0 false false (Some b).
Proof.
  intros [[Hwf Hpb] Hst Hn Hlen Hfin Hacc Hhas Hign Hpriv] Hb.
  apply wp_ex. unfold csi_byte, is_c0, is_cancel, inr, at_sequence_start.
  prun; try lia; (split; [done|]).
  - split; simpl; try done. split; [|done]. by apply set_private_wf.
  - exfalso. rewrite Hlen, Hhas, Hpriv in *. simpl in *. lia.
Qed.

Lemma dispatch_csi_at p fin acc has ign priv b l :
  csi_at p fin acc has ign priv →
  ∃ p', dispatch_csi_sequence b (p, l) = Ret tt (p', l ++ [EvCsi fin priv ign b]) ∧ idle p'.
Proof.
  intros [[Hwf Hpb] Hst Hn Hlen Hfin Hacc Hhas Hign Hpriv].
  pose proof (wf_params _ Hwf). pose proof (wf_param_len _ Hwf).
  apply wp_ex. unfold dispatch_csi_sequence. prun; [lia..|].
  match goal with Hv : vslice _ _ _ = Some _ |- _ => rename Hv into Hs end.
  rewrite vslice_ok in Hs by lia. injection Hs as <-.
  simpl. rewrite drop_0, N.sub_0_r, Hlen, Nat2N.id, Hfin, Hpriv, Hign. split; [done|].
  unfold idle, quiescent. split_and!; try done. by auto with vt.
Qed.

(** The final byte closes the parameter being read, if there is one. *)
Lemma csi_final p fin acc has ign priv b l :
  csi_at p fin acc has ign priv → 64 ≤ b ≤ 126 →
  let open := has || negb (vlen fin =? 0) in
  ∃ p', csi_byte b (p, l) =
      Ret tt (p', l ++ [EvCsi (if open then push_param fin acc else fin) priv
                          (ign || open && (vlen fin =? MAX_PARAMS)) b]) ∧ idle p'.
Proof.
  intros Hp Hb open.
  assert (csi_byte b (p, l) =
    ((if has || negb (vlen fin =? 0) then finish_param else ret tt) ;;;
     dispatch_csi_sequence b) (p, l)) as ->.
  { destruct Hp as [_ _ _ Hlen _ _ Hhas _ _]. rewrite <-Hlen, <-Hhas.
    unfold csi_byte.
    replace (is_c0 b) with false by (unfold is_c0, inr; lia).
    replace (is_cancel b) with false by (unfold is_cancel; lia).
    replace (b =? 27) with false by lia. replace (b =? 59) with false by lia.
    replace (b =? 58) with false by lia. replace (inr 48 57 b) with false by (unfold inr; lia).
    replace (inr 60 63 b) with false by (unfold inr; lia).
    replace (inr 32 47 b) with false by (unfold inr; lia).
    by replace (inr 64 126 b) with true by (unfold inr; lia). }
  fold open. destruct open.
  - destruct (finish_param_at _ _ _ _ _ _ l Hp) as (p1 & H1 & Hp1).
    rewrite (bind_Ret _ _ _ _ _ H1). by eapply dispatch_csi_at.
  - rewrite (bind_Ret _ _ _ tt (p, l)) by done.
    rewrite andb_false_l, orb_false_r. by eapply dispatch_csi_at.
Qed.

(** Intermediate bytes are not kept: they flag the sequence as ignored. *)
Lemma csi_intermediates ims p fin acc has ign priv l :
  csi_at p fin acc has ign priv → Forall (λ b, 32 ≤ b ≤ 47) ims →
  ∃ p', drive ims (p, l) = Ret tt (p', l) ∧
    csi_at p' fin acc has (ign || negb (bool_decide (ims = []))) priv.
Proof.
  intros Hp Hims. revert p ign Hp. induction Hims as [|b ims Hb _ IH]; intros p ign Hp.
  { exists p. split; [done|]. by rewrite orb_false_r. }
  destruct (wp_ex (csi_byte b) (p, l) l (λ p', csi_at p' fin acc has true priv))
    as (p1 & H1 & Hp1).
  { destruct Hp as [[Hwf Hpb] ????????]. unfold csi_byte, is_c0, is_cancel, inr.
    prun; try lia. split; [done|]. split; simpl; try done. split; [|done]. by auto with vt. }
  destruct (IH p1 true Hp1) as (p2 & H2 & Hp2). exists p2.
  erewrite drive_csi_cons; [|apply Hp|done|apply Hp1]. split; [done|].
  by rewrite orb_true_r.
Qed.

Lemma csi_tail ims p fin acc has ign priv b l :
  csi_at p fin acc has ign priv → Forall (λ b, 32 ≤ b ≤ 47) ims → 64 ≤ b ≤ 126 →
  let open := has || negb (vlen fin =? 0) in
  ∃ p', drive (ims ++ [b]) (p, l) =
      Ret tt (p', l ++ [EvCsi (if open then push_param fin acc else fin) priv
        (ign || negb (bool_decide (ims = [])) || open && (vlen fin =? MAX_PARAMS)) b]) ∧ idle p'.
Proof.
  intros Hp Hims Hb open.
  destruct (csi_intermediates ims _ _ _ _ _ _ l Hp Hims) as (p1 & H1 & Hp1).
  destruct (csi_final _ _ _ _ _ _ b l Hp1 Hb) as (p2 & H2 & Hp2).
  exists p2. split; [|done]. rewrite (drive_app _ _ _ _ _ _ H1).
  by erewrite drive_csi_cons; [|apply Hp1|exact H2|apply Hp2].
Qed.
End csi.

(** A control sequence: an optional private marker, parameters written as strings of
    decimal digits and separated by semicolons, intermediate bytes and the final byte. *)
Fixpoint join_params (ps : list (list N)) : list N :=
  match ps with
  | [] => []
  | [ds] => (λ d, 48 + d) <$> ds
  | ds :: ps => ((λ d, 48 + d) <$> ds) ++ 59 :: join_params ps
  end.
Definition csi_bytes (priv : option N) (ps : list (list N)) (ims : list N) (final : N) : list N :=
  [27; 91] ++ option_list priv ++ join_params ps ++ ims ++ [final].

Definition param_value (ds : list N) : N := N.min (digits_value 0 ds) u16_max.
Definition csi_overflow (ps : list (list N)) : bool :=
  existsb (λ ds, u16_max <? digits_value 0 ds) ps.

Section csi_run.
Implicit Types (p : Parser) (l : list event).

Lemma push_param_take fin v :
  vlen fin ≤ MAX_PARAMS →
  push_param fin v = take (N.to_nat MAX_PARAMS) (fin ++ [N.min v u16_max]).
Proof.
  intros Hf. unfold push_param. destruct (_ =? _) eqn:?.
  - rewrite take_app_le by (unfold MAX_PARAMS in *; lia).
    rewrite take_ge; [done|]. unfold MAX_PARAMS in *; lia.
  - rewrite take_ge; [done|]. rewrite length_app. simpl. unfold MAX_PARAMS in *; lia.
Qed.

(** Reading the digits of one parameter, possibly none. *)
Lemma csi_param p fin ign priv ds l :
  csi_at p fin 0 false ign priv → Forall (λ d, d < 10) ds →
  ∃ p', drive ((λ d, 48 + d) <$> ds) (p, l) = Ret tt (p', l) ∧
    csi_at p' fin (N.min (digits_value 0 ds) u32_max) (negb (bool_decide (ds = [])))
           (ign || (u16_max <? digits_value 0 ds)) priv.
Proof.
  intros Hp Hds. destruct ds as [|d ds].
  - exists p. split; [done|]. unfold digits_value. simpl. by rewrite orb_false_r.
  - by eapply csi_digits.
Qed.

Lemma drive_params ps p fin ign priv ims final l :
  csi_at p fin 0 false ign priv → vlen fin ≤ MAX_PARAMS →
  Forall (λ b, 32 ≤ b ≤ 47) ims → 64 ≤ final ≤ 126 →
  Forall (Forall (λ d, d < 10)) ps → (fin ≠ [] ∨ ps ≠ [[]]) → ps ≠ [] →
  ∃ p', drive (join_params ps ++ ims ++ [final]) (p, l) =
      Ret tt (p', l ++ [EvCsi (take (N.to_nat MAX_PARAMS) (fin ++ (param_value <$> ps))) priv
        (ign || (MAX_PARAMS <? vlen fin + vlen ps) || csi_overflow ps
         || negb (bool_decide (ims = []))) final]) ∧ idle p'.
Proof.
  intros Hp Hfin Hims Hfinal Hps. revert p fin ign Hp Hfin.
  induction Hps as [|ds ps Hds Hps IH]; intros p fin ign Hp Hfin Hopen Hne; [done|].
  destruct (csi_param p fin ign priv ds l Hp Hds) as (p1 & H1 & Hp1).
  assert (push_param fin (N.min (digits_value 0 ds) u32_max)
          = take (N.to_nat MAX_PARAMS) (fin ++ [param_value ds])) as Hpush.
  { rewrite push_param_take by done. unfold param_value.
    do 3 f_equal. unfold u16_max, u32_max. lia. }
  destruct ps as [|ds' ps].
  - cbn [join_params]. rewrite (drive_app _ _ _ _ _ _ H1).
    destruct (csi_tail ims _ _ _ _ _ _ final l Hp1 Hims Hfinal) as (p2 & H2 & Hp2).
    exists p2. split; [|done]. rewrite H2.
    replace (negb (bool_decide (ds = [])) || negb (vlen fin =? 0)) with true.
    + rewrite Hpush. simpl. do 4 f_equal. unfold csi_overflow. simpl.
      unfold MAX_PARAMS in *. generalize (u16_max <? digits_value 0 ds). intros b.
      generalize (negb (bool_decide (ims = []))). intros b'.
      f_equal. rewrite orb_false_r. destruct ign, b, b'; cbn [orb]; lia.
    + destruct Hopen as [?|?].
      * destruct fin; [done|]. simpl. by rewrite orb_true_r.
      * destruct ds; [done|]. done.
  - destruct (csi_semicolon _ _ _ _ _ _ l Hp1) as (p2 & H2 & Hp2). rewrite Hpush in Hp2.
    destruct (IH _ _ _ Hp2) as (p3 & H3 & Hp3); [..|done|].
    { rewrite length_take. unfold MAX_PARAMS. lia. }
    { left. intros Hnil. apply (f_equal length) in Hnil.
      rewrite length_take, length_app in Hnil. unfold MAX_PARAMS in *. cbn [length] in Hnil. lia. }
    exists p3. split; [|done].
    change (join_params (ds :: ds' :: ps) ++ ims ++ [final])
      with ((((λ d, 48 + d) <$> ds) ++ 59 :: join_params (ds' :: ps)) ++ ims ++ [final]).
    rewrite <-(assoc_L (++)), (drive_app _ _ _ _ _ _ H1).
    rewrite <-app_comm_cons.
    erewrite drive_csi_cons; [|apply Hp1|exact H2|apply Hp2].
    rewrite H3. do 5 f_equal.
    + rewrite take_take_app, <-(assoc_L (++)). done.
    + rewrite length_take, length_app. unfold csi_overflow. cbn [existsb length].
      f_equal. generalize (u16_max <? digits_value 0 ds).
      generalize ((u16_max <? digits_value 0 ds')
                  || existsb (λ ds, u16_max <? digits_value 0 ds) ps). intros b1 b2.
      unfold MAX_PARAMS in *. destruct ign, b1, b2; cbn [orb]; lia.
Qed.
End csi_run.

Lemma join_params_ok ps : Forall (Forall (λ d, d < 10)) ps → bytes_ok (join_params ps).
Proof.
  assert (∀ ds, Forall (λ d, d < 10) ds → bytes_ok ((λ d, 48 + d) <$> ds)) as Hds.
  { intros ds Hds. apply Forall_fmap. eapply Forall_impl; [done|]. simpl. lia. }
  induction 1 as [|ds ps ? _ IH]; [constructor|].
  destruct ps as [|ds' ps]; [by apply Hds|].
  apply Forall_app. split; [by apply Hds|]. constructor; [lia|done].
Qed.

Definition csi_ok (priv : option N) (ps : list (list N)) (ims : list N) (final : N) : Prop :=
  (∀ b, priv = Some b → 60 ≤ b ≤ 63) ∧ Forall (Forall (λ d, d < 10)) ps ∧ ps ≠ [[]] ∧
  Forall (λ b, 32 ≤ b ≤ 47) ims ∧ 64 ≤ final ≤ 126.

Lemma csi_bytes_ok priv ps ims final :
  csi_ok priv ps ims final → bytes_ok (csi_bytes priv ps ims final).
Proof.
  intros (Hpriv & Hps & _ & Hims & Hf). repeat (constructor; [lia|]). repeat apply Forall_app_2.
  - destruct priv as [b|]; [|constructor]. pose proof (Hpriv b eq_refl).
    repeat constructor. lia.
  - by apply join_params_ok.
  - eapply Forall_impl; [exact Hims|]. simpl. lia.
  - repeat constructor. lia.
Qed.

(** What the parser reports for a control sequence. *)
Definition csi_event (priv : option N) (ps : list (list N)) (ims : list N) (final : N) : event :=
  EvCsi (take (N.to_nat MAX_PARAMS) (param_value <$> ps)) priv
        ((MAX_PARAMS <? vlen ps) || csi_overflow ps || negb (bool_decide (ims = []))) final.

Lemma drive_csi p l priv ps ims final :
  idle p → csi_ok priv ps ims final →
  ∃ p', drive (csi_bytes priv ps ims final) (p, l)
        = Ret tt (p', l ++ [csi_event priv ps ims final]) ∧ idle p'.
Proof.
  intros Hi (Hpriv & Hps & Hne & Hims & Hfinal).
  unfold csi_bytes.
  destruct (csi_enter p l (option_list priv ++ join_params ps ++ ims ++ [final]) Hi)
    as (p1 & H1 & Hp1). cbn [app]. rewrite H1. clear H1.
  assert (∃ p2, drive (option_list priv ++ join_params ps ++ ims ++ [final]) (p1, l)
                = drive (join_params ps ++ ims ++ [final]) (p2, l)
                ∧ csi_at p2 [] 0 false false priv) as (p2 & -> & Hp2).
  { destruct priv as [b|]; [|by exists p1]. simpl.
    destruct (csi_private p1 b l Hp1) as (p2 & H2 & Hp2); [auto|].
    exists p2. split; [|done]. erewrite drive_csi_cons; [done|apply Hp1|done|apply Hp2]. }
  destruct ps as [|ds ps].
  - destruct (csi_tail ims _ _ _ _ _ _ final l Hp2 Hims Hfinal) as (p3 & H3 & Hp3).
    exists p3. split; [|done]. cbn [join_params app]. rewrite H3. unfold csi_event.
    simpl. by rewrite orb_false_r.
  - destruct (drive_params (ds :: ps) _ _ _ _ ims final l Hp2) as (p3 & H3 & Hp3); try done.
    { by right. }
    exists p3. by rewrite H3.
Qed.

(** C4. A control sequence is read back as it was written: from an idle parser the
    bytes of a control sequence (introducer, marker, parameters separated by semicolons,
    intermediate bytes, final byte) make exactly one call, [csi] with the decimal
    values, the marker and the final byte.  Values above 65535 are clamped, parameters
    past the 32nd and all intermediates are dropped, and in these three cases, and only
    then, the sequence is flagged as ignored.  An empty parameter counts as 0. *)
Theorem feed_csi (p : Parser) (l : list event) (priv : option N) (ps : list (list N))
    (ims : list N) (final : N) :
  idle p → csi_ok priv ps ims final →
  ∃ p', feed (csi_bytes priv ps ims final) (p, l) =
      Ret tt (p', l ++ [EvCsi (take (N.to_nat MAX_PARAMS) (param_value <$> ps)) priv
        ((MAX_PARAMS <? vlen ps) || csi_overflow ps || negb (bool_decide (ims = []))) final])
    ∧ idle p'.
Proof.
  intros Hi Hok. rewrite feed_drive by (try apply Hi; by apply csi_bytes_ok).
  by apply drive_csi.
Qed.

Lemma feed_csi_witness :
  ∃ p', feed (csi_bytes (Some 63) [[1; 0; 4; 9]; []; [7; 0; 0; 0; 0]] [] 104) (new_parser, [])
      = Ret tt (p', [] ++ [EvCsi [1049; 0; 65535] (Some 63) true 104]) ∧ idle p'.
Proof.
  apply (feed_csi new_parser [] (Some 63) [[1; 0; 4; 9]; []; [7; 0; 0; 0; 0]] [] 104).
  - split; [exact new_parser_quiescent|done].
  - split_and!; [|repeat constructor; lia|done|constructor|lia|lia].
    intros b [= <-]. lia.
Defined.
