(* ===== verification/ProtocolReply.v ===== *)
(** Terminal-generated replies: [crates/seyal-terminal/src/protocol_reply.rs].

    A reply is built in a fixed buffer and copied into a [ProtocolReply].  The encoders
    run in the program monad over the buffer and the write position: a [Panic] is an
    index out of bounds or an arithmetic overflow, a [Fail] is the [?] that makes the
    encoder return [None].  The theorems show that no encoder does either, and that what
    they write is read back by the parser of [Parser.v] as the reply that was meant. *)

From S2P Require Import Prelude Utf8 Parser ParserSyntax.

Definition MAX_PROTOCOL_REPLIES : N := 16.
Definition MAX_PROTOCOL_REPLY_BYTES : N := 64.

Record ProtocolReply := mkReply { reply_len : N; reply_bytes : list N }.

(** [None] is the panic of the slice. *)
Definition as_bytes (r : ProtocolReply) : option (list N) :=
  vslice (reply_bytes r) 0 (reply_len r).

(** Outer [None]: panic; inner [None]: the function's [None]. *)
Definition from_slice (data : list N) : option (option ProtocolReply) :=
  if bool_decide (data = []) || (MAX_PROTOCOL_REPLY_BYTES <? vlen data) then Some None
  else
    let bytes := replicate (N.to_nat MAX_PROTOCOL_REPLY_BYTES) 0 in
    bytes ← vcopy_from bytes 0 data;
    Some (Some (mkReply (vlen data mod 256) bytes)).

(** The loop of [write_u16]: [i] counts down, and [i -= 1] at zero panics. *)
Fixpoint write_digits (i : nat) (tmp : list N) (n : N) : option (list N * nat) :=
  match i with
  | O => None
  | S i =>
    tmp ← vset tmp (N.of_nat i) (48 + n mod 10);
    if n / 10 =? 0 then Some (tmp, i) else write_digits i tmp (n / 10)
  end.

(** The state of an encoder: the buffer and the write position. *)
Definition Enc (A : Type) : Type := M unit (list N * N) A.

Definition put (byte : N) : Enc unit :=
  let! len := gets snd in
  let! buf := gets fst in
  let! buf := or_panic (vset buf len byte) in
  modify (λ _, (buf, len + 1)).

(** [len += write_u16(&mut buf[len..], value)?]. *)
Definition write_u16 (value : N) : Enc unit :=
  let! len := gets snd in
  let! buf := gets fst in
  let! out := or_panic (vslice buf len (vlen buf)) in
  let! (tmp, i) := or_panic (write_digits 5 (replicate 5 0) value) in
  let! digits := or_panic (vslice tmp (N.of_nat i) (vlen tmp)) in
  if vlen out <? vlen digits then fail tt
  else
    let! buf := or_panic (vcopy_from buf len digits) in
    modify (λ _, (buf, len + vlen digits)).

(** [ProtocolReply::from_slice(&buf[..len])] at the end of an encoder. *)
Definition close_reply : Enc ProtocolReply :=
  let! len := gets snd in
  let! buf := gets fst in
  let! data := or_panic (vslice buf 0 len) in
  let! r := or_panic (from_slice data) in
  match r with Some r => ret r | None => fail tt end.

(** Run an encoder on the zeroed buffer. *)
Definition run_encoder (m : Enc ProtocolReply) : option (option ProtocolReply) :=
  match m (replicate (N.to_nat MAX_PROTOCOL_REPLY_BYTES) 0, 0) with
  | Ret r _ => Some (Some r)
  | Fail _ _ => Some None
  | Panic | NoFuel => None
  end.

Definition encode_dsr_cpr (row col : N) : option (option ProtocolReply) := run_encoder (
  put 27 ;;; put 91 ;;;
  write_u16 (sat_add u16_max row 1) ;;;
  put 59 ;;;
  write_u16 (sat_add u16_max col 1) ;;;
  put 82 ;;;
  close_reply).

Definition encode_decrqm_private (mode status : N) : option (option ProtocolReply) := run_encoder (
  put 27 ;;; put 91 ;;; put 63 ;;;
  write_u16 mode ;;;
  put 59 ;;;
  write_u16 status ;;;
  put 36 ;;; put 121 ;;;
  close_reply).

(** [from_slice(b"\x1b[?1;2c")]. *)
Definition encode_primary_da : option (option ProtocolReply) :=
  from_slice [27; 91; 63; 49; 59; 50; 99].

Definition encode_kitty_flags (flags : N) : option (option ProtocolReply) :=
  let flags := N.land flags 3 in
  let bytes := replicate (N.to_nat MAX_PROTOCOL_REPLY_BYTES) 0 in
  bytes ← vcopy_from bytes 0 [27; 91; 63];
  bytes ← vset bytes 3 (48 + flags);
  bytes ← vset bytes 4 117;
  data ← vslice bytes 0 5;
  from_slice data.

(** * Correctness *)

Lemma digits_value_snoc acc ds d : digits_value acc (ds ++ [d]) = digits_value acc ds * 10 + d.
Proof. unfold digits_value. by rewrite foldl_app. Qed.

(** [ds] are the decimal digits of [n], most significant first. *)
Definition decimal (n : N) (ds : list N) : Prop :=
  ds ≠ [] ∧ Forall (λ d, d < 10) ds ∧ digits_value 0 ds = n.

(** The loop writes the digits of [n] just before index [i]. *)
Lemma write_digits_spec i tmp n :
  (i ≤ length tmp)%nat → (0 < i)%nat → n < 10 ^ N.of_nat i →
  ∃ tmp' i' ds, write_digits i tmp n = Some (tmp', i') ∧ (i' < i)%nat ∧
    length tmp' = length tmp ∧ decimal n ds ∧
    drop i' tmp' = ((λ d, 48 + d) <$> ds) ++ drop i tmp.
Proof.
  revert tmp n. induction i as [|i IH]; intros tmp n Hlen Hi Hn; [lia|].
  cbn [write_digits]. rewrite vset_ok by lia. cbn [mbind option_bind]. rewrite Nat2N.id.
  pose proof (N.mod_lt n 10) as Hmod. pose proof (N.div_mod n 10) as Hdm.
  assert (drop i (<[i := 48 + n mod 10]> tmp) = (48 + n mod 10) :: drop (S i) tmp) as Hdrop.
  { rewrite (drop_S _ (48 + n mod 10) i) by (apply list_lookup_insert_eq; lia).
    f_equal. rewrite drop_insert_lt by lia. done. }
  destruct (n / 10 =? 0) eqn:Hz; to_prop.
  - eexists _, i, [n mod 10]. split_and!; [done|lia|by rewrite length_insert| |done].
    split_and!; [done|repeat constructor; lia|]. unfold digits_value. simpl. lia.
  - assert ((0 < i)%nat) as Hi0.
    { destruct i; [|lia]. simpl in Hn. pose proof (N.div_small n 10). lia. }
    destruct (IH (<[i := 48 + n mod 10]> tmp) (n / 10)) as (tmp' & i' & ds & -> & Hi' & Hl & Hd & Hdr).
    { rewrite length_insert. lia. }
    { done. }
    { apply N.Div0.div_lt_upper_bound. replace (N.of_nat (S i)) with (N.succ (N.of_nat i)) in Hn by lia.
      by rewrite N.pow_succ_r' in Hn. }
    rewrite length_insert in Hl. destruct Hd as (Hne & Hall & Hval).
    exists tmp', i', (ds ++ [n mod 10]). split_and!; [done|lia|done| |].
    + split_and!; [by destruct ds|apply Forall_app; split; [done|repeat constructor; lia]|].
      rewrite digits_value_snoc, Hval. lia.
    + rewrite Hdr, Hdrop, fmap_app, <-(assoc_L (++)). done.
Qed.

(** The bytes written so far into a buffer of [cap] bytes. *)
Definition wrote (cap : N) (bs : list N) (s : list N * N) : Prop :=
  vlen s.1 = cap ∧ s.2 = vlen bs ∧ take (length bs) s.1 = bs.

Lemma wrote_ext cap bs ds s buf' :
  wrote cap bs s → vcopy_from s.1 s.2 ds = Some buf' → wrote cap (bs ++ ds) (buf', s.2 + vlen ds).
Proof.
  destruct s as [buf len]. intros (Hb & Hl & Ht) Hc. unfold vcopy_from in Hc. simpl in *.
  destruct (_ <=? _) eqn:Hle; [|done]. injection Hc as <-. to_prop.
  subst len. rewrite Nat2N.id, Ht. unfold wrote. simpl. split_and!.
  - rewrite !length_app, length_drop. lia.
  - rewrite length_app. lia.
  - rewrite length_app, (assoc_L (++)). apply take_app_length'. by rewrite length_app.
Qed.

Lemma wp_put cap bs b Q F s :
  wrote cap bs s → vlen bs < cap → (∀ s', wrote cap (bs ++ [b]) s' → Q tt s') →
  wp (put b) Q F s.
Proof.
  destruct s as [buf len]. intros Hw Hlt HQ. unfold put. wp_run.
  pose proof Hw as (Hb & Hl & Ht). simpl in *.
  assert (vset buf len b = vcopy_from buf len [b]) as Heq.
  { unfold vset, vcopy_from. cbn [length]. subst len.
    destruct (_ <? _) eqn:?, (_ <=? _) eqn:?; to_prop; try lia; try done.
    f_equal. rewrite Nat2N.id, insert_take_drop by lia. do 3 f_equal. lia. }
  apply wp_vset; [lia|]. intros buf' Hs. wp_run. rewrite Heq in Hs.
  apply HQ. by apply (wrote_ext cap bs [b] (buf, len)).
Qed.

Lemma wp_write_u16 cap bs v Q F s :
  wrote cap bs s → vlen bs + 5 ≤ cap → v ≤ u16_max →
  (∀ ds s', decimal v ds → vlen ds ≤ 5 → wrote cap (bs ++ ((λ d, 48 + d) <$> ds)) s' → Q tt s') →
  wp (write_u16 v) Q F s.
Proof.
  destruct s as [buf len]. intros Hw Hlt Hv HQ. unfold write_u16. wp_run.
  pose proof Hw as (Hb & Hl & Ht). simpl in *.
  apply wp_vslice; [lia..|]. intros out Hout. wp_run.
  destruct (write_digits_spec 5 (replicate 5 0) v) as (tmp & i & ds & Hwd & Hi & Htl & Hd & Hdr).
  { done. } { lia. } { unfold u16_max in Hv. simpl. lia. }
  rewrite app_nil_r in Hdr. simpl in Htl.
  eapply wp_or_panic; [exact Hwd|]. cbv beta iota. wp_step.
  apply wp_vslice; [lia..|]. intros digits Hdig. rewrite vslice_ok in Hdig by lia.
  injection Hdig as <-. rewrite take_ge by (rewrite length_drop; lia). rewrite Nat2N.id, Hdr.
  assert (length ds ≤ 5)%nat as Hds.
  { apply (f_equal length) in Hdr. rewrite length_drop, length_fmap in Hdr. lia. }
  wp_run; vlens; rewrite ?length_fmap in *; to_prop; [lia|].
  eapply wp_or_panic.
  { unfold vcopy_from. rewrite length_fmap. by destruct (_ <=? _) eqn:?; [|to_prop; lia]. }
  wp_run. eapply HQ; [done|lia|].
  replace (len + vlen ds) with (len + vlen ((λ d, 48 + d) <$> ds)) by (by rewrite length_fmap).
  apply (wrote_ext cap bs _ (buf, len)); [done|]. unfold vcopy_from. simpl. rewrite length_fmap.
  by destruct (_ <=? _) eqn:?; [|to_prop; lia].
Qed.

Lemma from_slice_ok data :
  data ≠ [] → vlen data ≤ MAX_PROTOCOL_REPLY_BYTES →
  ∃ r, from_slice data = Some (Some r) ∧ as_bytes r = Some data.
Proof.
  intros Hne Hlen. unfold from_slice. rewrite bool_decide_false by done.
  destruct (_ <? _) eqn:?; to_prop; [lia|]. cbn [orb]. unfold vcopy_from.
  rewrite length_replicate, N.add_0_l.
  destruct (_ <=? _) eqn:?; to_prop; [|lia]. cbn [mbind option_bind].
  eexists. split; [done|]. unfold as_bytes. cbn [reply_len reply_bytes].
  rewrite N.mod_small by (unfold MAX_PROTOCOL_REPLY_BYTES in *; lia).
  change (take (N.to_nat 0) ?x) with (@nil N). rewrite app_nil_l.
  rewrite vslice_ok; [|lia|rewrite length_app; lia].
  by rewrite N.sub_0_r, Nat2N.id, drop_0, take_app_length.
Qed.

Lemma wp_close_reply bs Q F s :
  wrote MAX_PROTOCOL_REPLY_BYTES bs s → bs ≠ [] → vlen bs ≤ MAX_PROTOCOL_REPLY_BYTES →
  (∀ r, as_bytes r = Some bs → Q r s) → wp close_reply Q F s.
Proof.
  destruct s as [buf len]. intros (Hb & Hl & Ht) Hne Hlen HQ. unfold close_reply. wp_run.
  apply wp_vslice; [lia..|]. intros data Hd. wp_run. rewrite vslice_ok in Hd by lia.
  injection Hd as <-. rewrite drop_0, N.sub_0_r, Hl, Nat2N.id, Ht.
  destruct (from_slice_ok bs) as (r & Hr & Has); [done..|].
  eapply wp_or_panic; [done|]. wp_run. rewrite <-Hl. by apply HQ.
Qed.

(** An encoder neither panics nor declines, and a parser that receives the reply makes
    exactly the call [e]. *)
Definition reads_back (reply : option (option ProtocolReply)) (e : event) : Prop :=
  ∃ r bytes, reply = Some (Some r) ∧ as_bytes r = Some bytes ∧
    ∀ p l, idle p → ∃ p', feed bytes (p, l) = Ret tt (p', l ++ [e]) ∧ idle p'.

Lemma reads_back_csi r priv ps ims final :
  as_bytes r = Some (csi_bytes priv ps ims final) → csi_ok priv ps ims final →
  reads_back (Some (Some r)) (csi_event priv ps ims final).
Proof.
  intros Hr Hok. eexists _, _. split_and!; [done..|]. intros p l Hi.
  rewrite feed_drive by (try apply Hi; by apply csi_bytes_ok). by apply drive_csi.
Qed.

Lemma reads_back_run m e :
  wp m (λ r _, ∃ priv ps ims final, as_bytes r = Some (csi_bytes priv ps ims final) ∧
          csi_ok priv ps ims final ∧ csi_event priv ps ims final = e) (λ _ _, False)
    (replicate (N.to_nat MAX_PROTOCOL_REPLY_BYTES) 0, 0) →
  reads_back (run_encoder m) e.
Proof.
  unfold wp, run_encoder in *. destruct (m _); try done.
  intros (priv & ps & ims & final & Has & Hok & <-). by apply reads_back_csi.
Qed.

(** The event of a sequence whose parameters are the decimal digits of [vs]. *)
Lemma csi_event_values vs dss priv ims final :
  Forall2 decimal vs dss → Forall (λ v, v ≤ u16_max) vs → vlen vs ≤ MAX_PARAMS →
  csi_event priv dss ims final = EvCsi vs priv (negb (bool_decide (ims = []))) final.
Proof.
  intros Hd Hv Hlen. unfold csi_event.
  assert (param_value <$> dss = vs ∧ csi_overflow dss = false) as [Hps Hov].
  { clear Hlen. induction Hd as [|v ds vs dss (_ & _ & Hval) _ IH]; [done|].
    apply Forall_cons in Hv as [Hv Hvs]. destruct (IH Hvs) as [IH1 IH2].
    unfold csi_overflow, param_value in *. cbn [existsb fmap list_fmap]. rewrite IH1, IH2, Hval.
    split; [f_equal; lia|]. destruct (_ <? _) eqn:E; [to_prop; lia|done]. }
  rewrite Hps, Hov, take_ge by (unfold MAX_PARAMS in *; lia).
  apply Forall2_length in Hd. rewrite <-Hd.
  destruct (MAX_PARAMS <? _) eqn:E; [to_prop; lia|done].
Qed.

Lemma csi_ok_values vs dss priv ims final :
  Forall2 decimal vs dss → (∀ b, priv = Some b → 60 ≤ b ≤ 63) →
  Forall (λ b, 32 ≤ b ≤ 47) ims → 64 ≤ final ≤ 126 → csi_ok priv dss ims final.
Proof.
  intros Hd Hp Hi Hf. split_and!; [done| | |done|apply Hf..].
  - clear -Hd. induction Hd as [|v ds vs dss (_ & ? & _) _ IH]; by constructor.
  - intros ->. inversion Hd as [|v ds ? ? (Hne & _ & _) _]; done.
Qed.

Lemma wrote_nil cap : wrote cap [] (replicate (N.to_nat cap) 0, 0).
Proof. unfold wrote. simpl. rewrite length_replicate. split_and!; [lia|done..]. Qed.

(** Run an encoder over what it wrote so far. *)
Ltac wrote_bound :=
  rewrite ?length_app, ?length_fmap; cbn [length]; unfold MAX_PROTOCOL_REPLY_BYTES; lia.
Ltac encode :=
  repeat first
    [ apply wp_bind; eapply wp_put; [eassumption|wrote_bound|]; intros ? ?
    | apply wp_bind; eapply wp_write_u16; [eassumption|wrote_bound|unfold sat_add; lia|];
      intros ? ? ? ? ? ];
  eapply wp_close_reply; [eassumption|by intros [_ [=]]%app_nil|wrote_bound|]; intros ? Has.

Lemma encode_dsr_cpr_reads_back row col :
  row ≤ u16_max → col ≤ u16_max →
  reads_back (encode_dsr_cpr row col)
    (EvCsi [sat_add u16_max row 1; sat_add u16_max col 1] None false 82).
Proof.
  intros Hr Hc. apply reads_back_run. pose proof (wrote_nil MAX_PROTOCOL_REPLY_BYTES) as Hw. encode.
  exists None, [ds; ds0], [], 82. split_and!.
  - rewrite Has. unfold csi_bytes. cbn [join_params option_list]. by rewrite <-!app_assoc.
  - by eapply (csi_ok_values [_; _]); eauto.
  - apply (csi_event_values [_; _]); [by eauto|repeat constructor; unfold sat_add; lia|done].
Qed.

Lemma encode_decrqm_private_reads_back mode status :
  mode ≤ u16_max → status ≤ u16_max →
  reads_back (encode_decrqm_private mode status) (EvCsi [mode; status] (Some 63) true 121).
Proof.
  intros Hr Hc. apply reads_back_run. pose proof (wrote_nil MAX_PROTOCOL_REPLY_BYTES) as Hw. encode.
  exists (Some 63), [ds; ds0], [36], 121. split_and!.
  - rewrite Has. unfold csi_bytes. cbn [join_params option_list]. by rewrite <-!app_assoc.
  - eapply (csi_ok_values [_; _]); [by eauto|by intros b [= <-]|repeat constructor; lia|done].
  - by apply (csi_event_values [_; _]); eauto.
Qed.

Lemma encode_primary_da_reads_back :
  reads_back encode_primary_da (EvCsi [1; 2] (Some 63) false 99).
Proof.
  destruct (from_slice_ok [27; 91; 63; 49; 59; 50; 99]) as (r & Hr & Has); [done..|].
  unfold encode_primary_da. rewrite Hr.
  apply (reads_back_csi r (Some 63) [[1]; [2]] [] 99); [done|].
  split_and!; [by intros b [= <-]|repeat constructor; lia|done|constructor|lia..].
Qed.

Lemma encode_kitty_flags_reads_back flags :
  reads_back (encode_kitty_flags flags) (EvCsi [N.land flags 3] (Some 63) false 117).
Proof.
  assert (N.land flags 3 < 4) as Hf.
  { change 3 with (N.ones 2). rewrite N.land_ones. by apply N.mod_lt. }
  unfold encode_kitty_flags. generalize dependent (N.land flags 3). intros f Hf.
  destruct (from_slice_ok (csi_bytes (Some 63) [[f]] [] 117)) as (r & Hr & Has); [done..|].
  change (reads_back (from_slice (csi_bytes (Some 63) [[f]] [] 117))
            (EvCsi [f] (Some 63) false 117)).
  rewrite Hr.
  replace (EvCsi [f] (Some 63) false 117) with (csi_event (Some 63) [[f]] [] 117).
  - apply reads_back_csi; [done|].
    split_and!; [by intros b [= <-]|repeat constructor; lia|done|constructor|lia..].
  - assert (f = 0 ∨ f = 1 ∨ f = 2 ∨ f = 3) as [->|[->|[->| ->]]] by lia; done.
Qed.

(** C5. Every reply the terminal generates is well formed: the encoders of the cursor
    position report, of the private-mode report, of the primary device attributes and of
    the keyboard flags never index out of their buffer and never give up, and a parser
    that reads the reply makes exactly one call, with the (1-based, saturated) position,
    the mode and its status, the attributes, or the flags masked to two bits. *)
Theorem replies_read_back (row col mode status flags : N) :
  row ≤ u16_max → col ≤ u16_max → mode ≤ u16_max → status ≤ u16_max →
  reads_back (encode_dsr_cpr row col)
    (EvCsi [sat_add u16_max row 1; sat_add u16_max col 1] None false 82) ∧
  reads_back (encode_decrqm_private mode status) (EvCsi [mode; status] (Some 63) true 121) ∧
  reads_back encode_primary_da (EvCsi [1; 2] (Some 63) false 99) ∧
  reads_back (encode_kitty_flags flags) (EvCsi [N.land flags 3] (Some 63) false 117).
Proof.
  intros. split_and!.
  - by apply encode_dsr_cpr_reads_back.
  - by apply encode_decrqm_private_reads_back.
  - apply encode_primary_da_reads_back.
  - apply encode_kitty_flags_reads_back.
Qed.

Lemma replies_read_back_witness :
  reads_back (encode_dsr_cpr 65535 79) (EvCsi [65535; 80] None false 82) ∧
  reads_back (encode_decrqm_private 2027 1) (EvCsi [2027; 1] (Some 63) true 121) ∧
  reads_back encode_primary_da (EvCsi [1; 2] (Some 63) false 99) ∧
  reads_back (encode_kitty_flags 7) (EvCsi [3] (Some 63) false 117).
Proof. apply (replies_read_back 65535 79 2027 1 7); unfold u16_max; lia. Defined.
