(* ===== verification/Damage.v ===== *)
(** Damage tracking: [crates/seyal-terminal/src/damage.rs].

    A [Mutation] is the range of rows an operation touched.  The tracker merges the
    mutations of a feed, publishes them on [commit] and hands them out on [take].  The
    specification is a log of mutations; the theorem says that what [take] returns is
    the hull of everything committed since the previous [take]. *)

From S2P Require Import Prelude.

Record Damage := mkDamage {
  dmg_generation : N; dmg_full : bool; dmg_first_row : N; dmg_last_row : N }.

Record Mutation := mkMutation { full : bool; first_row : option N; last_row : N }.

Definition mut_none : Mutation := mkMutation false None 0.

Definition mut_row (row : N) : Mutation := mkMutation false (Some row) row.

Definition mut_rows (first last : N) : Mutation :=
  mkMutation false (Some (N.min first last)) (N.max first last).

Definition mut_full (rows : N) : Mutation := mkMutation true (Some 0) (rows - 1).

Definition merge (self other : Mutation) : Mutation :=
  match first_row self, first_row other with
  | None, _ => other
  | _, None => self
  | Some a, Some b =>
    mkMutation (full self || full other) (Some (N.min a b)) (N.max (last_row self) (last_row other))
  end.

Record DamageTracker := mkTracker {
  generation : N; dirty : Mutation; published : option Damage }.

Definition new_tracker : DamageTracker := mkTracker 0 mut_none None.

Definition mark (mutation : Mutation) (t : DamageTracker) : DamageTracker :=
  t <| dirty := merge (dirty t) mutation |>.

Definition commit (t : DamageTracker) : DamageTracker :=
  match first_row (dirty t) with
  | None => t
  | Some first =>
    let gen := sat_add u64_max (generation t) 1 in
    let next := mkDamage gen (full (dirty t)) first (last_row (dirty t)) in
    mkTracker gen mut_none
      (Some (match published t with
             | None => next
             | Some previous =>
               mkDamage (dmg_generation next) (dmg_full previous || dmg_full next)
                 (N.min (dmg_first_row previous) (dmg_first_row next))
                 (N.max (dmg_last_row previous) (dmg_last_row next))
             end))
  end.

Definition take_damage (t : DamageTracker) : option Damage * DamageTracker :=
  (published t, t <| published := None |>).

(** * Specification *)

Inductive op := Mark (m : Mutation) | Commit | Take.

Definition run_op (t : DamageTracker) (o : op) : DamageTracker :=
  match o with
  | Mark m => mark m t
  | Commit => commit t
  | Take => (take_damage t).2
  end.

(** What the tracker stands for: the mutations marked and not committed, the mutations
    committed and not taken, and the number of commits that had something to publish. *)
Record ledger := mkLedger { pending : list Mutation; committed : list Mutation; commits : N }.

Definition touching (ms : list Mutation) : list Mutation :=
  filter (λ m, first_row m ≠ None) ms.

Definition run_ledger (a : ledger) (o : op) : ledger :=
  match o with
  | Mark m => mkLedger (pending a ++ [m]) (committed a) (commits a)
  | Commit =>
    mkLedger [] (committed a ++ pending a)
      (if decide (touching (pending a) = []) then commits a else commits a + 1)
  | Take => mkLedger (pending a) [] (commits a)
  end.

Definition new_ledger : ledger := mkLedger [] [] 0.

(** The smallest range that covers a list of mutations. *)
Definition hull (ms : list Mutation) : option (bool * N * N) :=
  foldr (λ m acc,
    match first_row m, acc with
    | None, _ => acc
    | Some a, None => Some (full m, a, last_row m)
    | Some a, Some (f, b, l) => Some (full m || f, N.min a b, N.max (last_row m) l)
    end) None ms.

Definition range_of (m : Mutation) : option (bool * N * N) :=
  match first_row m with Some a => Some (full m, a, last_row m) | None => None end.
Definition damage_range (d : Damage) : bool * N * N := (dmg_full d, dmg_first_row d, dmg_last_row d).

(** * Correctness *)

Definition join (x y : option (bool * N * N)) : option (bool * N * N) :=
  match x, y with
  | None, _ => y
  | _, None => x
  | Some (f, a, l), Some (g, b, k) => Some (f || g, N.min a b, N.max l k)
  end.

Lemma join_assoc x y z : join x (join y z) = join (join x y) z.
Proof.
  destruct x as [[[? ?] ?]|], y as [[[? ?] ?]|], z as [[[? ?] ?]|]; simpl; try done.
  by rewrite orb_assoc, N.min_assoc, N.max_assoc.
Qed.

Lemma join_None_r x : join x None = x.
Proof. by destruct x as [[[? ?] ?]|]. Qed.

Lemma hull_cons m ms : hull (m :: ms) = join (range_of m) (hull ms).
Proof.
  unfold hull, range_of. simpl. destruct (first_row m); [|done].
  by destruct (foldr _ None ms) as [[[? ?] ?]|].
Qed.

Lemma hull_app ms ns : hull (ms ++ ns) = join (hull ms) (hull ns).
Proof.
  induction ms as [|m ms IH]; [done|].
  by rewrite <-app_comm_cons, !hull_cons, IH, join_assoc.
Qed.

Lemma range_merge m n : range_of (merge m n) = join (range_of m) (range_of n).
Proof.
  unfold range_of, merge.
  by destruct (first_row m) eqn:E1, (first_row n) eqn:E2; simpl; rewrite ?E1, ?E2.
Qed.

Lemma hull_None ms : hull ms = None ↔ touching ms = [].
Proof.
  induction ms as [|m ms IH]; [done|]. rewrite hull_cons. unfold touching, range_of in *.
  rewrite filter_cons. destruct (first_row m) as [a|]; simpl; [|done].
  by destruct (hull ms) as [[[? ?] ?]|].
Qed.

(** The concrete tracker implements the ledger. *)
Record implements (t : DamageTracker) (a : ledger) : Prop := {
  imp_dirty : range_of (dirty t) = hull (pending a);
  imp_published : damage_range <$> published t = hull (committed a);
  imp_generation : generation t = N.min (commits a) u64_max;
  imp_stamp : ∀ d, published t = Some d → dmg_generation d = generation t;
}.

Lemma run_op_implements t a o : implements t a → implements (run_op t o) (run_ledger a o).
Proof.
  intros [Hd Hp Hg Hs]. destruct o as [m| |]; simpl.
  - split; simpl; try done. by rewrite range_merge, hull_app, Hd, hull_cons, join_None_r.
  - unfold commit. destruct (first_row (dirty t)) as [first|] eqn:Hf.
    + assert (range_of (dirty t) = Some (full (dirty t), first, last_row (dirty t))) as Hr
        by (unfold range_of; by rewrite Hf).
      rewrite Hr in Hd. destruct (decide _) as [Ht|_].
      { apply hull_None in Ht. congruence. }
      split; simpl.
      * done.
      * rewrite hull_app, <-Hd, <-Hp. by destruct (published t).
      * unfold sat_add. lia.
      * intros d [= <-]. by destruct (published t).
    + assert (hull (pending a) = None) as Hn by (rewrite <-Hd; unfold range_of; by rewrite Hf).
      rewrite decide_True by by apply hull_None.
      split; simpl; try done.
      * unfold range_of. by rewrite Hf.
      * by rewrite hull_app, Hn, join_None_r.
  - split; simpl; try done.
Qed.

Lemma run_implements ops t a :
  implements t a → implements (foldl run_op t ops) (foldl run_ledger a ops).
Proof.
  revert t a. induction ops as [|o ops IH]; intros t a H; [done|].
  simpl. by apply IH, run_op_implements.
Qed.

Lemma new_implements : implements new_tracker new_ledger.
Proof. by split. Qed.

Lemma hull_covers ms m a :
  m ∈ ms → first_row m = Some a →
  ∃ f b l, hull ms = Some (f, b, l) ∧ b ≤ a ∧ last_row m ≤ l ∧ (full m = true → f = true).
Proof.
  intros Hm Ha. induction ms as [|m' ms IH]; [by apply not_elem_of_nil in Hm|].
  rewrite hull_cons. apply elem_of_cons in Hm as [<-|Hm].
  - unfold range_of. rewrite Ha. destruct (hull ms) as [[[f b] l]|]; simpl.
    + eexists _, _, _. split_and!; [done|lia..|]. by intros ->.
    + eexists _, _, _. split_and!; [done|lia..|done].
  - destruct (IH Hm) as (f & b & l & -> & ? & ? & Hf).
    destruct (range_of m') as [[[f' b'] l']|]; simpl.
    + eexists _, _, _. split_and!; [done|lia..|]. intros ->%Hf. apply orb_true_r.
    + eexists _, _, _. by split_and!.
Qed.

(** C6. Damage is the exact summary of the mutations: after any sequence of marks,
    commits and takes, [take] returns nothing exactly when no mutation that touches a row
    was committed since the previous [take], and otherwise a range that is the hull of
    these mutations (so it covers every one of them), flagged full if one of them was,
    and stamped with the number of commits that had something to publish, saturated at
    the largest 64-bit value. *)
Theorem take_damage_hull (ops : list op) :
  let t := foldl run_op new_tracker ops in
  let a := foldl run_ledger new_ledger ops in
  match (take_damage t).1 with
  | None => touching (committed a) = []
  | Some d =>
    hull (committed a) = Some (damage_range d) ∧
    dmg_generation d = N.min (commits a) u64_max ∧
    (∀ m r, m ∈ committed a → first_row m = Some r →
      dmg_first_row d ≤ r ∧ last_row m ≤ dmg_last_row d ∧ (full m = true → dmg_full d = true))
  end.
Proof.
  intros t a. destruct (run_implements ops _ _ new_implements) as [_ Hp Hg Hs].
  fold t a in Hp, Hg, Hs. simpl. destruct (published t) as [d|].
  - split_and!; [done|by rewrite Hs|]. intros m r Hm Hr.
    destruct (hull_covers _ m r Hm Hr) as (f & b & l & Hh & ? & ? & ?).
    rewrite Hh in Hp. injection Hp as <- <- <-. done.
  - by apply hull_None.
Qed.
