(* ===== verification/Types.v ===== *)
(** The data the terminal components share: cells, styles, cursor, modes, errors and line
    identities ([cell.rs], [color.rs], [style.rs], [cursor.rs], [modes.rs], [error.rs],
    [line.rs], and the plain types of [history/types.rs] and [grapheme_store.rs]). *)

From S2P Require Import Prelude.

Inductive TerminalError := InvalidSize | LineIdentityExhausted.

Inductive Color :=
| ColorDefault
| Indexed (i : N)
| Rgb (r g b : N).
#[global] Instance Color_eq_dec : EqDecision Color.
Proof. solve_decision. Defined.

Record Style := mkStyle {
  fg : Color; bg : Color; bold : bool; underline : bool; inverse : bool }.
#[global] Instance Style_eq_dec : EqDecision Style.
Proof. solve_decision. Defined.

Definition style_default : Style := mkStyle ColorDefault ColorDefault false false false.

Inductive CellRole := Empty | Lead | Continuation.
#[global] Instance CellRole_eq_dec : EqDecision CellRole.
Proof. solve_decision. Defined.

(** Sentinel store id meaning the lead uses only the inline scalar. *)
Definition INLINE_STORE_ID : N := u32_max.

Inductive StoreAdmit := Inline | Stored (id : N) | OverflowSentinel.

Record Cell := mkCell {
  character : N; cell_style : Style; role : CellRole; width : N; store_id : N; overflow : bool }.
#[global] Instance Cell_eq_dec : EqDecision Cell.
Proof. solve_decision. Defined.

Definition blank (background : Color) : Cell :=
  mkCell 32 (style_default <| bg := background |>) Empty 0 INLINE_STORE_ID false.

Definition cell_default : Cell := blank ColorDefault.

Definition lead_inline (ch w : N) (st : Style) : Cell := mkCell ch st Lead w INLINE_STORE_ID false.

Definition lead_from_admit (first w : N) (st : Style) (adm : StoreAdmit) : Cell :=
  match adm with
  | Inline => lead_inline first w st
  | Stored id => mkCell first st Lead w id false
  | OverflowSentinel => mkCell 65533 st Lead w INLINE_STORE_ID true
  end.

Definition continuation : Cell := mkCell 32 style_default Continuation 0 INLINE_STORE_ID false.

Definition is_continuation (c : Cell) : bool := bool_decide (role c = Continuation).
Definition is_lead (c : Cell) : bool := bool_decide (role c = Lead).

Definition canonical_scalar (c : Cell) : N :=
  if overflow c then 65533
  else match role c with Lead => character c | Empty | Continuation => 32 end.

Record Cursor := mkCursor { col : N; row : N; pending_wrap : bool }.

Definition cursor_default : Cursor := mkCursor 0 0 false.

Definition clamp (cols rows : N) (c : Cursor) : Cursor :=
  mkCursor (N.min (col c) (cols - 1)) (N.min (row c) (rows - 1)) false.

Record CursorState := mkCursorState { cs_col : N; cs_row : N; cs_visible : bool }.

Inductive MouseReporting := MouseOff | MouseButton | MouseButtonDrag | MouseAny.
#[global] Instance MouseReporting_eq_dec : EqDecision MouseReporting.
Proof. solve_decision. Defined.

Record ModeState := mkModes {
  alternate_screen : bool; cursor_visible : bool; unicode_core : bool; wraparound : bool;
  bracketed_paste : bool; application_cursor : bool; application_keypad : bool;
  keyboard_flags : N; mouse_reporting : MouseReporting; mouse_sgr : bool }.

Definition modes_default : ModeState :=
  mkModes false true true true false false false 0 MouseOff false.

Definition LineId := N.

Inductive HistoryBreakAfter := HardBreak | SoftWrap.
#[global] Instance HistoryBreakAfter_eq_dec : EqDecision HistoryBreakAfter.
Proof. solve_decision. Defined.

Record HistoryAnchor := mkAnchor { a_line_id : LineId; unit_offset : N }.
#[global] Instance HistoryAnchor_eq_dec : EqDecision HistoryAnchor.
Proof. solve_decision. Defined.
