(* ===== verification/LineIds.v ===== *)
(** Line identities: the allocator of [crates/seyal-terminal/src/line.rs].

    Every row of a screen carries a 64-bit identity.  The allocator hands them out in
    increasing order, fails explicitly after the last one and never wraps. *)

From S2P Require Import Prelude Types.

Record LineIdAllocator := mkAllocator { next : option N }.

Definition new_allocator : LineIdAllocator := mkAllocator (Some 1).

Definition can_allocate (count : N) (a : LineIdAllocator) : bool :=
  if count =? 0 then true
  else match next a with
       | None => false
       | Some next => bool_decide (is_Some (checked_add u64_max next (count - 1)))
       end.

Definition allocate : M TerminalError LineIdAllocator LineId :=
  let! next := gets next in
  match next with
  | None => fail LineIdentityExhausted
  | Some current => modify (λ _, mkAllocator (checked_add u64_max current 1)) ;;; ret current
  end.

(** The identities still to be issued fit 64 bits. *)
Definition alloc_wf (a : LineIdAllocator) : Prop := ∀ n, next a = Some n → n ≤ u64_max.

(** [n] successive allocations. *)
Fixpoint allocate_n (n : nat) : M TerminalError LineIdAllocator (list LineId) :=
  match n with
  | O => ret []
  | S n => let! id := allocate in let! ids := allocate_n n in ret (id :: ids)
  end.

(** * Correctness *)

(** [seqN lo n] is [lo, lo+1, ..., lo+n-1]. *)
Definition ids_from (lo : N) (n : nat) : list LineId := (λ i, lo + N.of_nat i) <$> seq 0 n.

Lemma ids_from_S lo n : ids_from lo (S n) = lo :: ids_from (lo + 1) n.
Proof.
  unfold ids_from. simpl. f_equal; [lia|]. rewrite <-seq_shift, <-list_fmap_compose.
  apply list_fmap_ext. intros i x _. simpl. lia.
Qed.

Lemma allocate_spec (a : LineIdAllocator) :
  alloc_wf a →
  wp allocate
    (λ id a', next a = Some id ∧ id ≤ u64_max ∧ alloc_wf a' ∧
              next a' = checked_add u64_max id 1)
    (λ e a', e = LineIdentityExhausted ∧ a' = a ∧ next a = None) a.
Proof.
  intros Hwf. unfold allocate. wp_run; [|by destruct a].
  split_and!; [done|by apply Hwf| |done]. unfold alloc_wf, checked_add. cbn [next]. intros m.
  destruct (_ <=? _) eqn:?; intros [= <-]. to_prop. lia.
Qed.

Lemma can_allocate_spec n a :
  can_allocate n a = true ↔ n = 0 ∨ ∃ m, next a = Some m ∧ m + n ≤ u64_max + 1.
Proof.
  unfold can_allocate, checked_add. destruct (n =? 0) eqn:Hn; to_prop; [tauto|].
  destruct (next a) as [m|]; [|by split; [done|intros [?|(? & [=] & _)]]]. rewrite bool_decide_eq_true.
  destruct (m + (n - 1) <=? u64_max) eqn:Hle; to_prop; split.
  - intros _. right. exists m. split; [done|lia].
  - by eexists.
  - by intros [? [=]].
  - intros [->|(? & [= <-] & ?)]; lia.
Qed.

Lemma can_allocate_0 a : can_allocate 0 a = true.
Proof. done. Qed.

(** After one allocation there is room for one identity less. *)
Lemma can_allocate_succ n a a' id :
  next a = Some id → id ≤ u64_max → next a' = checked_add u64_max id 1 →
  can_allocate (n + 1) a = can_allocate n a'.
Proof.
  intros Hn Hid Hn'. apply eq_true_iff_eq. rewrite !can_allocate_spec, Hn, Hn'.
  unfold checked_add. split.
  - intros [?|(m & [= <-] & Hm)]; [lia|]. destruct (decide (n = 0)); [by left|right].
    destruct (_ <=? _) eqn:?; to_prop; [|lia]. eexists. split; [done|lia].
  - intros [->|(m & Hm & ?)]; right; exists id; (split; [done|]); [lia|].
    destruct (_ <=? _) in Hm; [|done]. injection Hm as <-. lia.
Qed.

Lemma allocate_n_ok n a :
  alloc_wf a → can_allocate (N.of_nat n) a = true →
  ∃ ids a', allocate_n n a = Ret ids a' ∧ alloc_wf a' ∧ length ids = n ∧
    ∀ first, next a = Some first → ids = ids_from first n.
Proof.
  revert a. induction n as [|n IH]; intros a Hwf Hc; [by eexists _, _|].
  cbn [allocate_n]. unfold bind at 1.
  pose proof (allocate_spec a Hwf) as Ha. unfold wp in Ha.
  destruct (allocate a) as [id a1|e a1| |]; try done.
  - destruct Ha as (Hn & Hid & Hwf1 & Hnext).
    replace (N.of_nat (S n)) with (N.of_nat n + 1) in Hc by lia.
    rewrite (can_allocate_succ (N.of_nat n) a a1 id Hn Hid Hnext) in Hc.
    destruct (IH a1 Hwf1 Hc) as (ids & a2 & Hall & Hwf2 & Hlen & Hids).
    unfold bind, ret. rewrite Hall. eexists _, _. split_and!; [done..|by simpl; f_equal|].
    intros first. rewrite Hn. intros [= <-]. rewrite ids_from_S. f_equal.
    apply can_allocate_spec in Hc as [?|(m & Hm & ?)]; [by destruct n, ids|].
    rewrite (Hids m Hm). rewrite Hnext in Hm. unfold checked_add in Hm.
    destruct (_ <=? _) in Hm; [|done]. by injection Hm as <-.
  - destruct Ha as (_ & _ & Hn). unfold can_allocate in Hc. by rewrite Hn in Hc.
Qed.

Lemma allocate_n_exhausted n a :
  alloc_wf a → can_allocate (N.of_nat n) a = false →
  ∃ a', allocate_n n a = Fail LineIdentityExhausted a'.
Proof.
  revert a. induction n as [|n IH]; intros a Hwf Hc; [done|].
  cbn [allocate_n]. unfold bind at 1.
  pose proof (allocate_spec a Hwf) as Ha. unfold wp in Ha.
  destruct (allocate a) as [id a1|e a1| |]; try done.
  - destruct Ha as (Hn & Hid & Hwf1 & Hnext).
    replace (N.of_nat (S n)) with (N.of_nat n + 1) in Hc by lia.
    rewrite (can_allocate_succ (N.of_nat n) a a1 id Hn Hid Hnext) in Hc.
    destruct (IH a1 Hwf1 Hc) as (a2 & Hall). exists a2. unfold bind. by rewrite Hall.
  - destruct Ha as (-> & _ & _). by eexists.
Qed.

(** C7. The capacity test is exact: [can_allocate n] holds precisely when the next [n]
    allocations all succeed; they then issue [n] consecutive identities, so no identity
    is issued twice, and otherwise one of them reports exhaustion. *)
Theorem can_allocate_exact (n : nat) (a : LineIdAllocator) :
  alloc_wf a →
  match allocate_n n a with
  | Ret ids a' =>
    can_allocate (N.of_nat n) a = true ∧ alloc_wf a' ∧ length ids = n ∧
    (∀ first, next a = Some first → ids = ids_from first n)
  | Fail e _ => can_allocate (N.of_nat n) a = false ∧ e = LineIdentityExhausted
  | Panic | NoFuel => False
  end.
Proof.
  intros Hwf. destruct (can_allocate (N.of_nat n) a) eqn:Hc.
  - destruct (allocate_n_ok n a Hwf Hc) as (ids & a' & -> & ?). done.
  - destruct (allocate_n_exhausted n a Hwf Hc) as (a' & ->). done.
Qed.

Lemma can_allocate_exact_witness :
  can_allocate 2 (mkAllocator (Some (u64_max - 1))) = true ∧
  can_allocate 3 (mkAllocator (Some (u64_max - 1))) = false.
Proof.
  assert (alloc_wf (mkAllocator (Some (u64_max - 1)))) as Hwf.
  { intros n [= <-]. unfold u64_max. lia. }
  split.
  - exact (proj1 (can_allocate_exact 2 _ Hwf)).
  - exact (proj1 (can_allocate_exact 3 _ Hwf)).
Defined.
