(* ===== verification/GraphemeStore.v ===== *)
(** The store of multi-scalar grapheme payloads:
    [crates/seyal-terminal/src/grapheme_store.rs].

    Slots are reused through a free list and the live bytes are bounded.  The invariant
    [store_wf] ties the byte counter to the payloads and the free list to the empty slots;
    the specification is the partial map [get]. *)

From S2P Require Import Prelude Types.

Definition MAX_ACTIVE_GRAPHEME_BYTES : N := 8192.
Definition MAX_LIVE_VARIABLE_BYTES : N := 2097152.

Record GraphemeStore := mkStore {
  entries : list (option (list N));
  free : list N;
  live_bytes : N;
  grapheme_payload_overflow_count : N;
  grapheme_store_capacity_fallback_count : N }.

Definition store_default : GraphemeStore := mkStore [] [] 0 0 0.

Definition get (id : N) (s : GraphemeStore) : option (list N) :=
  if id =? INLINE_STORE_ID then None else mjoin (entries s !! N.to_nat id).

Definition release (id : N) (s : GraphemeStore) : GraphemeStore :=
  if id =? INLINE_STORE_ID then s
  else match entries s !! N.to_nat id with
       | Some (Some bytes) =>
         s <| entries := <[N.to_nat id := None]> (entries s) |>
           <| live_bytes := live_bytes s - vlen bytes |>
           <| free := free s ++ [id] |>
       | _ => s
       end.

(** [free.pop()]: the last element and the rest. *)
Definition vpop {A} (l : list A) : option (A * list A) :=
  match last l with Some x => Some (x, take (length l - 1) l) | None => None end.

(** Count an event on a 64-bit counter. *)
Definition bump (n : N) : N := sat_add u64_max n 1.

Definition insert_replacing {E} (payload : list N) (release_first : option N) :
    M E GraphemeStore StoreAdmit :=
  (match release_first with Some id => modify (release id) | None => ret tt end) ;;;
  if bool_decide (payload = []) then ret Inline
  else if MAX_ACTIVE_GRAPHEME_BYTES <? vlen payload then
    modify (λ s, s <| grapheme_payload_overflow_count := bump (grapheme_payload_overflow_count s) |>) ;;;
    ret OverflowSentinel
  else
    let! live := gets live_bytes in
    if MAX_LIVE_VARIABLE_BYTES <? sat_add u64_max live (vlen payload) then
      modify (λ s, s <| grapheme_store_capacity_fallback_count :=
                         bump (grapheme_store_capacity_fallback_count s) |>) ;;;
      ret OverflowSentinel
    else
      let! fl := gets free in
      let! es := gets entries in
      let! id := (match vpop fl with
                  | Some (id, fl) =>
                    let! es := or_panic (vset es id (Some payload)) in
                    modify (λ s, s <| free := fl |> <| entries := es |>) ;;; ret id
                  | None =>
                    modify (λ s, s <| entries := es ++ [Some payload] |>) ;;;
                    ret (vlen es mod 2 ^ 32)
                  end) in
      modify (λ s, s <| live_bytes := sat_add u64_max (live_bytes s) (vlen payload) |>) ;;;
      ret (Stored id).

(** * The invariant *)

Definition payload_size (e : option (list N)) : N :=
  match e with Some p => vlen p | None => 0 end.
Definition payload_bytes (es : list (option (list N))) : N :=
  foldr (λ e acc, payload_size e + acc) 0 es.

Record store_wf (s : GraphemeStore) : Prop := {
  sw_live : live_bytes s = payload_bytes (entries s);
  sw_bound : live_bytes s ≤ MAX_LIVE_VARIABLE_BYTES;
  sw_payload : ∀ i p, entries s !! i = Some (Some p) →
    p ≠ [] ∧ vlen p ≤ MAX_ACTIVE_GRAPHEME_BYTES;
  sw_nodup : NoDup (free s);
  sw_free : ∀ id, id ∈ free s ↔ entries s !! N.to_nat id = Some None;
  sw_len : vlen (entries s) ≤ MAX_LIVE_VARIABLE_BYTES;
}.

(** * Correctness *)

Lemma payload_bytes_insert es i e e' :
  es !! i = Some e →
  payload_bytes (<[i := e']> es) + payload_size e = payload_bytes es + payload_size e'.
Proof.
  revert i. induction es as [|x es IH]; intros [|i] Hi; simplify_eq/=; [lia|].
  specialize (IH i Hi). lia.
Qed.

Lemma payload_bytes_app es es' : payload_bytes (es ++ es') = payload_bytes es + payload_bytes es'.
Proof. induction es as [|e es IH]; simpl; [done|]. rewrite IH. lia. Qed.

Lemma payload_bytes_full es :
  (∀ i, es !! i ≠ Some None) → (∀ i p, es !! i = Some (Some p) → p ≠ []) →
  vlen es ≤ payload_bytes es.
Proof.
  induction es as [|e es IH]; intros Hn Hp; [done|]. cbn [length payload_bytes foldr].
  assert (vlen es ≤ payload_bytes es) as Hes.
  { apply IH; [intros i; apply (Hn (S i))|intros i; apply (Hp (S i))]. }
  unfold payload_bytes in Hes. destruct e as [p|]; [|by destruct (Hn O)].
  pose proof (Hp O p eq_refl). destruct p; [done|]. simpl. lia.
Qed.

Lemma store_wf_default : store_wf store_default.
Proof. split; simpl; try done; [constructor|]. intros id. split; [by intros ?%not_elem_of_nil|done]. Qed.

Lemma get_release id j s :
  get j (release id s) = if j =? id then None else get j s.
Proof.
  unfold get, release. destruct (id =? INLINE_STORE_ID) eqn:Hi; to_prop.
  { subst id. by destruct (j =? INLINE_STORE_ID). }
  destruct (j =? id) eqn:Hj; to_prop.
  - subst j. rewrite (proj2 (N.eqb_neq _ _) Hi).
    destruct (entries s !! N.to_nat id) as [[p|]|] eqn:He; simpl; rewrite ?He; try done.
    rewrite list_lookup_insert_eq; [done|]. by eapply lookup_lt_Some.
  - destruct (j =? INLINE_STORE_ID) eqn:Hji; [done|].
    destruct (entries s !! N.to_nat id) as [[p|]|] eqn:He; simpl; try done.
    rewrite list_lookup_insert_ne by lia. done.
Qed.

Lemma store_wf_release id s : store_wf s → store_wf (release id s).
Proof.
  intros Hwf. unfold release. destruct (id =? _); [done|].
  destruct (entries s !! N.to_nat id) as [[p|]|] eqn:He; [|done..].
  destruct Hwf as [Hlive Hbound Hp Hnd Hfree Hlen].
  pose proof (payload_bytes_insert _ _ _ None He) as Hsum. simpl in Hsum.
  assert (id ∉ free s) as Hid by (rewrite Hfree; congruence).
  split; simpl.
  - lia.
  - lia.
  - intros i q. rewrite list_lookup_insert_Some. intros [(? & ? & ?)|(? & ?)]; [done|eauto].
  - apply NoDup_app. split_and!; [done| |apply NoDup_singleton].
    by intros x Hx ->%list_elem_of_singleton.
  - intros j. rewrite elem_of_app, list_elem_of_singleton, Hfree.
    rewrite list_lookup_insert_Some. apply lookup_lt_Some in He as Hlt.
    destruct (decide (j = id)) as [->|Hne]; [naive_solver|].
    assert (N.to_nat id ≠ N.to_nat j) by lia. naive_solver.
  - by rewrite length_insert.
Qed.

Lemma vpop_Some {A} (l : list A) x l' : vpop l = Some (x, l') → l = l' ++ [x].
Proof.
  unfold vpop. destruct (last l) as [y|] eqn:Hl; [|done]. intros [= <- <-].
  apply last_Some in Hl as [k ->]. rewrite length_app. simpl.
  replace (length k + 1 - 1)%nat with (length k) by lia. by rewrite take_app_length.
Qed.

Lemma vpop_None {A} (l : list A) : vpop l = None → l = [].
Proof. unfold vpop. destruct (last l) eqn:Hl; [done|]. intros _. by apply last_None in Hl. Qed.

(** Filling an empty slot, or a new one, with an admitted payload. *)
Lemma store_wf_fill s id fl payload :
  store_wf s → free s = fl ++ [id] → payload ≠ [] → vlen payload ≤ MAX_ACTIVE_GRAPHEME_BYTES →
  live_bytes s + vlen payload ≤ MAX_LIVE_VARIABLE_BYTES →
  store_wf (s <| free := fl |> <| entries := <[N.to_nat id := Some payload]> (entries s) |>
              <| live_bytes := live_bytes s + vlen payload |>).
Proof.
  intros [Hlive Hbound Hp Hnd Hfree Hlen] Hfl Hne Hmax Hfit.
  assert (entries s !! N.to_nat id = Some None) as He.
  { apply Hfree. rewrite Hfl. set_solver. }
  pose proof (payload_bytes_insert _ _ _ (Some payload) He) as Hsum. simpl in Hsum.
  rewrite Hfl in Hnd. apply NoDup_app in Hnd as (Hnd & Hout & _).
  split; simpl.
  - lia.
  - lia.
  - intros i q. rewrite list_lookup_insert_Some. intros [(? & [= ->] & ?)|(? & ?)]; [done|eauto].
  - done.
  - intros j. rewrite list_lookup_insert_Some. specialize (Hfree j). rewrite Hfl in Hfree.
    destruct (decide (j = id)) as [->|Hneq].
    + split; [|naive_solver]. intros Hj. destruct (Hout id Hj). set_solver.
    + assert (N.to_nat id ≠ N.to_nat j) by lia. set_solver.
  - by rewrite length_insert.
Qed.

Lemma store_wf_grow s payload :
  store_wf s → free s = [] → payload ≠ [] → vlen payload ≤ MAX_ACTIVE_GRAPHEME_BYTES →
  live_bytes s + vlen payload ≤ MAX_LIVE_VARIABLE_BYTES →
  store_wf (s <| entries := entries s ++ [Some payload] |>
              <| live_bytes := live_bytes s + vlen payload |>).
Proof.
  intros [Hlive Hbound Hp Hnd Hfree Hlen] Hfl Hne Hmax Hfit.
  assert (vlen (entries s) ≤ payload_bytes (entries s)) as Hfull.
  { apply payload_bytes_full; [|naive_solver]. intros i Hi.
    specialize (Hfree (N.of_nat i)). rewrite Nat2N.id, Hfl in Hfree. set_solver. }
  split; simpl.
  - rewrite payload_bytes_app. simpl. lia.
  - lia.
  - intros i q [Hq|(? & Hq)]%lookup_app_Some; [eauto|].
    apply list_lookup_singleton_Some in Hq as [_ [= ->]]. done.
  - rewrite Hfl. constructor.
  - intros j. rewrite Hfl, lookup_app_Some. specialize (Hfree j). rewrite Hfl in Hfree.
    split; [by intros ?%not_elem_of_nil|]. intros [?|(? & Hq)]; [tauto|].
    by apply list_lookup_singleton_Some in Hq as [_ ?].
  - rewrite length_app. simpl. destruct payload; [done|]. simpl in *. lia.
Qed.

(** What a store looks like to its clients after an operation that changed no payload. *)
Definition same_payloads (s s' : GraphemeStore) : Prop := ∀ j, get j s' = get j s.

Lemma store_wf_counters s n m :
  store_wf s →
  store_wf (s <| grapheme_payload_overflow_count := n |>) ∧
  store_wf (s <| grapheme_store_capacity_fallback_count := m |>).
Proof. intros []. by split; split. Qed.

(** The store after the caller's old payload was given back. *)
Definition released (rel : option N) (s : GraphemeStore) : GraphemeStore :=
  match rel with Some id => release id s | None => s end.

(** The budget test does not saturate. *)
Lemma sat_add_small a n :
  a ≤ MAX_LIVE_VARIABLE_BYTES → n ≤ MAX_ACTIVE_GRAPHEME_BYTES → sat_add u64_max a n = a + n.
Proof.
  unfold sat_add, u64_max, MAX_LIVE_VARIABLE_BYTES, MAX_ACTIVE_GRAPHEME_BYTES. lia.
Qed.

Lemma small_id n : n < MAX_LIVE_VARIABLE_BYTES → (n =? INLINE_STORE_ID) = false.
Proof. unfold MAX_LIVE_VARIABLE_BYTES, INLINE_STORE_ID, u32_max. lia. Qed.

Lemma free_slot s fl id :
  store_wf s → free s = fl ++ [id] →
  entries s !! N.to_nat id = Some None ∧ id < vlen (entries s) ∧ (id =? INLINE_STORE_ID) = false.
Proof.
  intros Hwf Hfl. assert (entries s !! N.to_nat id = Some None) as He.
  { apply (sw_free s Hwf). rewrite Hfl. set_solver. }
  pose proof (lookup_lt_Some _ _ _ He). pose proof (sw_len s Hwf).
  split_and!; [done|lia|]. apply small_id. lia.
Qed.

Lemma new_slot s payload :
  store_wf (s <| entries := entries s ++ [Some payload] |>
              <| live_bytes := live_bytes s + vlen payload |>) →
  vlen (entries s) < MAX_LIVE_VARIABLE_BYTES ∧
  vlen (entries s) mod 2 ^ 32 = vlen (entries s) ∧ (vlen (entries s) =? INLINE_STORE_ID) = false.
Proof.
  intros Hwf. pose proof (sw_len _ Hwf) as Hlen. simpl in Hlen. rewrite length_app in Hlen.
  simpl in Hlen. assert (vlen (entries s) < MAX_LIVE_VARIABLE_BYTES) as Hlt by lia.
  split_and!; [done| |by apply small_id]. apply N.mod_small.
  unfold MAX_LIVE_VARIABLE_BYTES in Hlt. lia.
Qed.

Lemma insert_replacing_spec {E} payload rel s (F : E → GraphemeStore → Prop) :
  store_wf s →
  wp (insert_replacing payload rel) (λ adm s', store_wf s' ∧
    match adm with
    | Inline => payload = [] ∧ same_payloads (released rel s) s'
    | OverflowSentinel => same_payloads (released rel s) s' ∧
        (MAX_ACTIVE_GRAPHEME_BYTES < vlen payload ∨
         MAX_LIVE_VARIABLE_BYTES < live_bytes (released rel s) + vlen payload)
    | Stored id =>
        id < MAX_LIVE_VARIABLE_BYTES ∧ get id (released rel s) = None ∧
        get id s' = Some payload ∧ ∀ j, j ≠ id → get j s' = get j (released rel s)
    end) F s.
Proof.
  intros Hwf. unfold insert_replacing. apply wp_bind.
  assert (store_wf (released rel s)) as Hwf1 by (destruct rel; [by apply store_wf_release|done]).
  assert (∀ Q, Q tt (released rel s) →
    wp (match rel with Some id => modify (release id) | None => ret tt end) Q F s) as Hrel.
  { intros Q HQ. by destruct rel. }
  apply Hrel. clear Hrel. generalize dependent (released rel s). clear Hwf s.
  intros s Hwf. case_bool_decide as Hne.
  { apply wp_ret. by split_and!. }
  pose proof (sw_bound s Hwf) as Hbound.
  wp_run; to_prop; [|rewrite sat_add_small in Heqb0 by done..].
  - split; [by apply (store_wf_counters s _ 0)|]. split; [done|]. by left.
  - split; [by apply (store_wf_counters s 0)|]. split; [done|]. by right.
  - apply vpop_Some in Heqo. destruct (free_slot s _ _ Hwf Heqo) as (He & Hlt & Hin).
    eapply wp_or_panic; [by apply vset_ok|]. wp_run.
    rewrite sat_add_small by done. split; [by apply store_wf_fill|].
    unfold get. simpl. rewrite Hin, He. split_and!; [|done| |].
    + pose proof (sw_len s Hwf). lia.
    + by rewrite list_lookup_insert_eq by lia.
    + intros j Hj. by rewrite list_lookup_insert_ne by lia.
  - apply vpop_None in Heqo. rewrite sat_add_small by done.
    pose proof (store_wf_grow s payload Hwf Heqo Hne Heqb Heqb0) as Hwf'.
    destruct (new_slot s payload Hwf') as (Hlt & Hmod & Hin).
    rewrite Hmod. split; [exact Hwf'|].
    unfold get. simpl. rewrite Hin, Nat2N.id. split_and!; [done| | |].
    + by rewrite lookup_ge_None_2 by lia.
    + by rewrite list_lookup_middle by done.
    + intros j Hj. destruct (decide (N.to_nat j < length (entries s))%nat).
      * by rewrite lookup_app_l by lia.
      * rewrite lookup_app_r by lia. rewrite (lookup_ge_None_2 (entries s)) by lia.
        by rewrite lookup_ge_None_2 by (simpl; lia).
Qed.

(** C8. The store is a bounded map.  Inserting a payload, after giving back the one it
    replaces, never panics and keeps the invariant (exact byte count, at most
    [MAX_LIVE_VARIABLE_BYTES] live bytes, free list equal to the set of empty slots).  A
    stored payload gets an identity that named nothing before and is not the inline
    sentinel, is read back unchanged, and disturbs no other payload; a refused payload
    disturbs nothing and is refused only when it is larger than one grapheme may be or
    does not fit the live budget. *)
Theorem insert_replacing_correct (payload : list N) (rel : option N) (s : GraphemeStore) :
  store_wf s →
  match @insert_replacing Empty_set payload rel s with
  | Ret (Stored id) s' =>
    store_wf s' ∧ id ≠ INLINE_STORE_ID ∧ get id (released rel s) = None ∧
    get id s' = Some payload ∧ (∀ j, j ≠ id → get j s' = get j (released rel s))
  | Ret OverflowSentinel s' =>
    store_wf s' ∧ same_payloads (released rel s) s' ∧
    (MAX_ACTIVE_GRAPHEME_BYTES < vlen payload ∨
     MAX_LIVE_VARIABLE_BYTES < live_bytes (released rel s) + vlen payload)
  | Ret Inline s' => store_wf s' ∧ payload = [] ∧ same_payloads (released rel s) s'
  | _ => False
  end.
Proof.
  intros Hwf. pose proof (insert_replacing_spec payload rel s (λ (_ : Empty_set) _, False) Hwf) as H.
  unfold wp in H. destruct (insert_replacing payload rel s) as [[| id|] s'| | |]; try done.
  destruct H as (? & Hid%small_id%N.eqb_neq & ? & ? & ?). done.
Qed.

Lemma insert_replacing_correct_witness :
  store_wf (mkStore [Some [101; 204; 129]; Some [101; 204; 129; 204; 128]] [] 8 0 0) ∧
  get 1 (mkStore [Some [101; 204; 129]; Some [101; 204; 129; 204; 128]] [] 8 0 0)
    = Some [101; 204; 129; 204; 128].
Proof.
  assert (store_wf (mkStore [Some [101; 204; 129]; Some [101]] [] 4 0 0)) as Hwf.
  { split; try done.
    - intros [|[|]] p [= <-]; done.
    - constructor.
    - intros id. cbn [free entries]. split; [by intros ?%not_elem_of_nil|].
      by destruct (N.to_nat id) as [|[|]]. }
  pose proof (insert_replacing_correct [101; 204; 129; 204; 128] (Some 1) _ Hwf) as H.
  assert (@insert_replacing Empty_set [101; 204; 129; 204; 128] (Some 1)
            (mkStore [Some [101; 204; 129]; Some [101]] [] 4 0 0)
          = Ret (Stored 1)
              (mkStore [Some [101; 204; 129]; Some [101; 204; 129; 204; 128]] [] 8 0 0)) as Hrun
    by (vm_compute; reflexivity).
  rewrite Hrun in H. split; apply H.
Defined.
