(* ===== verification/HistoryTypes.v ===== *)
(** Source lines of the retained history, and what the screen needs of the store that
    keeps them: the line types of [crates/seyal-terminal/src/history/types.rs] and the
    interface [HistoryLog] that [screen/ops.rs] calls when a row leaves the grid. *)

From S2P Require Import Prelude Utf8 Types GraphemeStore.

Record HistoryUnit := mkUnit { u_utf8 : list N; u_width : N; u_style : Style }.

Record HistoryLine := mkLine {
  line_id : LineId; units : list HistoryUnit; break_after : HistoryBreakAfter; start_offset : N }.

Definition unit_payload_len (u : HistoryUnit) : N := vlen (u_utf8 u).

Definition canonical_payload_len (l : HistoryLine) : N :=
  foldr (λ u acc, unit_payload_len u + acc) 0 (units l).

(** [cells.iter().rposition(|cell| cell.role != Empty).map_or(0, |index| index + 1)]. *)
Fixpoint content_end (cells : list Cell) : nat :=
  match cells with
  | [] => O
  | c :: cells =>
    match content_end cells with
    | O => if decide (role c = Empty) then O else 1%nat
    | S n => S (S n)
    end
  end.

Definition cell_utf8 (store : GraphemeStore) (c : Cell) : list N :=
  if overflow c then [239; 191; 189]
  else match get (store_id c) store with
       | Some bytes => bytes
       | None => encode_utf8 (character c)
       end.

Definition cell_unit (store : GraphemeStore) (c : Cell) : option HistoryUnit :=
  match role c with
  | Continuation => None
  | Empty => Some (mkUnit [32] 1 (cell_style c))
  | Lead => Some (mkUnit (cell_utf8 store c) (N.max (width c) 1) (cell_style c))
  end.

Definition from_cells (id : LineId) (brk : HistoryBreakAfter) (cells : list Cell)
    (store : GraphemeStore) : HistoryLine :=
  mkLine id (omap (cell_unit store) (take (content_end cells) cells)) brk 0.

Definition range_entirely_before (id : LineId) (start len : N) (from : HistoryAnchor) : bool :=
  if id <? a_line_id from then true
  else if a_line_id from <? id then false
  else (start <? unit_offset from) && (sat_add u32_max start len <=? unit_offset from).

(** [u32::try_from(n).unwrap_or(u32::MAX)]. *)
Definition to_u32 (n : N) : N := N.min n u32_max.

Definition line_entirely_before (l : HistoryLine) (from : HistoryAnchor) : bool :=
  range_entirely_before (line_id l) (start_offset l) (to_u32 (vlen (units l))) from.

(** * What the screen asks of the history *)

(** A line the store can take: it has a 32-bit number of units and offset, and its
    payload is far from the machine's address range. *)
Record line_ok (l : HistoryLine) : Prop := {
  lo_units : vlen (units l) ≤ u32_max;
  lo_offset : start_offset l ≤ u32_max;
  lo_payload : canonical_payload_len l ≤ 2 ^ 40;
}.

(** The operations: an empty history and [append_line]; [None] is a panic. *)
Class HistoryLog (H : Type) := {
  history_default : H;
  append_line : HistoryLine → H → option H;
}.

(** The promise: appending never panics and keeps the store's own invariant. *)
Class HistoryLaws (H : Type) `{HistoryLog H} := {
  history_wf : H → Prop;
  history_default_wf : history_wf history_default;
  append_line_wf l h : history_wf h → line_ok l → ∃ h', append_line l h = Some h' ∧ history_wf h';
}.

(** The simplest history, a list of lines, satisfies the interface. *)
#[global] Instance list_history : HistoryLog (list HistoryLine) := {|
  history_default := []; append_line l h := Some (h ++ [l]) |}.
#[global] Program Instance list_history_laws : HistoryLaws (list HistoryLine) := {|
  history_wf _ := True |}.
Next Obligation. done. Qed.
Next Obligation. intros. eexists. done. Qed.

(** * Lines built from the grid are acceptable *)

(** At most [n] units, each with the payload of one grapheme. *)
Definition fragment_ok (n : N) (l : HistoryLine) : Prop :=
  vlen (units l) ≤ n ∧
  Forall (λ u, unit_payload_len u ≤ MAX_ACTIVE_GRAPHEME_BYTES) (units l) ∧
  start_offset l ≤ u32_max.

Lemma cell_utf8_bound st x :
  store_wf st → vlen (cell_utf8 st x) ≤ MAX_ACTIVE_GRAPHEME_BYTES.
Proof.
  intros Hst. unfold cell_utf8, get. destruct (overflow x); [done|].
  assert (vlen (encode_utf8 (character x)) ≤ MAX_ACTIVE_GRAPHEME_BYTES) as He.
  { unfold encode_utf8, MAX_ACTIVE_GRAPHEME_BYTES. repeat case_match; simpl; lia. }
  destruct (store_id x =? _); [done|].
  destruct (entries st !! N.to_nat (store_id x)) as [[p|]|] eqn:Hp; simpl; try done.
  by eapply sw_payload.
Qed.

Lemma from_cells_ok st id brk l :
  store_wf st → fragment_ok (vlen l) (from_cells id brk l st).
Proof.
  intros Hst. unfold fragment_ok, from_cells. cbn [units start_offset].
  generalize (content_end l). intros k. split_and!; [| |done].
  - assert (∀ l' : list Cell, length (omap (cell_unit st) l') ≤ length l')%nat as Ho.
    { induction l' as [|x l' IH]; [done|]. rewrite list_omap_cons. destruct (cell_unit st x); cbn [length]; lia. }
    specialize (Ho (take k l)). rewrite length_take in Ho. lia.
  - generalize (take k l). intros l'. induction l' as [|x l' IH]; [constructor|].
    rewrite list_omap_cons. destruct (cell_unit st x) as [u|] eqn:Hu; [|done]. constructor; [|done].
    unfold cell_unit in Hu. destruct (role x); simplify_eq; [done|].
    by apply cell_utf8_bound.
Qed.

Lemma fragment_line_ok n l : n ≤ 512 → fragment_ok n l → line_ok l.
Proof.
  intros Hn (Hu & Hp & Ho). split; [unfold u32_max; lia|done|].
  assert (canonical_payload_len l ≤ vlen (units l) * MAX_ACTIVE_GRAPHEME_BYTES) as Hlen.
  { unfold canonical_payload_len. induction Hp as [|u us Hu' _ IH]; [done|].
    cbn [foldr length]. assert (vlen us ≤ n) as Hus by (simpl in Hu; lia).
    specialize (IH Hus). lia. }
  unfold MAX_ACTIVE_GRAPHEME_BYTES in Hlen. change (2 ^ 40) with 1099511627776. lia.
Qed.
