(* ===== verification/Wrap.v ===== *)
(** Soft-wrap occupancy: [crates/seyal-terminal/src/history/wrap.rs], the arithmetic part.

    A paragraph of the history is a list of unit widths; laying it out in rows of [cols]
    cells leaves the pen in some column.  The store answers that question for long
    paragraphs on run-length encoded widths, with cycle detection, repeating patterns and
    a table of the column after each run (the spine).  The definitions are the source's;
    the theorems say that each of them computes the column of the plain layout, and what the
    spine, whose entries are bytes, computes in grids of more than 256 columns. *)

From S2P Require Import Prelude.

Definition WRAP_PATTERN_MAX : N := 8.
Definition APERIODIC_INLINE_RUN_BOUND : N := 64.
Definition APERIODIC_EXTEND_CELL_FACTOR : N := 8.

(** A run of [count] units of one [width]: the [(u8, u32)] of the source. *)
Abbreviation Run := (N * N)%type.

Record WrapOccupancySpine := mkSpine {
  spine_cols : N; run_len : N; after_run : list N; units_after : list N }.

(** * Runs *)

Definition wrap_runs_unit_sum (runs : list Run) : N :=
  foldl (λ sum run, sat_add u32_max sum run.2) 0 runs.

(** Extend the last run or push a new one; the flag says that a run was pushed. *)
Definition push_run (runs : list Run) (width n : N) : list Run * bool :=
  match last runs with
  | Some (last_width, count) =>
    if last_width =? width
    then (take (length runs - 1) runs ++ [(last_width, sat_add u32_max count n)], false)
    else (runs ++ [(width, n)], true)
  | None => (runs ++ [(width, n)], true)
  end.

(** Drop units from the end; the list is given in reverse. *)
Fixpoint drop_rev_runs (rev_runs : list Run) (remaining : N) : list Run :=
  match rev_runs with
  | [] => []
  | (width, count) :: rest =>
    if remaining =? 0 then rev_runs
    else if count <=? remaining then drop_rev_runs rest (remaining - count)
    else (width, count - remaining) :: rest
  end.

Definition drop_suffix_wrap_runs (runs : list Run) (drop_units : N) : list Run :=
  reverse (drop_rev_runs (reverse runs) drop_units).

Definition drop_prefix_wrap_runs (runs : list Run) (drop_units : N) : list Run :=
  drop_rev_runs runs drop_units.

(** * Columns *)

(** The column after one more unit; a full row is column 0 of the next one.  The [usize]
    sums stay below [2^17], as the columns come from a [u16] and the widths from a [u8]. *)
Definition wrap_advance (used cols unit_width : N) : N :=
  let unit_width := N.max unit_width 1 in
  let used := if (0 <? used) && (cols <? used + unit_width) then 0 else used in
  if cols <? unit_width then 0
  else let used := used + unit_width in if cols <=? used then 0 else used.

(** The loop of [wrap_occupancy_run]: [seen] maps a column to the units that remained when
    it was last visited. [None] is an index out of bounds or exhausted fuel. *)
Fixpoint occupancy_loop (fuel : nat) (used cols unit_width remaining : N)
    (seen : list (option N)) : option N :=
  match fuel with
  | O => None
  | S fuel =>
    if remaining =? 0 then Some (N.min used cols)
    else if used <=? cols then
      then_ ← vget seen used;
      match then_ with
      | Some remaining_then =>
        let cycle := remaining_then - remaining in
        if 0 <? cycle then
          let remaining := remaining mod cycle in
          if remaining =? 0 then Some (N.min used cols)
          else occupancy_loop fuel used cols unit_width remaining (replicate (length seen) None)
        else
          occupancy_loop fuel (wrap_advance used cols unit_width) cols unit_width (remaining - 1) seen
      | None =>
        seen ← vset seen used (Some remaining);
        occupancy_loop fuel (wrap_advance used cols unit_width) cols unit_width (remaining - 1) seen
      end
    else occupancy_loop fuel (wrap_advance used cols unit_width) cols unit_width (remaining - 1) seen
  end.

(** A column repeats within [cols + 1] steps and fewer units than one cycle are left after
    it, each of which costs at most two iterations. *)
Definition occupancy_fuel (cols : N) : nat := N.to_nat (3 * cols + 8).

(** The scratch argument [seen] is cleared on entry, so only its length matters. *)
Definition wrap_occupancy_run (used cols unit_width count : N) (seen : list (option N)) : option N :=
  if cols =? 0 then Some 0
  else if count =? 0 then Some (N.min used cols)
  else occupancy_loop (occupancy_fuel cols) used cols unit_width count (replicate (length seen) None).

(** [vec![None; cols.saturating_add(1)]]. *)
Definition fresh_seen (cols : N) : list (option N) := replicate (N.to_nat (cols + 1)) None.

(** The loop over runs that [wrap_occupancy_runs] and [wrap_occupancy_pattern_once] share. *)
Fixpoint over_runs (used cols left : N) (runs : list Run) (seen : list (option N)) : option N :=
  match runs with
  | [] => Some (N.min used cols)
  | (width, count) :: runs =>
    if left =? 0 then Some (N.min used cols)
    else
      let take := N.min count left in
      used ← wrap_occupancy_run used cols width take seen;
      over_runs used cols (left - take) runs seen
  end.

Definition wrap_occupancy_runs (runs : list Run) (cols unit_limit : N) : option N :=
  over_runs 0 cols unit_limit runs (fresh_seen cols).

Definition wrap_occupancy_pattern_once (used : N) (pattern : list Run) (cols unit_limit : N)
    (seen : list (option N)) : option N :=
  over_runs used cols unit_limit pattern seen.

Fixpoint repeating_loop (fuel : nat) (pattern : list Run) (pattern_units used cols remaining : N)
    (seen : list (option N)) : option N :=
  match fuel with
  | O => None
  | S fuel =>
    let advance seen :=
      let take := N.min remaining pattern_units in
      used ← wrap_occupancy_pattern_once used pattern cols take (fresh_seen cols);
      repeating_loop fuel pattern pattern_units used cols (remaining - take) seen in
    if remaining =? 0 then Some (N.min used cols)
    else if used <=? cols then
      then_ ← vget seen used;
      match then_ with
      | Some remaining_then =>
        let cycle := remaining_then - remaining in
        if 0 <? cycle then
          repeating_loop fuel pattern pattern_units used cols (remaining mod cycle)
            (replicate (length seen) None)
        else advance seen
      | None => seen ← vset seen used (Some remaining); advance seen
      end
    else advance seen
  end.

Definition wrap_occupancy_repeating (pattern : list Run) (cols unit_limit : N) : option N :=
  let pattern_units := wrap_runs_unit_sum pattern in
  if (cols =? 0) || (pattern_units =? 0) || (unit_limit =? 0) then Some 0
  else repeating_loop (occupancy_fuel cols) pattern pattern_units 0 cols unit_limit (fresh_seen cols).

(** * Repeating patterns *)

(** The inner [for] of [wrap_pattern_slice]: offset, remaining units and runs after it. *)
Fixpoint slice_pass (pattern : list Run) (idx offset remaining : N) (runs : list Run)
    : N * N * list Run :=
  match pattern with
  | [] => (offset, remaining, runs)
  | (width, run_count) :: pattern =>
    if remaining =? 0 then (offset, remaining, runs)
    else
      let run_end := sat_add u32_max idx run_count in
      if run_end <=? offset then slice_pass pattern run_end offset remaining runs
      else
        let skip := offset - idx in
        let take := N.min (run_count - skip) remaining in
        if 0 <? take then slice_pass pattern run_end 0 (remaining - take) (push_run runs width take).1
        else slice_pass pattern run_end offset remaining runs
  end.

Fixpoint slice_loop (fuel : nat) (pattern : list Run) (offset remaining : N) (runs : list Run)
    : option (list Run) :=
  match fuel with
  | O => None
  | S fuel =>
    if remaining =? 0 then Some runs
    else
      let '(offset', remaining', runs') := slice_pass pattern 0 offset remaining runs in
      if remaining' =? remaining then Some runs' else slice_loop fuel pattern offset' remaining' runs'
  end.

(** Every pass but the first takes a whole period. *)
Definition wrap_pattern_slice (pattern : list Run) (start count : N) : option (list Run) :=
  let period := wrap_runs_unit_sum pattern in
  if (period =? 0) || (count =? 0) then Some []
  else slice_loop (N.to_nat (count / period + 3)) pattern (start mod period) count [].

Fixpoint width_at (pattern : list Run) (index : N) : option N :=
  match pattern with
  | [] => None
  | (width, count) :: pattern =>
    if index <? count then Some width else width_at pattern (index - count)
  end.

Definition wrap_pattern_width_at (pattern : list Run) (index : N) : option N :=
  let period := wrap_runs_unit_sum pattern in
  if period =? 0 then None else width_at pattern (index mod period).

Definition wrap_occupancy_repeating_from (pattern : list Run) (phase cols units : N) : option N :=
  let period := wrap_runs_unit_sum pattern in
  if period =? 0 then Some 0
  else
    let phase := phase mod period in
    if phase =? 0 then wrap_occupancy_repeating pattern cols units
    else
      rotated ← wrap_pattern_slice pattern phase period;
      wrap_occupancy_repeating rotated cols units.

(** [runs[index]] against [runs[index % k]] from index [k] on; the last run may be cut. *)
Definition run_matches (runs : list Run) (k index : N) : option bool :=
  run ← vget runs index;
  template ← vget runs (index mod k);
  Some ((run.1 =? template.1) &&
        if index + 1 =? vlen runs then run.2 <=? template.2 else run.2 =? template.2).

Fixpoint match_from (runs : list Run) (k index : N) (n : nat) : option bool :=
  match n with
  | O => Some true
  | S n =>
    ok ← run_matches runs k index;
    if (ok : bool) then match_from runs k (index + 1) n else Some false
  end.

Definition wrap_runs_match_period (runs : list Run) (k : N) : option bool :=
  if (k <? 2) || (vlen runs <? k) then Some false
  else match_from runs k k (length runs - N.to_nat k).

(** [(k..=max_k).find(|&k| n > k && wrap_runs_match_period(runs, k))]. *)
Fixpoint find_period (runs : list Run) (k : N) (n : nat) : option (option N) :=
  match n with
  | O => Some None
  | S n =>
    if k <? vlen runs then
      ok ← wrap_runs_match_period runs k;
      if (ok : bool) then Some (Some k) else find_period runs (k + 1) n
    else find_period runs (k + 1) n
  end.

Definition wrap_repeating_period (runs : list Run) : option (option N) :=
  if vlen runs <? 2 then Some None
  else find_period runs 2 (N.to_nat (N.min (vlen runs) WRAP_PATTERN_MAX - 1)).

(** * The spine *)

(** [u8::try_from(n).unwrap_or(u8::MAX)]. *)
Definition to_u8 (n : N) : N := N.min n u8_max.

Fixpoint spine_loop (runs : list Run) (cols used total_units : N) (seen : list (option N))
    : option (list N * list N) :=
  match runs with
  | [] => Some ([], [])
  | (unit_width, count) :: runs =>
    used ← wrap_occupancy_run used cols unit_width count seen;
    let total_units := sat_add u32_max total_units count in
    rest ← spine_loop runs cols used total_units seen;
    Some (to_u8 (N.min used cols) :: rest.1, total_units :: rest.2)
  end.

(** The spine that [ensure_aperiodic_spine] and [wrap_occupancy_with_ephemeral_spine] build. *)
Definition build_spine (runs : list Run) (cols spine_cols : N) : option WrapOccupancySpine :=
  arrays ← spine_loop runs cols 0 0 (fresh_seen cols);
  Some (mkSpine spine_cols (vlen runs) arrays.1 arrays.2).

(** [v.partition_point(pred)] on a partitioned slice. *)
Fixpoint partition_point {A} (pred : A → bool) (l : list A) : N :=
  match l with
  | [] => 0
  | x :: l => if pred x then 1 + partition_point pred l else 0
  end.

Definition spine_occupancy (spine : WrapOccupancySpine) (runs : list Run) (cols unit_limit : N)
    : option N :=
  if (unit_limit =? 0) || (cols =? 0) then Some 0
  else
    let fully := partition_point (λ units, units <=? unit_limit) (units_after spine) in
    start ← (if fully =? 0 then Some (0, 0)
             else
               used ← vget (after_run spine) (fully - 1);
               consumed ← vget (units_after spine) (fully - 1);
               Some (used, consumed));
    let '(used, consumed) := start in
    if unit_limit <=? consumed then Some (N.min used cols)
    else if fully <? vlen runs then
      run ← vget runs fully;
      let take := N.min run.2 (unit_limit - consumed) in
      used ← wrap_occupancy_run used cols run.1 take (fresh_seen cols);
      Some (N.min used cols)
    else Some (N.min used cols).

Definition wrap_occupancy_with_ephemeral_spine (runs : list Run) (cols unit_limit : N) : option N :=
  if (cols =? 0) || (unit_limit =? 0) || bool_decide (runs = []) then Some 0
  else
    spine ← build_spine runs cols (N.min cols u16_max);
    spine_occupancy spine runs cols unit_limit.

Definition wrap_occupancy_for_runs (runs : list Run) (cols unit_limit : N) : option N :=
  period ← wrap_repeating_period runs;
  match period with
  | Some k => wrap_occupancy_repeating (take (N.to_nat k) runs) cols unit_limit
  | None =>
    if APERIODIC_INLINE_RUN_BOUND <? vlen runs
    then wrap_occupancy_with_ephemeral_spine runs cols unit_limit
    else wrap_occupancy_runs runs cols unit_limit
  end.

(** * Reference: the plain layout *)

(** The pen column after units of the given widths. *)
Definition layout (cols used : N) (widths : list N) : N :=
  foldl (λ u w, wrap_advance u cols w) used widths.

(** The unit widths that runs stand for. *)
Definition expand (runs : list Run) : list N := runs ≫= λ run, replicate (N.to_nat run.2) run.1.

#[global] Arguments expand : simpl never.

(** [n] widths of the endless repetition of [ws], from position [start] on. *)
Definition cyclic (ws : list N) (start n : nat) : list N :=
  (λ i, ws !!! (i mod length ws)%nat) <$> seq start n.

Lemma layout_app cols used xs ys :
  layout cols used (xs ++ ys) = layout cols (layout cols used xs) ys.
Proof. apply foldl_app. Qed.

Lemma wrap_advance_lt used cols w : 0 < cols → wrap_advance used cols w < cols.
Proof. intros Hc. unfold wrap_advance. repeat case_match; lia. Qed.

Lemma layout_le cols used ws : 0 < cols → used ≤ cols → layout cols used ws ≤ cols.
Proof.
  intros Hc. revert used. induction ws as [|w ws IH]; intros used Hu; [done|].
  apply IH. pose proof (wrap_advance_lt used cols w Hc). lia.
Qed.

Lemma layout_lt cols used ws : 0 < cols → used < cols → layout cols used ws < cols.
Proof.
  intros Hc. revert used. induction ws as [|w ws IH]; intros used Hu; [done|].
  apply IH. by apply wrap_advance_lt.
Qed.

(** Iterating a map that returns to its start can skip whole cycles. *)
Lemma iter_cycle {A} (f : A → A) (x : A) (c n : nat) :
  c ≠ O → Nat.iter c f x = x → Nat.iter n f x = Nat.iter (n mod c) f x.
Proof.
  intros Hc Hx.
  assert (∀ k, Nat.iter (k * c) f x = x) as Hk.
  { induction k as [|k IH]; [done|]. cbn [Nat.mul]. by rewrite Nat.iter_add, IH. }
  transitivity (Nat.iter (n mod c + n / c * c) f x).
  - f_equal. pose proof (Nat.div_mod_eq n c). lia.
  - by rewrite Nat.iter_add, Hk.
Qed.

Lemma layout_replicate cols used (n : nat) w :
  layout cols used (replicate n w) = Nat.iter n (λ u, wrap_advance u cols w) used.
Proof.
  revert used. induction n as [|n IH]; intros used; [done|].
  cbn [replicate]. unfold layout in *. cbn [foldl]. by rewrite IH, Nat.iter_succ_r.
Qed.

(** ** Lengths of expansions *)

Fixpoint units_of (runs : list Run) : N :=
  match runs with [] => 0 | run :: runs => run.2 + units_of runs end.

Lemma expand_app xs ys : expand (xs ++ ys) = expand xs ++ expand ys.
Proof. apply bind_app. Qed.

Lemma expand_nil : expand [] = [].
Proof. done. Qed.

Lemma expand_cons r runs : expand (r :: runs) = replicate (N.to_nat r.2) r.1 ++ expand runs.
Proof. done. Qed.

Lemma units_of_app xs ys : units_of (xs ++ ys) = units_of xs + units_of ys.
Proof. induction xs as [|x xs IH]; [done|]. cbn [app units_of]. rewrite IH. lia. Qed.

Lemma length_expand runs : vlen (expand runs) = units_of runs.
Proof.
  induction runs as [|r runs IH]; [done|].
  rewrite expand_cons, length_app, length_replicate. cbn [units_of]. lia.
Qed.

Lemma unit_sum_min runs : wrap_runs_unit_sum runs = N.min (units_of runs) u32_max.
Proof.
  unfold wrap_runs_unit_sum.
  assert (∀ acc, acc ≤ u32_max → foldl (λ sum run, sat_add u32_max sum run.2) acc runs =
    N.min (acc + units_of runs) u32_max) as Hg; [|by rewrite Hg].
  induction runs as [|r runs IH]; intros acc Hacc; cbn [foldl units_of]; [lia|].
  rewrite IH; unfold sat_add; lia.
Qed.

Lemma unit_sum_exact runs : units_of runs ≤ u32_max → wrap_runs_unit_sum runs = units_of runs.
Proof. intros. rewrite unit_sum_min. lia. Qed.

(** ** Cycle detection over one run *)

(** The number of columns recorded in a [seen] table. *)
Fixpoint recorded (seen : list (option N)) : nat :=
  match seen with
  | [] => O
  | o :: seen => ((if o is Some _ then 1 else 0) + recorded seen)%nat
  end.

Lemma recorded_le seen : (recorded seen ≤ length seen)%nat.
Proof. induction seen as [|[] seen IH]; cbn; lia. Qed.

Lemma recorded_replicate n : recorded (replicate n None) = O.
Proof. by induction n. Qed.

Lemma recorded_insert seen i x :
  seen !! i = Some None → recorded (<[i := Some x]> seen) = S (recorded seen).
Proof.
  revert i. induction seen as [|o seen IH]; intros [|i] H; simplify_eq/=; [done|].
  rewrite IH by done. lia.
Qed.

(** What a [seen] table says about the walk [f] that filled it: a column was recorded [d]
    steps of [step] units ago. *)
Definition seen_ok (f : N → N) (step used remaining : N) (seen : list (option N)) : Prop :=
  ∀ u r, seen !! N.to_nat u = Some (Some r) →
    ∃ d : nat, (1 ≤ d ≤ recorded seen)%nat ∧ r = remaining + N.of_nat d * step ∧ Nat.iter d f u = used.

Lemma seen_ok_fresh f step used remaining n : seen_ok f step used remaining (replicate n None).
Proof. intros u r H. by apply lookup_replicate in H as [? _]. Qed.

Lemma seen_ok_step f step used remaining seen :
  seen_ok f step used remaining seen → seen !! N.to_nat used = Some None → step ≤ remaining →
  seen_ok f step (f used) (remaining - step) (<[N.to_nat used := Some remaining]> seen).
Proof.
  intros Hok Hu Hr u r. rewrite recorded_insert by done.
  destruct (decide (u = used)) as [->|Hne].
  - rewrite list_lookup_insert_eq by (by eapply lookup_lt_Some). intros [= <-].
    exists 1%nat. cbn. split_and!; [lia|lia|lia|done].
  - rewrite list_lookup_insert_ne by lia. intros (d & ? & -> & <-)%Hok.
    exists (S d). split_and!; [lia|lia|lia|done].
Qed.

Section one_run.
Context (cols w : N) (Hcols : 0 < cols).
Let f u := wrap_advance u cols w.

(** One iteration, by the three cases of the loop. *)
Lemma occupancy_loop_S fuel used remaining seen :
  used ≤ cols → length seen = N.to_nat (cols + 1) → seen_ok f 1 used remaining seen →
  (remaining = 0 ∧ occupancy_loop (S fuel) used cols w remaining seen = Some used) ∨
  (0 < remaining ∧ seen !! N.to_nat used = Some None ∧
   occupancy_loop (S fuel) used cols w remaining seen =
   occupancy_loop fuel (f used) cols w (remaining - 1) (<[N.to_nat used := Some remaining]> seen)) ∨
  (0 < remaining ∧ (∃ r, seen !! N.to_nat used = Some (Some r)) ∧
   ∃ d : nat, (1 ≤ d ≤ recorded seen)%nat ∧ Nat.iter d f used = used ∧
   let remaining' := remaining mod N.of_nat d in
   occupancy_loop (S fuel) used cols w remaining seen =
   if remaining' =? 0 then Some used
   else occupancy_loop fuel used cols w remaining' (replicate (length seen) None)).
Proof.
  intros Hu Hlen Hok. cbn [occupancy_loop].
  destruct (N.eqb_spec remaining 0) as [|Hr]; [left; split; [done|f_equal; lia]|right].
  apply N.leb_le in Hu as Hu'. rewrite Hu'. unfold vget.
  destruct (lookup_lt_is_Some_2 seen (N.to_nat used)) as [[r|] Hs]; [lia| |]; rewrite Hs; cbn.
  - right. destruct (Hok used r Hs) as (d & Hd & -> & Hit).
    split_and!; [lia|eauto|]. exists d. split_and!; [lia|lia|done|].
    replace (remaining + N.of_nat d * 1 - remaining) with (N.of_nat d) by lia.
    replace (0 <? N.of_nat d) with true by (symmetry; apply N.ltb_lt; lia).
    by replace (N.min used cols) with used by lia.
  - left. split_and!; [lia|done|]. by rewrite vset_ok by lia.
Qed.

Lemma iter_minus (n : N) u : 0 < n → Nat.iter (N.to_nat (n - 1)) f (f u) = Nat.iter (N.to_nat n) f u.
Proof.
  intros Hn. replace (N.to_nat n) with (S (N.to_nat (n - 1))) by lia. by rewrite Nat.iter_succ_r.
Qed.

Lemma iter_mod (n : N) (d : nat) u : (1 ≤ d)%nat → Nat.iter d f u = u →
  Nat.iter (N.to_nat (n mod N.of_nat d)) f u = Nat.iter (N.to_nat n) f u.
Proof.
  intros Hd Hit. symmetry. rewrite (iter_cycle f u d) by (done || lia).
  f_equal. rewrite N2Nat.inj_mod. by rewrite Nat2N.id.
Qed.

Lemma occupancy_loop_few fuel used remaining seen :
  used ≤ cols → length seen = N.to_nat (cols + 1) → seen_ok f 1 used remaining seen →
  (2 * N.to_nat remaining + (if seen !! N.to_nat used is Some (Some _) then 2 else 1) ≤ fuel)%nat →
  occupancy_loop fuel used cols w remaining seen = Some (Nat.iter (N.to_nat remaining) f used).
Proof.
  revert used remaining seen. induction fuel as [|fuel IH]; intros used remaining seen Hu Hlen Hok Hf.
  { destruct (seen !! _) as [[]|]; lia. }
  destruct (occupancy_loop_S fuel used remaining seen Hu Hlen Hok)
    as [[-> ->]|[(Hr & Hs & ->)|(Hr & [r Hs] & d & Hd & Hit & ->)]]; rewrite ?Hs in Hf; cbv beta iota in Hf; [done| |].
  - rewrite IH, iter_minus; [done|lia| | | |].
    + pose proof (wrap_advance_lt used cols w Hcols). unfold f. lia.
    + by rewrite length_insert.
    + apply seen_ok_step; (done || lia).
    + repeat case_match; lia.
  - rewrite <- (iter_mod remaining d) by (done || lia).
    pose proof (N.Div0.mod_le remaining (N.of_nat d)).
    destruct (N.eqb_spec (remaining mod N.of_nat d) 0) as [->|]; [done|].
    apply IH; [done|by rewrite length_replicate|apply seen_ok_fresh|].
    rewrite lookup_replicate_2 by lia. lia.
Qed.

Lemma occupancy_loop_ok fuel used remaining seen :
  used ≤ cols → length seen = N.to_nat (cols + 1) → seen_ok f 1 used remaining seen →
  (length seen - recorded seen + N.to_nat (2 * cols + 6) ≤ fuel)%nat →
  occupancy_loop fuel used cols w remaining seen = Some (Nat.iter (N.to_nat remaining) f used).
Proof.
  revert used remaining seen. induction fuel as [|fuel IH]; intros used remaining seen Hu Hlen Hok Hf; [lia|].
  destruct (occupancy_loop_S fuel used remaining seen Hu Hlen Hok)
    as [[-> ->]|[(Hr & Hs & ->)|(Hr & _ & d & Hd & Hit & ->)]]; [done| |].
  - rewrite IH, iter_minus; [done|lia| | | |].
    + pose proof (wrap_advance_lt used cols w Hcols). unfold f. lia.
    + by rewrite length_insert.
    + apply seen_ok_step; (done || lia).
    + rewrite length_insert, recorded_insert by done.
      pose proof (recorded_le (<[N.to_nat used := Some remaining]> seen)) as Hle.
      rewrite length_insert, recorded_insert in Hle by done. lia.
  - rewrite <- (iter_mod remaining d) by (done || lia).
    pose proof (N.mod_lt remaining (N.of_nat d) ltac:(lia)). pose proof (recorded_le seen).
    destruct (N.eqb_spec (remaining mod N.of_nat d) 0) as [->|]; [done|].
    apply occupancy_loop_few; [done|by rewrite length_replicate|apply seen_ok_fresh|].
    rewrite lookup_replicate_2 by lia. lia.
Qed.

Lemma wrap_occupancy_run_ok used count seen :
  used ≤ cols → length seen = N.to_nat (cols + 1) →
  wrap_occupancy_run used cols w count seen = Some (layout cols used (replicate (N.to_nat count) w)).
Proof.
  intros Hu Hlen. unfold wrap_occupancy_run. rewrite layout_replicate.
  replace (cols =? 0) with false by lia.
  destruct (N.eqb_spec count 0) as [->|]; [by rewrite N.min_l|].
  apply occupancy_loop_ok; [done|by rewrite length_replicate|apply seen_ok_fresh|].
  rewrite length_replicate, recorded_replicate. unfold occupancy_fuel. lia.
Qed.
End one_run.

Lemma length_fresh_seen cols : length (fresh_seen cols) = N.to_nat (cols + 1).
Proof. apply length_replicate. Qed.

Lemma over_runs_ok cols used left runs :
  0 < cols → used ≤ cols →
  over_runs used cols left runs (fresh_seen cols) =
  Some (layout cols used (take (N.to_nat left) (expand runs))).
Proof.
  intros Hc. revert used left. induction runs as [|[w n] runs IH]; intros used left Hu.
  { cbn [over_runs]. rewrite expand_nil. by rewrite take_nil, N.min_l. }
  cbn [over_runs]. destruct (N.eqb_spec left 0) as [->|Hl]; [by rewrite N.min_l|].
  rewrite wrap_occupancy_run_ok by (done || apply length_fresh_seen). cbn [mbind option_bind].
  rewrite IH by (by apply layout_le). f_equal. rewrite <- layout_app. f_equal.
  rewrite expand_cons, take_app, take_replicate, length_replicate. cbn [fst snd].
  f_equal; f_equal; lia.
Qed.

(** ** Cyclic repetition *)

Lemma length_cyclic ws s n : length (cyclic ws s n) = n.
Proof. unfold cyclic. by rewrite length_fmap, length_seq. Qed.

Lemma cyclic_add ws s n m : cyclic ws s (n + m) = cyclic ws s n ++ cyclic ws (s + n) m.
Proof. unfold cyclic. by rewrite seq_app, fmap_app. Qed.

Lemma cyclic_lookup ws s n i : (i < n)%nat → cyclic ws s n !! i = Some (ws !!! ((s + i) mod length ws)%nat).
Proof. intros Hi. unfold cyclic. by rewrite list_lookup_fmap, lookup_seq_lt. Qed.

Lemma cyclic_mod ws s n : cyclic ws (s mod length ws) n = cyclic ws s n.
Proof.
  apply list_eq_same_length with n; [by rewrite length_cyclic..|].
  intros i x y Hi. rewrite !cyclic_lookup by done. rewrite Nat.Div0.add_mod_idemp_l. congruence.
Qed.

Lemma cyclic_period ws s n : cyclic ws (s + length ws) n = cyclic ws s n.
Proof.
  rewrite <- (cyclic_mod ws (s + _)), <- (cyclic_mod ws s). f_equal.
  by rewrite <- Nat.Div0.add_mod_idemp_r, Nat.Div0.mod_same, Nat.add_0_r.
Qed.

Lemma cyclic_prefix ws s n :
  (s + n ≤ length ws)%nat → cyclic ws s n = take n (drop s ws).
Proof.
  intros Hn. apply list_eq_same_length with n; [rewrite length_take, length_drop; lia|by rewrite length_cyclic|].
  intros i x y Hi. rewrite cyclic_lookup, lookup_take_lt, lookup_drop by done.
  rewrite Nat.mod_small by lia. intros [= <-] Hy.
  by apply list_lookup_total_correct in Hy.
Qed.

(** A whole turn from any position. *)
Lemma cyclic_turn ws n : cyclic ws 0 (length ws + n) = ws ++ cyclic ws 0 n.
Proof.
  rewrite cyclic_add, (cyclic_prefix ws 0 (length ws)) by lia. rewrite drop_0, firstn_all. f_equal.
  rewrite (cyclic_period ws 0). done.
Qed.

Section repeating.
Context (cols : N) (pattern : list Run) (P : N) (Hcols : 0 < cols).
Let W := take (N.to_nat P) (expand pattern).
Let g u := layout cols u W.
Hypothesis HP : 0 < P.
Hypothesis HPu : P ≤ units_of pattern.

Lemma length_W : length W = N.to_nat P.
Proof. unfold W. rewrite length_take. pose proof (length_expand pattern). lia. Qed.

Lemma layout_cyclic (n : N) u :
  layout cols u (cyclic W 0 (N.to_nat n)) =
  layout cols (Nat.iter (N.to_nat (n / P)) g u) (take (N.to_nat (n mod P)) W).
Proof.
  assert (∀ (q : nat) (m : N) u, m < P →
    layout cols u (cyclic W 0 (q * N.to_nat P + N.to_nat m)) =
    layout cols (Nat.iter q g u) (take (N.to_nat m) W)) as Hq.
  { induction q as [|q IH]; intros m v Hm.
    - cbn [Nat.mul Nat.add]. rewrite cyclic_prefix by (rewrite length_W; lia). by rewrite drop_0.
    - cbn [Nat.mul]. rewrite <- length_W at 1. rewrite <- Nat.add_assoc, cyclic_turn, layout_app.
      rewrite IH by done. by rewrite Nat.iter_succ_r. }
  rewrite <- Hq by (apply N.mod_lt; lia). f_equal. f_equal.
  pose proof (N.div_mod n P ltac:(lia)). lia.
Qed.

Lemma cyclic_skip (n : N) (d : nat) u :
  (1 ≤ d)%nat → Nat.iter d g u = u →
  layout cols u (cyclic W 0 (N.to_nat (n mod (N.of_nat d * P)))) =
  layout cols u (cyclic W 0 (N.to_nat n)).
Proof.
  intros Hd Hit. rewrite !layout_cyclic.
  set (D := N.of_nat d). assert (n mod (D * P) = n mod P + P * ((n / P) mod D)) as Hn.
  { rewrite N.mul_comm. apply N.Div0.mod_mul_r. }
  assert (n mod (D * P) / P = (n / P) mod D) as ->.
  { rewrite Hn, N.mul_comm, N.div_add by lia. rewrite N.div_small by (apply N.mod_lt; lia). lia. }
  assert (n mod (D * P) mod P = n mod P) as ->.
  { rewrite Hn, N.mul_comm, N.Div0.mod_add. by apply N.Div0.mod_mod. }
  f_equal. rewrite (iter_cycle g u d (N.to_nat (n / P))) by (done || lia).
  f_equal. unfold D. by rewrite N2Nat.inj_mod, Nat2N.id.
Qed.

Lemma pattern_once_ok used n :
  used ≤ cols → n ≤ P →
  wrap_occupancy_pattern_once used pattern cols n (fresh_seen cols) =
  Some (layout cols used (take (N.to_nat n) W)).
Proof.
  intros Hu Hn. unfold wrap_occupancy_pattern_once, W. rewrite over_runs_ok, take_take by done. do 3 f_equal. lia.
Qed.

Lemma repeating_loop_S fuel used remaining seen :
  used ≤ cols → length seen = N.to_nat (cols + 1) → seen_ok g P used remaining seen →
  let go := repeating_loop (S fuel) pattern P used cols remaining seen in
  (remaining = 0 ∧ go = Some used) ∨
  (0 < remaining ∧ seen !! N.to_nat used = Some None ∧
   go = repeating_loop fuel pattern P (layout cols used (take (N.to_nat (N.min remaining P)) W)) cols
          (remaining - N.min remaining P) (<[N.to_nat used := Some remaining]> seen)) ∨
  (0 < remaining ∧ (∃ r, seen !! N.to_nat used = Some (Some r)) ∧
   ∃ d : nat, (1 ≤ d ≤ recorded seen)%nat ∧ Nat.iter d g used = used ∧
   go = repeating_loop fuel pattern P used cols (remaining mod (N.of_nat d * P))
          (replicate (length seen) None)).
Proof.
  intros Hu Hlen Hok. cbn [repeating_loop].
  destruct (N.eqb_spec remaining 0) as [|Hr]; [left; split; [done|by rewrite N.min_l]|right].
  apply N.leb_le in Hu as Hu'. rewrite Hu'. unfold vget.
  destruct (lookup_lt_is_Some_2 seen (N.to_nat used)) as [[r|] Hs]; [lia| |]; rewrite Hs;
    cbn [mbind option_bind].
  - right. destruct (Hok used r Hs) as (d & Hd & -> & Hit).
    split_and!; [lia|eauto|]. exists d. split_and!; [lia|lia|done|].
    replace (remaining + N.of_nat d * P - remaining) with (N.of_nat d * P) by lia.
    replace (0 <? N.of_nat d * P) with true by (symmetry; apply N.ltb_lt; lia). done.
  - left. split_and!; [lia|done|]. rewrite vset_ok by lia. cbn [mbind option_bind].
    by rewrite pattern_once_ok by lia.
Qed.

(** The last, partial turn. *)
Lemma repeating_last fuel used remaining seen :
  remaining < P → (1 ≤ fuel)%nat → used ≤ cols →
  repeating_loop fuel pattern P (layout cols used (take (N.to_nat (N.min remaining P)) W)) cols
    (remaining - N.min remaining P) seen = Some (layout cols used (cyclic W 0 (N.to_nat remaining))).
Proof.
  intros Hr Hf Hu. rewrite N.min_l by lia. destruct fuel as [|fuel]; [lia|]. cbn [repeating_loop].
  replace (remaining - remaining =? 0) with true by lia.
  rewrite N.min_l by (by apply layout_le). f_equal.
  rewrite cyclic_prefix by (rewrite length_W; lia). by rewrite drop_0.
Qed.

(** A full turn. *)
Lemma repeating_turn used remaining :
  P ≤ remaining →
  layout cols (g used) (cyclic W 0 (N.to_nat (remaining - P))) =
  layout cols used (cyclic W 0 (N.to_nat remaining)).
Proof.
  intros Hr. unfold g. rewrite <- layout_app, <- cyclic_turn, length_W. f_equal. f_equal. lia.
Qed.

Lemma full_turn : take (N.to_nat P) W = W.
Proof. apply take_ge. rewrite length_W. lia. Qed.

Lemma repeating_loop_few fuel used remaining seen :
  used ≤ cols → length seen = N.to_nat (cols + 1) → seen_ok g P used remaining seen →
  (2 * N.to_nat (remaining / P) + 2 + (if seen !! N.to_nat used is Some (Some _) then 2 else 1) ≤ fuel)%nat →
  repeating_loop fuel pattern P used cols remaining seen =
  Some (layout cols used (cyclic W 0 (N.to_nat remaining))).
Proof.
  revert used remaining seen. induction fuel as [|fuel IH]; intros used remaining seen Hu Hlen Hok Hf; [lia|].
  destruct (repeating_loop_S fuel used remaining seen Hu Hlen Hok)
    as [[-> ->]|[(Hr & Hs & ->)|(Hr & [r Hs] & d & Hd & Hit & ->)]];
    rewrite ?Hs in Hf; cbv beta iota in Hf; [done| |].
  - destruct (decide (remaining < P)) as [|Hge]; [apply repeating_last; (done || lia)|].
    rewrite N.min_r, full_turn by lia. rewrite <- (repeating_turn used remaining) by lia.
    assert (remaining / P = 1 + (remaining - P) / P) as Hdiv.
    { replace remaining with (remaining - P + 1 * P) at 1 by lia. rewrite N.div_add by lia. lia. }
    apply IH; [by apply layout_le|by rewrite length_insert|apply seen_ok_step; (done || lia)|].
    repeat case_match; lia.
  - rewrite <- (cyclic_skip remaining d) by (done || lia).
    assert (remaining mod (N.of_nat d * P) / P ≤ remaining / P).
    { apply N.Div0.div_le_mono, N.Div0.mod_le. }
    apply IH; [done|by rewrite length_replicate|apply seen_ok_fresh|].
    rewrite lookup_replicate_2 by lia. lia.
Qed.

Lemma repeating_loop_ok fuel used remaining seen :
  used ≤ cols → length seen = N.to_nat (cols + 1) → seen_ok g P used remaining seen →
  (length seen - recorded seen + N.to_nat (2 * cols + 6) ≤ fuel)%nat →
  repeating_loop fuel pattern P used cols remaining seen =
  Some (layout cols used (cyclic W 0 (N.to_nat remaining))).
Proof.
  revert used remaining seen. induction fuel as [|fuel IH]; intros used remaining seen Hu Hlen Hok Hf; [lia|].
  destruct (repeating_loop_S fuel used remaining seen Hu Hlen Hok)
    as [[-> ->]|[(Hr & Hs & ->)|(Hr & _ & d & Hd & Hit & ->)]]; [done| |].
  - destruct (decide (remaining < P)) as [|Hge]; [apply repeating_last; (done || lia)|].
    rewrite N.min_r, full_turn by lia. rewrite <- (repeating_turn used remaining) by lia.
    apply IH; [by apply layout_le|by rewrite length_insert|apply seen_ok_step; (done || lia)|].
    pose proof (recorded_le (<[N.to_nat used := Some remaining]> seen)) as Hle.
    rewrite length_insert, recorded_insert in * by done. lia.
  - rewrite <- (cyclic_skip remaining d) by (done || lia).
    pose proof (recorded_le seen).
    assert (remaining mod (N.of_nat d * P) / P < N.of_nat d).
    { apply N.Div0.div_lt_upper_bound. rewrite N.mul_comm. apply N.mod_lt. lia. }
    apply repeating_loop_few; [done|by rewrite length_replicate|apply seen_ok_fresh|].
    rewrite lookup_replicate_2 by lia. lia.
Qed.

Lemma repeating_loop_start n :
  repeating_loop (occupancy_fuel cols) pattern P 0 cols n (fresh_seen cols) =
  Some (layout cols 0 (cyclic W 0 (N.to_nat n))).
Proof.
  apply repeating_loop_ok; [lia|apply length_fresh_seen|apply seen_ok_fresh|].
  unfold fresh_seen. rewrite length_replicate, recorded_replicate. unfold occupancy_fuel. lia.
Qed.
End repeating.

Lemma wrap_occupancy_repeating_ok pattern cols n :
  0 < cols → 0 < units_of pattern → units_of pattern ≤ u32_max →
  wrap_occupancy_repeating pattern cols n = Some (layout cols 0 (cyclic (expand pattern) 0 (N.to_nat n))).
Proof.
  intros Hc HP HPm. unfold wrap_occupancy_repeating. rewrite unit_sum_exact by done.
  replace (cols =? 0) with false by lia. replace (units_of pattern =? 0) with false by lia. cbn [orb].
  destruct (N.eqb_spec n 0) as [->|]; [done|]. rewrite repeating_loop_start by done.
  rewrite (take_ge (expand pattern)); [done|]. pose proof (length_expand pattern). lia.
Qed.

(** ** Pushing and dropping runs *)

Lemma push_run_expand runs w n :
  units_of runs + n ≤ u32_max →
  expand (push_run runs w n).1 = expand runs ++ replicate (N.to_nat n) w ∧
  units_of (push_run runs w n).1 = units_of runs + n.
Proof.
  intros Hn. unfold push_run.
  destruct (last runs) as [[lw c]|] eqn:Hl; [destruct (N.eqb_spec lw w) as [->|]|].
  2,3: cbn [fst]; rewrite expand_app, expand_cons, app_nil_r, units_of_app; cbn [units_of fst snd]; split; (done || lia).
  apply last_Some in Hl as [pre ->]. cbn [fst].
  rewrite length_app, Nat.add_sub, take_app_length.
  rewrite units_of_app in *. cbn [units_of fst snd] in *. unfold sat_add. rewrite N.min_l by lia.
  rewrite !units_of_app, !expand_app, !expand_cons, !app_nil_r, <- app_assoc. cbn [units_of fst snd]. split; [|lia].
  rewrite <- replicate_add. f_equal. f_equal. lia.
Qed.

Lemma drop_rev_runs_expand runs n :
  expand (drop_rev_runs runs n) = drop (N.to_nat n) (expand runs).
Proof.
  revert n. induction runs as [|[w c] runs IH]; intros n; [symmetry; apply drop_nil|].
  cbn [drop_rev_runs]. destruct (N.eqb_spec n 0) as [->|Hn]; [done|].
  rewrite expand_cons, drop_app, length_replicate, drop_replicate. cbn [fst snd].
  destruct (N.leb_spec c n).
  - rewrite IH. replace (N.to_nat c - N.to_nat n)%nat with O by lia. cbn [replicate app]. f_equal. lia.
  - rewrite expand_cons. cbn [fst snd]. replace (N.to_nat n - N.to_nat c)%nat with O by lia.
    rewrite drop_0. f_equal. f_equal. lia.
Qed.

Lemma expand_reverse runs : expand (reverse runs) = reverse (expand runs).
Proof.
  induction runs as [|[w c] runs IH]; [done|].
  rewrite reverse_cons, expand_app, IH, (expand_cons (w, c) runs), reverse_app.
  rewrite expand_cons, app_nil_r. cbn [fst snd]. by rewrite reverse_replicate.
Qed.

Lemma drop_suffix_expand runs n :
  expand (drop_suffix_wrap_runs runs n) = take (length (expand runs) - N.to_nat n) (expand runs).
Proof.
  unfold drop_suffix_wrap_runs. rewrite expand_reverse, drop_rev_runs_expand, expand_reverse.
  rewrite drop_reverse, reverse_involutive. done.
Qed.

(** ** Slices of a repeating pattern *)

Lemma slice_pass_ok pattern idx offset remaining runs :
  idx + units_of pattern ≤ u32_max → units_of runs + remaining ≤ u32_max →
  offset = 0 ∨ idx ≤ offset →
  let part := take (N.to_nat remaining) (drop (N.to_nat (offset - idx)) (expand pattern)) in
  let '(offset', remaining', runs') := slice_pass pattern idx offset remaining runs in
  expand runs' = expand runs ++ part ∧ units_of runs' = units_of runs + vlen part ∧
  remaining' = remaining - vlen part ∧ (offset' = 0 ∨ part = [] ∧ offset' = offset).
Proof.
  revert idx offset remaining runs.
  induction pattern as [|[w c] pattern IH]; intros idx offset remaining runs Hi Hr Ho; cbn [slice_pass]; cbv zeta.
  { rewrite expand_nil, drop_nil, take_nil, app_nil_r. cbn [length N.of_nat].
    split_and!; [done|lia|lia|auto]. }
  cbn [units_of fst snd] in Hi. destruct (N.eqb_spec remaining 0) as [->|Hrem].
  { change (N.to_nat 0) with O. rewrite take_0, app_nil_r. cbn [length N.of_nat]. split_and!; [done|lia|lia|auto]. }
  unfold sat_add. rewrite N.min_l by lia.
  rewrite expand_cons, drop_app, length_replicate, drop_replicate. cbn [fst snd].
  destruct (N.leb_spec (idx + c) offset) as [Hle|Hgt].
  { specialize (IH (idx + c) offset remaining runs).
    replace (N.to_nat c - N.to_nat (offset - idx))%nat with O by lia.
    replace (N.to_nat (offset - idx) - N.to_nat c)%nat with (N.to_nat (offset - (idx + c))) by lia.
    cbn [replicate app]. apply IH; lia. }
  replace (N.to_nat (offset - idx) - N.to_nat c)%nat with O by lia. rewrite drop_0.
  set (t := N.min (c - (offset - idx)) remaining).
  destruct (N.ltb_spec 0 t) as [Ht|Ht].
  - destruct (push_run_expand runs w t) as [He Hu]; [lia|].
    specialize (IH (idx + c) 0 (remaining - t) (push_run runs w t).1 ltac:(lia) ltac:(lia) ltac:(by left)).
    destruct (slice_pass _ _ _ _ _) as [[o' r'] runs']. destruct IH as (H1 & H2 & H3 & H4).
    replace (0 - (idx + c)) with 0 in * by lia. rewrite drop_0 in *.
    rewrite take_app, take_replicate, length_replicate.
    replace ((N.to_nat remaining `min` (N.to_nat c - N.to_nat (offset - idx)))%nat) with (N.to_nat t) by lia.
    replace (N.to_nat remaining - (N.to_nat c - N.to_nat (offset - idx)))%nat with (N.to_nat (remaining - t)) by lia.
    rewrite length_app, length_replicate, H1, He, <- app_assoc.
    split_and!; [done|lia|lia|]. destruct H4 as [->|[_ ->]]; auto.
  - specialize (IH (idx + c) offset remaining runs).
    assert (offset = 0) as -> by lia. replace (0 - (idx + c)) with (0 - idx) in IH by lia.
    replace (N.to_nat c - N.to_nat (0 - idx))%nat with O by lia. cbn [replicate app].
    replace (N.to_nat (0 - idx)) with O in * by lia. rewrite drop_0 in *. apply IH; lia.
Qed.

Lemma slice_loop_ok fuel pattern offset remaining runs :
  0 < units_of pattern → units_of pattern ≤ u32_max → units_of runs + remaining ≤ u32_max →
  offset < units_of pattern → (N.to_nat ((offset + remaining) / units_of pattern) + 2 ≤ fuel)%nat →
  ∃ runs', slice_loop fuel pattern offset remaining runs = Some runs' ∧
  expand runs' = expand runs ++ cyclic (expand pattern) (N.to_nat offset) (N.to_nat remaining).
Proof.
  intros HP HPm. set (P := units_of pattern) in *. revert offset remaining runs.
  induction fuel as [|fuel IH]; intros offset remaining runs Hr Ho Hf; [lia|]. cbn [slice_loop].
  destruct (N.eqb_spec remaining 0) as [->|Hrem]; [eexists; split; [done|by rewrite app_nil_r]|].
  pose proof (slice_pass_ok pattern 0 offset remaining runs ltac:(lia) Hr ltac:(right; lia)) as Hp.
  destruct (slice_pass _ _ _ _ _) as [[o' r'] runs']. destruct Hp as (H1 & H2 & H3 & H4).
  rewrite N.sub_0_r in *. pose proof (length_expand pattern) as Hlen. fold P in Hlen.
  rewrite length_take, length_drop in H3, H2.
  destruct (N.eqb_spec r' remaining) as [->|Hne]; [lia|].
  destruct H4 as [->|[Hnil _]].
  2:{ apply (f_equal length) in Hnil. rewrite length_take, length_drop in Hnil. cbn in Hnil. lia. }
  destruct (decide (offset + remaining < P)) as [Hlast|Hmore].
  - assert (r' = 0) as -> by lia. exists runs'. destruct fuel as [|fuel]; [lia|].
    split; [done|]. rewrite H1, cyclic_prefix by lia. done.
  - assert ((offset + remaining) / P = 1 + (0 + r') / P) as Hdiv.
    { replace (offset + remaining) with (0 + r' + 1 * P) by lia. rewrite N.div_add by lia. lia. }
    destruct (IH 0 r' runs') as (rs & -> & Hrs); [lia|lia|lia|].
    exists rs; split; [done|]. rewrite Hrs, H1, <- app_assoc. f_equal.
    replace (N.to_nat remaining) with (N.to_nat (P - offset) + N.to_nat r')%nat at 2 by lia.
    rewrite cyclic_add, (cyclic_prefix _ (N.to_nat offset)) by lia.
    rewrite !(take_ge (drop _ _)) by (rewrite length_drop; lia). f_equal.
    rewrite <- (cyclic_period _ 0). f_equal. lia.
Qed.

Lemma wrap_pattern_slice_ok pattern start count :
  0 < units_of pattern → units_of pattern ≤ u32_max → count ≤ u32_max →
  ∃ runs, wrap_pattern_slice pattern start count = Some runs ∧
  expand runs = cyclic (expand pattern) (N.to_nat start) (N.to_nat count).
Proof.
  intros HP HPm Hc. unfold wrap_pattern_slice. rewrite unit_sum_exact by done.
  set (P := units_of pattern) in *.
  replace (P =? 0) with false by lia. cbn [orb]. destruct (N.eqb_spec count 0) as [->|]; [by exists []|].
  pose proof (N.mod_lt start P ltac:(lia)).
  destruct (slice_loop_ok (N.to_nat (count / P + 3)) pattern (start mod P) count []) as (rs & -> & Hrs); try done.
  - fold P. assert ((start mod P + count) / P ≤ count / P + 1); [|lia].
    rewrite <- N.div_add by lia. apply N.Div0.div_le_mono. lia.
  - exists rs; split; [done|]. rewrite Hrs, <- (cyclic_mod _ (N.to_nat start)). rewrite expand_nil. cbn [app]. f_equal.
    rewrite N2Nat.inj_mod. f_equal. unfold P. rewrite <- length_expand. lia.
Qed.

(** Slices have no empty runs. *)
Definition positive (runs : list Run) : Prop := Forall (λ run, 0 < run.2) runs.

Lemma push_run_positive runs w n : 0 < n → positive runs → positive (push_run runs w n).1.
Proof.
  intros Hn Hr. unfold push_run.
  destruct (last runs) as [[lw c]|] eqn:Hl; [destruct (lw =? w)|]; cbn [fst];
    apply Forall_app; (split; [by try apply Forall_take|]); repeat constructor; cbn; [|done..].
  unfold sat_add, u32_max. lia.
Qed.

Lemma slice_pass_positive pattern idx offset remaining runs :
  positive runs → positive (slice_pass pattern idx offset remaining runs).2.
Proof.
  revert idx offset remaining runs. induction pattern as [|[w c] pattern IH]; intros idx offset remaining runs Hr;
    cbn [slice_pass]; [done|].
  destruct (_ =? 0); [done|]. destruct (_ <=? offset); [by apply IH|].
  destruct (N.ltb_spec 0 (N.min (c - (offset - idx)) remaining)); apply IH; [by apply push_run_positive|done].
Qed.

Lemma wrap_pattern_slice_positive pattern start count runs :
  wrap_pattern_slice pattern start count = Some runs → positive runs.
Proof.
  unfold wrap_pattern_slice. destruct (_ || _); [intros [= <-]; constructor|].
  generalize (N.to_nat (count / wrap_runs_unit_sum pattern + 3)), (start mod wrap_runs_unit_sum pattern).
  assert (positive []) as Hnil by constructor. revert Hnil. generalize (@nil Run). intros rs Hrs fuel.
  revert rs Hrs count. induction fuel as [|fuel IH]; intros rs Hrs remaining offset; cbn [slice_loop]; [done|].
  destruct (_ =? 0); [by intros [= <-]|].
  pose proof (slice_pass_positive pattern 0 offset remaining rs Hrs) as Hp.
  destruct (slice_pass _ _ _ _ _) as [[o' r'] rs']. cbn [snd] in Hp.
  destruct (_ =? _); [by intros [= <-]|by apply IH].
Qed.

Lemma width_at_ok pattern i : width_at pattern i = expand pattern !! N.to_nat i.
Proof.
  revert i. induction pattern as [|[w c] pattern IH]; intros i; [done|].
  cbn [width_at]. rewrite expand_cons. cbn [fst snd]. destruct (N.ltb_spec i c).
  - rewrite lookup_app_l by (rewrite length_replicate; lia). by rewrite lookup_replicate_2 by lia.
  - rewrite lookup_app_r by (rewrite length_replicate; lia). rewrite length_replicate, IH. f_equal. lia.
Qed.

Lemma expand_mod pattern i :
  (i mod length (expand pattern))%nat = N.to_nat (N.of_nat i mod units_of pattern).
Proof. rewrite <- length_expand, N2Nat.inj_mod, !Nat2N.id. done. Qed.

Lemma wrap_pattern_width_at_ok pattern (i : N) :
  0 < units_of pattern → units_of pattern ≤ u32_max →
  wrap_pattern_width_at pattern i = Some (expand pattern !!! (N.to_nat i mod length (expand pattern))%nat).
Proof.
  intros HP HPm. unfold wrap_pattern_width_at. rewrite unit_sum_exact by done.
  replace (units_of pattern =? 0) with false by lia. rewrite width_at_ok, expand_mod, N2Nat.id.
  apply list_lookup_lookup_total_lt. pose proof (length_expand pattern).
  pose proof (N.mod_lt i (units_of pattern) ltac:(lia)). lia.
Qed.

Lemma cyclic_rotate ws s n : ws ≠ [] → cyclic (cyclic ws s (length ws)) 0 n = cyclic ws s n.
Proof.
  intros Hne. assert (length ws ≠ O) by (by destruct ws).
  apply list_eq_same_length with n; [by rewrite length_cyclic..|].
  intros i x y Hi. rewrite !cyclic_lookup by done. intros [= <-] [= <-].
  rewrite length_cyclic. apply list_lookup_total_correct.
  rewrite cyclic_lookup by (apply Nat.mod_upper_bound; lia).
  f_equal. f_equal. by rewrite Nat.Div0.add_mod_idemp_r.
Qed.

Lemma repeating_from_ok pattern phase cols n :
  0 < cols → 0 < units_of pattern → units_of pattern ≤ u32_max →
  wrap_occupancy_repeating_from pattern phase cols n =
  Some (layout cols 0 (cyclic (expand pattern) (N.to_nat phase) (N.to_nat n))).
Proof.
  intros Hc HP HPm. unfold wrap_occupancy_repeating_from. rewrite unit_sum_exact by done.
  replace (units_of pattern =? 0) with false by lia.
  rewrite <- (cyclic_mod _ (N.to_nat phase)), expand_mod, N2Nat.id.
  destruct (N.eqb_spec (phase mod units_of pattern) 0) as [->|Hph].
  { by apply wrap_occupancy_repeating_ok. }
  destruct (wrap_pattern_slice_ok pattern (phase mod units_of pattern) (units_of pattern))
    as (rs & -> & Hrs); [done..|]. cbn [mbind option_bind].
  pose proof (length_expand pattern). pose proof (length_expand rs) as Hlen.
  rewrite Hrs, length_cyclic in Hlen.
  rewrite wrap_occupancy_repeating_ok, Hrs by lia. f_equal. f_equal.
  replace (N.to_nat (units_of pattern)) with (length (expand pattern)) by lia.
  apply cyclic_rotate. intros Hnil. rewrite Hnil in H. cbn in H. lia.
Qed.

(** ** Periodic runs *)

(** [rest] continues the repetition of [T] from run [p] on; its last run may be cut. *)
Fixpoint follows (T : list Run) (p : nat) (rest : list Run) : Prop :=
  match rest with
  | [] => True
  | r :: rest' =>
    ∃ t, T !! p = Some t ∧ r.1 = t.1 ∧ r.2 ≤ t.2 ∧ (rest' ≠ [] → r.2 = t.2) ∧
         follows T (S p mod length T) rest'
  end.

Lemma follows_expand T p rest :
  (p < length T)%nat → follows T p rest →
  expand rest = cyclic (expand T) (N.to_nat (units_of (take p T))) (N.to_nat (units_of rest)).
Proof.
  revert p. induction rest as [|[w c] rest IH]; intros p Hp Hf; [done|].
  destruct Hf as ([tw tc] & Ht & Hw & Hc & Hcut & Hf). cbn [fst snd] in *. subst tw.
  pose proof (take_drop_middle T p _ Ht) as HT. set (a := take p T) in *.
  assert (expand T = expand a ++ replicate (N.to_nat tc) w ++ expand (drop (S p) T)) as HW.
  { rewrite <- HT at 1. by rewrite expand_app, expand_cons. }
  pose proof (length_expand a) as Hla.
  cbn [units_of snd]. rewrite expand_cons. cbn [fst snd]. rewrite N2Nat.inj_add, cyclic_add. f_equal.
  - rewrite cyclic_prefix by (rewrite HW, !length_app, length_replicate; lia).
    rewrite HW, drop_app_length' by lia. rewrite take_app_le by (rewrite length_replicate; lia).
    by rewrite take_replicate, Nat.min_l by lia.
  - destruct (decide (rest = [])) as [->|Hne]; [done|]. rewrite (Hcut Hne) in *.
    rewrite (IH (S p mod length T)%nat) by (done || apply Nat.mod_upper_bound; lia).
    destruct (decide (S p = length T)) as [Hend|Hmid].
    + rewrite Hend, Nat.Div0.mod_same. cbn [take units_of N.to_nat].
      rewrite <- (cyclic_period (expand T) 0). f_equal.
      rewrite HW, drop_ge, !length_app, length_replicate by lia. rewrite expand_nil. cbn [length]. lia.
    + rewrite Nat.mod_small by lia. f_equal.
      assert (take (S p) T = a ++ [(w, tc)]) as -> by (by apply take_S_r).
      rewrite units_of_app. cbn [units_of snd]. lia.
Qed.

Lemma match_from_follows runs k index n :
  0 < k → k ≤ index → n = (length runs - N.to_nat index)%nat →
  match_from runs k index n = Some true →
  follows (take (N.to_nat k) runs) (N.to_nat (index mod k)) (drop (N.to_nat index) runs).
Proof.
  intros Hk. revert index. induction n as [|n IH]; intros index Hi Hn Hm.
  { by rewrite drop_ge by lia. }
  cbn [match_from] in Hm. unfold run_matches, vget in Hm.
  destruct (runs !! N.to_nat index) as [run|] eqn:Hrun; [|done]. cbn [mbind option_bind] in Hm.
  destruct (runs !! N.to_nat (index mod k)) as [t|] eqn:Ht; [|done]. cbn [mbind option_bind] in Hm.
  pose proof (N.mod_lt index k ltac:(lia)) as Hmod.
  destruct (run.1 =? t.1) eqn:Hw; [|done]. cbn [andb] in Hm.
  rewrite (drop_S _ _ _ Hrun). cbn [follows]. exists t.
  rewrite lookup_take_lt by lia. apply N.eqb_eq in Hw.
  assert (length (take (N.to_nat k) runs) = N.to_nat k) as HlT.
  { rewrite length_take. apply lookup_lt_Some in Hrun. lia. }
  rewrite HlT. destruct (index + 1 =? vlen runs) eqn:Hlast.
  - destruct (run.2 <=? t.2) eqn:Hc; [|done].
    replace (drop (S (N.to_nat index)) runs) with (@nil Run) by (symmetry; apply drop_ge; lia).
    split_and!; [done..|lia|done|done].
  - destruct (run.2 =? t.2) eqn:Hc; [|done].
    split_and!; [done..|lia|lia|].
    specialize (IH (index + 1) ltac:(lia) ltac:(lia) Hm).
    replace (N.to_nat (index + 1)) with (S (N.to_nat index)) in IH by lia.
    replace (S (N.to_nat (index mod k)) mod N.to_nat k)%nat with (N.to_nat ((index + 1) mod k)); [done|].
    rewrite <- N.Div0.add_mod_idemp_l, N2Nat.inj_mod. f_equal. lia.
Qed.

Lemma follows_cyclic T rest :
  T ≠ [] → follows T 0 rest →
  expand (T ++ rest) = cyclic (expand T) 0 (length (expand (T ++ rest))).
Proof.
  intros HT Hf. apply follows_expand in Hf; [|by destruct T; [|cbn; lia]].
  rewrite take_0 in Hf. cbn [units_of N.to_nat] in Hf.
  rewrite expand_app, length_app, cyclic_turn. f_equal.
  rewrite Hf at 1. f_equal. rewrite <- length_expand. lia.
Qed.

Lemma match_period_cyclic runs k :
  wrap_runs_match_period runs k = Some true →
  2 ≤ k ∧ k ≤ vlen runs ∧
  expand runs = cyclic (expand (take (N.to_nat k) runs)) 0 (N.to_nat (units_of runs)).
Proof.
  unfold wrap_runs_match_period. destruct (N.ltb_spec k 2); [done|].
  destruct (N.ltb_spec (vlen runs) k); [done|]. cbn [orb]. intros Hm. split_and!; [done..|].
  apply match_from_follows in Hm; [|lia..].
  rewrite N.Div0.mod_same in Hm. apply follows_cyclic in Hm.
  - rewrite take_drop in Hm. rewrite Hm at 1. f_equal. rewrite <- length_expand. lia.
  - intros Hnil%(f_equal length). rewrite length_take in Hnil. cbn in Hnil. lia.
Qed.

Lemma find_period_matches runs k n p :
  find_period runs k n = Some (Some p) → p < vlen runs ∧ wrap_runs_match_period runs p = Some true.
Proof.
  revert k. induction n as [|n IH]; intros k; cbn [find_period]; [done|].
  destruct (N.ltb_spec k (vlen runs)); [|apply IH].
  destruct (wrap_runs_match_period runs k) as [[]|] eqn:Hm; cbn [mbind option_bind]; [|apply IH|done].
  by intros [= <-].
Qed.

Lemma match_period_total runs k : ∃ b, wrap_runs_match_period runs k = Some b.
Proof.
  unfold wrap_runs_match_period. destruct (N.ltb_spec k 2); [by eexists|].
  destruct (N.ltb_spec (vlen runs) k); [by eexists|]. cbn [orb].
  assert (∀ n index, n = (length runs - N.to_nat index)%nat → ∃ b, match_from runs k index n = Some b) as Hm;
    [|by apply Hm].
  induction n as [|n IH]; intros index Hn; [by eexists|]. cbn [match_from]. unfold run_matches.
  destruct (vget_Some runs index) as [x ->]; [lia|]. cbn [mbind option_bind].
  pose proof (N.mod_lt index k ltac:(lia)).
  destruct (vget_Some runs (index mod k)) as [y ->]; [lia|]. cbn [mbind option_bind].
  destruct (_ && _); [apply IH; lia|by eexists].
Qed.

Lemma repeating_period_total runs : ∃ o, wrap_repeating_period runs = Some o ∧
  match o with
  | Some k => k < vlen runs ∧ wrap_runs_match_period runs k = Some true
  | None => True
  end.
Proof.
  unfold wrap_repeating_period. destruct (_ <? 2); [by eexists|].
  generalize 2, (N.to_nat (N.min (vlen runs) WRAP_PATTERN_MAX - 1)). intros k n.
  assert (∃ o, find_period runs k n = Some o) as [o Ho].
  { revert k. induction n as [|n IH]; intros k; [by eexists|]. cbn [find_period].
    destruct (k <? _); [|apply IH]. destruct (match_period_total runs k) as [b ->]. cbn [mbind option_bind].
    destruct b; [by eexists|apply IH]. }
  exists o. split; [done|]. destruct o; [|done]. by eapply find_period_matches.
Qed.

(** ** The spine *)

(** The columns in the table are bytes. *)
Lemma spine_loop_ok runs cols used total :
  0 < cols → used < cols → total + units_of runs ≤ u32_max →
  ∃ after units, spine_loop runs cols used total (fresh_seen cols) = Some (after, units) ∧
  length after = length runs ∧ length units = length runs ∧
  ∀ i, (i < length runs)%nat →
    after !! i = Some (to_u8 (layout cols used (expand (take (S i) runs)))) ∧
    units !! i = Some (total + units_of (take (S i) runs)).
Proof.
  intros Hc. revert used total. induction runs as [|[w c] runs IH]; intros used total Hu Ht.
  { exists [], []. split_and!; [done..|]. intros i Hi. cbn in Hi. lia. }
  cbn [spine_loop]. rewrite wrap_occupancy_run_ok by (lia || apply length_fresh_seen).
  cbn [mbind option_bind units_of snd] in *. unfold sat_add. rewrite (N.min_l (total + c)) by lia.
  set (used' := layout cols used (replicate (N.to_nat c) w)).
  assert (used' < cols) by (by apply layout_lt).
  destruct (IH used' (total + c)) as (after & units & -> & Ha & Hb & Hi); [done|lia|].
  cbn [mbind option_bind fst snd]. rewrite (N.min_l used') by lia.
  exists (to_u8 used' :: after), ((total + c) :: units).
  split_and!; [done|cbn [length]; lia..|]. intros [|i] Hlt; cbn [length] in Hlt.
  - cbn [take]. rewrite take_0, expand_cons, expand_nil. cbn [units_of fst snd lookup list_lookup]. rewrite app_nil_r.
    split; [done|]. cbn [units_of]. f_equal. lia.
  - destruct (Hi i) as [Hi1 Hi2]; [lia|]. change ((to_u8 used' :: after) !! S i) with (after !! i). change ((total + c :: units) !! S i) with (units !! i). rewrite Hi1, Hi2.
    rewrite !firstn_cons, expand_cons, layout_app. cbn [units_of fst snd]. split; [done|f_equal; lia].
Qed.

Lemma partition_point_spec {A} (pred : A → bool) l :
  partition_point pred l ≤ vlen l ∧
  (∀ i x, (i < N.to_nat (partition_point pred l))%nat → l !! i = Some x → pred x = true) ∧
  (∀ x, l !! N.to_nat (partition_point pred l) = Some x → pred x = false).
Proof.
  induction l as [|y l (H1 & H2 & H3)]; [split_and!; [done|intros; cbn in *; lia|done]|].
  cbn [partition_point length]. destruct (pred y) eqn:Hy.
  - replace (N.to_nat (1 + partition_point pred l)) with (S (N.to_nat (partition_point pred l))) by lia.
    split_and!; [lia| |done]. intros [|i] x Hi; cbn; [by intros [= <-]|apply H2; lia].
  - split_and!; [lia|intros; lia|]. intros x. cbn. by intros [= <-].
Qed.

(** The column a table yields: the unit falls into the runs [post], and the layout of [post]
    starts from the stored column of [pre]. *)
Definition spine_column (runs : list Run) (cols n used : N) : Prop :=
  ∃ pre post, runs = pre ++ post ∧ units_of pre ≤ n ∧
    match post with [] => True | r :: _ => n < units_of pre + r.2 end ∧
    used = layout cols (to_u8 (layout cols 0 (expand pre))) (take (N.to_nat (n - units_of pre)) (expand post)).

Lemma spine_occupancy_column runs cols n spine :
  0 < cols → units_of runs ≤ u32_max → build_spine runs cols (N.min cols u16_max) = Some spine →
  ∃ used, spine_occupancy spine runs cols n = Some used ∧ spine_column runs cols n used.
Proof.
  intros Hc Hu. unfold build_spine.
  destruct (spine_loop_ok runs cols 0 0 Hc Hc Hu) as (after & units & -> & Ha & Hb & Hi).
  cbn [mbind option_bind fst snd]. intros [= <-]. unfold spine_occupancy. cbn [after_run units_after].
  destruct (partition_point_spec (λ u, u <=? n) units) as (Hp1 & Hp2 & Hp3).
  set (fully := partition_point _ units) in *. remember (N.to_nat fully) as k eqn:Hk.
  set (pre := take k runs). set (post := drop k runs).
  assert (units_of pre ≤ n ∧
    (if fully =? 0 then Some (0, 0)
     else used ← vget after (fully - 1); consumed ← vget units (fully - 1); Some (used, consumed))
    = Some (to_u8 (layout cols 0 (expand pre)), units_of pre)) as [Hpre ->].
  { destruct (N.eqb_spec fully 0) as [H0|H0].
    - unfold pre. replace k with O by lia. split; [apply N.le_0_l|done].
    - unfold vget. destruct (Hi (N.to_nat (fully - 1))) as [Hx Hy]; [lia|].
      replace (S (N.to_nat (fully - 1))) with k in * by lia. rewrite Hx, Hy. cbn [mbind option_bind].
      specialize (Hp2 (N.to_nat (fully - 1)) _ ltac:(lia) Hy). cbn in Hp2. fold pre in Hp2. split; [lia|done]. }
  assert (match post with [] => True | r :: _ => n < units_of pre + r.2 end) as Hpost.
  { unfold post. destruct (drop k runs) as [|r rest] eqn:Hd; [done|].
    assert (runs !! k = Some r) as Hr. { rewrite <-(Nat.add_0_r k), <-lookup_drop, Hd. done. }
    destruct (Hi k) as [_ Hy]; [by eapply lookup_lt_Some|]. specialize (Hp3 _ Hy). cbn in Hp3.
    rewrite (take_S_r _ _ _ Hr), units_of_app in Hp3. cbn [units_of] in Hp3. fold pre in Hp3. lia. }
  assert (to_u8 (layout cols 0 (expand pre)) < cols) as Hlt.
  { unfold to_u8. pose proof (layout_lt cols 0 (expand pre) Hc Hc). lia. }
  set (used := layout cols (to_u8 (layout cols 0 (expand pre))) (take (N.to_nat (n - units_of pre)) (expand post))).
  exists used. split; [|exists pre, post; unfold pre, post; by rewrite take_drop].
  destruct (N.eqb_spec n 0) as [->|Hn].
  { cbn [orb]. assert (units_of pre = 0) as Hz by lia. unfold used. rewrite Hz. cbn [N.sub N.to_nat take layout foldl].
    assert (expand pre = []) as ->; [|done]. apply nil_length_inv. pose proof (length_expand pre). lia. }
  replace (cols =? 0) with false by lia. cbn [orb mbind option_bind].
  destruct (N.leb_spec n (units_of pre)).
  { rewrite N.min_l by lia. unfold used. by replace (n - units_of pre) with 0 by lia. }
  destruct (N.ltb_spec fully (vlen runs)) as [Hf|Hf].
  - destruct (vget_Some runs fully Hf) as [[w c] Hr]. rewrite Hr. cbn [mbind option_bind fst snd].
    rewrite wrap_occupancy_run_ok by (lia || apply length_fresh_seen). cbn [mbind option_bind].
    unfold vget in Hr. rewrite <-Hk in Hr. rewrite N.min_l by (apply layout_le; lia). f_equal. unfold used. f_equal.
    unfold post in *. rewrite (drop_S _ _ _ Hr) in *. cbn [fst snd] in Hpost. rewrite expand_cons. cbn [fst snd].
    rewrite take_app_le by (rewrite length_replicate; lia). rewrite take_replicate. f_equal. lia.
  - rewrite N.min_l by lia. unfold used, post. rewrite drop_ge by lia. by rewrite expand_nil, take_nil.
Qed.

(** In narrow grids, or when no column exceeds a byte, that is the column of the layout. *)
Lemma spine_column_exact runs cols n used :
  0 < cols → cols ≤ 256 → spine_column runs cols n used → used = layout cols 0 (take (N.to_nat n) (expand runs)).
Proof.
  intros Hc Hc2 (pre & post & -> & Hle & _ & ->). pose proof (layout_lt cols 0 (expand pre) Hc Hc).
  unfold to_u8, u8_max. rewrite N.min_l by lia. rewrite <-layout_app, expand_app. f_equal. pose proof (length_expand pre).
  rewrite take_app_ge by lia. do 2 f_equal. lia.
Qed.

Lemma spine_occupancy_ok runs cols n spine :
  0 < cols → cols ≤ 256 → units_of runs ≤ u32_max →
  build_spine runs cols (N.min cols u16_max) = Some spine →
  spine_occupancy spine runs cols n = Some (layout cols 0 (take (N.to_nat n) (expand runs))).
Proof.
  intros Hc Hc2 Hu Hb. destruct (spine_occupancy_column runs cols n spine Hc Hu Hb) as (used & -> & Hcol).
  by rewrite (spine_column_exact _ _ _ _ Hc Hc2 Hcol).
Qed.

(** ** The routines always answer

    Also outside the bounds under which they are exact: however long the runs are, no routine
    indexes out of bounds and every loop ends within its fuel. *)

Lemma slice_pass_zero pattern idx remaining runs :
  ∃ runs', slice_pass pattern idx 0 remaining runs = (0, remaining - units_of pattern, runs').
Proof.
  revert idx remaining runs. induction pattern as [|[w c] pattern IH]; intros idx remaining runs; cbn [slice_pass units_of snd].
  { rewrite N.sub_0_r. by exists runs. }
  destruct (N.eqb_spec remaining 0) as [->|]; [by exists runs|].
  assert (sat_add u32_max idx c ≤ 0 → c = 0) as Hc.
  { unfold sat_add. assert (0 < u32_max) by done. lia. }
  revert Hc. generalize (sat_add u32_max idx c). intros run_end Hc.
  replace (c - (0 - idx)) with c by lia.
  destruct (N.leb_spec run_end 0) as [Hz|Hz]; [|destruct (N.ltb_spec 0 (N.min c remaining))].
  - rewrite (Hc Hz), N.add_0_l. apply IH.
  - replace (remaining - (c + units_of pattern)) with (remaining - N.min c remaining - units_of pattern) by lia. apply IH.
  - replace (remaining - (c + units_of pattern)) with (remaining - units_of pattern) by lia. apply IH.
Qed.

Lemma slice_pass_progress pattern idx offset remaining runs :
  let '(offset', remaining', _) := slice_pass pattern idx offset remaining runs in
  remaining' = remaining ∨ offset' = 0 ∧ remaining' < remaining.
Proof.
  revert idx offset remaining runs. induction pattern as [|[w c] pattern IH]; intros idx offset remaining runs;
    cbn [slice_pass]; [by left|].
  destruct (N.eqb_spec remaining 0); [by left|]. destruct (_ <=? offset); [apply IH|].
  destruct (N.ltb_spec 0 (N.min (c - (offset - idx)) remaining)); [|apply IH].
  destruct (slice_pass_zero pattern (sat_add u32_max idx c) (remaining - N.min (c - (offset - idx)) remaining)
    (push_run runs w (N.min (c - (offset - idx)) remaining)).1) as [runs' ->]. right. lia.
Qed.

Lemma slice_loop_zero fuel pattern remaining runs :
  0 < units_of pattern → (N.to_nat (remaining / units_of pattern) + 2 ≤ fuel)%nat →
  ∃ runs', slice_loop fuel pattern 0 remaining runs = Some runs'.
Proof.
  intros HP. revert remaining runs. induction fuel as [|fuel IH]; intros remaining runs Hf; [lia|]. cbn [slice_loop].
  destruct (N.eqb_spec remaining 0); [by eexists|].
  destruct (slice_pass_zero pattern 0 remaining runs) as [runs' ->].
  destruct (N.eqb_spec (remaining - units_of pattern) remaining); [by eexists|].
  destruct (decide (units_of pattern ≤ remaining)).
  - apply IH. assert (remaining / units_of pattern = 1 + (remaining - units_of pattern) / units_of pattern) as Hd; [|lia].
    replace remaining with (remaining - units_of pattern + 1 * units_of pattern) at 1 by lia. rewrite N.div_add by lia. lia.
  - replace (remaining - units_of pattern) with 0 by lia. destruct fuel; [lia|]. by eexists.
Qed.

Lemma wrap_pattern_slice_total pattern start count : ∃ runs, wrap_pattern_slice pattern start count = Some runs.
Proof.
  unfold wrap_pattern_slice. destruct (_ || _) eqn:Hz; [by eexists|].
  rewrite orb_false_iff, !N.eqb_neq, unit_sum_min in Hz. rewrite unit_sum_min.
  set (P := N.min (units_of pattern) u32_max) in *.
  replace (N.to_nat (count / P + 3)) with (S (N.to_nat (count / P + 2))) by lia. cbn [slice_loop].
  destruct (N.eqb_spec count 0); [by eexists|].
  pose proof (slice_pass_progress pattern 0 (start mod P) count []) as Hp.
  destruct (slice_pass _ _ _ _ _) as [[o' r'] runs']. destruct (N.eqb_spec r' count); [by eexists|].
  destruct Hp as [?|[-> Hlt]]; [done|]. apply slice_loop_zero; [lia|].
  assert (r' / units_of pattern ≤ count / P); [|lia].
  transitivity (r' / P); [apply N.div_le_compat_l; lia|apply N.Div0.div_le_mono; lia].
Qed.

(** Runs whose column is read off a table: many of them, without a period. *)
Definition needs_spine (runs : list Run) : Prop :=
  APERIODIC_INLINE_RUN_BOUND < vlen runs ∧ wrap_repeating_period runs = Some None.

Lemma wrap_occupancy_for_runs_column (runs : list Run) (cols unit_limit : N) :
  0 < cols → positive runs → units_of runs ≤ u32_max → unit_limit ≤ units_of runs →
  ∃ used, wrap_occupancy_for_runs runs cols unit_limit = Some used ∧
    ((cols ≤ 256 ∨ ¬ needs_spine runs) → used = layout cols 0 (take (N.to_nat unit_limit) (expand runs))) ∧
    (needs_spine runs → spine_column runs cols unit_limit used).
Proof.
  intros Hc Hpos Hu Hn. unfold wrap_occupancy_for_runs, needs_spine.
  destruct (repeating_period_total runs) as (o & -> & Ho). cbn [mbind option_bind].
  destruct o as [k|].
  - destruct Ho as [_ (Hk & Hkl & Hcyc)%match_period_cyclic].
    assert (0 < units_of (take (N.to_nat k) runs) ≤ units_of runs) as [HP HP2].
    { rewrite <- (take_drop (N.to_nat k) runs) at 3. rewrite units_of_app. split; [|lia].
      destruct runs as [|r runs]; [cbn in Hkl; lia|]. destruct (N.to_nat k) eqn:?; [lia|].
      cbn [take units_of]. inversion Hpos. lia. }
    rewrite wrap_occupancy_repeating_ok by (done || lia). eexists. split_and!; [done| |by intros [_ ?]]. intros _. rewrite Hcyc. f_equal.
    replace (N.to_nat (units_of runs)) with (N.to_nat unit_limit + N.to_nat (units_of runs - unit_limit))%nat by lia.
    by rewrite cyclic_add, take_app_length' by (by rewrite length_cyclic).
  - destruct (N.ltb_spec APERIODIC_INLINE_RUN_BOUND (vlen runs)) as [Hmany|Hfew].
    2: { unfold wrap_occupancy_runs. rewrite over_runs_ok by lia. eexists. split_and!; [done|done|intros [? _]; lia]. }
    unfold wrap_occupancy_with_ephemeral_spine. replace (cols =? 0) with false by lia.
    rewrite bool_decide_eq_false_2 by (intros ->; cbn in *; lia). rewrite orb_false_r. cbn [orb].
    destruct (N.eqb_spec unit_limit 0) as [->|].
    { exists 0. split_and!; [done|done|]. intros _. exists [], runs. split_and!; [done|done| |done].
      destruct Hpos as [|r runs Hr _]; [done|]. cbn. lia. }
    destruct (spine_loop_ok runs cols 0 0) as (a & b & Hab & _); [lia..|].
    destruct (build_spine runs cols _) as [sp|] eqn:Hsp; [|unfold build_spine in Hsp; by rewrite Hab in Hsp].
    cbn [mbind option_bind]. destruct (spine_occupancy_column runs cols unit_limit sp Hc Hu Hsp) as (used & Hused & Hcol).
    exists used. split_and!; [done| |done]. intros [Hcols|Hno]; [by apply spine_column_exact|by destruct Hno].
Qed.

Lemma wrap_occupancy_for_runs_ok (runs : list Run) (cols unit_limit : N) :
  0 < cols → cols ≤ 256 ∨ vlen runs ≤ APERIODIC_INLINE_RUN_BOUND →
  positive runs → units_of runs ≤ u32_max → unit_limit ≤ units_of runs →
  wrap_occupancy_for_runs runs cols unit_limit =
  Some (layout cols 0 (take (N.to_nat unit_limit) (expand runs))).
Proof.
  intros Hc Hcols Hpos Hu Hn.
  destruct (wrap_occupancy_for_runs_column runs cols unit_limit Hc Hpos Hu Hn) as (used & -> & Hex & _).
  f_equal. apply Hex. destruct Hcols as [|Hfew]; [by left|right]. intros [Hmany _]. lia.
Qed.

(** C20. What the shortcuts of the wrap index compute.  For a paragraph given as runs, in a grid
    of any width: [wrap_occupancy_for_runs] answers, never indexing out of bounds and with its
    loops ending within the stated fuel.  By the repeating template when the runs repeat and by
    cycle detection when there are at most 64 of them, the answer is the column in which the
    plain unit-by-unit layout of the first [unit_limit] units ends.  For more runs without a
    period it is read off the table of columns after each run, whose entries are bytes: that is
    the column of the layout in grids of up to 256 columns, and in wider ones the column of the
    layout that starts the run of the last unit at the byte stored before it. *)
Theorem wrap_occupancy_exact (runs : list Run) (cols unit_limit : N) :
  0 < cols → positive runs → units_of runs ≤ u32_max → unit_limit ≤ units_of runs →
  ∃ used, wrap_occupancy_for_runs runs cols unit_limit = Some used ∧
    ((cols ≤ 256 ∨ ¬ needs_spine runs) → used = layout cols 0 (take (N.to_nat unit_limit) (expand runs))) ∧
    (needs_spine runs → spine_column runs cols unit_limit used).
Proof. apply wrap_occupancy_for_runs_column. Qed.

(** Seventy runs that do not repeat: widths 1 and 2 in turn, with growing counts. *)
Definition growing_runs : list Run :=
  (λ i : nat, (1 + N.of_nat i mod 2, 5 + N.of_nat i)) <$> seq 0 70.

Lemma wrap_occupancy_exact_witness :
  wrap_occupancy_for_runs growing_runs 80 1000 = Some (layout 80 0 (take 1000 (expand growing_runs))).
Proof.
  destruct (wrap_occupancy_exact growing_runs 80 1000) as (used & Hused & Hex & _).
  - reflexivity.
  - vm_compute. repeat constructor.
  - vm_compute. discriminate.
  - vm_compute. discriminate.
  - rewrite Hused. f_equal. apply Hex. left. vm_compute. discriminate.
Defined.

(** In a grid of 300 columns the column the table yields is not the one of the layout. *)
Example spine_truncates_columns :
  wrap_occupancy_for_runs growing_runs 300 999 = Some 274 ∧
  layout 300 0 (take 999 (expand growing_runs)) = 299.
Proof. vm_compute. split; reflexivity. Qed.
