(* ===== verification/Memory.v ===== *)
(** Heap accounting: a [Vec] or [VecDeque] together with its capacity.

    The history bounds its memory by the capacities of its vectors and by the sizes of its
    types.  Rust documents neither the growth factor of a vector nor the layout of a type,
    so both are parameters, with what the standard library does document: a vector holds its
    elements, a push within the capacity does not reallocate, and shrinking never grows. *)

From S2P Require Import Prelude HistoryTypes.

(** [usize::MAX] on the supported 64-bit targets. *)
Definition usize_max : N := u64_max.

(** Capacities of the vectors of a line: of [units] and of each unit's [utf8]. *)
Record LineCaps := mkCaps { units_cap : N; utf8_caps : list N }.

Class Memory := {
  (** [size_of] of the types the history accounts for. *)
  size_line : N; size_unit : N; size_segment_line : N; size_segment_unit : N; size_segment : N;
  size_store : N; size_range : N; size_bitmap : N; size_chain : N; size_fragment : N; size_run : N;
  (** Capacity after growing a vector of capacity [cap] to hold [len] elements of [size]. *)
  grow : N → N → N → N;
  grow_ge size cap len : len ≤ grow size cap len;
  grow_keep size cap len : len ≤ cap → grow size cap len = cap;
  (** Capacity after [shrink_to_fit]. *)
  shrink : N → N → N;
  shrink_ge cap len : len ≤ cap → len ≤ shrink cap len;
  shrink_le cap len : len ≤ cap → shrink cap len ≤ cap;
  (** Capacity of [Vec::with_capacity(n)] and of [to_vec] on [n] elements. *)
  with_capacity : N → N;
  with_capacity_ge n : n ≤ with_capacity n;
  (** Capacities of the [n]-th line handed to the store, as its caller built it. *)
  line_caps : N → HistoryLine → LineCaps;
  line_caps_len n l : length (utf8_caps (line_caps n l)) = length (units l);
}.

Record vec (A : Type) := mkVec { items : list A; capacity : N }.
Arguments mkVec {A} items capacity.
Arguments items {A} v.
Arguments capacity {A} v.

Section vec.
Context `{Memory} {A : Type}.
Implicit Types (v : vec A).

(** [Vec::new()], [VecDeque::new()]; also what [mem::take] leaves behind. *)
Definition vec_new : vec A := mkVec [] 0.
Definition vec_len v : N := vlen (items v).
Definition vec_push (size : N) (x : A) v : vec A :=
  mkVec (items v ++ [x]) (grow size (capacity v) (vec_len v + 1)).
(** Operations that keep the allocation: [truncate], [pop], [drain], [clear], [v[i] = x]. *)
Definition vec_keep (f : list A → list A) v : vec A := mkVec (f (items v)) (capacity v).
Definition vec_clear v : vec A := mkVec [] (capacity v).
Definition vec_shrink v : vec A := mkVec (items v) (shrink (capacity v) (vec_len v)).
End vec.

(** An allocator that never over-allocates, with the sizes of a 64-bit target. *)
Definition exact_memory : Memory.
Proof.
  refine {|
    size_line := 48; size_unit := 48; size_segment_line := 24; size_segment_unit := 24; size_segment := 64;
    size_store := 400; size_range := 16; size_bitmap := 40; size_chain := 136; size_fragment := 24; size_run := 8;
    grow _ cap len := N.max cap len; shrink cap len := len; with_capacity n := n;
    line_caps _ l := mkCaps (vlen (units l)) ((λ u, vlen (u_utf8 u)) <$> units l) |};
  intros; try lia. cbn. by rewrite length_fmap.
Defined.
