(* ===== verification/WrapIndex.v ===== *)
(** The wrap index: [crates/seyal-terminal/src/history/wrap.rs], the maintained part.

    For every paragraph of the history that spans more than one row the store keeps a
    [WrapChain]: which source fragments it has and the run-length encoding of its unit
    widths, reduced to a template as long as the runs repeat.  A chain grows with every
    appended line, is trimmed at either end by resizes and evictions, and answers in which
    column a source unit starts. *)

From stdpp Require Import sorting.
From S2P Require Import Prelude Types HistoryTypes Memory Wrap.

Definition HISTORY_PER_EXECUTION_DERIVED_INDEX_CAP : N := 4 * 1024 * 1024.

Record WrapFragment := mkFragment {
  wf_line_id : LineId; wf_start_offset : N; unit_count : N; prefix_units : N }.

Record WrapChain := mkChain {
  fragments : vec WrapFragment;
  runs : vec Run;
  pattern_len : N;
  pattern_phase : N;
  open : bool;
  spine : option WrapOccupancySpine }.

Definition chain_default : WrapChain := mkChain vec_new vec_new 0 0 false None.

(** [n as u32]. *)
Definition as_u32 (n : N) : N := n mod 4294967296.

Definition fragment_before (from : HistoryAnchor) (f : WrapFragment) : bool :=
  (wf_line_id f <? a_line_id from)
  || (wf_line_id f =? a_line_id from) && (wf_start_offset f <? unit_offset from).

Definition fragment_units (f : WrapFragment) : N := sat_add u32_max (prefix_units f) (unit_count f).

(** [fragments.last().map_or(0, |f| f.prefix_units.saturating_add(f.unit_count))]. *)
Definition chain_units (c : WrapChain) : N :=
  match last (items (fragments c)) with Some f => fragment_units f | None => 0 end.

(** The fragments are in source order, so [binary_search_by] finds the first fragment that
    is not before the anchor, or its place. *)
Definition units_before (from : HistoryAnchor) (c : WrapChain) : option N :=
  let fs := items (fragments c) in
  let index := partition_point (fragment_before from) fs in
  let exact := match vget fs index with
               | Some f =>
                 if (wf_line_id f =? a_line_id from) && (wf_start_offset f =? unit_offset from)
                 then Some (prefix_units f) else None
               | None => None
               end in
  match exact with
  | Some n => Some n
  | None =>
    if index =? 0 then Some 0
    else
      previous ← vget fs (index - 1);
      if (wf_line_id previous =? a_line_id from) && (wf_start_offset previous <? unit_offset from)
      then Some (sat_add u32_max (prefix_units previous)
                   (N.min (unit_offset from - wf_start_offset previous) (unit_count previous)))
      else if wf_line_id previous <? a_line_id from then Some (fragment_units previous)
      else Some 0
  end.

Definition wrap_chain_pattern (c : WrapChain) : option (list Run) :=
  if (2 <=? pattern_len c) && (pattern_len c <=? vec_len (runs c))
  then Some (take (N.to_nat (pattern_len c)) (items (runs c))) else None.

Definition wrap_pattern_period_units (c : WrapChain) : N :=
  match wrap_chain_pattern c with Some pattern => wrap_runs_unit_sum pattern | None => 0 end.

Definition wrap_chain_is_compacted (c : WrapChain) (run_units virtual_units : N) : bool :=
  (2 <=? pattern_len c) && (0 <? pattern_len c) && (vec_len (runs c) <=? pattern_len c)
  && (run_units <? virtual_units).

Section index.
Context `{Memory}.
Implicit Types (c : WrapChain) (cs : vec WrapChain).

Definition invalidate_spine c : WrapChain := c <| spine := None |>.

Definition compact_repeating_wrap_runs c : WrapChain :=
  if (2 <=? pattern_len c) && (pattern_len c <? vec_len (runs c))
  then invalidate_spine c <| runs ::= λ r, vec_shrink (vec_keep (take (N.to_nat (pattern_len c))) r) |>
  else c.

(** [push_run] on a vector. *)
Definition vec_push_run (r : vec Run) (width n : N) : vec Run * bool :=
  let '(l, pushed_new) := push_run (items r) width n in
  (mkVec l (if pushed_new then grow size_run (capacity r) (vec_len r + 1) else capacity r), pushed_new).

(** A vector that a function returns after pushing the elements one by one. *)
Definition vec_pushed {A} (size : N) (l : list A) : vec A := foldl (λ v x, vec_push size x v) vec_new l.

Definition append_run_units (r : vec Run) (units : list HistoryUnit) : vec Run :=
  foldl (λ r u, (vec_push_run r (N.max (u_width u) 1) 1).1) r units.

(** The template no longer fits: unfold it up to unit [index] of the line and append the
    line's other units. *)
Definition leave_pattern c (units : list HistoryUnit) (prefix index : N) : option WrapChain :=
  unfolded ← wrap_pattern_slice (items (runs c)) (pattern_phase c) (sat_add u32_max prefix (as_u32 index));
  Some (invalidate_spine c <| runs := append_run_units (vec_pushed size_run unfolded) units |>
          <| pattern_phase := 0 |> <| pattern_len := 0 |>).

Fixpoint append_compacted_wrap_runs c (units : list HistoryUnit) (prefix index : N) : option WrapChain :=
  match units with
  | [] => Some c
  | u :: rest =>
    let width := N.max (u_width u) 1 in
    let unit_index := sat_add u32_max (sat_add u32_max (pattern_phase c) prefix) (as_u32 index) in
    match wrap_pattern_width_at (items (runs c)) unit_index with
    | Some expected =>
      if expected =? width then append_compacted_wrap_runs c rest prefix (index + 1)
      else leave_pattern c units prefix index
    | None => leave_pattern c units prefix index
    end
  end.

Definition wrap_run_extends_pattern c (k : N) (pushed_new : bool) : option bool :=
  let rs := items (runs c) in
  let n := vlen rs in
  if (k =? 0) || (n <=? k) then Some true
  else
    repeats ← (if pushed_new then
                 prev ← vget rs (n - 2);
                 template ← vget rs ((n - 2) mod k);
                 Some (bool_decide (prev = template))
               else Some true);
    if negb repeats then Some false
    else
      template ← vget rs ((n - 1) mod k);
      run ← vget rs (n - 1);
      Some ((run.1 =? template.1) && (run.2 <=? template.2)).

Definition note_appended_wrap_run c (pushed_new : bool) : option WrapChain :=
  let c := invalidate_spine c in
  let n := vec_len (runs c) in
  if n <=? 1 then Some (c <| pattern_len := n |>)
  else if 2 <=? pattern_len c then
    if n <=? pattern_len c then Some c
    else
      extends ← wrap_run_extends_pattern c (pattern_len c) pushed_new;
      if (extends : bool) then Some c
      else if n <=? WRAP_PATTERN_MAX then Some (c <| pattern_len := n |>)
      else Some (c <| pattern_len := 0 |>)
  else if n <=? WRAP_PATTERN_MAX then Some (c <| pattern_len := n |>)
  else Some c.

Definition note_pattern_after_suffix_trim c : option WrapChain :=
  let rs := items (runs c) in
  let n := vlen rs in
  if n <=? 1 then Some (c <| pattern_len := n |>)
  else if 2 <=? pattern_len c then
    if n <=? pattern_len c then Some (c <| pattern_len := n |>)
    else
      template ← vget rs ((n - 1) mod pattern_len c);
      run ← vget rs (n - 1);
      if negb (run.1 =? template.1) || (template.2 <? run.2)
      then Some (c <| pattern_len := if n <=? WRAP_PATTERN_MAX then n else 0 |>)
      else Some c
  else if n <=? WRAP_PATTERN_MAX then Some (c <| pattern_len := n |>)
  else Some c.

Definition note_pattern_after_prefix_trim c (drop_units period_units : N) : WrapChain :=
  let n := vec_len (runs c) in
  if n <=? 1 then c <| pattern_len := n |>
  else if (n <=? WRAP_PATTERN_MAX) && (n <=? pattern_len c) then c <| pattern_len := n |>
  else if (2 <=? pattern_len c) && (0 <? period_units) && (drop_units mod period_units =? 0) then c
  else c <| pattern_len := 0 |>.

(** ** Columns *)

Definition ensure_aperiodic_spine c (cols : N) : option WrapChain :=
  let current := match spine c with
                 | Some existing => (spine_cols existing =? cols) && (run_len existing =? vec_len (runs c))
                 | None => false
                 end in
  if current then Some c
  else
    built ← build_spine (items (runs c)) cols cols;
    Some (c <| spine := Some built |>).

(** The column, and the chain with the spine the call may have built. *)
Definition wrap_occupancy_aperiodic c (cols units : N) : option (N * WrapChain) :=
  if (cols =? 0) || (units =? 0) || bool_decide (items (runs c) = []) then Some (0, c)
  else if APERIODIC_INLINE_RUN_BOUND <? vec_len (runs c) then
    c ← ensure_aperiodic_spine c (N.min cols u16_max);
    match spine c with
    | Some sp => used ← spine_occupancy sp (items (runs c)) cols units; Some (used, c)
    | None => used ← wrap_occupancy_for_runs (items (runs c)) cols units; Some (used, c)
    end
  else used ← wrap_occupancy_for_runs (items (runs c)) cols units; Some (used, c).

Definition wrap_occupancy_indexed c (cols units : N) : option (N * WrapChain) :=
  match wrap_chain_pattern c with
  | Some pattern =>
    used ← wrap_occupancy_repeating_from pattern (pattern_phase c) cols units; Some (used, c)
  | None => wrap_occupancy_aperiodic c cols units
  end.

(** ** The index of all chains *)

Definition chain_allocated_bytes c : N :=
  let spine_bytes := match spine c with
                     | Some sp => sat_add usize_max (with_capacity (run_len sp))
                                    (sat_mul usize_max (with_capacity (run_len sp)) 4)
                     | None => 0
                     end in
  sat_add usize_max (sat_add usize_max (sat_mul usize_max (capacity (fragments c)) size_fragment)
                       (sat_mul usize_max (capacity (runs c)) size_run)) spine_bytes.

(** The [sum] of byte counts far below [usize::MAX]. *)
Definition wrap_index_allocated_bytes cs : N :=
  sat_add usize_max (sat_mul usize_max (capacity cs) size_chain)
    (foldr (λ c sum, chain_allocated_bytes c + sum) 0 (items cs)).

(** Drop closed chains from the front while the index is over its cap. *)
Fixpoint drop_closed (cap : N) (chains : list WrapChain) : list WrapChain :=
  match chains with
  | c :: (_ :: _) as rest =>
    if (HISTORY_PER_EXECUTION_DERIVED_INDEX_CAP <? wrap_index_allocated_bytes (mkVec chains cap)) && negb (open c)
    then drop_closed cap rest else chains
  | _ => chains
  end.

Definition enforce_wrap_index_cap cs : vec WrapChain :=
  let cs := vec_keep (fmap compact_repeating_wrap_runs) cs in
  let cs := vec_keep (drop_closed (capacity cs)) cs in
  if HISTORY_PER_EXECUTION_DERIVED_INDEX_CAP <? wrap_index_allocated_bytes cs
  then vec_shrink (vec_clear cs) else cs.

(** One unit of a line that is not covered by a template. *)
Definition append_unit c (u : HistoryUnit) : option WrapChain :=
  let '(rs, pushed_new) := vec_push_run (runs c) (N.max (u_width u) 1) 1 in
  note_appended_wrap_run (c <| runs := rs |>) pushed_new.

Fixpoint append_units c (units : list HistoryUnit) : option WrapChain :=
  match units with
  | [] => Some c
  | u :: units => c ← append_unit c u; append_units c units
  end.

(** What [extend_wrap_line] does to the chain that takes the line. *)
Definition extend_chain c (line : HistoryLine) : option WrapChain :=
  let units := units line in
  let count := to_u32 (vlen units) in
  let prefix := chain_units c in
  let c := c <| fragments ::= vec_push size_fragment
                  (mkFragment (line_id line) (start_offset line) count prefix) |> in
  let run_units := wrap_runs_unit_sum (items (runs c)) in
  c ← (if wrap_chain_is_compacted c run_units prefix
       then append_compacted_wrap_runs c units prefix 0
       else c ← append_units c units; Some (compact_repeating_wrap_runs c));
  Some (c <| open := bool_decide (break_after line = SoftWrap) |>).

Definition extend_wrap_line (line : HistoryLine) cs : option (vec WrapChain) :=
  let continue_chain := match last (items cs) with Some c => open c | None => false end in
  if negb continue_chain && bool_decide (break_after line = HardBreak) then Some cs
  else if bool_decide (units line = []) then
    if continue_chain && bool_decide (break_after line = HardBreak)
    then Some (vec_keep (alter (λ c, c <| open := false |>) (length (items cs) - 1)%nat) cs)
    else Some cs
  else
    let cs := if continue_chain then cs else vec_push size_chain chain_default cs in
    c ← last (items cs);
    c ← extend_chain c line;
    Some (enforce_wrap_index_cap (vec_keep (λ l, <[length l - 1 := c]> l)%nat cs)).

Definition chain_starts_before (from : HistoryAnchor) c : bool :=
  match items (fragments c) with first :: _ => fragment_before from first | [] => false end.

Definition wrap_chain_containing (from : HistoryAnchor) cs : option N :=
  checked_sub (partition_point (chain_starts_before from) (items cs)) 1.

(** ** Trimming *)

Fixpoint pop_chains_rev (from : HistoryAnchor) (rev_chains : list WrapChain) : list WrapChain :=
  match rev_chains with
  | [] => []
  | c :: rest => if chain_starts_before from c then rev_chains else pop_chains_rev from rest
  end.

(** The last kept fragment is cut at the anchor. *)
Definition cut_fragment (from : HistoryAnchor) (f : WrapFragment) : WrapFragment :=
  if (wf_line_id f =? a_line_id from) && (wf_start_offset f <? unit_offset from)
  then f <| unit_count := N.min (unit_offset from - wf_start_offset f) (unit_count f) |> else f.

Definition trim_chain_suffix (from : HistoryAnchor) c : option WrapChain :=
  keep_units ← units_before from c;
  let total := chain_units c in
  if total <=? keep_units then Some c
  else
    let split := N.to_nat (partition_point (fragment_before from) (items (fragments c))) in
    let c := c <| fragments ::= vec_keep (λ fs, alter (cut_fragment from) (split - 1)%nat (take split fs)) |> in
    let run_units := wrap_runs_unit_sum (items (runs c)) in
    c ← (if wrap_chain_is_compacted c run_units total then
           Some (if keep_units =? 0
                 then invalidate_spine (c <| runs ::= vec_clear |> <| pattern_len := 0 |> <| pattern_phase := 0 |>)
                 else c)
         else
           c ← note_pattern_after_suffix_trim
                 (c <| runs ::= vec_keep (λ rs, drop_suffix_wrap_runs rs (total - keep_units)) |>);
           Some (invalidate_spine c));
    Some (c <| open := true |>).

Definition trim_wrap_suffix_from (from : HistoryAnchor) cs : option (vec WrapChain) :=
  let cs := vec_keep (λ l, reverse (pop_chains_rev from (reverse l))) cs in
  match last (items cs) with
  | None => Some cs
  | Some c =>
    c ← trim_chain_suffix from c;
    Some (vec_keep (λ l, <[length l - 1 := c]> l)%nat cs)
  end.

Definition chain_ends_before (keep : HistoryAnchor) c : bool :=
  match last (items (fragments c)) with
  | None => true
  | Some f =>
    (wf_line_id f <? a_line_id keep)
    || (wf_line_id f =? a_line_id keep)
       && (sat_add u32_max (wf_start_offset f) (unit_count f) <=? unit_offset keep)
  end.

Fixpoint pop_chains (keep : HistoryAnchor) (chains : list WrapChain) : list WrapChain :=
  match chains with
  | [] => []
  | c :: rest => if chain_ends_before keep c then pop_chains keep rest else chains
  end.

(** Renumber the fragments; also the total. *)
Fixpoint renumber (prefix : N) (fs : list WrapFragment) : list WrapFragment * N :=
  match fs with
  | [] => ([], prefix)
  | f :: fs =>
    let '(fs, total) := renumber (sat_add u32_max prefix (unit_count f)) fs in
    (f <| prefix_units := prefix |> :: fs, total)
  end.

Definition trim_chain_prefix (keep : HistoryAnchor) c : option WrapChain :=
  drop_units ← units_before keep c;
  let split := N.to_nat (partition_point (fragment_before keep) (items (fragments c))) in
  let '(fs, prefix) := renumber 0 (drop split (items (fragments c))) in
  let c := c <| fragments ::= vec_keep (λ _, fs) |> in
  let run_units := wrap_runs_unit_sum (items (runs c)) in
  if wrap_chain_is_compacted c run_units (sat_add u32_max drop_units prefix) then
    Some (invalidate_spine
            (if prefix =? 0
             then c <| runs ::= vec_clear |> <| pattern_len := 0 |> <| pattern_phase := 0 |>
             else c <| pattern_phase := sat_add u32_max (pattern_phase c) drop_units |>))
  else
    let period_units := wrap_pattern_period_units c in
    let c := c <| runs ::= vec_keep (λ rs, drop_prefix_wrap_runs rs drop_units) |> in
    Some (invalidate_spine (note_pattern_after_prefix_trim c drop_units period_units)).

(** [first] is the anchor of the oldest retained line, if there is one. *)
Definition trim_wrap_before_retained (first : option HistoryAnchor) cs : option (vec WrapChain) :=
  match first with
  | None => Some (vec_clear cs)
  | Some keep =>
    let cs := vec_keep (pop_chains keep) cs in
    match items cs with
    | [] => Some cs
    | c :: rest => c ← trim_chain_prefix keep c; Some (vec_keep (λ _, c :: rest) cs)
    end
  end.
End index.

(** * What a chain stands for *)

Definition unit_widths (us : list HistoryUnit) : list N := (λ u, N.max (u_width u) 1) <$> us.

(** The spine, when there is one, is the table of the current runs. *)
Definition spine_ok (c : WrapChain) : Prop :=
  match spine c with
  | Some sp => build_spine (items (runs c)) (spine_cols sp) (spine_cols sp) = Some sp
  | None => True
  end.

(** The runs are the widths themselves; a template, if any, is repeated by them. *)
Definition chain_exact (ws : list N) (c : WrapChain) : Prop :=
  pattern_phase c = 0 ∧ expand (items (runs c)) = ws ∧ positive (items (runs c)) ∧
  (pattern_len c < 2 ∨ vec_len (runs c) ≤ pattern_len c ∨
   follows (take (N.to_nat (pattern_len c)) (items (runs c))) 0
     (drop (N.to_nat (pattern_len c)) (items (runs c)))).

(** The runs are one period of the widths, which start at the phase. *)
Definition chain_compacted (ws : list N) (c : WrapChain) : Prop :=
  2 ≤ pattern_len c ∧ vec_len (runs c) = pattern_len c ∧
  0 < units_of (items (runs c)) ∧ units_of (items (runs c)) ≤ u32_max ∧ positive (items (runs c)) ∧
  pattern_phase c + vlen ws ≤ u32_max ∧
  ws = cyclic (expand (items (runs c))) (N.to_nat (pattern_phase c)) (length ws).

(** ** Following a template *)

Lemma follows_lookup T p rest :
  (p < length T)%nat →
  follows T p rest ↔
  ∀ i r, rest !! i = Some r →
    ∃ t, T !! ((p + i) mod length T)%nat = Some t ∧ r.1 = t.1 ∧ r.2 ≤ t.2 ∧ (S i < length rest → r.2 = t.2)%nat.
Proof.
  revert p. induction rest as [|x rest IH]; intros p Hp; [cbn; split; [intros _ i r|]; done|].
  assert (S p mod length T < length T)%nat as Hp' by (apply Nat.mod_upper_bound; lia).
  cbn [follows]. setoid_rewrite (IH _ Hp'). split.
  - intros (t & Ht & Hw & Hc & Hcut & Hf) [|i] r; cbn [lookup list_lookup length].
    + intros [= <-]. rewrite Nat.add_0_r, Nat.mod_small by done. exists t. split_and!; [done..|].
      intros Hl. apply Hcut. by destruct rest; [cbn in Hl; lia|].
    + intros Hr. destruct (Hf i r Hr) as (t' & Ht' & H2 & H3 & H4).
      exists t'. rewrite Nat.Div0.add_mod_idemp_l in Ht'. rewrite <- Ht'.
      split_and!; [f_equal; f_equal; lia|done|done|intros; apply H4; lia].
  - intros Hl. destruct (Hl O x eq_refl) as (t & Ht & Hw & Hc & Hcut).
    rewrite Nat.add_0_r, Nat.mod_small in Ht by done. exists t. split_and!; [done..| |].
    + intros Hne. apply Hcut. destruct rest; [done|cbn; lia].
    + intros i r Hr. destruct (Hl (S i) r Hr) as (t' & Ht' & H2 & H3 & H4).
      exists t'. rewrite Nat.Div0.add_mod_idemp_l. rewrite <- Ht'.
      split_and!; [f_equal; f_equal; lia|done|done|intros; apply H4; cbn; lia].
Qed.

(** Appending a run, or lengthening the last one, when the check of the source allows it. *)
Lemma follows_push T rest r :
  T ≠ [] → follows T 0 rest →
  (∀ r0, last rest = Some r0 → T !! ((length rest - 1) mod length T)%nat = Some r0) →
  (∃ t, T !! (length rest mod length T)%nat = Some t ∧ r.1 = t.1 ∧ r.2 ≤ t.2) →
  follows T 0 (rest ++ [r]).
Proof.
  intros HT Hf Hlast (t & Ht & Hw & Hc). assert (0 < length T)%nat by (destruct T; [done|cbn; lia]).
  rewrite follows_lookup in * by done. intros i x Hx. rewrite length_app. cbn [length Nat.add] in *.
  destruct (decide (i < length rest)%nat) as [Hi|Hi].
  - rewrite lookup_app_l in Hx by done. destruct (Hf i x Hx) as (t' & Ht' & H2 & H3 & H4).
    exists t'. split_and!; [done..|]. intros _. destruct (decide (S i < length rest)%nat); [by apply H4|].
    assert (i = length rest - 1)%nat as -> by lia. cbn [Nat.add] in Ht'.
    rewrite (Hlast x) in Ht' by (by rewrite last_lookup, <- Hx; f_equal; lia). congruence.
  - rewrite lookup_app_r in Hx by lia. apply list_lookup_singleton_Some in Hx as [? <-].
    assert (i = length rest) as -> by lia. exists t. split_and!; [done..|lia].
Qed.

Lemma follows_longer T rest w n n' :
  T ≠ [] → follows T 0 (rest ++ [(w, n)]) →
  (∃ t, T !! (length rest mod length T)%nat = Some t ∧ n' ≤ t.2) →
  follows T 0 (rest ++ [(w, n')]).
Proof.
  intros HT Hf (t & Ht & Hc). assert (0 < length T)%nat by (destruct T; [done|cbn; lia]).
  rewrite follows_lookup in * by done. intros i x Hx. rewrite length_app in *. cbn [length Nat.add] in *.
  destruct (decide (i < length rest)%nat) as [Hi|Hi].
  - apply Hf. rewrite lookup_app_l in * by done. done.
  - rewrite lookup_app_r in Hx by lia. apply list_lookup_singleton_Some in Hx as [? <-].
    assert (i = length rest) as -> by lia. destruct (Hf (length rest) (w, n)) as (t' & Ht' & H2 & _).
    { rewrite lookup_app_r, Nat.sub_diag by lia. done. }
    cbn [Nat.add] in Ht'. rewrite Ht in Ht'. simplify_eq. exists t'. split_and!; [done..|lia].
Qed.

Section chain_lemmas.
Context `{Memory}.
Implicit Types (c : WrapChain).

(** ** Appending to an exact chain *)

Lemma push_run_cases (rs : list Run) w :
  units_of rs < u32_max →
  (push_run rs w 1 = (rs ++ [(w, 1)], true)) ∨
  (∃ pre m, rs = pre ++ [(w, m)] ∧ push_run rs w 1 = (pre ++ [(w, m + 1)], false)).
Proof.
  intros Hu. unfold push_run. destruct (last rs) as [[lw m]|] eqn:Hl; [|by left].
  destruct (N.eqb_spec lw w) as [->|]; [|by left]. right. apply last_Some in Hl as [pre ->].
  exists pre, m. split; [done|]. rewrite length_app, Nat.add_sub, take_app_length.
  rewrite units_of_app in Hu. cbn [units_of snd] in Hu. unfold sat_add. by rewrite N.min_l by lia.
Qed.

Lemma extends_spec c k pushed_new :
  2 ≤ k → k < vec_len (runs c) →
  let rs := items (runs c) in let n := length rs in
  ∃ b, wrap_run_extends_pattern c k pushed_new = Some b ∧
  (b = true →
    (pushed_new = true → rs !! (n - 2)%nat = rs !! ((n - 2) mod N.to_nat k)%nat) ∧
    ∃ run t, rs !! (n - 1)%nat = Some run ∧ rs !! ((n - 1) mod N.to_nat k)%nat = Some t ∧
             run.1 = t.1 ∧ run.2 ≤ t.2).
Proof.
  intros Hk Hn. unfold vec_len in Hn. cbv zeta. set (rs := items (runs c)) in *.
  unfold wrap_run_extends_pattern. fold rs.
  replace (k =? 0) with false by lia. replace (vlen rs <=? k) with false by lia. cbn [orb].
  assert (∀ i, i < vlen rs → ∃ x, vget rs i = Some x ∧ rs !! N.to_nat i = Some x) as Hget.
  { intros i Hi. destruct (vget_Some rs i Hi) as [x Hx]. by exists x. }
  assert (∀ i, i < vlen rs → i mod k < vlen rs) as Hmod.
  { intros i Hi. pose proof (N.mod_lt i k ltac:(lia)). lia. }
  destruct (Hget (vlen rs - 2)) as (a & Ha & Ha'); [lia|].
  destruct (Hget ((vlen rs - 2) mod k)) as (a' & Hb & Hb'); [apply Hmod; lia|].
  destruct (Hget (vlen rs - 1)) as (x & Hx & Hx'); [lia|].
  destruct (Hget ((vlen rs - 1) mod k)) as (t & Ht & Ht'); [apply Hmod; lia|].
  rewrite Ha, Hb, Hx, Ht. cbn [mbind option_bind].
  rewrite !N2Nat.inj_mod, ?N2Nat.inj_sub, !Nat2N.id in *.
  change (N.to_nat 1) with 1%nat in *. change (N.to_nat 2) with 2%nat in *.
  destruct pushed_new; cbn [mbind option_bind].
  - destruct (bool_decide_reflect (a = a')) as [->|]; cbn [negb]; [|by eexists].
    eexists; split; [done|]. intros [Hw Hc]%andb_true_iff. split; [congruence|].
    exists x, t. split_and!; [done|done|by apply N.eqb_eq|by apply N.leb_le].
  - eexists; split; [done|]. intros [Hw Hc]%andb_true_iff. split; [done|].
    exists x, t. split_and!; [done|done|by apply N.eqb_eq|by apply N.leb_le].
Qed.

(** The template survives a new run. *)
Lemma follows_pushed (rs : list Run) (k : nat) w t :
  (2 ≤ k ≤ length rs)%nat →
  (length rs ≤ k)%nat ∨ follows (take k rs) 0 (drop k rs) →
  (rs ++ [(w, 1)]) !! (length rs - 1)%nat = (rs ++ [(w, 1)]) !! ((length rs - 1) mod k)%nat →
  (rs ++ [(w, 1)]) !! (length rs mod k)%nat = Some t → w = t.1 → 1 ≤ t.2 →
  follows (take k (rs ++ [(w, 1)])) 0 (drop k (rs ++ [(w, 1)])).
Proof.
  intros Hk Hf Hprev Ht Hw Hc. rewrite take_app_le, drop_app_le by lia.
  assert (length (take k rs) = k) as HT by (rewrite length_take; lia).
  assert (∀ i, (i mod k < length rs)%nat) as Hm.
  { intros i. pose proof (Nat.mod_upper_bound i k). lia. }
  assert (∀ i, ((i - k) mod k = i mod k)%nat ∨ (i < k)%nat) as Hsub.
  { intros i. destruct (decide (i < k)%nat); [by right|left].
    rewrite <- (Nat.Div0.mod_add (i - k) 1). f_equal. lia. }
  apply follows_push.
  - intros Hnil. rewrite Hnil in HT. cbn in HT. lia.
  - destruct Hf as [Hle|]; [|done]. by rewrite drop_ge by lia.
  - intros r0 Hr0. rewrite last_lookup, lookup_drop, length_drop in Hr0. rewrite HT, length_drop.
    destruct (decide (length rs = k)%nat) as [Heq|Hne].
    { rewrite Heq, Nat.sub_diag in Hr0. cbn [pred] in Hr0.
      rewrite lookup_ge_None_2 in Hr0 by lia. done. }
    replace (length rs - k - 1)%nat with (length rs - 1 - k)%nat by lia.
    destruct (Hsub (length rs - 1)%nat) as [->|]; [|lia].
    pose proof (Nat.mod_upper_bound (length rs - 1) k ltac:(lia)).
    rewrite lookup_take_lt by lia. rewrite !lookup_app_l in Hprev by (try apply Hm; lia).
    rewrite <- Hprev, <- Hr0. f_equal. lia.
  - exists t. rewrite HT, length_drop. split_and!; [|done|done].
    destruct (Hsub (length rs)) as [->|]; [|lia].
    pose proof (Nat.mod_upper_bound (length rs) k ltac:(lia)).
    rewrite lookup_take_lt by lia. rewrite lookup_app_l in Ht by apply Hm. done.
Qed.

(** The template survives a longer last run. *)
Lemma follows_lengthened (pre : list Run) (k : nat) w m t :
  (2 ≤ k ≤ length pre)%nat →
  follows (take k (pre ++ [(w, m)])) 0 (drop k (pre ++ [(w, m)])) →
  (pre ++ [(w, m + 1)]) !! (length pre mod k)%nat = Some t → m + 1 ≤ t.2 →
  follows (take k (pre ++ [(w, m + 1)])) 0 (drop k (pre ++ [(w, m + 1)])).
Proof.
  intros Hk Hf Ht Hc. rewrite !take_app_le, !drop_app_le in * by lia.
  assert (length (take k pre) = k) as HT by (rewrite length_take; lia).
  pose proof (Nat.mod_upper_bound (length pre) k ltac:(lia)).
  apply follows_longer with m; [|done|].
  - intros Hnil. rewrite Hnil in HT. cbn in HT. lia.
  - exists t. rewrite HT, length_drop. split; [|done].
    replace ((length pre - k) mod k)%nat with (length pre mod k)%nat.
    + rewrite lookup_take_lt by lia. by rewrite lookup_app_l in Ht by lia.
    + rewrite <- (Nat.Div0.mod_add (length pre - k) 1). f_equal. lia.
Qed.

(** Appending units keeps the other parts of a chain, and never advances the phase. *)
Definition same_frame c c' : Prop :=
  fragments c' = fragments c ∧ open c' = open c ∧ pattern_phase c' ≤ pattern_phase c.

(** What a run list keeps when [note_appended_wrap_run] looks at it. *)
Lemma note_appended_ok c pushed_new ws :
  pattern_phase c = 0 → expand (items (runs c)) = ws → positive (items (runs c)) →
  (2 ≤ pattern_len c → pattern_len c < vec_len (runs c) →
   wrap_run_extends_pattern (invalidate_spine c) (pattern_len c) pushed_new = Some true →
   follows (take (N.to_nat (pattern_len c)) (items (runs c))) 0
     (drop (N.to_nat (pattern_len c)) (items (runs c)))) →
  ∃ c', note_appended_wrap_run c pushed_new = Some c' ∧ chain_exact ws c' ∧ spine c' = None ∧ same_frame c c'.
Proof.
  intros Hph Hex Hpos Hfol. unfold note_appended_wrap_run.
  destruct c as [fs rs k ph op sp]; cbn [runs pattern_len pattern_phase fragments open] in *.
  change (runs (invalidate_spine (mkChain fs rs k ph op sp))) with rs.
  change (pattern_len (invalidate_spine (mkChain fs rs k ph op sp))) with k.
  assert (∀ k', (k' < 2 ∨ vec_len rs ≤ k' ∨
    follows (take (N.to_nat k') (items rs)) 0 (drop (N.to_nat k') (items rs))) →
    chain_exact ws (mkChain fs rs k' ph op None)) as Hmk by done.
  destruct (N.leb_spec (vec_len rs) 1).
  { eexists; split; [done|]. split; [|done]. apply (Hmk (vec_len rs)). left. lia. }
  destruct (N.leb_spec 2 k) as [Hk|Hk].
  - destruct (N.leb_spec (vec_len rs) k) as [Hle|Hgt].
    { eexists; split; [done|]. split; [|done]. apply Hmk. by right; left. }
    destruct (extends_spec (mkChain fs rs k ph op None) k pushed_new Hk Hgt) as (b & Hb & _).
    change (invalidate_spine _) with (mkChain fs rs k ph op None) in *. rewrite Hb. cbn [mbind option_bind].
    destruct b; [|destruct (_ <=? WRAP_PATTERN_MAX)]; (eexists; split; [done|]; split; [|done]).
    + apply (Hmk k). right. right. by apply Hfol.
    + apply (Hmk (vec_len rs)). by right; left.
    + apply (Hmk 0). by left.
  - destruct (_ <=? WRAP_PATTERN_MAX); (eexists; split; [done|]; split; [|done]).
    + apply (Hmk (vec_len rs)). by right; left.
    + apply (Hmk k). by left.
Qed.

Lemma append_unit_ok c u ws :
  chain_exact ws c → vlen ws < u32_max →
  ∃ c', append_unit c u = Some c' ∧ chain_exact (ws ++ [N.max (u_width u) 1]) c' ∧ spine c' = None ∧
        same_frame c c'.
Proof.
  intros (Hph & Hex & Hpos & Hpat) Hlen. set (w := N.max (u_width u) 1).
  assert (units_of (items (runs c)) < u32_max) as Hu by (rewrite <- length_expand, Hex; lia).
  destruct (push_run_expand (items (runs c)) w 1) as [He _]; [lia|].
  unfold append_unit, vec_push_run. fold w.
  destruct (push_run_cases (items (runs c)) w Hu) as [Hp|(pre & m & Hrs & Hp)]; rewrite Hp in *; cbn [fst] in He;
    set (c1 := c <| runs := _ |>).
  - destruct (note_appended_ok c1 true (ws ++ [w])) as (c' & ? & ? & ? & ?); try done.
    + change (expand (items (runs c) ++ [(w, 1)]) = ws ++ [w]). by rewrite He, Hex.
    + apply Forall_app. split; [done|]. by repeat constructor.
    + intros Hk Hn Hext. change (pattern_len c1) with (pattern_len c) in *.
      destruct (extends_spec (invalidate_spine c1) (pattern_len c) true Hk Hn) as (b & Hb & Hspec).
      rewrite Hb in Hext. injection Hext as ->. destruct (Hspec eq_refl) as (Hprev & run & t & Hrun & Ht & Hw & Hc).
      unfold vec_len in Hn. cbn [runs items c1 invalidate_spine] in *. unfold c1 in *. cbn in Hprev, Hrun, Ht, Hn |- *.
      rewrite length_app in *. cbn [length] in *.
      replace (length (items (runs c)) + 1 - 2)%nat with (length (items (runs c)) - 1)%nat in Hprev by lia.
      replace (length (items (runs c)) + 1 - 1)%nat with (length (items (runs c))) in * by lia.
      rewrite lookup_app_r, Nat.sub_diag in Hrun by lia. injection Hrun as <-. cbn [fst snd] in *.
      apply follows_pushed with t; try done; [lia| |by apply Hprev].
      destruct Hpat as [?|[Hle|?]]; [lia|left|by right]. unfold vec_len in Hle. lia.
    + by exists c'.
  - destruct (note_appended_ok c1 false (ws ++ [w])) as (c' & ? & ? & ? & ?); try done.
    + change (expand (pre ++ [(w, m + 1)]) = ws ++ [w]). by rewrite He, Hex.
    + unfold c1. cbn. rewrite Hrs in Hpos. apply Forall_app in Hpos as [? ?]. apply Forall_app. split; [done|].
      repeat constructor. cbn. lia.
    + intros Hk Hn Hext. change (pattern_len c1) with (pattern_len c) in *.
      destruct (extends_spec (invalidate_spine c1) (pattern_len c) false Hk Hn) as (b & Hb & Hspec).
      rewrite Hb in Hext. injection Hext as ->. destruct (Hspec eq_refl) as (_ & run & t & Hrun & Ht & Hw & Hc).
      unfold vec_len in Hn. unfold c1 in *. cbn in Hrun, Ht, Hn |- *. rewrite length_app in *. cbn [length] in *.
      replace (length pre + 1 - 1)%nat with (length pre) in * by lia.
      rewrite lookup_app_r, Nat.sub_diag in Hrun by lia. injection Hrun as <-. cbn [fst snd] in *.
      apply follows_lengthened with t; [lia| |done|done].
      rewrite <- Hrs. destruct Hpat as [?|[Hle|?]]; [lia| |done]. unfold vec_len in Hle.
      rewrite Hrs, length_app in Hle. cbn in Hle. lia.
    + by exists c'.
Qed.

(** A chain between two appends. *)
Definition chain_ok (ws : list N) c : Prop :=
  (chain_exact ws c ∧ (pattern_len c < 2 ∨ vec_len (runs c) ≤ pattern_len c)) ∨ chain_compacted ws c.

Lemma append_units_ok c us ws :
  chain_exact ws c → vlen ws + vlen us ≤ u32_max →
  ∃ c', append_units c us = Some c' ∧ chain_exact (ws ++ unit_widths us) c' ∧
        (spine c' = None ∨ us = []) ∧ same_frame c c'.
Proof.
  revert c ws. induction us as [|u us IH]; intros c ws Hc Hlen; cbn [append_units length] in *.
  { exists c. rewrite app_nil_r. split_and!; [done|done|by right|done]. }
  destruct (append_unit_ok c u ws Hc) as (c1 & -> & Hc1 & Hsp & Hf & Ho & Hp); [lia|]. cbn [mbind option_bind].
  destruct (IH c1 (ws ++ [N.max (u_width u) 1])) as (c2 & Hc2 & Hex & Hs & Hf' & Ho' & Hp'); [done| |].
  { rewrite length_app. cbn [length]. lia. }
  rewrite <- app_assoc in Hex. exists c2. split_and!; [done|done| |].
  - left. destruct Hs as [?| ->]; [done|]. cbn in Hc2. congruence.
  - split_and!; [congruence|congruence|lia].
Qed.

Lemma positive_units (rs : list Run) : positive rs → rs ≠ [] → 0 < units_of rs.
Proof. destruct rs as [|r rs]; [done|]. intros Hp _. inversion Hp. cbn [units_of]. lia. Qed.

(** The template is shorter than the [n] units of the chain, or the chain is its runs. *)
Definition settled_at (n : N) c : Prop :=
  units_of (items (runs c)) < n ∨ pattern_phase c = 0 ∧ units_of (items (runs c)) = n.

Lemma exact_settled c ws : chain_exact ws c → settled_at (vlen ws) c.
Proof. intros (Hph & Hex & _). right. split; [done|]. by rewrite <-length_expand, Hex. Qed.

Lemma compact_ok c ws :
  chain_exact ws c → vlen ws ≤ u32_max →
  let c' := compact_repeating_wrap_runs c in
  chain_ok ws c' ∧ settled_at (vlen ws) c' ∧ (spine c' = None ∨ c' = c) ∧ same_frame c c'.
Proof.
  intros Hc Hlen. pose proof (exact_settled c ws Hc) as Hset. cbv zeta. unfold compact_repeating_wrap_runs.
  destruct (N.leb_spec 2 (pattern_len c)) as [Hk|Hk]; cbn [andb].
  2:{ split_and!; [left; split; [done|by left]|done|by right|done]. }
  destruct (N.ltb_spec (pattern_len c) (vec_len (runs c))) as [Hn|Hn].
  2:{ split_and!; [left; split; [done|by right]|done|by right|done]. }
  clear Hset. match goal with |- ?A ∧ ?B ∧ _ => enough (A ∧ B) as [? ?] by (split_and!; [done|done|by left|done]) end.
  destruct Hc as (Hph & Hex & Hpos & [?|[?|Hfol]]); [lia|lia|].
  destruct c as [fs rs k ph op sp]; cbn [runs pattern_len pattern_phase] in *. subst ph. unfold vec_len in Hn.
  unfold chain_ok, chain_compacted, settled_at, vec_len. cbn.
  set (T := take (N.to_nat k) (items rs)) in *. set (rest := drop (N.to_nat k) (items rs)) in *.
  assert (items rs = T ++ rest) as Hsplit by (symmetry; apply take_drop).
  assert (vlen T = k) as HT by (unfold T; rewrite length_take; lia).
  assert (T ≠ []) as HTne by (intros Hnil; rewrite Hnil in HT; cbn in HT; lia).
  assert (rest ≠ []) as Hrne.
  { intros Hnil%(f_equal length). unfold rest in Hnil. rewrite length_drop in Hnil. cbn in Hnil. lia. }
  rewrite Hsplit in Hpos, Hex. apply Forall_app in Hpos as [HposT Hposr].
  pose proof (positive_units T HposT HTne). pose proof (positive_units rest Hposr Hrne).
  pose proof (length_expand T). pose proof (length_expand rest).
  apply follows_cyclic in Hfol as Hcyc; [|done]. rewrite <- Hex. clear Hfol.
  rewrite <- Hex in Hlen. rewrite expand_app, length_app in Hlen. split; [right|left; rewrite expand_app, length_app; lia].
  split_and!; [done|done|done|lia|done| |done]. rewrite expand_app, length_app. lia.
Qed.

(** ** Appending to a template *)

Lemma append_run_units_ok (r : vec Run) us :
  units_of (items r) + vlen us ≤ u32_max → positive (items r) →
  expand (items (append_run_units r us)) = expand (items r) ++ unit_widths us ∧
  positive (items (append_run_units r us)).
Proof.
  unfold append_run_units. revert r. induction us as [|u us IH]; intros r Hu Hp; cbn [foldl length] in *.
  { by rewrite app_nil_r. }
  destruct (push_run_expand (items r) (N.max (u_width u) 1) 1) as [He Hn]; [lia|].
  pose proof (push_run_positive (items r) (N.max (u_width u) 1) 1 ltac:(lia) Hp) as Hp'.
  destruct (IH (vec_push_run r (N.max (u_width u) 1) 1).1) as [H1 H2];
    unfold vec_push_run in *; destruct (push_run _ _ _) as [l b]; cbn [fst items] in *; [lia|done|].
  rewrite H1, He, <- app_assoc. done.
Qed.

Lemma items_vec_pushed {A} size (l : list A) : items (vec_pushed size l) = l.
Proof.
  unfold vec_pushed.
  assert (∀ v, items (foldl (λ v x, vec_push size x v) v l) = items v ++ l) as Hg; [|by rewrite Hg].
  induction l as [|x l IH]; intros v; cbn [foldl]; [by rewrite app_nil_r|].
  rewrite IH. cbn. by rewrite <- app_assoc.
Qed.

Lemma append_compacted_ok c (us0 us : list HistoryUnit) ws :
  chain_compacted ws c →
  ws ++ unit_widths us0 = cyclic (expand (items (runs c))) (N.to_nat (pattern_phase c)) (length ws + length us0) →
  pattern_phase c + vlen ws + vlen us0 + vlen us ≤ u32_max →
  ∃ c', append_compacted_wrap_runs c us (vlen ws) (vlen us0) = Some c' ∧
        chain_ok (ws ++ unit_widths (us0 ++ us)) c' ∧ (c' = c ∨ settled_at (vlen (ws ++ unit_widths (us0 ++ us))) c') ∧
        (spine c' = None ∨ c' = c) ∧ same_frame c c'.
Proof.
  intros Hc. pose proof Hc as (Hk & Hn & HP & HPm & Hpos0 & Hph & Hws). revert us0.
  set (W := expand (items (runs c))) in *. set (ph := pattern_phase c) in *.
  induction us as [|u us IH]; intros us0 Hcyc Hlen; cbn [append_compacted_wrap_runs].
  { exists c. rewrite app_nil_r. split_and!; [done| |by left|by right|done]. right.
    unfold chain_compacted. fold W ph. unfold unit_widths in *. rewrite !length_app, !length_fmap. rewrite <- Hcyc.
    cbn [length] in *. split_and!; (done || lia). }
  cbn [length] in Hlen. unfold sat_add at 1 2. rewrite !N.min_l by (unfold as_u32; lia).
  assert (as_u32 (vlen us0) = vlen us0) as Hidx by (apply N.mod_small; unfold u32_max in *; lia).
  rewrite Hidx. set (w := N.max (u_width u) 1).
  rewrite wrap_pattern_width_at_ok by lia. fold W.
  set (e := W !!! _). destruct (N.eqb_spec e w) as [Heq|Hne].
  - specialize (IH (us0 ++ [u])). rewrite <- app_assoc in IH. cbn [app] in IH.
    replace (vlen (us0 ++ [u])) with (vlen us0 + 1) in IH by (rewrite length_app; cbn; lia).
    apply IH; [|lia]. unfold unit_widths in *. rewrite fmap_app, app_assoc, Hcyc, length_app.
    rewrite Nat.add_assoc, (cyclic_add W _ (length ws + length us0)). f_equal.
    cbn [length fmap list_fmap cyclic seq]. unfold cyclic. cbn. f_equal. fold w. rewrite <- Heq. unfold e. f_equal. f_equal. lia.
  - clear IH. unfold leave_pattern. rewrite Hidx. unfold sat_add. rewrite N.min_l by lia.
    destruct (wrap_pattern_slice_ok (items (runs c)) ph (vlen ws + vlen us0)) as (rs & Hrs & He); [lia..|].
    fold ph. rewrite Hrs. cbn [mbind option_bind]. apply wrap_pattern_slice_positive in Hrs as Hpos.
    replace (N.to_nat (vlen ws + vlen us0)) with (length ws + length us0)%nat in He by lia.
    fold W in He. rewrite <- Hcyc in He.
    destruct (append_run_units_ok (vec_pushed size_run rs) (u :: us)) as [H1 H2]; rewrite items_vec_pushed in *; [|done|].
    { rewrite <- length_expand, He, length_app. unfold unit_widths. rewrite length_fmap. cbn [length]. lia. }
    eexists. split; [done|].
    match goal with |- chain_ok ?ws' ?c' ∧ _ => assert (chain_exact ws' c') as Hex end.
    2:{ split_and!; [left; split; [done|by left]|right; by apply exact_settled|by left|split_and!; [done|done|apply N.le_0_l]]. }
    split_and!; [done| |exact H2|by left].
    change (expand (items (append_run_units (vec_pushed size_run rs) (u :: us))) = ws ++ unit_widths (us0 ++ u :: us)).
    rewrite H1, He. unfold unit_widths. by rewrite fmap_app, app_assoc.
Qed.

(** ** Extending a chain by a line *)

(** Only a cut or an eviction that leaves no more than one period of a template breaks this. *)
Definition settled c : Prop := settled_at (chain_units c) c.

(** A whole template is both. *)
Lemma compacted_exact c ws :
  chain_compacted ws c → pattern_phase c = 0 → units_of (items (runs c)) = vlen ws → chain_exact ws c.
Proof.
  intros (Hk & Hn & HP & _ & Hpos & _ & Hws) Hph Hlen. split_and!; [done| |done|right; left; lia].
  rewrite Hws, Hph. change (N.to_nat 0) with O. pose proof (length_expand (items (runs c))) as Hl.
  replace (length ws) with (length (expand (items (runs c))) + 0)%nat by lia. rewrite cyclic_turn. by rewrite app_nil_r.
Qed.

Lemma extend_chain_ok c line ws :
  units line ≠ [] → chain_ok ws c → spine_ok c → chain_units c = vlen ws → settled c →
  pattern_phase c + vlen ws + vlen (units line) ≤ u32_max →
  ∃ c', extend_chain c line = Some c' ∧ chain_ok (ws ++ unit_widths (units line)) c' ∧ spine_ok c' ∧
    items (fragments c') = items (fragments c) ++
      [mkFragment (line_id line) (start_offset line) (vlen (units line)) (vlen ws)] ∧
    pattern_phase c' ≤ pattern_phase c ∧ settled c' ∧ open c' = bool_decide (break_after line = SoftWrap).
Proof.
  intros Hne Hc Hsp Hcu Hset Hlen. unfold settled in *. rewrite Hcu in Hset. unfold extend_chain. rewrite Hcu.
  set (c1 := c <| fragments ::= _ |>).
  assert (to_u32 (vlen (units line)) = vlen (units line)) as Hto by (unfold to_u32; lia).
  assert (items (fragments c1) = items (fragments c) ++
    [mkFragment (line_id line) (start_offset line) (vlen (units line)) (vlen ws)]) as Hfs.
  { unfold c1. cbn. by rewrite Hto. }
  change (runs c1) with (runs c). change (pattern_len c1) with (pattern_len c).
  assert (∀ c' b, spine_ok c' → spine_ok (c' <| open := b |>)) as Hopen by done.
  assert (∀ c' b, settled_at (vlen (ws ++ unit_widths (units line))) c' → items (fragments c') = items (fragments c1) →
    settled_at (chain_units (c' <| open := b |>)) (c' <| open := b |>)) as Hsettled.
  { intros c' b Hs Hf. replace (chain_units _) with (vlen (ws ++ unit_widths (units line))); [exact Hs|].
    unfold chain_units. cbn. rewrite Hf, Hfs, last_snoc. unfold fragment_units, sat_add, unit_widths. cbn.
    rewrite length_app, length_fmap. lia. }
  assert (chain_exact ws c ∨ chain_compacted ws c ∧ units_of (items (runs c)) < vlen ws) as Hcase.
  { destruct Hc as [[Hc _]|Hc]; [by left|]. destruct Hset as [|[Hph Heq]]; [by right|]. left. by apply compacted_exact. }
  clear Hc. destruct Hcase as [Hc|[Hc HPw]].
  - assert (wrap_chain_is_compacted c1 (wrap_runs_unit_sum (items (runs c))) (vlen ws) = false) as ->.
    { unfold wrap_chain_is_compacted. destruct Hc as (_ & Hex & _).
      rewrite unit_sum_exact; rewrite <- length_expand, Hex; [|lia]. rewrite N.ltb_irrefl. by rewrite !andb_false_r. }
    destruct (append_units_ok c1 (units line) ws) as (c2 & -> & Hc2 & Hs2 & Hf2 & Ho2 & Hp2); [done|lia|].
    cbn [mbind option_bind].
    assert (vlen (ws ++ unit_widths (units line)) ≤ u32_max) as Hl2.
    { rewrite length_app. unfold unit_widths. rewrite length_fmap. lia. }
    destruct (compact_ok c2 _ Hc2 Hl2) as (Hc3 & Hset3 & Hs3 & Hf3 & Ho3 & Hp3).
    set (c3 := compact_repeating_wrap_runs c2) in *. eexists. split; [done|]. split_and!; [done| |by cbn; rewrite Hf3, Hf2| |apply Hsettled; [done|congruence]|done].
    2:{ change (pattern_phase c3 ≤ pattern_phase c1). lia. }
    apply Hopen. destruct Hs3 as [Hs3| ->]; [by unfold spine_ok; rewrite Hs3|].
    destruct Hs2 as [Hs2|Hnil]; [by unfold spine_ok; rewrite Hs2|done].
  - assert (wrap_chain_is_compacted c1 (wrap_runs_unit_sum (items (runs c))) (vlen ws) = true) as ->.
    { unfold wrap_chain_is_compacted. destruct Hc as (Hk & Hn & HP & HPm & _ & Hph & _).
      change (runs c1) with (runs c). change (pattern_len c1) with (pattern_len c).
      rewrite unit_sum_exact by lia. rewrite Hn. apply andb_true_iff. split; [|by apply N.ltb_lt].
      rewrite N.leb_refl, andb_true_r. apply andb_true_iff. split; [by apply N.leb_le|apply N.ltb_lt; lia]. }
    assert (chain_compacted ws c1) as Hc1 by done. pose proof Hc as (_ & _ & _ & _ & _ & _ & Hws).
    destruct (append_compacted_ok c1 [] (units line) ws) as (c2 & Hc2 & Hok & Hset2 & Hs2 & Hf2 & Ho2 & Hp2); [done| | |].
    { cbn [length]. by rewrite Nat.add_0_r, app_nil_r. }
    { change (pattern_phase c1) with (pattern_phase c). cbn [length]. lia. }
    change (vlen []) with 0 in Hc2. rewrite Hc2. cbn [mbind option_bind].
    eexists. split; [done|]. split_and!; [done| |by cbn; rewrite Hf2|exact Hp2|apply Hsettled; [|congruence]|done].
    2:{ destruct Hset2 as [->|Hset2]; [left|exact Hset2]. change (runs c1) with (runs c). rewrite length_app. lia. }
    apply Hopen. destruct Hs2 as [Hs2| ->]; [by unfold spine_ok; rewrite Hs2|done].
Qed.

(** ** Reading a column *)

Lemma wrap_occupancy_aperiodic_ok c ws cols n :
  chain_exact ws c → spine_ok c → 0 < cols → cols ≤ 256 → vlen ws ≤ u32_max → n ≤ vlen ws →
  ∃ sp, wrap_occupancy_aperiodic c cols n =
          Some (layout cols 0 (take (N.to_nat n) ws), c <| spine := sp |>) ∧ spine_ok (c <| spine := sp |>).
Proof.
  intros (_ & Hex & Hpos & _) Hsp Hc0 Hc1 Hlen Hn. unfold wrap_occupancy_aperiodic.
  assert (c = c <| spine := spine c |>) as Hself by (by destruct c).
  pose proof (length_expand (items (runs c))) as Hu. rewrite Hex in Hu.
  replace (cols =? 0) with false by lia. cbn [orb].
  destruct (N.eqb_spec n 0) as [->|Hn0].
  { exists (spine c). by rewrite <- Hself. }
  destruct (bool_decide_reflect (items (runs c) = [])) as [Hnil|Hne]; cbn [orb].
  { rewrite Hnil in Hu. cbn in Hu. lia. }
  destruct (N.ltb_spec APERIODIC_INLINE_RUN_BOUND (vec_len (runs c))) as [Hmany|Hfew].
  - replace (N.min cols u16_max) with cols by (unfold u16_max; lia).
    destruct (spine_loop_ok (items (runs c)) cols 0 0) as (a & b & Hab & _); [lia..|].
    assert (∃ sp, build_spine (items (runs c)) cols cols = Some sp) as [sp Hb].
    { unfold build_spine. rewrite Hab. by eexists. }
    assert (spine_cols sp = cols) as Hsc.
    { unfold build_spine in Hb. rewrite Hab in Hb. by simplify_eq/=. }
    assert (ensure_aperiodic_spine c cols = Some (c <| spine := Some sp |>)) as ->.
    { unfold ensure_aperiodic_spine. rewrite Hb. cbn [mbind option_bind].
      destruct (spine c) as [sp'|] eqn:Hs; [|done].
      destruct (N.eqb_spec (spine_cols sp') cols) as [Heq|]; [|done].
      destruct (_ =? _); [|done]. cbn [andb]. unfold spine_ok in Hsp. rewrite Hs, Heq, Hb in Hsp.
      injection Hsp as <-. exact (f_equal Some Hself). }
    cbn [mbind option_bind]. change (spine (c <| spine := Some sp |>)) with (Some sp).
    change (runs (c <| spine := Some sp |>)) with (runs c).
    cbv beta iota. rewrite spine_occupancy_ok by (lia || by replace (N.min cols u16_max) with cols by (unfold u16_max; lia)).
    cbn [mbind option_bind]. exists (Some sp). rewrite Hex. split; [done|]. unfold spine_ok. cbn. by rewrite Hsc.
  - rewrite wrap_occupancy_for_runs_ok by (done || lia || by right).
    cbn [mbind option_bind]. exists (spine c). rewrite Hex. by rewrite <- Hself.
Qed.

Lemma wrap_occupancy_indexed_ok c ws cols n :
  chain_ok ws c → spine_ok c → 0 < cols → cols ≤ 256 → vlen ws ≤ u32_max → n ≤ vlen ws →
  ∃ sp, wrap_occupancy_indexed c cols n = Some (layout cols 0 (take (N.to_nat n) ws), c <| spine := sp |>) ∧
        spine_ok (c <| spine := sp |>).
Proof.
  intros Hok Hsp Hc0 Hc1 Hlen Hn. unfold wrap_occupancy_indexed, wrap_chain_pattern.
  assert (∀ used : N, (∃ sp, Some (used, c) = Some (used, c <| spine := sp |>) ∧ spine_ok (c <| spine := sp |>))) as Hret.
  { intros used. exists (spine c). by destruct c. }
  destruct Hok as [[Hc Hk]|Hc].
  - pose proof Hc as (Hph & Hex & Hpos & Hpat). pose proof (length_expand (items (runs c))) as Hu.
    rewrite Hex in Hu. destruct (_ && _) eqn:Hpatb; [|by apply wrap_occupancy_aperiodic_ok].
    apply andb_true_iff in Hpatb as [Hk2%N.leb_le Hkn%N.leb_le]. unfold vec_len in *.
    assert (items (runs c) ≠ []) by (intros Hnil; rewrite Hnil in Hkn; cbn in Hkn; lia).
    pose proof (positive_units _ Hpos ltac:(done)).
    rewrite take_ge by lia. rewrite repeating_from_ok by lia. cbn [mbind option_bind].
    rewrite Hph, Hex, cyclic_prefix by (cbn; lia). change (N.to_nat 0) with O. rewrite drop_0. apply Hret.
  - pose proof Hc as (Hk & Hl & HP & HPm & Hpos & Hph & Hws). rewrite Hl.
    replace (2 <=? pattern_len c) with true by (symmetry; by apply N.leb_le). rewrite N.leb_refl. cbn [andb].
    unfold vec_len in Hl. rewrite take_ge by lia. rewrite repeating_from_ok by lia. cbn [mbind option_bind].
    replace (cyclic _ _ (N.to_nat n)) with (take (N.to_nat n) ws); [apply Hret|].
    rewrite Hws. replace (length ws) with (N.to_nat n + (length ws - N.to_nat n))%nat by lia.
    by rewrite cyclic_add, take_app_length' by (by rewrite length_cyclic).
Qed.
End chain_lemmas.

(** ** The index never panics

    Whatever state trims and appends have left a chain in, every operation of the index
    returns. *)

Section total.
Context `{Memory}.
Implicit Types (c : WrapChain) (cs : vec WrapChain).

Lemma note_appended_total c pushed_new : ∃ c', note_appended_wrap_run c pushed_new = Some c'.
Proof.
  unfold note_appended_wrap_run. destruct (_ <=? 1); [by eexists|].
  destruct (N.leb_spec 2 (pattern_len (invalidate_spine c))) as [Hk|]; [|destruct (_ <=? _); by eexists].
  destruct (N.leb_spec (vec_len (runs (invalidate_spine c))) (pattern_len (invalidate_spine c))) as [|Hn]; [by eexists|].
  destruct (extends_spec (invalidate_spine c) _ pushed_new Hk Hn) as (b & -> & _). cbn [mbind option_bind].
  destruct b; [|destruct (_ <=? _)]; by eexists.
Qed.

Lemma append_units_total c us : ∃ c', append_units c us = Some c'.
Proof.
  revert c. induction us as [|u us IH]; intros c; cbn [append_units]; [by eexists|].
  unfold append_unit. destruct (vec_push_run _ _ _) as [rs b].
  destruct (note_appended_total (c <| runs := rs |>) b) as [c' ->]. apply IH.
Qed.

Lemma append_compacted_total c us prefix index : ∃ c', append_compacted_wrap_runs c us prefix index = Some c'.
Proof.
  revert index. induction us as [|u us IH]; intros index; cbn [append_compacted_wrap_runs]; [by eexists|].
  assert (∃ c', leave_pattern c (u :: us) prefix index = Some c') as Hl.
  { unfold leave_pattern. destruct (wrap_pattern_slice_total (items (runs c)) (pattern_phase c)
      (sat_add u32_max prefix (as_u32 index))) as [rs ->]. by eexists. }
  destruct (wrap_pattern_width_at _ _) as [e|]; [destruct (_ =? _); [apply IH|]|]; exact Hl.
Qed.

Lemma extend_chain_total c line : ∃ c', extend_chain c line = Some c'.
Proof.
  unfold extend_chain. set (c1 := c <| fragments ::= _ |>). destruct (wrap_chain_is_compacted _ _ _).
  - destruct (append_compacted_total c1 (units line) (chain_units c) 0) as [c2 ->]. by eexists.
  - destruct (append_units_total c1 (units line)) as [c2 ->]. by eexists.
Qed.

Lemma extend_wrap_line_total line cs : ∃ cs', extend_wrap_line line cs = Some cs'.
Proof.
  unfold extend_wrap_line. set (continue_chain := match last (items cs) with Some c => open c | None => false end).
  destruct (_ && _); [by eexists|]. destruct (bool_decide _); [destruct (_ && _); by eexists|].
  assert (∃ c, last (items (if continue_chain then cs else vec_push size_chain chain_default cs)) = Some c) as [c ->].
  { unfold continue_chain. destruct (last (items cs)) as [c|] eqn:Hl; [destruct (open c)|]; cbn [vec_push items];
      rewrite ?last_snoc, ?Hl; by eexists. }
  cbn [mbind option_bind]. destruct (extend_chain_total c line) as [c' ->]. by eexists.
Qed.

Lemma units_before_total from c : ∃ n, units_before from c = Some n.
Proof.
  unfold units_before. set (fs := items (fragments c)).
  destruct (partition_point_spec (fragment_before from) fs) as (Hp & _ & _).
  set (p := partition_point _ fs) in *.
  assert (∀ exact : option N, ∃ n, match exact with
    | Some n => Some n
    | None =>
      if p =? 0 then Some 0
      else
        previous ← vget fs (p - 1);
        if (wf_line_id previous =? a_line_id from) && (wf_start_offset previous <? unit_offset from)
        then Some (sat_add u32_max (prefix_units previous)
                     (N.min (unit_offset from - wf_start_offset previous) (unit_count previous)))
        else if wf_line_id previous <? a_line_id from then Some (fragment_units previous)
        else Some 0
    end = Some n) as Hrest.
  { intros [n|]; [by eexists|]. destruct (N.eqb_spec p 0); [by eexists|].
    destruct (vget_Some fs (p - 1)) as [f ->]; [lia|]. cbn [mbind option_bind].
    destruct (_ && _); [by eexists|]. destruct (_ <? _); by eexists. }
  apply Hrest.
Qed.

Lemma note_suffix_total c : ∃ c', note_pattern_after_suffix_trim c = Some c'.
Proof.
  unfold note_pattern_after_suffix_trim. destruct (N.leb_spec (vlen (items (runs c))) 1); [by eexists|].
  destruct (N.leb_spec 2 (pattern_len c)); [|destruct (_ <=? _); by eexists].
  destruct (N.leb_spec (vlen (items (runs c))) (pattern_len c)); [by eexists|].
  pose proof (N.mod_lt (vlen (items (runs c)) - 1) (pattern_len c) ltac:(lia)).
  destruct (vget_Some (items (runs c)) ((vlen (items (runs c)) - 1) mod pattern_len c)) as [t ->]; [lia|].
  destruct (vget_Some (items (runs c)) (vlen (items (runs c)) - 1)) as [r ->]; [lia|].
  cbn [mbind option_bind]. destruct (_ || _); by eexists.
Qed.

Lemma trim_wrap_suffix_total from cs : ∃ cs', trim_wrap_suffix_from from cs = Some cs'.
Proof.
  unfold trim_wrap_suffix_from. destruct (last _) as [c|]; [|by eexists].
  assert (∃ c', trim_chain_suffix from c = Some c') as [c' ->]; [|by eexists].
  unfold trim_chain_suffix. destruct (units_before_total from c) as [n ->]. cbn [mbind option_bind].
  destruct (_ <=? n); [by eexists|]. destruct (wrap_chain_is_compacted _ _ _); [by eexists|].
  match goal with |- context [note_pattern_after_suffix_trim ?x] => destruct (note_suffix_total x) as [c' ->] end.
  by eexists.
Qed.

Lemma trim_wrap_before_total first cs : ∃ cs', trim_wrap_before_retained first cs = Some cs'.
Proof.
  unfold trim_wrap_before_retained. destruct first as [keep|]; [|by eexists].
  destruct (items _) as [|c rest]; [by eexists|].
  assert (∃ c', trim_chain_prefix keep c = Some c') as [c' ->]; [|by eexists].
  unfold trim_chain_prefix. destruct (units_before_total keep c) as [n ->]. cbn [mbind option_bind].
  destruct (renumber _ _) as [fs prefix]. destruct (wrap_chain_is_compacted _ _ _); by eexists.
Qed.
End total.
