(* ===== verification/Eviction.v ===== *)
(** Which source lines were evicted: [crates/seyal-terminal/src/history/eviction.rs].

    When the history drops its oldest lines it remembers their identities, so that an anchor
    into them is reported as unavailable and not as invalid.  The index keeps recent runs of
    identities as ranges, compacts older ones into a dense prefix and bitmaps, spills what
    does not fit into an overflow list, and fails closed when even that is full.  It takes
    identities as they come and skips one that is not larger than the last it recorded. *)

From stdpp Require Import sorting.
From S2P Require Import Prelude Types Memory Wrap.

Definition MAX_EVICTED_ID_RANGES : N := 1024.
Definition MAX_EVICTED_BITMAP_BITS : N := 65536.
Definition MAX_EVICTED_BITMAPS : N := 8.
Definition MAX_EVICTED_OVERFLOW_RANGES : N := 1024.

Record EvictedIdRange := mkRange { first_id : LineId; last_id : LineId }.

Record EvictedBitmap := mkBitmap { origin : N; bits_len : N; words : vec N }.

Definition bitmap_default : EvictedBitmap := mkBitmap 0 0 vec_new.

(** The index, part of [HistoryStore]. *)
Record EvictedIndex := mkEvicted {
  evicted_id_ranges : vec EvictedIdRange;
  evicted_from : option LineId;
  evicted_through : option LineId;
  evicted_bitmaps : list EvictedBitmap;
  evicted_overflow_ranges : vec EvictedIdRange;
  evicted_index_saturated : bool;
  evicted_saturated_from : option LineId;
  evicted_saturated_through : option LineId }.

Definition evicted_default : EvictedIndex := mkEvicted vec_new None None [] vec_new false None None.

(** ** Bitmaps *)

(** [(value >> shift) & 1 == 1] on the word that holds the bit. *)
Definition word_bit (ws : list N) (bit : N) : bool :=
  match vget ws (bit / 64) with
  | Some value => N.land (N.shiftr value (bit mod 64)) 1 =? 1
  | None => false
  end.

Definition bitmap_contains (b : EvictedBitmap) (id : N) : bool :=
  match checked_sub id (origin b) with
  | None => false
  | Some bit => if bits_len b <=? bit then false else word_bit (items (words b)) bit
  end.

(** The scan of [intersects], a word at a time. *)
Fixpoint intersects_loop (fuel : nat) (ws : list N) (bit to_bit : N) : option bool :=
  match fuel with
  | O => None
  | S fuel =>
    if bit <=? to_bit then
      match vget ws (bit / 64) with
      | None => Some false
      | Some word =>
        let offset := bit mod 64 in
        let span := N.min (to_bit - bit + 1) (64 - offset) in
        let mask := if span =? 64 then u64_max else N.shiftl 1 span - 1 in
        if negb (N.land (N.shiftr word offset) mask =? 0) then Some true
        else
          let bit := sat_add u64_max bit span in
          if span =? 0 then Some false else intersects_loop fuel ws bit to_bit
      end
    else Some false
  end.

(** Every iteration moves to the next word. *)
Definition bitmap_intersects (b : EvictedBitmap) (start end_ : N) : option bool :=
  if bits_len b =? 0 then Some false
  else
    let window_last := sat_add u64_max (origin b) (bits_len b - 1) in
    if (end_ <? origin b) || (window_last <? start) then Some false
    else
      from_bit ← checked_sub (N.max start (origin b)) (origin b);
      to_bit ← checked_sub (N.min end_ window_last) (origin b);
      intersects_loop (length (items (words b)) + 1) (items (words b)) from_bit to_bit.

Definition set_bit (ws : list N) (bit : N) : list N :=
  alter (λ slot, N.lor slot (N.shiftl 1 (bit mod 64))) (N.to_nat (bit / 64)) ws.

(** [for id in first..=last]; [n] is the number of identities. *)
Fixpoint set_loop (origin : N) (ws : list N) (id : N) (n : nat) : option (list N) :=
  match n with
  | O => Some ws
  | S n => bit ← checked_sub id origin; set_loop origin (set_bit ws bit) (id + 1) n
  end.

Section eviction.
Context `{Memory}.
Implicit Types (b : EvictedBitmap) (x : EvictedIndex).

Definition bitmap_allocated_bytes b : N :=
  sat_add usize_max size_bitmap (sat_mul usize_max (capacity (words b)) 8).

Definition resize_to (span : N) b : EvictedBitmap :=
  let n := (span + 63) / 64 in
  let ws := if vec_len (words b) <? n
            then mkVec (items (words b) ++ replicate (N.to_nat (n - vec_len (words b))) 0)
                   (grow 8 (capacity (words b)) n)
            else words b in
  mkBitmap (origin b) span ws.

Definition set_range (first last : N) b : option EvictedBitmap :=
  ws ← set_loop (origin b) (items (words b)) first (N.to_nat (last - first + 1));
  Some (b <| words ::= vec_keep (λ _, ws) |>).

Definition try_insert_range (first last : N) b : option (bool * EvictedBitmap) :=
  if last <? first then Some (false, b)
  else if bits_len b =? 0 then
    let span := sat_add u64_max (last - first) 1 in
    if (span =? 0) || (MAX_EVICTED_BITMAP_BITS <? span) then Some (false, b)
    else
      b ← set_range first last (resize_to span (b <| origin := first |>));
      Some (true, b)
  else if (first <? origin b) || (last <? origin b) then Some (false, b)
  else
    let current_last := sat_add u64_max (origin b) (bits_len b - 1) in
    let new_last := N.max current_last last in
    let span := sat_add u64_max (new_last - origin b) 1 in
    if MAX_EVICTED_BITMAP_BITS <? span then Some (false, b)
    else
      b ← set_range first last (resize_to span b);
      Some (true, b).

(** ** Compaction *)

(** The first bitmap that takes the range. *)
Fixpoint insert_into_bitmaps (first last : N) (bs : list EvictedBitmap)
    : option (bool * list EvictedBitmap) :=
  match bs with
  | [] => Some (false, [])
  | b :: bs =>
    r ← try_insert_range first last b;
    if (fst r : bool) then Some (true, r.2 :: bs)
    else
      rest ← insert_into_bitmaps first last bs;
      Some (rest.1, r.2 :: rest.2)
  end.

(** The chunks of a range longer than a bitmap; each iteration pushes one bitmap. *)
Fixpoint chunk_loop (fuel : nat) (start last : N) (bs : list EvictedBitmap)
    : option (bool * list EvictedBitmap) :=
  match fuel with
  | O => None
  | S fuel =>
    if (start <=? last) && (vlen bs <? MAX_EVICTED_BITMAPS) then
      let chunk_last := N.min (sat_add u64_max start (MAX_EVICTED_BITMAP_BITS - 1)) last in
      r ← try_insert_range start chunk_last bitmap_default;
      if negb (fst r) then Some (last <? start, bs)
      else
        let bs := bs ++ [r.2] in
        if chunk_last =? last then Some (true, bs)
        else
          match checked_add u64_max chunk_last 1 with
          | None => Some (true, bs)
          | Some start => chunk_loop fuel start last bs
          end
    else Some (last <? start, bs)
  end.

Definition admit_into_bitmaps (r : EvictedIdRange) x : option (bool * EvictedIndex) :=
  ins ← insert_into_bitmaps (first_id r) (last_id r) (evicted_bitmaps x);
  let x := x <| evicted_bitmaps := ins.2 |> in
  if (fst ins : bool) then Some (true, x)
  else if MAX_EVICTED_BITMAPS <=? vlen (evicted_bitmaps x) then Some (false, x)
  else
    fresh ← try_insert_range (first_id r) (last_id r) bitmap_default;
    if (fst fresh : bool) then Some (true, x <| evicted_bitmaps ::= λ bs, bs ++ [fresh.2] |>)
    else
      chunks ← chunk_loop (N.to_nat MAX_EVICTED_BITMAPS + 1) (first_id r) (last_id r) (evicted_bitmaps x);
      Some (chunks.1, x <| evicted_bitmaps := chunks.2 |>).

Definition admit_compacted_evicted_range (r : EvictedIdRange) x : option (bool * EvictedIndex) :=
  match evicted_from x, evicted_through x with
  | None, None => Some (true, x <| evicted_from := Some (first_id r) |> <| evicted_through := Some (last_id r) |>)
  | Some _, Some through =>
    if bool_decide (checked_add u64_max through 1 = Some (first_id r))
    then Some (true, x <| evicted_through := Some (last_id r) |>)
    else admit_into_bitmaps r x
  | _, _ => admit_into_bitmaps r x
  end.

Definition fail_closed_evicted_range (r : EvictedIdRange) x : EvictedIndex :=
  x <| evicted_index_saturated := true |>
    <| evicted_saturated_from :=
         Some (match evicted_saturated_from x with Some from => N.min from (first_id r) | None => first_id r end) |>
    <| evicted_saturated_through :=
         Some (match evicted_saturated_through x with Some through => N.max through (last_id r) | None => last_id r end) |>.

(** The [while] of [compact_evicted_id_ranges]: the list is what [remove(0)] has left. *)
Fixpoint compact_loop (ranges : list EvictedIdRange) x : option EvictedIndex :=
  match ranges with
  | oldest :: rest =>
    if MAX_EVICTED_ID_RANGES <? vlen ranges then
      let x := x <| evicted_id_ranges ::= vec_keep (λ _, rest) |> in
      r ← admit_compacted_evicted_range oldest x;
      let x := r.2 in
      if (fst r : bool) then compact_loop rest x
      else if vec_len (evicted_overflow_ranges x) <? MAX_EVICTED_OVERFLOW_RANGES
      then compact_loop rest (x <| evicted_overflow_ranges ::= vec_push size_range oldest |>)
      else compact_loop rest (fail_closed_evicted_range oldest x)
    else Some x
  | [] => Some x
  end.

Definition compact_evicted_id_ranges x : option EvictedIndex :=
  compact_loop (items (evicted_id_ranges x)) x.

(** One identity of an evicted segment. *)
Definition record_evicted_id (id : LineId) x : EvictedIndex :=
  let rs := evicted_id_ranges x in
  match last (items rs) with
  | None => x <| evicted_id_ranges := vec_push size_range (mkRange id id) rs |>
  | Some l =>
    if id <=? last_id l then x
    else if bool_decide (checked_add u64_max (last_id l) 1 = Some id)
    then x <| evicted_id_ranges := vec_keep (λ rs, alter (λ l, l <| last_id := id |>) (length rs - 1)%nat rs) rs |>
    else x <| evicted_id_ranges := vec_push size_range (mkRange id id) rs |>
  end.

Definition record_evicted_ids (ids : list LineId) x : option EvictedIndex :=
  compact_evicted_id_ranges (foldl (λ x id, record_evicted_id id x) x ids).

(** ** Queries *)

Definition span_contains (from through : option LineId) (id : LineId) : bool :=
  match from, through with
  | Some from, Some through => (from <=? id) && (id <=? through)
  | _, _ => false
  end.

Definition span_intersects (from through : option LineId) (start end_ : LineId) : bool :=
  match from, through with
  | Some from, Some through => (start <=? through) && (from <=? end_)
  | _, _ => false
  end.

Definition saturated_contains (id : LineId) x : bool :=
  evicted_index_saturated x && span_contains (evicted_saturated_from x) (evicted_saturated_through x) id.

Definition saturated_intersects (start end_ : LineId) x : bool :=
  evicted_index_saturated x && span_intersects (evicted_saturated_from x) (evicted_saturated_through x) start end_.

Definition dense_evicted_prefix_contains (id : LineId) x : bool :=
  span_contains (evicted_from x) (evicted_through x) id.

Definition dense_evicted_prefix_intersects (start end_ : LineId) x : bool :=
  span_intersects (evicted_from x) (evicted_through x) start end_.

Definition overflow_contains (id : LineId) (ranges : list EvictedIdRange) : bool :=
  match vget ranges (partition_point (λ r, last_id r <? id) ranges) with
  | Some r => first_id r <=? id
  | None => false
  end.

Definition overflow_intersects (start end_ : LineId) (ranges : list EvictedIdRange) : bool :=
  match vget ranges (partition_point (λ r, last_id r <? start) ranges) with
  | Some r => first_id r <=? end_
  | None => false
  end.

Definition line_was_evicted (id : LineId) x : bool :=
  saturated_contains id x || dense_evicted_prefix_contains id x
  || existsb (λ b, bitmap_contains b id) (evicted_bitmaps x)
  || overflow_contains id (items (evicted_overflow_ranges x))
  || overflow_contains id (items (evicted_id_ranges x)).

(** [bitmaps.iter().any(|bitmap| bitmap.intersects(start, end))]. *)
Fixpoint any_intersects (bs : list EvictedBitmap) (start end_ : LineId) : option bool :=
  match bs with
  | [] => Some false
  | b :: bs =>
    hit ← bitmap_intersects b start end_;
    if (hit : bool) then Some true else any_intersects bs start end_
  end.

Definition range_intersects_evicted (start end_ : LineId) x : option bool :=
  if saturated_intersects start end_ x then Some true
  else if dense_evicted_prefix_intersects start end_ x then Some true
  else
    hit ← any_intersects (evicted_bitmaps x) start end_;
    if (hit : bool) then Some true
    else if overflow_intersects start end_ (items (evicted_overflow_ranges x)) then Some true
    else Some (overflow_intersects start end_ (items (evicted_id_ranges x))).
End eviction.

(** * Bitmaps are sets of identities *)

Lemma word_bit_testbit ws bit :
  word_bit ws bit = match ws !! N.to_nat (bit / 64) with Some v => N.testbit v (bit mod 64) | None => false end.
Proof.
  unfold word_bit, vget. destruct (ws !! _) as [v|]; [|done].
  change 1 with (N.ones 1) at 1. rewrite N.land_ones. change (2 ^ 1) with 2.
  rewrite <- N.bit0_mod, N.shiftr_spec', N.add_0_l. by destruct (N.testbit v _).
Qed.

Lemma word_bit_set ws bit bit' :
  bit / 64 < vlen ws → word_bit (set_bit ws bit) bit' = word_bit ws bit' || (bit' =? bit).
Proof.
  intros Hlt. rewrite !word_bit_testbit. unfold set_bit.
  pose proof (N.div_mod bit 64 ltac:(done)). pose proof (N.div_mod bit' 64 ltac:(done)).
  destruct (decide (bit / 64 = bit' / 64)) as [Heq|Hne].
  - rewrite <- Heq, list_lookup_alter_eq.
    destruct (lookup_lt_is_Some_2 ws (N.to_nat (bit / 64))) as [v ->]; [lia|]. cbn.
    rewrite N.lor_spec, N.shiftl_1_l, N.pow2_bits_eqb. f_equal.
    destruct (N.eqb_spec (bit mod 64) (bit' mod 64)), (N.eqb_spec bit' bit); (done || lia).
  - rewrite list_lookup_alter_ne by lia. destruct (N.eqb_spec bit' bit) as [->|]; [done|]. by rewrite orb_false_r.
Qed.

Lemma set_loop_ok o ws id n :
  o ≤ id → id - o + N.of_nat n ≤ 64 * vlen ws →
  ∃ ws', set_loop o ws id n = Some ws' ∧ length ws' = length ws ∧
  ∀ bit, word_bit ws' bit = word_bit ws bit || (id - o <=? bit) && (bit <? id - o + N.of_nat n).
Proof.
  intros Ho. revert ws id Ho. induction n as [|n IH]; intros ws id Ho Hlen; cbn [set_loop].
  { exists ws. split_and!; [done|done|]. intros bit.
    replace ((id - o <=? bit) && _) with false by lia. by rewrite orb_false_r. }
  unfold checked_sub. apply N.leb_le in Ho as Hb. rewrite Hb. cbn [mbind option_bind].
  assert ((id - o) / 64 < vlen ws) as Hw by (apply N.Div0.div_lt_upper_bound; lia).
  destruct (IH (set_bit ws (id - o)) (id + 1)) as (ws' & -> & Hl & Hbits); [lia| |].
  { unfold set_bit. rewrite length_alter. lia. }
  exists ws'. unfold set_bit in Hl. rewrite length_alter in Hl. split_and!; [done|done|].
  intros bit. rewrite Hbits, word_bit_set by done.
  destruct (word_bit ws bit); [done|]. cbn [orb]. lia.
Qed.

Record bitmap_wf (b : EvictedBitmap) : Prop := {
  bw_len : bits_len b ≤ 64 * vec_len (words b);
  bw_max : bits_len b ≤ MAX_EVICTED_BITMAP_BITS;
  bw_top : origin b + bits_len b ≤ u64_max + 1;
  bw_zero bit : bits_len b ≤ bit → word_bit (items (words b)) bit = false;
}.

(** Membership as a proposition on identities. *)
Lemma bitmap_contains_bit b id :
  bitmap_wf b → bitmap_contains b id = (origin b <=? id) && word_bit (items (words b)) (id - origin b).
Proof.
  intros Hb. unfold bitmap_contains, checked_sub. destruct (origin b <=? id); [|done]. cbn [andb].
  destruct (N.leb_spec (bits_len b) (id - origin b)); [|done]. symmetry. by apply bw_zero.
Qed.

Lemma word_bit_app_zeros ws n bit : word_bit (ws ++ replicate n 0) bit = word_bit ws bit.
Proof.
  rewrite !word_bit_testbit. destruct (decide (N.to_nat (bit / 64) < length ws)%nat).
  - by rewrite lookup_app_l.
  - rewrite (lookup_ge_None_2 ws) by lia. rewrite lookup_app_r by lia.
    destruct (replicate n 0 !! _) as [v|] eqn:Hv; [|done].
    apply lookup_replicate in Hv as [-> _]. apply N.bits_0.
Qed.

Section bitmaps.
Context `{Memory}.
Implicit Types (b : EvictedBitmap).

Lemma resize_to_ok span b :
  bitmap_wf b → bits_len b ≤ span → span ≤ MAX_EVICTED_BITMAP_BITS → origin b + span ≤ u64_max + 1 →
  bitmap_wf (resize_to span b) ∧ (∀ bit, word_bit (items (words (resize_to span b))) bit = word_bit (items (words b)) bit).
Proof.
  intros Hb Hle Hmax Htop.
  assert (∀ bit, word_bit (items (words (resize_to span b))) bit = word_bit (items (words b)) bit) as Hbits.
  { intros bit. unfold resize_to. destruct (_ <? _); cbn [words items]; [|done]. apply word_bit_app_zeros. }
  split; [|done]. pose proof (N.div_mod (span + 63) 64 ltac:(done)) as Hd.
  pose proof (N.mod_lt (span + 63) 64 ltac:(done)).
  split; [|done|done|intros bit Hbit; rewrite Hbits; apply bw_zero; [done|cbn in Hbit; lia]].
  unfold resize_to. cbn [bits_len words]. set (n := (span + 63) / 64) in *.
  destruct (N.ltb_spec (vec_len (words b)) n); unfold vec_len in *; cbn [items].
  - rewrite length_app, length_replicate. lia.
  - lia.
Qed.

Lemma set_range_ok first last b :
  bitmap_wf b → origin b ≤ first → first ≤ last → last < origin b + bits_len b →
  ∃ b', set_range first last b = Some b' ∧ bitmap_wf b' ∧
        ∀ id, bitmap_contains b' id = bitmap_contains b id || inr first last id.
Proof.
  intros Hb Ho Hle Hlt. unfold set_range. pose proof (bw_len b Hb) as Hlen. unfold vec_len in Hlen.
  destruct (set_loop_ok (origin b) (items (words b)) first (N.to_nat (last - first + 1)))
    as (ws & -> & Hl & Hbits); [done|lia|]. cbn [mbind option_bind].
  set (b' := b <| words ::= _ |>). exists b'.
  assert (bitmap_wf b') as Hb'.
  { split; [unfold vec_len; cbn; lia|apply (bw_max b Hb)|apply (bw_top b Hb)|].
    intros bit Hbit. change (word_bit ws bit = false). rewrite Hbits, (bw_zero b Hb) by done. cbn in Hbit. cbn [orb]. lia. }
  split_and!; [done|done|]. intros id. rewrite !bitmap_contains_bit by done.
  change (origin b') with (origin b). change (items (words b')) with ws. rewrite Hbits. unfold inr.
  destruct (N.leb_spec (origin b) id); cbn [andb]; [|lia]. f_equal. lia.
Qed.

Lemma empty_bitmap_contains b id : bits_len b = 0 → bitmap_contains b id = false.
Proof.
  intros Hz. unfold bitmap_contains. destruct (checked_sub _ _) as [bit|]; [|done].
  destruct (N.leb_spec (bits_len b) bit); [done|lia].
Qed.

Lemma bitmap_default_wf : bitmap_wf bitmap_default.
Proof. split; [done|done|done|]. intros bit _. rewrite word_bit_testbit. done. Qed.

Lemma try_insert_range_ok first last b :
  bitmap_wf b → first ≤ last → last ≤ u64_max →
  ∃ ok b', try_insert_range first last b = Some (ok, b') ∧ bitmap_wf b' ∧
    ∀ id, bitmap_contains b' id = bitmap_contains b id || (ok && inr first last id).
Proof.
  intros Hb Hle Htop. unfold try_insert_range.
  assert (∃ (ok : bool) b', Some (false, b) = Some (ok, b') ∧ bitmap_wf b' ∧
    ∀ id, bitmap_contains b' id = bitmap_contains b id || (ok && inr first last id)) as Hno.
  { exists false, b. split_and!; [done|done|]. intros id. by rewrite orb_false_r. }
  destruct (N.ltb_spec last first); [lia|].
  destruct (N.eqb_spec (bits_len b) 0) as [Hz|Hz].
  - unfold sat_add. destruct (_ || _) eqn:Hspan; [done|]. apply orb_false_iff in Hspan as [Hs0 Hs1].
    apply N.ltb_ge in Hs1. rewrite N.min_l in * by (unfold MAX_EVICTED_BITMAP_BITS, u64_max in *; lia).
    set (b0 := b <| origin := first |>).
    assert (bitmap_wf b0) as Hb0.
    { split; [apply (bw_len b Hb)|apply (bw_max b Hb)|cbn; rewrite Hz; lia|intros bit Hbit; apply (bw_zero b Hb); lia]. }
    destruct (resize_to_ok (last - first + 1) b0 Hb0) as [Hb1 Hbits]; [change (bits_len b0) with (bits_len b); lia|done|cbn; lia|].
    destruct (set_range_ok first last (resize_to (last - first + 1) b0) Hb1) as (b' & -> & Hb' & Hin); [cbn; lia..|].
    cbn [mbind option_bind]. exists true, b'. split_and!; [done|done|]. intros id.
    rewrite Hin, (empty_bitmap_contains b), (bitmap_contains_bit (resize_to _ _)), Hbits by done.
    cbn [andb]. rewrite (bw_zero b0 Hb0) by (change (bits_len b0) with (bits_len b); lia). by rewrite andb_false_r.
  - destruct (_ || _) eqn:Hbelow; [done|]. apply orb_false_iff in Hbelow as [Hf%N.ltb_ge Hl%N.ltb_ge].
    pose proof (bw_top b Hb). unfold sat_add. rewrite (N.min_l (origin b + _)) by lia.
    destruct (N.ltb_spec MAX_EVICTED_BITMAP_BITS
      (N.min (N.max (origin b + (bits_len b - 1)) last - origin b + 1) u64_max)) as [|Hspan]; [done|].
    set (span := N.min _ u64_max) in *.
    assert (span = N.max (origin b + (bits_len b - 1)) last - origin b + 1) as Heq.
    { unfold span, MAX_EVICTED_BITMAP_BITS, u64_max in *. lia. }
    destruct (resize_to_ok span b Hb) as [Hb1 Hbits]; [lia|done|lia|].
    destruct (set_range_ok first last (resize_to span b) Hb1) as (b' & -> & Hb' & Hin); [cbn; lia..|].
    cbn [mbind option_bind]. exists true, b'. split_and!; [done|done|]. intros id.
    rewrite Hin, !bitmap_contains_bit, Hbits by done. done.
Qed.
End bitmaps.

(** ** Intersection *)

Lemma masked_bits a n : negb (N.land a (N.ones n) =? 0) = true ↔ ∃ i, i < n ∧ N.testbit a i = true.
Proof.
  rewrite negb_true_iff, N.eqb_neq. split.
  - intros Hne. exists (N.log2 (N.land a (N.ones n))). pose proof (N.bit_log2 _ Hne) as Hb.
    rewrite N.land_spec, andb_true_iff in Hb. destruct Hb as [Ha Ho]. split; [|done].
    destruct (N.lt_ge_cases (N.log2 (N.land a (N.ones n))) n) as [|Hge]; [done|].
    rewrite N.ones_spec_high in Ho by done. done.
  - intros (i & Hi & Ha) Hz. assert (N.testbit (N.land a (N.ones n)) i = true) as Hb.
    { by rewrite N.land_spec, Ha, N.ones_spec_low. }
    rewrite Hz, N.bits_0 in Hb. done.
Qed.

Lemma span_mask span : span ≤ 64 → (if span =? 64 then u64_max else N.shiftl 1 span - 1) = N.ones span.
Proof.
  intros Hs. destruct (N.eqb_spec span 64) as [->|]; [done|].
  rewrite N.shiftl_1_l, N.ones_equiv. lia.
Qed.

Lemma intersects_loop_ok fuel ws bit to_bit :
  to_bit < u64_max → (length ws + 1 ≤ N.to_nat (bit / 64) + fuel)%nat → (1 ≤ fuel)%nat →
  ∃ r, intersects_loop fuel ws bit to_bit = Some r ∧
       (r = true ↔ ∃ i, bit ≤ i ∧ i ≤ to_bit ∧ word_bit ws i = true).
Proof.
  intros Htop. revert bit. induction fuel as [|fuel IH]; intros bit Hf Hf1; [lia|]. cbn [intersects_loop].
  destruct (N.leb_spec bit to_bit) as [Hle|Hgt].
  2:{ exists false. split; [done|]. split; [done|]. intros (i & ? & ? & _). lia. }
  unfold vget. destruct (ws !! N.to_nat (bit / 64)) as [word|] eqn:Hw.
  2:{ exists false. split; [done|]. split; [done|]. intros (i & Hi & _ & Hbit).
      rewrite word_bit_testbit, lookup_ge_None_2 in Hbit; [done|].
      apply lookup_ge_None in Hw. pose proof (N.Div0.div_le_mono bit i 64 Hi). lia. }
  apply lookup_lt_Some in Hw as Hlt.
  pose proof (N.div_mod bit 64 ltac:(done)) as Hd. pose proof (N.mod_lt bit 64 ltac:(done)) as Hm.
  set (offset := bit mod 64) in *. set (span := N.min (to_bit - bit + 1) (64 - offset)).
  rewrite span_mask by lia.
  assert (∀ i, i < span → word_bit ws (bit + i) = N.testbit word (offset + i)) as Hbits.
  { intros i Hi. rewrite word_bit_testbit.
    assert ((bit + i) / 64 = bit / 64) as -> by (symmetry; apply (N.div_unique _ _ _ (offset + i)); lia).
    rewrite Hw. f_equal. symmetry. apply (N.mod_unique _ _ (bit / 64)); lia. }
  destruct (negb _) eqn:Hhit.
  - exists true. split; [done|]. split; [|done]. intros _.
    apply masked_bits in Hhit as (i & Hi & Hb). rewrite N.shiftr_spec' in Hb.
    exists (bit + i). split_and!; [lia|lia|]. by rewrite Hbits, N.add_comm.
  - replace (span =? 0) with false by lia. unfold sat_add. rewrite N.min_l by lia.
    assert (∀ i, bit ≤ i → i < bit + span → word_bit ws i = false) as Hnone.
    { intros i Hi1 Hi2. destruct (word_bit ws i) eqn:Hb; [|done].
      replace i with (bit + (i - bit)) in Hb by lia. rewrite Hbits in Hb by lia.
      assert (negb (N.land (N.shiftr word offset) (N.ones span) =? 0) = true) as Hx; [|congruence].
      apply masked_bits. exists (i - bit). split; [lia|]. rewrite N.shiftr_spec'. by rewrite N.add_comm. }
    assert ((bit + span) / 64 = bit / 64 + 1 ∨ to_bit < bit + span) as Hnext.
    { destruct (decide (to_bit < bit + span)); [by right|left]. symmetry. apply (N.div_unique _ _ _ 0); lia. }
    destruct (decide (fuel = O)) as [->|].
    { exfalso. lia. }
    destruct (decide (to_bit < bit + span)) as [Hend|Hmore].
    + destruct fuel as [|fuel]; [done|]. cbn [intersects_loop]. destruct (N.leb_spec (bit + span) to_bit); [lia|].
      exists false. split; [done|]. split; [done|]. intros (i & Hi & Hi2 & Hb). rewrite Hnone in Hb by lia. done.
    + destruct (IH (bit + span)) as (r & -> & Hr); [lia|lia|]. exists r. split; [done|]. rewrite Hr. split.
      * intros (i & ? & ? & ?). exists i. split_and!; [lia|done|done].
      * intros (i & ? & ? & Hb). exists i. destruct (decide (i < bit + span)); [rewrite Hnone in Hb by lia; done|].
        split_and!; [lia|done|done].
Qed.

Lemma bitmap_intersects_ok b start end_ :
  bitmap_wf b → start ≤ end_ →
  ∃ r, bitmap_intersects b start end_ = Some r ∧
       (r = true ↔ ∃ id, start ≤ id ∧ id ≤ end_ ∧ bitmap_contains b id = true).
Proof.
  intros Hb Hle. unfold bitmap_intersects. pose proof (bw_top b Hb). pose proof (bw_max b Hb) as Hmax.
  unfold MAX_EVICTED_BITMAP_BITS in Hmax.
  assert (∀ id, bitmap_contains b id = true → origin b ≤ id ∧ id < origin b + bits_len b) as Hwin.
  { intros id. unfold bitmap_contains, checked_sub. destruct (N.leb_spec (origin b) id); [|done].
    destruct (N.leb_spec (bits_len b) (id - origin b)); [done|]. lia. }
  destruct (N.eqb_spec (bits_len b) 0) as [Hz|Hz].
  { exists false. split; [done|]. split; [done|]. intros (id & _ & _ & Hid%Hwin). lia. }
  unfold sat_add. rewrite N.min_l by lia.
  destruct (_ || _) eqn:Hout.
  { exists false. split; [done|]. split; [done|]. intros (id & ? & ? & Hid%Hwin). apply orb_true_iff in Hout.
    destruct Hout as [?%N.ltb_lt|?%N.ltb_lt]; lia. }
  apply orb_false_iff in Hout as [?%N.ltb_ge ?%N.ltb_ge]. unfold checked_sub.
  replace (origin b <=? N.max start (origin b)) with true by (symmetry; apply N.leb_le; lia).
  replace (origin b <=? N.min end_ (origin b + (bits_len b - 1))) with true by (symmetry; apply N.leb_le; lia).
  cbn [mbind option_bind].
  destruct (intersects_loop_ok (length (items (words b)) + 1) (items (words b)) (N.max start (origin b) - origin b)
    (N.min end_ (origin b + (bits_len b - 1)) - origin b)) as (r & -> & Hr); [unfold u64_max; lia|lia|lia|].
  exists r. split; [done|]. rewrite Hr. split.
  - intros (i & Hi1 & Hi2 & Hbit). exists (origin b + i). rewrite bitmap_contains_bit by done.
    replace (origin b + i - origin b) with i by lia. rewrite Hbit.
    split_and!; [lia|lia|]. rewrite andb_true_r. apply N.leb_le. lia.
  - intros (id & ? & ? & Hid). pose proof (Hwin id Hid). exists (id - origin b).
    rewrite bitmap_contains_bit in Hid by done. apply andb_true_iff in Hid as [_ ?]. split_and!; [lia|lia|done].
Qed.

(** * Sorted ranges *)

Definition range_ok (r : EvictedIdRange) : Prop := first_id r ≤ last_id r ∧ last_id r ≤ u64_max.
Definition range_lt (r r' : EvictedIdRange) : Prop := last_id r < first_id r'.
Definition in_range (id : N) (r : EvictedIdRange) : Prop := first_id r ≤ id ∧ id ≤ last_id r.

Lemma sorted_lookup {A} (R : A → A → Prop) l i j x y :
  StronglySorted R l → l !! i = Some x → l !! j = Some y → (i < j)%nat → R x y.
Proof.
  intros Hs. revert i j. induction Hs as [|z l Hs IH Hz]; intros i j Hx Hy Hij; [done|].
  destruct j as [|j]; [lia|]. destruct i as [|i]; simplify_eq/=.
  - rewrite Forall_forall in Hz. apply Hz. by eapply list_elem_of_lookup_2.
  - apply (IH i j); (done || lia).
Qed.

Lemma overflow_intersects_ok start end_ rs :
  StronglySorted range_lt rs → Forall range_ok rs → start ≤ end_ →
  overflow_intersects start end_ rs = true ↔ ∃ r id, r ∈ rs ∧ start ≤ id ∧ id ≤ end_ ∧ in_range id r.
Proof.
  intros Hs Hok Hle. unfold overflow_intersects, vget.
  destruct (partition_point_spec (λ r, last_id r <? start) rs) as (Hp1 & Hp2 & Hp3).
  set (p := partition_point _ rs) in *. destruct (rs !! N.to_nat p) as [r|] eqn:Hr.
  - specialize (Hp3 r eq_refl). apply N.ltb_ge in Hp3. apply list_elem_of_lookup_2 in Hr as Hin.
    rewrite Forall_forall in Hok. destruct (Hok r Hin) as [Hr1 _]. rewrite N.leb_le. split.
    + intros Hf. exists r, (N.max (first_id r) start). unfold in_range. split_and!; (done || lia).
    + intros (r' & id & Hin' & ? & ? & Hid). apply list_elem_of_lookup_1 in Hin' as [j Hj].
      destruct (decide (j < N.to_nat p)%nat) as [Hlt|Hge].
      { specialize (Hp2 j r' Hlt Hj). apply N.ltb_lt in Hp2. unfold in_range in Hid. lia. }
      destruct (decide (j = N.to_nat p)) as [->|Hne]; [rewrite Hr in Hj; unfold in_range in Hid; simplify_eq; lia|].
      pose proof (sorted_lookup _ _ _ _ _ _ Hs Hr Hj ltac:(lia)). unfold in_range, range_lt in *. lia.
  - split; [done|]. intros (r' & id & Hin' & ? & ? & Hid). apply list_elem_of_lookup_1 in Hin' as [j Hj].
    apply lookup_ge_None in Hr. apply lookup_lt_Some in Hj as Hjl.
    specialize (Hp2 j r' ltac:(lia) Hj). apply N.ltb_lt in Hp2. unfold in_range in Hid. lia.
Qed.

Lemma overflow_contains_ok id rs :
  StronglySorted range_lt rs → Forall range_ok rs →
  overflow_contains id rs = true ↔ ∃ r, r ∈ rs ∧ in_range id r.
Proof.
  intros Hs Hok. pose proof (overflow_intersects_ok id id rs Hs Hok ltac:(lia)) as Hi.
  change (overflow_contains id rs) with (overflow_intersects id id rs). rewrite Hi. split.
  - intros (r & i & ? & ? & ? & Hin). assert (i = id) as -> by lia. eauto.
  - intros (r & ? & ?). exists r, id. split_and!; (done || lia).
Qed.

(** * The index *)

Definition all_ranges (x : EvictedIndex) : list EvictedIdRange :=
  items (evicted_overflow_ranges x) ++ items (evicted_id_ranges x).

Definition span_wf (from through : option LineId) : Prop :=
  match from, through with
  | Some f, Some t => f ≤ t ∧ t ≤ u64_max
  | None, None => True
  | _, _ => False
  end.

Record evicted_wf (x : EvictedIndex) : Prop := {
  ew_sorted : StronglySorted range_lt (all_ranges x);
  ew_ranges : Forall range_ok (all_ranges x);
  ew_recent : items (evicted_id_ranges x) = [] → items (evicted_overflow_ranges x) = [];
  ew_bitmaps : Forall bitmap_wf (evicted_bitmaps x);
  ew_dense : span_wf (evicted_from x) (evicted_through x);
  ew_saturated : if evicted_index_saturated x
                 then span_wf (evicted_saturated_from x) (evicted_saturated_through x) ∧ is_Some (evicted_saturated_from x)
                 else evicted_saturated_from x = None ∧ evicted_saturated_through x = None;
}.

(** Identities packed away by compaction, and those still in a list of ranges. *)
Definition packed (x : EvictedIndex) (id : N) : Prop :=
  dense_evicted_prefix_contains id x = true ∨ existsb (λ b, bitmap_contains b id) (evicted_bitmaps x) = true.

Definition listed (x : EvictedIndex) (id : N) : Prop := ∃ r, r ∈ all_ranges x ∧ in_range id r.

Definition reported (x : EvictedIndex) (id : N) : Prop := line_was_evicted id x = true.

Lemma reported_iff x id :
  evicted_wf x → reported x id ↔ saturated_contains id x = true ∨ packed x id ∨ listed x id.
Proof.
  intros Hx. pose proof (ew_sorted x Hx) as Hs. pose proof (ew_ranges x Hx) as Hr.
  unfold all_ranges in *. apply StronglySorted_app in Hs as (_ & Hs1 & Hs2). apply Forall_app in Hr as [Hr1 Hr2].
  unfold reported, line_was_evicted, packed, listed. rewrite !orb_true_iff.
  rewrite !overflow_contains_ok by done. unfold all_ranges. setoid_rewrite elem_of_app. naive_solver.
Qed.

Section index.
Context `{Memory}.
Implicit Types (x : EvictedIndex) (bs : list EvictedBitmap).

Abbreviation holds bs id := (existsb (λ b, bitmap_contains b id) bs).

Lemma holds_app bs bs' id : holds (bs ++ bs') id = holds bs id || holds bs' id.
Proof. apply existsb_app. Qed.

Lemma insert_into_bitmaps_ok first last bs :
  Forall bitmap_wf bs → first ≤ last → last ≤ u64_max →
  ∃ ok bs', insert_into_bitmaps first last bs = Some (ok, bs') ∧ Forall bitmap_wf bs' ∧
    ∀ id, holds bs' id = holds bs id || (ok && inr first last id).
Proof.
  intros Hbs Hle Htop. induction Hbs as [|b bs Hb Hbs IH]; cbn [insert_into_bitmaps].
  { by exists false, []. }
  destruct (try_insert_range_ok first last b Hb Hle Htop) as (ok & b' & -> & Hb' & Hin). cbn [mbind option_bind fst snd].
  destruct ok.
  - exists true, (b' :: bs). split_and!; [done|by constructor|]. intros id. cbn [existsb]. rewrite Hin.
    cbn [andb]. destruct (bitmap_contains b id), (holds bs id), (inr first last id); done.
  - destruct IH as (ok & bs' & -> & Hbs' & Hin'). cbn [mbind option_bind fst snd].
    exists ok, (b' :: bs'). split_and!; [done|by constructor|]. intros id. cbn [existsb]. rewrite Hin, Hin'.
    by rewrite orb_false_r, orb_assoc.
Qed.

Lemma chunk_loop_ok fuel start last bs :
  Forall bitmap_wf bs → last ≤ u64_max → (N.to_nat MAX_EVICTED_BITMAPS + 1 ≤ length bs + fuel)%nat → (1 ≤ fuel)%nat →
  ∃ ok bs', chunk_loop fuel start last bs = Some (ok, bs') ∧ Forall bitmap_wf bs' ∧
    (∀ id, holds bs id = true → holds bs' id = true) ∧
    (∀ id, holds bs' id = true → holds bs id = true ∨ start ≤ id ∧ id ≤ last) ∧
    (ok = true → ∀ id, start ≤ id → id ≤ last → holds bs' id = true).
Proof.
  intros Hbs Htop. revert start bs Hbs. induction fuel as [|fuel IH]; intros start bs Hbs Hf Hf1; [lia|]. cbn [chunk_loop].
  assert (∃ ok bs', Some (last <? start, bs) = Some (ok, bs') ∧ Forall bitmap_wf bs' ∧
    (∀ id, holds bs id = true → holds bs' id = true) ∧
    (∀ id, holds bs' id = true → holds bs id = true ∨ start ≤ id ∧ id ≤ last) ∧
    (ok = true → ∀ id, start ≤ id → id ≤ last → holds bs' id = true)) as Hstop.
  { exists (last <? start), bs. split_and!; [done|done|done|by left|]. intros ?%N.ltb_lt id ??. lia. }
  destruct (_ && _) eqn:Hgo; [|exact Hstop].
  apply andb_true_iff in Hgo as [Hle%N.leb_le Hlen%N.ltb_lt].
  set (cl := N.min _ last).
  assert (start ≤ cl ∧ cl ≤ last) as [Hcl1 Hcl2] by (unfold cl, sat_add; lia).
  destruct (try_insert_range_ok start cl bitmap_default bitmap_default_wf Hcl1 ltac:(lia)) as (ok & b & -> & Hb & Hin).
  cbn [mbind option_bind fst snd]. destruct ok; cbn [negb]; [|exact Hstop].
  assert (Forall bitmap_wf (bs ++ [b])) as Hbs' by (apply Forall_app; split; [done|by constructor]).
  assert (∀ id, holds (bs ++ [b]) id = holds bs id || inr start cl id) as Hadd.
  { intros id. rewrite holds_app. cbn [existsb]. rewrite Hin, empty_bitmap_contains by done. by rewrite orb_false_r. }
  destruct (N.eqb_spec cl last) as [Heq|Hne].
  - exists true, (bs ++ [b]). split_and!; [done|done| | |]; intros; rewrite Hadd in *.
    + apply orb_true_iff. by left.
    + rewrite orb_true_iff, inr_spec in *. naive_solver lia.
    + apply orb_true_iff. right. apply inr_spec. lia.
  - unfold checked_add. replace (cl + 1 <=? u64_max) with true by (symmetry; apply N.leb_le; lia).
    destruct (IH (cl + 1) (bs ++ [b]) Hbs') as (ok & bs' & -> & Hwf & H1 & H2 & H3).
    { rewrite length_app. cbn [length]. lia. }
    { unfold MAX_EVICTED_BITMAPS in *. lia. }
    exists ok, bs'. split_and!; [done|done| | |].
    + intros id Hid. apply H1. rewrite Hadd, Hid. done.
    + intros id [Hid|?]%H2; [|right; lia]. rewrite Hadd, orb_true_iff, inr_spec in Hid. naive_solver lia.
    + intros Hok id ? ?. destruct (decide (id ≤ cl)); [|apply H3; (done || lia)].
      apply H1. rewrite Hadd. apply orb_true_iff. right. apply inr_spec. lia.
Qed.

(** What admitting a range does to the packed identities; the rest of the index is kept. *)
Definition admitted (r : EvictedIdRange) x (ok : bool) x' : Prop :=
  evicted_id_ranges x' = evicted_id_ranges x ∧ evicted_overflow_ranges x' = evicted_overflow_ranges x ∧
  evicted_index_saturated x' = evicted_index_saturated x ∧
  evicted_saturated_from x' = evicted_saturated_from x ∧ evicted_saturated_through x' = evicted_saturated_through x ∧
  Forall bitmap_wf (evicted_bitmaps x') ∧ span_wf (evicted_from x') (evicted_through x') ∧
  (∀ id, packed x id → packed x' id) ∧ (∀ id, packed x' id → packed x id ∨ in_range id r) ∧
  (ok = true → ∀ id, in_range id r → packed x' id).

Lemma admit_into_bitmaps_ok r x :
  range_ok r → Forall bitmap_wf (evicted_bitmaps x) → span_wf (evicted_from x) (evicted_through x) →
  ∃ ok x', admit_into_bitmaps r x = Some (ok, x') ∧ admitted r x ok x'.
Proof.
  intros [Hr1 Hr2] Hbs Hd. unfold admit_into_bitmaps.
  assert (∀ (ok : bool) bs', Forall bitmap_wf bs' →
    (∀ id, holds (evicted_bitmaps x) id = true → holds bs' id = true) →
    (∀ id, holds bs' id = true → holds (evicted_bitmaps x) id = true ∨ in_range id r) →
    (ok = true → ∀ id, in_range id r → holds bs' id = true) →
    admitted r x ok (x <| evicted_bitmaps := bs' |>)) as Hmk.
  { intros ok bs' Hwf H1 H2 H3. unfold admitted, packed, dense_evicted_prefix_contains. cbn. split_and!; try done.
    - intros id [?|?]; [by left|right; by apply H1].
    - intros id [?|?%H2]; [by left; left|]. naive_solver.
    - intros Hok id Hid. right. by apply H3. }
  destruct (insert_into_bitmaps_ok (first_id r) (last_id r) _ Hbs Hr1 Hr2) as (ok & bs & -> & Hwf & Hin).
  cbn [mbind option_bind fst snd]. destruct ok.
  { exists true. eexists. split; [done|]. apply Hmk; [done|..]; unfold in_range; intros; rewrite Hin in *; cbn [andb] in *.
    - apply orb_true_iff. by left.
    - rewrite orb_true_iff, inr_spec in *. done.
    - apply orb_true_iff. right. by apply inr_spec. }
  assert (∀ id, holds bs id = holds (evicted_bitmaps x) id) as Hsame by (intros; by rewrite Hin, orb_false_r).
  change (evicted_bitmaps (x <| evicted_bitmaps := bs |>)) with bs.
  destruct (_ <=? vlen bs).
  { exists false. eexists. split; [done|]. apply Hmk; [done|..]; intros; rewrite ?Hsame in *; auto. done. }
  destruct (try_insert_range_ok _ _ _ bitmap_default_wf Hr1 Hr2) as (ok & b & -> & Hb & Hinb).
  cbn [mbind option_bind fst snd]. destruct ok.
  - exists true. eexists. split; [done|]. apply (Hmk true (bs ++ [b])).
    + apply Forall_app. split; [done|by constructor].
    + intros id Hid. by rewrite holds_app, Hsame, Hid.
    + intros id. rewrite holds_app, Hsame. cbn [existsb].
      rewrite Hinb, empty_bitmap_contains, orb_false_r, orb_true_iff by done. cbn [orb andb]. by rewrite inr_spec.
    + intros _ id Hid. rewrite holds_app. cbn [existsb]. rewrite Hinb. apply inr_spec in Hid. rewrite Hid.
      by rewrite !orb_true_r.
  - destruct (chunk_loop_ok (N.to_nat MAX_EVICTED_BITMAPS + 1) (first_id r) (last_id r) bs Hwf Hr2)
      as (ok & bs' & -> & Hwf' & H1 & H2 & H3); [lia|lia|].
    cbn [mbind option_bind fst snd]. exists ok. eexists. split; [done|]. apply (Hmk ok bs'); [done|..].
    + intros id Hid. apply H1. by rewrite Hsame.
    + intros id [Hid|?]%H2; [left; by rewrite <- Hsame|by right].
    + intros Hok id [? ?]. by apply H3.
Qed.

Lemma admit_compacted_ok r x :
  range_ok r → Forall bitmap_wf (evicted_bitmaps x) → span_wf (evicted_from x) (evicted_through x) →
  ∃ ok x', admit_compacted_evicted_range r x = Some (ok, x') ∧ admitted r x ok x'.
Proof.
  intros Hr Hbs Hd. pose proof Hr as [Hr1 Hr2]. unfold admit_compacted_evicted_range.
  destruct (evicted_from x) as [f|] eqn:Hf, (evicted_through x) as [t|] eqn:Ht; try done.
  - destruct (bool_decide_reflect (checked_add u64_max t 1 = Some (first_id r))) as [Hadj|_].
    2:{ apply admit_into_bitmaps_ok; [done|done|]. by rewrite Hf, Ht. }
    unfold checked_add in Hadj. destruct (_ <=? _); [|done]. injection Hadj as Hadj.
    cbn in Hd. eexists _, _. split; [done|].
    unfold admitted, packed, dense_evicted_prefix_contains. cbn. rewrite Hf, Ht. cbn.
    do 5 (split; [done|]). split; [done|]. split; [lia|]. split; [|split].
    + intros id. rewrite !andb_true_iff, !N.leb_le. intros [?|?]; [left; lia|by right].
    + intros id. unfold in_range. rewrite !andb_true_iff, !N.leb_le.
      intros [?|?]; [|by left; right]. destruct (decide (id ≤ t)); [left; left; lia|right; lia].
    + intros _ id [? ?]. rewrite !andb_true_iff, !N.leb_le. left. lia.
  - eexists _, _. split; [done|].
    unfold admitted, packed, dense_evicted_prefix_contains. cbn. rewrite Hf, Ht. cbn.
    do 5 (split; [done|]). split; [done|]. split; [done|]. split; [|split].
    + intros id [?|?]; [done|by right].
    + intros id. unfold in_range. rewrite !andb_true_iff, !N.leb_le. intros [?|?]; [by right|by left; right].
    + intros _ id [? ?]. rewrite !andb_true_iff, !N.leb_le. by left.
Qed.

(** ** Compaction *)

(** [x'] reports what [x] reports, and nothing else as long as it is not saturated. *)
Definition compacts x x' : Prop :=
  (∀ id, reported x id → reported x' id) ∧
  (evicted_index_saturated x' = false →
   evicted_index_saturated x = false ∧ ∀ id, reported x' id → reported x id).

Lemma compacts_refl x : compacts x x.
Proof. split; auto. Qed.

Lemma compacts_trans x y z : compacts x y → compacts y z → compacts x z.
Proof. intros [H1 H2] [H3 H4]. split; [auto|]. intros Hz. destruct (H4 Hz) as [Hy H5]. destruct (H2 Hy). auto. Qed.

Lemma saturated_contains_fail id r x :
  evicted_wf x → saturated_contains id x = true ∨ in_range id r →
  saturated_contains id (fail_closed_evicted_range r x) = true.
Proof.
  intros Hx Hid. pose proof (ew_saturated x Hx) as Hs. unfold saturated_contains in *. cbn.
  unfold in_range in Hid.
  destruct (evicted_index_saturated x), (evicted_saturated_from x), (evicted_saturated_through x); cbn in *;
    rewrite ?andb_true_iff, ?N.leb_le in *; try (destruct Hs; congruence);
    try (destruct Hs as [? [? ?]]; congruence); naive_solver lia.
Qed.

Lemma fail_closed_saturated r x :
  evicted_wf x → range_ok r →
  span_wf (evicted_saturated_from (fail_closed_evicted_range r x)) (evicted_saturated_through (fail_closed_evicted_range r x)).
Proof.
  intros Hx [Hr1 Hr2]. pose proof (ew_saturated x Hx) as Hs. cbn.
  destruct (evicted_index_saturated x), (evicted_saturated_from x), (evicted_saturated_through x); cbn in *;
    naive_solver lia.
Qed.

(** One range leaves the front of the recent ranges. *)
Lemma compact_step oldest rest x :
  evicted_wf x → items (evicted_id_ranges x) = oldest :: rest → rest ≠ [] →
  ∃ ok x1, admit_compacted_evicted_range oldest (x <| evicted_id_ranges ::= vec_keep (λ _, rest) |>) = Some (ok, x1) ∧
  let x2 := if ok then x1
            else if vec_len (evicted_overflow_ranges x1) <? MAX_EVICTED_OVERFLOW_RANGES
            then x1 <| evicted_overflow_ranges ::= vec_push size_range oldest |>
            else fail_closed_evicted_range oldest x1 in
  items (evicted_id_ranges x2) = rest ∧ evicted_wf x2 ∧ compacts x x2.
Proof.
  intros Hx Hitems Hne. set (x0 := x <| evicted_id_ranges ::= _ |>).
  pose proof (ew_sorted x Hx) as Hs. pose proof (ew_ranges x Hx) as Hr. unfold all_ranges in Hs, Hr. rewrite Hitems in Hs, Hr.
  set (ov := items (evicted_overflow_ranges x)) in *.
  assert (range_ok oldest) as Hold by (apply Forall_app in Hr as [_ Hr]; by inversion Hr).
  destruct (admit_compacted_ok oldest x0 Hold (ew_bitmaps x Hx) (ew_dense x Hx))
    as (ok & x1 & Hadm & (E1 & E2 & E3 & E4 & E5 & Hbs & Hd & P1 & P2 & P3)).
  exists ok, x1. split; [done|]. cbv zeta.
  change (items (evicted_id_ranges x0)) with rest in *. change (evicted_overflow_ranges x0) with (evicted_overflow_ranges x) in *.
  assert (items (evicted_id_ranges x1) = rest) as Hi1 by (rewrite E1; done).
  assert (items (evicted_overflow_ranges x1) = ov) as Hi2 by (rewrite E2; done).
  assert (StronglySorted range_lt (ov ++ rest)) as Hs0.
  { apply StronglySorted_app in Hs as (Ha & Hb & Hc). apply StronglySorted_app. split_and!; [|done|by inversion Hc].
    intros a b ??. apply Ha; [done|by right]. }
  assert (Forall range_ok (ov ++ rest)) as Hr0.
  { apply Forall_app in Hr as [? Hr]. apply Forall_app. split; [done|by inversion Hr]. }
  assert (∀ id, saturated_contains id x1 = saturated_contains id x) as Hsat.
  { intros id. unfold saturated_contains. by rewrite E3, E4, E5. }
  assert (evicted_wf x1) as Hx1.
  { split; unfold all_ranges; rewrite ?Hi1, ?Hi2; try done.
    rewrite E3, E4, E5. apply (ew_saturated x Hx). }
  assert (∀ id, packed x id → packed x1 id) as Q1 by (intros id Hid; apply P1; done).
  assert (∀ id, packed x1 id → packed x id ∨ in_range id oldest) as Q2 by (intros id Hid; destruct (P2 id Hid); by auto).
  assert (∀ id, listed x id ↔ listed x1 id ∨ in_range id oldest) as Q3.
  { intros id. unfold listed, all_ranges. rewrite Hitems, Hi1, Hi2. fold ov.
    setoid_rewrite elem_of_app. setoid_rewrite elem_of_cons. naive_solver. }
  destruct ok; [|destruct (_ <? MAX_EVICTED_OVERFLOW_RANGES)].
  - split_and!; [done|done|]. split.
    + intros id. rewrite !reported_iff, Hsat, Q3 by done. naive_solver.
    + rewrite E3. intros Hns. split; [done|]. intros id. rewrite !reported_iff, Hsat, Q3 by done. naive_solver.
  - set (x2 := x1 <| evicted_overflow_ranges ::= _ |>).
    assert (all_ranges x2 = ov ++ oldest :: rest) as Hall.
    { unfold all_ranges, x2. cbn. rewrite Hi1, Hi2, <- app_assoc. done. }
    assert (evicted_wf x2) as Hx2.
    { split; rewrite ?Hall; try done; [|by apply (ew_saturated x1 Hx1)].
      change (items (evicted_id_ranges x1) = [] → items (evicted_overflow_ranges x2) = []). rewrite Hi1. done. }
    assert (∀ id, listed x2 id ↔ listed x id) as Q4.
    { intros id. unfold listed. rewrite Hall. unfold all_ranges. by rewrite Hitems. }
    split_and!; [done|done|]. split.
    + intros id. rewrite !reported_iff, Q4 by done. change (saturated_contains id x2) with (saturated_contains id x1).
      change (packed x2 id) with (packed x1 id). rewrite Hsat. naive_solver.
    + change (evicted_index_saturated x2) with (evicted_index_saturated x1). rewrite E3. intros Hns. split; [done|].
      intros id. rewrite !reported_iff, Q4 by done. change (saturated_contains id x2) with (saturated_contains id x1).
      change (packed x2 id) with (packed x1 id). rewrite Hsat.
      intros [?|[[?|?]%Q2|?]]; [by left|by right; left|right; right; apply Q3; by right|by right; right].
  - set (x2 := fail_closed_evicted_range oldest x1).
    assert (evicted_wf x2) as Hx2.
    { split; try apply Hx1. split; [by apply fail_closed_saturated|]. by eexists. }
    split_and!; [done|done|]. split; [|done].
    intros id. rewrite !reported_iff by done. change (packed x2 id) with (packed x1 id). change (listed x2 id) with (listed x1 id).
    intros [Hid|[Hid|[Hid|Hid]%Q3]]; [|by right; left; apply Q1|by right; right|].
    + left. apply saturated_contains_fail; [done|]. left. by rewrite Hsat.
    + left. apply saturated_contains_fail; [done|]. by right.
Qed.

Lemma compact_loop_ok ranges x :
  evicted_wf x → items (evicted_id_ranges x) = ranges →
  ∃ x', compact_loop ranges x = Some x' ∧ evicted_wf x' ∧ compacts x x' ∧
        last (items (evicted_id_ranges x')) = last ranges.
Proof.
  revert x. induction ranges as [|oldest rest IH]; intros x Hx Hi; cbn [compact_loop].
  { exists x. split_and!; [done|done|apply compacts_refl|by rewrite Hi]. }
  destruct (N.ltb_spec MAX_EVICTED_ID_RANGES (vlen (oldest :: rest))) as [Hlong|_].
  2:{ exists x. split_and!; [done|done|apply compacts_refl|by rewrite Hi]. }
  assert (rest ≠ []) as Hne by (intros ->; cbn in Hlong; unfold MAX_EVICTED_ID_RANGES in Hlong; lia).
  destruct (compact_step oldest rest x Hx Hi Hne) as (ok & x1 & -> & Hi2 & Hx2 & Hc2). cbn [mbind option_bind fst snd].
  assert (last (oldest :: rest) = last rest) as -> by (by destruct rest).
  destruct ok; [|destruct (_ <? MAX_EVICTED_OVERFLOW_RANGES)];
    (destruct (IH _ Hx2 Hi2) as (x' & Hx' & ? & Hc & ?); exists x'; split_and!; [done|done| |done]; by eapply compacts_trans).
Qed.

(** ** Recording *)

(** The last identity recorded. *)
Definition top x : option N := last_id <$> last (items (evicted_id_ranges x)).

(** No recorded range ends after [h]. *)
Definition upto x (h : N) : Prop :=
  match last (items (evicted_id_ranges x)) with Some l => last_id l ≤ h | None => True end.

Lemma upto_all x h r :
  evicted_wf x → upto x h → r ∈ all_ranges x →
  last_id r ≤ h ∧ (last (items (evicted_id_ranges x)) = Some r ∨
    ∃ l, last (items (evicted_id_ranges x)) = Some l ∧ range_lt r l).
Proof.
  intros Hx Hup Hr. unfold upto in Hup. pose proof (ew_sorted x Hx) as Hs. pose proof (ew_ranges x Hx) as Ho.
  unfold all_ranges in *. destruct (last (items (evicted_id_ranges x))) as [l|] eqn:Hl.
  - apply last_Some in Hl as [pre Hpre]. rewrite Hpre in *. rewrite app_assoc in *.
    apply StronglySorted_app in Hs as (Ha & _ & _). apply Forall_app in Ho as [_ Ho]. inversion Ho as [|? ? [? _] _]; subst.
    apply elem_of_app in Hr as [Hr|Hr%list_elem_of_singleton].
    + pose proof (Ha r l Hr ltac:(left)) as Hlt. unfold range_lt in Hlt. split; [lia|right; eauto].
    + subst. split; [done|by left].
  - apply last_None in Hl. rewrite Hl, (ew_recent x Hx Hl) in Hr. by apply elem_of_nil in Hr.
Qed.

Lemma in_range_mono id r id' : in_range id (r <| last_id := id' |>) ↔ first_id r ≤ id ∧ id ≤ id'.
Proof. done. Qed.

(** What recording an identity must do to the index. *)
Definition records (id : N) x x' : Prop :=
  evicted_wf x' ∧ top x' = Some id ∧ evicted_index_saturated x' = evicted_index_saturated x ∧
  ∀ id', reported x' id' ↔ reported x id' ∨ id' = id.

(** A new list of recent ranges whose members are the old ones and the identity. *)
Lemma replace_ranges_ok id x v :
  evicted_wf x →
  StronglySorted range_lt (items (evicted_overflow_ranges x) ++ items v) →
  Forall range_ok (items (evicted_overflow_ranges x) ++ items v) → items v ≠ [] →
  (∀ id', (∃ r, r ∈ items (evicted_overflow_ranges x) ++ items v ∧ in_range id' r) ↔ listed x id' ∨ id' = id) →
  last_id <$> last (items v) = Some id →
  records id x (x <| evicted_id_ranges := v |>).
Proof.
  intros Hx H1 H2 H3 H4 H5. set (x' := x <| evicted_id_ranges := v |>).
  assert (evicted_wf x') as Hx' by (split; [done|done|done|apply Hx..]).
  split_and!; [done|exact H5|done|].
  - intros id'. rewrite !reported_iff by done. change (packed x' id') with (packed x id').
    change (saturated_contains id' x') with (saturated_contains id' x).
    assert (listed x' id' ↔ listed x id' ∨ id' = id) as -> by apply H4. naive_solver.
Qed.

(** The identity as a range of its own. *)
Lemma push_fresh_ok id x :
  evicted_wf x → id ≤ u64_max → (∀ r, r ∈ all_ranges x → last_id r < id) →
  records id x (x <| evicted_id_ranges := vec_push size_range (mkRange id id) (evicted_id_ranges x) |>).
Proof.
  intros Hx Hid Hlt. pose proof (ew_sorted x Hx) as Hs. pose proof (ew_ranges x Hx) as Ho. unfold all_ranges in Hs, Ho.
  apply replace_ranges_ok; cbn [vec_push items]; [done|..].
  - rewrite app_assoc. apply StronglySorted_app. split_and!; [|done|by repeat constructor].
    intros a b Ha Hb%list_elem_of_singleton. subst b. by apply Hlt.
  - rewrite app_assoc. apply Forall_app. split; [done|]. repeat constructor; cbn; lia.
  - by destruct (items (evicted_id_ranges x)).
  - intros id'. unfold listed, all_ranges. setoid_rewrite app_assoc. setoid_rewrite elem_of_app at 1.
    setoid_rewrite list_elem_of_singleton. split.
    + intros (r & [Hr| ->] & Hin); [left; eauto|right]. unfold in_range in Hin. cbn in Hin. lia.
    + intros [(r & Hr & Hin)| ->]; [eauto|]. exists (mkRange id id). split; [by right|]. split; cbn; lia.
  - by rewrite last_snoc.
Qed.

(** The identity after the last range lengthens it. *)
Lemma lengthen_last_ok id x l :
  evicted_wf x → last (items (evicted_id_ranges x)) = Some l → last_id l + 1 = id → id ≤ u64_max →
  records id x (x <| evicted_id_ranges :=
    vec_keep (λ rs, alter (λ l, l <| last_id := id |>) (length rs - 1)%nat rs) (evicted_id_ranges x) |>).
Proof.
  intros Hx Hl Hadj Hid. pose proof (ew_sorted x Hx) as Hs. pose proof (ew_ranges x Hx) as Ho. unfold all_ranges in Hs, Ho.
  apply last_Some in Hl as [pre Hpre]. set (l' := l <| last_id := id |>).
  assert (alter (λ l0 : EvictedIdRange, l0 <| last_id := id |>) (length (items (evicted_id_ranges x)) - 1)%nat
            (items (evicted_id_ranges x)) = pre ++ [l']) as Halt.
  { rewrite Hpre, length_app, Nat.add_sub. rewrite <- (Nat.add_0_r (length pre)). by rewrite alter_app_r. }
  assert (range_ok l) as [Hl1 Hl2].
  { rewrite Hpre, !Forall_app in Ho. destruct Ho as (_ & _ & Ho). by inversion Ho. }
  apply replace_ranges_ok; cbn [vec_keep items]; rewrite ?Halt; rewrite Hpre, app_assoc in Hs, Ho; [done|rewrite ?app_assoc..].
  - apply StronglySorted_app in Hs as (Ha & Hb & _). apply StronglySorted_app. split_and!; [|done|by repeat constructor].
    intros a b Hin Hb'%list_elem_of_singleton. subst b. apply (Ha a l Hin). by left.
  - apply Forall_app in Ho as [? _]. apply Forall_app. split; [done|]. repeat constructor; cbn; lia.
  - by destruct pre.
  - intros id'. unfold listed, all_ranges. rewrite Hpre. setoid_rewrite app_assoc. setoid_rewrite (elem_of_app (items (evicted_overflow_ranges x) ++ pre)).
    setoid_rewrite list_elem_of_singleton. split.
    + intros (r & [Hr| ->] & Hin); [left; eauto|]. unfold in_range, l' in Hin. cbn in Hin.
      destruct (decide (id' = id)); [by right|left]. exists l. split; [by right|]. split; lia.
    + intros [(r & [Hr| ->] & Hin)| ->]; [eauto| |]; (exists l'; split; [by right|]; apply in_range_mono).
      * unfold in_range in Hin. lia.
      * lia.
  - by rewrite last_snoc.
Qed.

(** An identity above the last one is recorded; any other one changes nothing. *)
Lemma record_evicted_id_ok id x :
  evicted_wf x → id ≤ u64_max →
  if match top x with Some t => id <=? t | None => false end
  then record_evicted_id id x = x else records id x (record_evicted_id id x).
Proof.
  intros Hx Hid. unfold record_evicted_id, top.
  destruct (last (items (evicted_id_ranges x))) as [l|] eqn:Hl; cbn [fmap option_fmap option_map].
  2:{ apply push_fresh_ok; [done..|]. intros r Hr. apply last_None in Hl. unfold all_ranges in Hr.
      rewrite Hl, (ew_recent x Hx Hl) in Hr. by apply elem_of_nil in Hr. }
  assert (upto x (last_id l)) as Hupl by (unfold upto; by rewrite Hl).
  destruct (N.leb_spec id (last_id l)) as [Hle|Hgt]; [done|]. case_bool_decide as Hadj.
  - apply (lengthen_last_ok id x l); [done|done| |done].
    unfold checked_add in Hadj. destruct (_ <=? _); [|done]. by injection Hadj.
  - apply push_fresh_ok; [done..|]. intros r Hr. destruct (upto_all x (last_id l) r Hx Hupl Hr). lia.
Qed.

(** ** What an index holds *)

(** The identity was larger than every one before it when it came. *)
Definition new_maximum (ids : list N) (id : N) : Prop :=
  ∃ before after, ids = before ++ id :: after ∧ Forall (λ z, z < id) before.

Lemma new_maximum_snoc ids y id :
  new_maximum (ids ++ [y]) id ↔ new_maximum ids id ∨ id = y ∧ Forall (λ z, z < y) ids.
Proof.
  split.
  - intros (before & after & Heq & Hlt). destruct after as [|z after _] using rev_ind.
    + apply app_inj_tail in Heq as [-> ->]. by right.
    + rewrite app_comm_cons, app_assoc in Heq. apply app_inj_tail in Heq as [-> _]. left. by exists before, after.
  - intros [(before & after & -> & Hlt)|[-> Hlt]].
    + exists before, (after ++ [y]). by rewrite <-app_assoc.
    + by exists ids, [].
Qed.

Lemma new_maximum_elem ids id : new_maximum ids id → id ∈ ids.
Proof. intros (before & after & -> & _). apply elem_of_app. right. left. Qed.

(** In order every identity is recorded. *)
Lemma new_maximum_sorted ids id : StronglySorted N.le ids → id ∈ ids → new_maximum ids id.
Proof.
  induction 1 as [|y ids Hs IH Hy]; [by intros ?%not_elem_of_nil|]. intros Hin.
  destruct (decide (id = y)) as [->|Hne]; [by exists [], ids|].
  apply elem_of_cons in Hin as [|Hin]; [done|]. rewrite Forall_forall in Hy. specialize (Hy id Hin).
  destruct (IH Hin) as (before & after & -> & Hlt). exists (y :: before), after. split; [done|]. constructor; [lia|done].
Qed.

(** The index after the identities [ids], in whatever order they came. *)
Definition index_holds x (ids : list LineId) : Prop :=
  evicted_wf x ∧
  match top x with Some t => t ∈ ids ∧ Forall (λ id, id ≤ t) ids | None => ids = [] end ∧
  (∀ id, new_maximum ids id → reported x id) ∧
  (evicted_index_saturated x = false → ∀ id, reported x id → new_maximum ids id).

Lemma index_holds_id x ids id :
  index_holds x ids → id ≤ u64_max → index_holds (record_evicted_id id x) (ids ++ [id]).
Proof.
  intros (Hwf & Htop & H1 & H2) Hid. pose proof (record_evicted_id_ok id x Hwf Hid) as Hrec.
  destruct (match top x with Some t => id <=? t | None => false end) eqn:Hskip.
  - rewrite Hrec. destruct (top x) as [t|] eqn:Ht; [|done]. apply N.leb_le in Hskip. destruct Htop as [Hin Hall].
    assert (¬ Forall (λ z, z < id) ids) as Hno. { rewrite Forall_forall. intros Hlt. specialize (Hlt t Hin). lia. }
    split; [done|]. rewrite Ht. setoid_rewrite new_maximum_snoc. split; [split|split; naive_solver].
    + apply elem_of_app. by left.
    + apply Forall_app. split; [done|]. by apply Forall_singleton.
  - destruct Hrec as (Hwf' & Ht' & Hs & Hrep). split; [done|]. rewrite Ht', Hs.
    assert (Forall (λ z, z < id) ids) as Hlt.
    { destruct (top x) as [t|]; [|by subst]. apply N.leb_gt in Hskip. destruct Htop as [_ Hall].
      eapply Forall_impl; [exact Hall|]. cbn. lia. }
    setoid_rewrite new_maximum_snoc. setoid_rewrite Hrep. split; [split|split; naive_solver].
    + apply elem_of_app. right. left.
    + apply Forall_app. split; [eapply Forall_impl; [exact Hlt|]; cbn; lia|by apply Forall_singleton].
Qed.

Lemma index_holds_record x ids new :
  index_holds x ids → Forall (λ id, id ≤ u64_max) new →
  ∃ x', record_evicted_ids new x = Some x' ∧ index_holds x' (ids ++ new).
Proof.
  intros Hx Hnew. assert (index_holds (foldl (λ x id, record_evicted_id id x) x new) (ids ++ new)) as (H1 & H2 & H3 & H4).
  { revert x ids Hx. induction Hnew as [|id new Hid _ IH]; intros x ids Hx; cbn [foldl]; [by rewrite app_nil_r|].
    rewrite (cons_middle id), app_assoc. apply IH. by apply index_holds_id. }
  unfold record_evicted_ids, compact_evicted_id_ranges.
  destruct (compact_loop_ok _ _ H1 eq_refl) as (x' & -> & Hx' & [Hc1 Hc2] & Hlast).
  exists x'. split; [done|]. split; [done|]. unfold top in *. rewrite Hlast. split_and!; [done|naive_solver|].
  intros Hns. destruct (Hc2 Hns) as [Hs1 Hback]. naive_solver.
Qed.

(** ** Ranges of identities *)

Lemma span_intersects_iff from through start end_ :
  span_wf from through → start ≤ end_ →
  span_intersects from through start end_ = true ↔
  ∃ id, start ≤ id ∧ id ≤ end_ ∧ span_contains from through id = true.
Proof.
  intros Hw Hle. unfold span_intersects, span_contains. destruct from as [f|], through as [t|]; try naive_solver.
  cbn in Hw. rewrite andb_true_iff, !N.leb_le. setoid_rewrite andb_true_iff. setoid_rewrite N.leb_le. split.
  - intros [? ?]. exists (N.max start f). lia.
  - intros (id & ? & ? & ? & ?). lia.
Qed.

Lemma any_intersects_ok bs start end_ :
  Forall bitmap_wf bs → start ≤ end_ →
  ∃ r, any_intersects bs start end_ = Some r ∧
       (r = true ↔ ∃ id, start ≤ id ∧ id ≤ end_ ∧ holds bs id = true).
Proof.
  intros Hbs Hle. induction Hbs as [|b bs Hb Hbs IH]; cbn [any_intersects].
  { exists false. split; [done|]. split; [done|]. by intros (id & _ & _ & ?). }
  destruct (bitmap_intersects_ok b start end_ Hb Hle) as (r & -> & Hr). cbn [mbind option_bind].
  setoid_rewrite orb_true_iff. destruct r.
  - exists true. split; [done|]. split; [|done]. intros _. destruct (proj1 Hr eq_refl) as (id & ? & ? & ?). eauto.
  - destruct IH as (r & -> & Hr'). exists r. split; [done|]. rewrite Hr'.
    split; [naive_solver|]. intros (id & ? & ? & [?|?]); [|eauto]. exfalso. by apply diff_false_true, Hr; eauto.
Qed.

Lemma range_intersects_ok start end_ x :
  evicted_wf x → start ≤ end_ →
  ∃ r, range_intersects_evicted start end_ x = Some r ∧
       (r = true ↔ ∃ id, start ≤ id ∧ id ≤ end_ ∧ reported x id).
Proof.
  intros Hx Hle. unfold range_intersects_evicted.
  assert (saturated_intersects start end_ x = true ↔
    ∃ id, start ≤ id ∧ id ≤ end_ ∧ saturated_contains id x = true) as Hsat.
  { unfold saturated_intersects, saturated_contains. pose proof (ew_saturated x Hx) as Hs.
    destruct (evicted_index_saturated x); cbn [andb]; [|naive_solver]. apply span_intersects_iff; [apply Hs|done]. }
  assert (dense_evicted_prefix_intersects start end_ x = true ↔
    ∃ id, start ≤ id ∧ id ≤ end_ ∧ dense_evicted_prefix_contains id x = true) as Hdense.
  { apply span_intersects_iff; [apply (ew_dense x Hx)|done]. }
  destruct (any_intersects_ok (evicted_bitmaps x) start end_ (ew_bitmaps x Hx) Hle) as (rb & -> & Hrb).
  pose proof (ew_sorted x Hx) as Hs. pose proof (ew_ranges x Hx) as Ho. unfold all_ranges in Hs, Ho.
  apply StronglySorted_app in Hs as (_ & Hs1 & Hs2). apply Forall_app in Ho as [Ho1 Ho2].
  pose proof (overflow_intersects_ok start end_ _ Hs1 Ho1 Hle) as Hov.
  pose proof (overflow_intersects_ok start end_ _ Hs2 Ho2 Hle) as Hrg.
  cbn [mbind option_bind]. setoid_rewrite (reported_iff x _ Hx). unfold packed, listed, all_ranges.
  setoid_rewrite elem_of_app.
  destruct (saturated_intersects start end_ x); [exists true; naive_solver|].
  destruct (dense_evicted_prefix_intersects start end_ x); [exists true; naive_solver|].
  destruct rb; [exists true; naive_solver|].
  destruct (overflow_intersects start end_ (items (evicted_overflow_ranges x))); [exists true; naive_solver|].
  eexists. split; [done|]. rewrite Hrg. naive_solver.
Qed.

(** The index after the eviction of a sequence of segments, given by their identities. *)
Definition record_all (segments : list (list LineId)) x : option EvictedIndex :=
  foldl (λ o ids, o ≫= record_evicted_ids ids) (Some x) segments.

Lemma record_all_ok segments x ids :
  index_holds x ids → Forall (λ id, id ≤ u64_max) (mjoin segments) →
  ∃ x', record_all segments x = Some x' ∧ index_holds x' (ids ++ mjoin segments).
Proof.
  unfold record_all. revert x ids. induction segments as [|new segments IH]; intros x ids Hx Hmax; cbn [foldl mjoin list_join] in *.
  { exists x. by rewrite app_nil_r. }
  apply Forall_app in Hmax as [Hm1 Hm2]. destruct (index_holds_record x ids new Hx Hm1) as (x1 & Hx1 & H1).
  cbn [mbind option_bind]. rewrite Hx1, app_assoc. by apply IH.
Qed.

Lemma evicted_default_wf : evicted_wf evicted_default.
Proof. split; try done; cbn; constructor. Qed.

Lemma index_default_holds : index_holds evicted_default [].
Proof.
  split_and!; [apply evicted_default_wf|done| |].
  - by intros id ?%new_maximum_elem%not_elem_of_nil.
  - intros _ id Hid. by vm_compute in Hid.
Qed.
End index.

(** ** Recording never panics, in whatever order identities arrive *)

Section record_total.
Context `{Memory}.

Lemma set_loop_total o ws id n : o ≤ id → ∃ ws', set_loop o ws id n = Some ws'.
Proof.
  revert ws id. induction n as [|n IH]; intros ws id Ho; cbn [set_loop]; [by eexists|].
  unfold checked_sub. apply N.leb_le in Ho as Hb. rewrite Hb. apply IH. lia.
Qed.

Lemma try_insert_range_total first last b : ∃ r, try_insert_range first last b = Some r.
Proof.
  unfold try_insert_range, set_range. destruct (_ <? first); [by eexists|].
  destruct (_ =? 0); destruct (_ || _) eqn:Hg; try by eexists.
  - match goal with |- context [set_loop ?o ?ws ?id ?n] => destruct (set_loop_total o ws id n) as [ws' ->] end; [done|].
    by eexists.
  - apply orb_false_iff in Hg as [Hf%N.ltb_ge _]. destruct (_ <? _); [by eexists|].
    match goal with |- context [set_loop ?o ?ws ?id ?n] => destruct (set_loop_total o ws id n) as [ws' ->] end; [done|].
    by eexists.
Qed.

Lemma chunk_loop_total fuel start last bs :
  (N.to_nat MAX_EVICTED_BITMAPS + 1 ≤ length bs + fuel)%nat → (1 ≤ fuel)%nat →
  ∃ r, chunk_loop fuel start last bs = Some r.
Proof.
  revert start bs. induction fuel as [|fuel IH]; intros start bs Hf Hf1; [lia|]. cbn [chunk_loop].
  destruct (_ && _) eqn:Hgo; [|by eexists]. apply andb_true_iff in Hgo as [_ Hlen%N.ltb_lt].
  destruct (try_insert_range_total start (N.min (sat_add u64_max start (MAX_EVICTED_BITMAP_BITS - 1)) last) bitmap_default)
    as [[ok b] ->]. cbn [mbind option_bind fst snd].
  destruct (negb ok); [by eexists|]. destruct (_ =? last); [by eexists|]. destruct (checked_add _ _ _); [|by eexists].
  unfold MAX_EVICTED_BITMAPS in *. apply IH; [rewrite length_app; cbn [length]|]; lia.
Qed.

Lemma record_evicted_ids_total ids x : ∃ x', record_evicted_ids ids x = Some x'.
Proof.
  unfold record_evicted_ids, compact_evicted_id_ranges. generalize (foldl (λ x id, record_evicted_id id x) x ids). clear x.
  intros x. generalize (items (evicted_id_ranges x)). intros ranges. revert x.
  induction ranges as [|r ranges IH]; intros x; cbn [compact_loop]; [by eexists|]. destruct (_ <? vlen _); [|by eexists].
  set (x0 := x <| evicted_id_ranges ::= _ |>).
  assert (∃ p, admit_compacted_evicted_range r x0 = Some p) as [p ->].
  { assert (∃ p, admit_into_bitmaps r x0 = Some p) as Hb.
    { unfold admit_into_bitmaps.
      assert (∃ q, insert_into_bitmaps (first_id r) (last_id r) (evicted_bitmaps x0) = Some q) as [[ok bs] ->].
      { induction (evicted_bitmaps x0) as [|b bs IHb]; cbn [insert_into_bitmaps]; [by eexists|].
        destruct (try_insert_range_total (first_id r) (last_id r) b) as [[ok b'] ->]. cbn [mbind option_bind fst snd].
        destruct ok; [by eexists|]. destruct IHb as [q ->]. by eexists. }
      cbn [mbind option_bind fst snd]. destruct ok; [by eexists|]. destruct (_ <=? vlen _); [by eexists|].
      destruct (try_insert_range_total (first_id r) (last_id r) bitmap_default) as [[ok b] ->]. cbn [mbind option_bind fst snd].
      destruct ok; [by eexists|].
      match goal with |- context [chunk_loop ?f ?a ?b ?c] => destruct (chunk_loop_total f a b c) as [q ->] end; [lia|lia|by eexists]. }
    unfold admit_compacted_evicted_range.
    destruct (evicted_from x0), (evicted_through x0); try exact Hb; [|by eexists]. destruct (bool_decide _); [by eexists|exact Hb]. }
  cbn [mbind option_bind]. destruct (p.1); [apply IH|]. destruct (_ <? MAX_EVICTED_OVERFLOW_RANGES); apply IH.
Qed.
End record_total.

(** C22. The eviction index implements a set of evicted identities.  Whatever sequence of
    segments is evicted, in whatever order their line identities come, recording and asking
    never panic, however the identities move between ranges, prefix, bitmaps and overflow.  An
    identity that was larger than every one evicted before it is reported from then on; as long
    as the index is not saturated no other identity is, so an identity that came after a larger
    one is forgotten; and the range query is true exactly when the range contains a reported
    identity.  In particular, when identities leave in order, every evicted identity is reported,
    and nothing else is until the index saturates. *)
Theorem eviction_index_exact `{Memory} (segments : list (list LineId)) :
  Forall (λ id, id ≤ u64_max) (mjoin segments) →
  ∃ x, record_all segments evicted_default = Some x ∧
    (∀ id, new_maximum (mjoin segments) id → line_was_evicted id x = true) ∧
    (evicted_index_saturated x = false →
     ∀ id, line_was_evicted id x = true → new_maximum (mjoin segments) id) ∧
    (StronglySorted N.le (mjoin segments) →
     (∀ id, id ∈ mjoin segments → line_was_evicted id x = true) ∧
     (evicted_index_saturated x = false → ∀ id, line_was_evicted id x = true → id ∈ mjoin segments)) ∧
    ∀ start end_, start ≤ end_ →
      ∃ r, range_intersects_evicted start end_ x = Some r ∧
           (r = true ↔ ∃ id, start ≤ id ∧ id ≤ end_ ∧ line_was_evicted id x = true).
Proof.
  intros Hmax. destruct (record_all_ok segments evicted_default [] index_default_holds Hmax) as (x & Hx & Hwf & _ & H1 & H2).
  cbn [app] in *. exists x. split_and!; [done|done|done| |intros start end_; by apply range_intersects_ok].
  intros Hs. split; [intros id Hid; by apply H1, new_maximum_sorted|]. intros Hns id Hid. by apply new_maximum_elem, H2.
Qed.

(** Once line 7 was evicted, the eviction of the older line 3 leaves no trace. *)
Lemma eviction_index_exact_witness :
  ∃ x, @record_all exact_memory [[1; 2; 2]; [7]; [3; 9]] evicted_default = Some x ∧
    line_was_evicted 9 x = true ∧ line_was_evicted 3 x = false.
Proof.
  destruct (@eviction_index_exact exact_memory [[1; 2; 2]; [7]; [3; 9]]) as (x & Hx & Hin & _); [repeat constructor; done|].
  exists x. split; [exact Hx|]. split.
  - apply Hin. exists [1; 2; 2; 7; 3], []. split; [reflexivity|]. repeat constructor.
  - vm_compute in Hx. injection Hx as <-. vm_compute. reflexivity.
Defined.
