(* ===== verification/HistoryStore.v ===== *)
(** The retained history: [crates/seyal-terminal/src/history/store.rs], the storage half of
    [history/types.rs], and the eviction of [history/eviction.rs].

    Lines that leave the grid are appended to a tail; a tail that is large enough is sealed
    into a segment, whose lines, units and text bytes are three flat arrays.  The store
    bounds its memory by evicting whole segments from the front, remembers the evicted
    identities ([Eviction]) and maintains the wrap index ([WrapIndex]).  Operations return
    [None] where the Rust code would panic or a loop would exceed its fuel. *)

From S2P Require Import Prelude Utf8 Types HistoryTypes Memory Wrap WrapIndex Eviction.

Definition HISTORY_SEGMENT_PAYLOAD_TARGET : N := 16 * 1024.
Definition HISTORY_TAIL_PAYLOAD_LIMIT : N := 2 * HISTORY_SEGMENT_PAYLOAD_TARGET.
Definition HISTORY_PER_EXECUTION_BYTE_CAP : N := 32 * 1024 * 1024.

(** ** Data *)

Record SegmentLine := mkSegmentLine {
  sl_line_id : LineId; sl_unit_start : N; sl_unit_len : N; sl_start_offset : N;
  sl_break_after : HistoryBreakAfter }.

Record SegmentUnit := mkSegmentUnit {
  payload_start : N; payload_len : N; su_width : N; su_style : Style }.

Record Segment := mkSegment {
  seg_lines : list SegmentLine; seg_units : list SegmentUnit; seg_payload : list N;
  seg_age : N; seg_resident_bytes : N }.

(** A line of the tail with the capacities of its vectors. *)
Record TailLine := mkTail { tl_line : HistoryLine; tl_caps : LineCaps }.

Record HistoryWireCell := mkWire {
  wc_text : list N; wc_width : N; wc_style : Style; wc_continuation : bool }.

Record ReflowRow := mkRow {
  source_line_id : option LineId; row_anchors : list HistoryAnchor; row_cells : list HistoryWireCell;
  row_break : option HistoryBreakAfter; unavailable : bool }.
Definition row_default : ReflowRow := mkRow None [] [] None false.

Record ReflowCache := mkCache {
  rc_columns : N; rc_max_rows : N; rc_eviction_generation : N; rc_rows : list ReflowRow }.

(** The store; [next_segment_age] is the process-wide counter [NEXT_SEGMENT_AGE] as this
    store sees it, and [lines_taken] numbers the lines for [line_caps]. *)
Record HistoryStore := mkStore {
  segments : vec Segment;
  tail : vec TailLine;
  tail_payload_bytes : N;
  tail_resident_bytes : N;
  segments_resident_bytes : N;
  resident_bytes : N;
  eviction_generation : N;
  evicted : EvictedIndex;
  reflow_cache : option ReflowCache;
  wrap_chains : vec WrapChain;
  next_segment_age : N;
  lines_taken : N }.

Definition store_default : HistoryStore :=
  mkStore vec_new vec_new 0 0 0 0 0 evicted_default None vec_new 1 0.

(** ** Reading lines *)

(** [HistoryUnitRef::utf8] of a sealed unit: [segment.payload.get(start..end).unwrap_or(&[])]. *)
Definition sealed_utf8 (s : Segment) (u : SegmentUnit) : list N :=
  default [] (vslice (seg_payload s) (payload_start u) (sat_add usize_max (payload_start u) (payload_len u))).

Definition sealed_unit (s : Segment) (u : SegmentUnit) : HistoryUnit :=
  mkUnit (sealed_utf8 s u) (su_width u) (su_style u).

(** [HistoryLineRef::Sealed(segment, line).to_owned_line()]; the slice of units panics out of
    bounds. *)
Definition sealed_line (s : Segment) (l : SegmentLine) : option HistoryLine :=
  us ← vslice (seg_units s) (sl_unit_start l) (sat_add usize_max (sl_unit_start l) (sl_unit_len l));
  Some (mkLine (sl_line_id l) (sealed_unit s <$> us) (sl_break_after l) (sl_start_offset l)).

Definition sealed_lines (s : Segment) : option (list HistoryLine) := mapM (sealed_line s) (seg_lines s).

(** [entries()], as owned lines: the segments oldest first, then the tail. *)
Definition entries (h : HistoryStore) : option (list HistoryLine) :=
  sealed ← mapM sealed_lines (items (segments h));
  Some (mjoin sealed ++ (tl_line <$> items (tail h))).

Definition reverse_entries (h : HistoryStore) : option (list HistoryLine) := reverse <$> entries h.

Definition oldest_segment_age (h : HistoryStore) : option N := seg_age <$> head (items (segments h)).

(** [self.entries().next()], of which the callers use identity and offset. *)
Definition first_anchor (h : HistoryStore) : option HistoryAnchor :=
  match (items (segments h) ≫= seg_lines), items (tail h) with
  | l :: _, _ => Some (mkAnchor (sl_line_id l) (sl_start_offset l))
  | [], t :: _ => Some (mkAnchor (line_id (tl_line t)) (start_offset (tl_line t)))
  | [], [] => None
  end.

Section store.
Context `{Memory}.
Implicit Types (h : HistoryStore) (l : HistoryLine).

(** ** Accounting *)

Definition allocated_bytes (c : LineCaps) : N :=
  sat_add usize_max (sat_mul usize_max (units_cap c) size_unit) (foldr N.add 0 (utf8_caps c)).

Definition update_resident_bytes h : HistoryStore :=
  let add := sat_add usize_max in
  let x := evicted h in
  h <| resident_bytes :=
    add (add (add (add (add size_store (tail_resident_bytes h)) (segments_resident_bytes h))
                (sat_mul usize_max (capacity (evicted_id_ranges x)) size_range))
           (sat_mul usize_max (capacity (evicted_overflow_ranges x)) size_range))
      (foldr (λ b sum, bitmap_allocated_bytes b + sum) 0 (evicted_bitmaps x)) |>.

Definition recount_tail h : HistoryStore :=
  let ts := items (tail h) in
  h <| tail_payload_bytes := foldr (λ t sum, canonical_payload_len (tl_line t) + sum) 0 ts |>
    <| tail_resident_bytes :=
         sat_add usize_max (foldr (λ t sum, allocated_bytes (tl_caps t) + sum) 0 ts)
           (sat_mul usize_max (capacity (tail h)) size_line) |>.

(** ** Sealing *)

(** The arrays of a segment after one more line. *)
Definition seal_line (arrays : list SegmentLine * list SegmentUnit * list N) (l : HistoryLine)
    : list SegmentLine * list SegmentUnit * list N :=
  let '(lines, us, payload) := arrays in
  let unit_start := to_u32 (vlen us) in
  let '(us, payload) :=
    foldl (λ (acc : list SegmentUnit * list N) u,
      let '(us, payload) := acc in
      (us ++ [mkSegmentUnit (to_u32 (vlen payload)) (to_u32 (vlen (u_utf8 u))) (u_width u) (u_style u)],
       payload ++ u_utf8 u)) (us, payload) (units l) in
  (lines ++ [mkSegmentLine (line_id l) unit_start (to_u32 (vlen us) - unit_start) (start_offset l) (break_after l)],
   us, payload).

Definition seal_tail h : HistoryStore :=
  match items (tail h) with
  | [] => h
  | ts =>
    let '(lines, us, payload) := foldl seal_line ([], [], []) (tl_line <$> ts) in
    let bytes := sat_add usize_max
                   (sat_add usize_max (sat_mul usize_max (vlen lines) size_segment_line)
                      (sat_mul usize_max (vlen us) size_segment_unit)) (vlen payload) in
    let segment := mkSegment lines us payload (next_segment_age h) bytes in
    let segments' := vec_push size_segment segment (segments h) in
    update_resident_bytes
      (h <| tail := vec_new |> <| tail_payload_bytes := 0 |> <| tail_resident_bytes := 0 |>
         <| next_segment_age := (next_segment_age h + 1) mod 2 ^ 64 |>
         <| segments := segments' |>
         <| segments_resident_bytes :=
              sat_add usize_max (sat_add usize_max (segments_resident_bytes h) bytes)
                (sat_mul usize_max (capacity segments' - capacity (segments h)) size_segment) |>)
  end.

(** ** Appending *)

Definition push_fragment_inner (t : TailLine) (record_wrap : bool) h : option HistoryStore :=
  let bytes := canonical_payload_len (tl_line t) in
  let full := (HISTORY_SEGMENT_PAYLOAD_TARGET <? tail_payload_bytes h + bytes)
              || (HISTORY_TAIL_PAYLOAD_LIMIT <=? tail_resident_bytes h) in
  let h := if negb (bool_decide (items (tail h) = [])) && full then seal_tail h else h in
  let h := h <| tail_payload_bytes ::= N.add bytes |> in
  chains ← (if record_wrap then extend_wrap_line (tl_line t) (wrap_chains h) else Some (wrap_chains h));
  let tail' := vec_push size_line t (tail h) in
  let h := update_resident_bytes
             (h <| wrap_chains := chains |> <| tail := tail' |>
                <| tail_resident_bytes :=
                     sat_add usize_max (sat_add usize_max (tail_resident_bytes h) (allocated_bytes (tl_caps t)))
                       (sat_mul usize_max (capacity tail' - capacity (tail h)) size_line) |>) in
  if (HISTORY_SEGMENT_PAYLOAD_TARGET <=? tail_payload_bytes h)
     || (HISTORY_TAIL_PAYLOAD_LIMIT <=? tail_resident_bytes h)
  then Some (seal_tail h) else Some h.

Definition push_fragment (t : TailLine) h : option HistoryStore := push_fragment_inner t true h.

(** A fragment in the making: its units, and the capacities of its vectors. *)
Definition fragment_line (id : LineId) (us : list (HistoryUnit * N)) (cap : N) (brk : HistoryBreakAfter)
    (offset : N) : TailLine :=
  mkTail (mkLine id (fst <$> us) brk offset) (mkCaps cap (snd <$> us)).

(** The loop of [append_line] that cuts an oversized line at unit boundaries; every unit
    comes with the capacity of its text. *)
Fixpoint fragment_loop (id : LineId) (final_break : HistoryBreakAfter) (rest : list (HistoryUnit * N))
    (fragment : vec (HistoryUnit * N)) (fragment_bytes source_offset : N) h : option HistoryStore :=
  match rest with
  | [] =>
    if bool_decide (items fragment = []) then Some h
    else
      start ← checked_sub source_offset (as_u32 (vec_len fragment));
      push_fragment (fragment_line id (items fragment) (capacity fragment) final_break start) h
  | u :: rest =>
    let unit_bytes := unit_payload_len u.1 in
    if negb (bool_decide (items fragment = []))
       && (HISTORY_SEGMENT_PAYLOAD_TARGET <? fragment_bytes + unit_bytes) then
      start ← checked_sub source_offset (as_u32 (vec_len fragment));
      h ← push_fragment (fragment_line id (items fragment) (capacity fragment) SoftWrap start) h;
      fragment_loop id final_break rest (vec_push size_unit u vec_new) unit_bytes
        (sat_add u32_max source_offset 1) h
    else
      fragment_loop id final_break rest (vec_push size_unit u fragment) (fragment_bytes + unit_bytes)
        (sat_add u32_max source_offset 1) h
  end.

(** [retain] below is [append_line] before the eviction. *)
Definition retain_line l (caps : LineCaps) h : option HistoryStore :=
  if HISTORY_SEGMENT_PAYLOAD_TARGET <? canonical_payload_len l
  then fragment_loop (line_id l) (break_after l) (zip (units l) (utf8_caps caps)) vec_new 0 (start_offset l) h
  else push_fragment (mkTail l caps) h.

(** ** Evicting *)

Definition record_evicted_segment (s : Segment) h : option HistoryStore :=
  x ← record_evicted_ids (sl_line_id <$> seg_lines s) (evicted h);
  Some (h <| evicted := x |>).

(** [pop_front] of a segment and what both evictions do with it. *)
Definition drop_oldest_segment h : option HistoryStore :=
  match items (segments h) with
  | [] => Some h
  | s :: rest =>
    let h := h <| segments ::= vec_keep (λ _, rest) |> in
    h ← record_evicted_segment s h;
    let h := update_resident_bytes
               (h <| segments_resident_bytes := segments_resident_bytes h - seg_resident_bytes s |>) in
    Some (h <| eviction_generation := (eviction_generation h + 1) mod 2 ^ 64 |>)
  end.

Definition trim_before_retained h : option HistoryStore :=
  chains ← trim_wrap_before_retained (first_anchor h) (wrap_chains h);
  Some (h <| wrap_chains := chains |>).

(** Each iteration drops a segment; the tail can be sealed once. *)
Fixpoint evict_loop (fuel : nat) (evicted_any : bool) h : option (bool * HistoryStore) :=
  match fuel with
  | O => None
  | S fuel =>
    if HISTORY_PER_EXECUTION_BYTE_CAP <? resident_bytes h then
      let h := match items (segments h), items (tail h) with [], _ :: _ => seal_tail h | _, _ => h end in
      match items (segments h) with
      | [] => Some (evicted_any, h)
      | _ => h ← drop_oldest_segment h; evict_loop fuel true h
      end
    else Some (evicted_any, h)
  end.

Definition evict_to_cap h : option HistoryStore :=
  let h := update_resident_bytes h in
  r ← evict_loop (length (items (segments h)) + 3) false h;
  if (fst r : bool) then trim_before_retained r.2 else Some r.2.

Definition evict_oldest_segment h : option (N * HistoryStore) :=
  let h := h <| reflow_cache := None |> in
  let before := resident_bytes h in
  match items (segments h) with
  | [] => Some (0, h)
  | _ =>
    h ← drop_oldest_segment h;
    h ← trim_before_retained h;
    Some (before - resident_bytes h, h)
  end.

Definition append_line_store l h : option HistoryStore :=
  let h := h <| reflow_cache := None |> in
  h ← retain_line l (line_caps (lines_taken h) l) (h <| lines_taken ::= N.add 1 |>);
  evict_to_cap (update_resident_bytes h).

Definition append_lines (ls : list HistoryLine) h : option HistoryStore :=
  foldl (λ o l, o ≫= append_line_store l) (Some h) ls.

Definition replace_payload (ls : list HistoryLine) h : option HistoryStore :=
  let h := h <| reflow_cache := None |> <| wrap_chains ::= vec_clear |> <| segments ::= vec_clear |>
             <| tail ::= vec_clear |> <| tail_payload_bytes := 0 |> <| tail_resident_bytes := 0 |>
             <| segments_resident_bytes := 0 |> in
  append_lines ls (update_resident_bytes h).

Definition drop_derived_cache h : HistoryStore :=
  h <| reflow_cache := None |> <| wrap_chains ::= λ cs, vec_shrink (vec_clear cs) |>.

(** ** Truncating *)

(** The unit the cut falls on, relative to a line that contains it. *)
Definition cut_of (from : HistoryAnchor) l : option nat :=
  if (line_id l =? a_line_id from) && (start_offset l <? unit_offset from)
  then Some (N.to_nat (N.min (unit_offset from - start_offset l) (vlen (units l)))) else None.

Definition cut_line (keep : nat) l : HistoryLine :=
  l <| units ::= take keep |> <| break_after := SoftWrap |>.

(** The tail loop, newest line first; [true] when it stopped inside a line and the call
    returns early. *)
Fixpoint truncate_tail (from : HistoryAnchor) (rev_tail : list TailLine) : list TailLine * bool :=
  match rev_tail with
  | [] => ([], false)
  | t :: rest =>
    if line_entirely_before (tl_line t) from then (rev_tail, false)
    else
      match cut_of from (tl_line t) with
      | Some keep =>
        if (keep =? 0)%nat then (rest, true)
        else (mkTail (cut_line keep (tl_line t))
                ((tl_caps t) <| utf8_caps ::= take keep |>) :: rest, true)
      | None => truncate_tail from rest
      end
  end.

(** The lines of a segment that stay, with [true] when the cut was reached. *)
Fixpoint kept_lines (from : HistoryAnchor) (ls : list HistoryLine) : list HistoryLine * bool :=
  match ls with
  | [] => ([], false)
  | l :: rest =>
    if line_entirely_before l from then
      let '(keep, reached) := kept_lines from rest in (l :: keep, reached)
    else
      match cut_of from l with
      | Some keep => (if (0 <? keep)%nat then [cut_line keep l] else [], true)
      | None => ([], true)
      end
  end.

(** Capacities of a line cloned out of a segment: [to_vec] and [collect] allocate at least
    what they hold. *)
Definition cloned_caps l : LineCaps :=
  mkCaps (with_capacity (vlen (units l))) ((λ u, with_capacity (vlen (u_utf8 u))) <$> units l).

Definition push_kept (ls : list HistoryLine) h : option HistoryStore :=
  foldl (λ o l, o ≫= push_fragment_inner (mkTail l (cloned_caps l)) false) (Some h) ls.

(** The segment loop; each iteration pops a segment. *)
Fixpoint truncate_segments (fuel : nat) (from : HistoryAnchor) h : option HistoryStore :=
  match fuel with
  | O => None
  | S fuel =>
    match last (items (segments h)) with
    | None => Some h
    | Some s =>
      let popped := h <| segments ::= vec_keep (λ ss, take (length ss - 1) ss) |> in
      match last (seg_lines s) with
      | None => truncate_segments fuel from popped
      | Some l =>
        if range_entirely_before (sl_line_id l) (sl_start_offset l) (sl_unit_len l) from then Some h
        else
          let h := popped <| segments_resident_bytes := segments_resident_bytes h - seg_resident_bytes s |> in
          ls ← sealed_lines s;
          let '(keep, reached) := kept_lines from ls in
          h ← push_kept keep h;
          if reached then Some h else truncate_segments fuel from h
      end
    end
  end.

Definition truncate_from (from : HistoryAnchor) h : option HistoryStore :=
  let h := h <| reflow_cache := None |> in
  let '(rev_tail, early) := truncate_tail from (reverse (items (tail h))) in
  let h := recount_tail (h <| tail ::= vec_keep (λ _, reverse rev_tail) |>) in
  h ← (if early then Some h
       else h ← truncate_segments (length (items (segments h)) + 1) from h; Some (recount_tail h));
  let h := update_resident_bytes h in
  chains ← trim_wrap_suffix_from from (wrap_chains h);
  Some (h <| wrap_chains := chains |>).

(** ** The column a cut would start at *)

Definition line_wholly_after l (from : HistoryAnchor) : bool :=
  (a_line_id from <? line_id l) || (line_id l =? a_line_id from) && (unit_offset from <=? start_offset l).

Definition line_wholly_before l (from : HistoryAnchor) : bool :=
  let end_ := sat_add u32_max (start_offset l) (to_u32 (vlen (units l))) in
  (line_id l <? a_line_id from) || (line_id l =? a_line_id from) && (end_ <=? unit_offset from).

(** The runs of the units of one line that are before [from]. *)
Fixpoint fragment_runs (id : LineId) (from : HistoryAnchor) (us : list HistoryUnit) (offset : N) (runs : list Run)
    : list Run :=
  match us with
  | [] => runs
  | u :: us =>
    if (id =? a_line_id from) && (unit_offset from <=? offset) then runs
    else fragment_runs id from us (sat_add u32_max offset 1) (fst (push_run runs (N.max (u_width u) 1) 1))
  end.

(** The walk over the newest lines: the pieces oldest first, and whether a soft wrap was seen. *)
Fixpoint canonical_walk (from : HistoryAnchor) (rev_entries : list HistoryLine) (pieces : list (list Run)) (saw_soft : bool)
    : list (list Run) * bool :=
  match rev_entries with
  | [] => (pieces, saw_soft)
  | l :: rest =>
    if line_wholly_after l from then canonical_walk from rest pieces saw_soft
    else if negb (bool_decide (pieces = [])) && bool_decide (break_after l = HardBreak) && line_wholly_before l from
    then (pieces, saw_soft)
    else canonical_walk from rest (fragment_runs (line_id l) from (units l) (start_offset l) [] :: pieces)
           (saw_soft || bool_decide (break_after l = SoftWrap))
  end.

Definition join_runs (runs : list Run) (piece : list Run) : list Run :=
  foldl (λ runs run, fst (push_run runs run.1 run.2)) runs piece.

Definition wrap_occupancy_from_canonical (from : HistoryAnchor) (cols : N) h : option N :=
  rev_entries ← reverse_entries h;
  let '(pieces, saw_soft) := canonical_walk from rev_entries [] false in
  if negb saw_soft then Some 0
  else
    let runs := foldl join_runs [] pieces in
    wrap_occupancy_for_runs runs cols (wrap_runs_unit_sum runs).

(** The chain's occupancy spine is filled in on the way, behind a shared reference. *)
Definition wrap_column_before (from : option HistoryAnchor) (cols : N) h : option (N * HistoryStore) :=
  match from with
  | None => Some (0, h)
  | Some from =>
    if cols =? 0 then Some (0, h)
    else
      match wrap_chain_containing from (wrap_chains h) with
      | Some index =>
        chain ← vget (items (wrap_chains h)) index;
        units ← units_before from chain;
        r ← wrap_occupancy_indexed chain cols units;
        Some (r.1, h <| wrap_chains ::= vec_keep (<[N.to_nat index := r.2]>) |>)
      | None => used ← wrap_occupancy_from_canonical from cols h; Some (used, h)
      end
  end.

(** ** The suffix a resize lays out again *)

Definition eager_resize_row_budget (rows : N) : N := N.max (sat_mul usize_max rows 3) 1.

Definition line_cells l : N := N.max (foldr (λ u sum, N.max (u_width u) 1 + sum) 0 (units l)) 1.

(** The chain at the probe has many runs and no pattern. *)
Definition aperiodic_long (collected : list HistoryLine) h : bool :=
  match collected with
  | [] => false
  | l :: _ =>
    match wrap_chain_containing (mkAnchor (line_id l) (start_offset l)) (wrap_chains h) ≫= vget (items (wrap_chains h)) with
    | Some chain => bool_decide (wrap_chain_pattern chain = None) && (APERIODIC_INLINE_RUN_BOUND <? vlen (items (runs chain)))
    | None => false
    end
  end.

(** Extends through older soft-wrapped lines; [true] when joined lines are left out. *)
Fixpoint extend_suffix (extend_budget : N) (cur : HistoryLine) (rest : list HistoryLine) (collected : list HistoryLine)
    (cells : N) : list HistoryLine * bool :=
  let cells' := sat_add usize_max cells (line_cells cur) in
  if (extend_budget <? cells') && negb (bool_decide (collected = [])) then (collected, true)
  else
    match rest with
    | [] => (cur :: collected, false)
    | next :: rest =>
      if bool_decide (break_after next = SoftWrap)
      then extend_suffix extend_budget next rest (cur :: collected) cells'
      else (cur :: collected, false)
    end.

(** Collects lines from the newest; [collected] is in source order. *)
Fixpoint collect_suffix (budget extend_budget : N) h (rev_entries : list HistoryLine) (collected : list HistoryLine)
    (cells : N) : list HistoryLine * bool :=
  match rev_entries with
  | [] => (collected, false)
  | l :: rest =>
    if budget <=? cells then
      if negb (bool_decide (break_after l = SoftWrap)) then (collected, false)
      else if negb (aperiodic_long collected h) then (collected, true)
      else extend_suffix extend_budget l rest collected cells
    else collect_suffix budget extend_budget h rest (l :: collected) (sat_add usize_max cells (line_cells l))
  end.

Definition eager_resize_suffix (cols visual_rows : N) h
    : option (list HistoryLine * option HistoryAnchor * N * HistoryStore) :=
  let budget := sat_mul usize_max (N.max cols 1) (N.max visual_rows 1) in
  rev_entries ← reverse_entries h;
  let '(collected, omitted) :=
    collect_suffix budget (sat_mul usize_max budget APERIODIC_EXTEND_CELL_FACTOR) h rev_entries [] 0 in
  let from := (λ l, mkAnchor (line_id l) (start_offset l)) <$> head collected in
  r ← (if omitted : bool then wrap_column_before from cols h else Some (0, h));
  Some (collected, from, r.1, r.2).
End store.

(** * The store implements the interface of the screen *)

Section total.
Context `{Memory}.
Implicit Types (h : HistoryStore) (l : HistoryLine).

Lemma push_fragment_total t b h : ∃ h', push_fragment_inner t b h = Some h'.
Proof.
  unfold push_fragment_inner. cbv zeta.
  match goal with |- context [extend_wrap_line _ ?cs] => set (cs0 := cs) end.
  assert (∃ cs, (if b then extend_wrap_line (tl_line t) cs0 else Some cs0) = Some cs) as [cs ->].
  { destruct b; [apply extend_wrap_line_total|by eexists]. }
  cbn [mbind option_bind]. match goal with |- context [if ?c then Some _ else Some _] => destruct c end; by eexists.
Qed.

(** The offset of the fragment being built is a unit offset of the line. *)
Lemma fragment_loop_total id brk rest fragment bytes offset h :
  vec_len fragment ≤ offset → vec_len fragment + vlen rest ≤ u32_max → offset ≤ u32_max →
  ∃ h', fragment_loop id brk rest fragment bytes offset h = Some h'.
Proof.
  assert (∀ o n, n ≤ o → n ≤ u32_max → ∃ s, checked_sub o (as_u32 n) = Some s) as Hsub.
  { intros o n Hn Hm. unfold checked_sub, as_u32. rewrite N.mod_small by (unfold u32_max in Hm; lia).
    apply N.leb_le in Hn as ->. by eexists. }
  revert fragment bytes offset h. induction rest as [|u rest IH]; intros fragment bytes offset h H1 H2 H3; cbn [fragment_loop].
  { destruct (bool_decide _); [by eexists|].
    destruct (Hsub offset (vec_len fragment)) as [s ->]; [lia|lia|]. apply push_fragment_total. }
  cbn [length] in H2. destruct (_ && _).
  - destruct (Hsub offset (vec_len fragment)) as [s ->]; [lia|lia|]. cbn [mbind option_bind]. unfold push_fragment.
    destruct (push_fragment_total (fragment_line id (items fragment) (capacity fragment) SoftWrap s) true h) as [h' ->].
    cbn [mbind option_bind]. apply IH; unfold vec_len, sat_add in *; cbn; unfold u32_max in *; lia.
  - apply IH; unfold vec_len, sat_add in *; cbn [vec_push items]; rewrite ?length_app; cbn [length]; lia.
Qed.

Lemma drop_oldest_total h : ∃ h', drop_oldest_segment h = Some h'.
Proof.
  unfold drop_oldest_segment. destruct (items (segments h)) as [|s rest]; [by eexists|].
  unfold record_evicted_segment. match goal with |- context [record_evicted_ids ?a ?b] =>
    destruct (record_evicted_ids_total a b) as [x ->] end. by eexists.
Qed.

Lemma drop_oldest_items h h' :
  drop_oldest_segment h = Some h' →
  items (segments h') = List.tl (items (segments h)) ∧ tail h' = tail h.
Proof.
  unfold drop_oldest_segment. destruct (items (segments h)) as [|s rest] eqn:Hs; [intros [= <-]; by rewrite Hs|].
  unfold record_evicted_segment. destruct (record_evicted_ids _ _); [|done]. cbn [mbind option_bind].
  intros [= <-]. done.
Qed.

Lemma seal_tail_items h : items (tail h) ≠ [] →
  items (tail (seal_tail h)) = [] ∧ ∃ s, items (segments (seal_tail h)) = items (segments h) ++ [s].
Proof.
  intros Hne. unfold seal_tail. destruct (items (tail h)) as [|t ts] eqn:Ht; [done|].
  destruct (foldl seal_line _ _) as [[ls us] payload]. split; [done|]. by eexists.
Qed.

(** The loop needs one iteration for each segment, one for the sealed tail and one to stop. *)
Lemma evict_loop_total fuel b h :
  (length (items (segments h)) + (if items (tail h) is [] then 1 else 2) ≤ fuel)%nat →
  ∃ r, evict_loop fuel b h = Some r.
Proof.
  revert b h. induction fuel as [|fuel IH]; intros b h Hf; [destruct (items (tail h)); lia|]. cbn [evict_loop].
  destruct (_ <? resident_bytes h); [|by eexists].
  assert (∀ h0, (length (items (segments h0)) + (if items (tail h0) is [] then 1 else 2) ≤ S fuel)%nat →
    ∃ r, match items (segments h0) with [] => Some (b, h0) | _ => h ← drop_oldest_segment h0; evict_loop fuel true h end
      = Some r) as Hgo.
  { intros h0 Hf0. destruct (items (segments h0)) as [|s rest] eqn:Hs; [by eexists|].
    destruct (drop_oldest_total h0) as [h' Hd]. rewrite Hd. cbn [mbind option_bind].
    apply drop_oldest_items in Hd as [Hi Ht]. rewrite Hs in Hi. cbn [List.tl] in Hi.
    apply IH. rewrite Hi, Ht. cbn [length] in Hf0. lia. }
  destruct (items (segments h)) as [|s rest] eqn:Hs; [destruct (items (tail h)) as [|t ts] eqn:Ht|];
    apply Hgo; rewrite ?Hs, ?Ht; [done| |done].
  destruct (seal_tail_items h) as [-> [s ->]]; [by rewrite Ht|]. rewrite Hs. cbn [length app] in *. lia.
Qed.

Lemma evict_to_cap_total h : ∃ h', evict_to_cap h = Some h'.
Proof.
  unfold evict_to_cap. destruct (evict_loop_total (length (items (segments (update_resident_bytes h))) + 3) false
    (update_resident_bytes h)) as [[b h'] ->]; [destruct (items (tail _)); lia|].
  cbn [mbind option_bind fst snd]. destruct b; [|by eexists]. unfold trim_before_retained.
  destruct (trim_wrap_before_total (first_anchor h') (wrap_chains h')) as [cs ->]. by eexists.
Qed.

Lemma append_line_total l h :
  vlen (units l) ≤ u32_max → start_offset l ≤ u32_max → ∃ h', append_line_store l h = Some h'.
Proof.
  intros Hu Ho. unfold append_line_store. set (h0 := h <| reflow_cache := None |>).
  assert (∃ h', retain_line l (line_caps (lines_taken h0) l) (h0 <| lines_taken ::= N.add 1 |>) = Some h') as [h' ->].
  { unfold retain_line. destruct (_ <? _); [|apply push_fragment_total].
    apply fragment_loop_total; [apply N.le_0_l| |done].
    unfold vec_len. cbn [vec_new items length]. rewrite length_zip_with_l_eq by (by rewrite line_caps_len). lia. }
  cbn [mbind option_bind]. apply evict_to_cap_total.
Qed.

#[global] Instance history_store_log : HistoryLog HistoryStore := {|
  history_default := store_default; append_line := append_line_store |}.

#[global] Program Instance history_store_laws : HistoryLaws HistoryStore := {| history_wf _ := True |}.
Next Obligation. done. Qed.
Next Obligation. intros l h _ [Hu Ho _]. destruct (append_line_total l h Hu Ho) as [h' ?]. by exists h'. Qed.
End total.
