(* ===== verification/WrapParagraphs.v ===== *)
(** Paragraphs in the wrap index: what the index of [crates/seyal-terminal/src/history/wrap.rs]
    stands for, and that [HistoryStore::wrap_column_before] reads it correctly.

    [WrapIndex] shows what one chain computes.  Here the whole index is followed through
    appended lines, cuts, evictions and questions: a specification keeps, for every chain, the
    lines of the paragraph it covers, and the column the store reports for a source unit is
    the one of the plain layout of that paragraph. *)

From stdpp Require Import sorting.
From S2P Require Import Prelude Types HistoryTypes Memory Wrap WrapIndex Eviction HistoryStore.

Implicit Types (l : HistoryLine) (g ls : list HistoryLine) (from keep : HistoryAnchor).

(** * Lines in source order *)

(** The widths of the units of a paragraph. *)
Definition paragraph (ls : list HistoryLine) : list N := ls ≫= λ l, unit_widths (units l).

(** Lines in source order: later identities, or later units of the same identity. *)
Definition line_precedes (l l' : HistoryLine) : Prop :=
  line_id l < line_id l' ∨ line_id l = line_id l' ∧ start_offset l + vlen (units l) ≤ start_offset l'.

Fixpoint fragments_of (p : N) (ls : list HistoryLine) : list WrapFragment :=
  match ls with
  | [] => []
  | l :: ls => mkFragment (line_id l) (start_offset l) (vlen (units l)) p :: fragments_of (p + vlen (units l)) ls
  end.

Lemma paragraph_app ls ls' : paragraph (ls ++ ls') = paragraph ls ++ paragraph ls'.
Proof. apply bind_app. Qed.

Lemma length_paragraph_cons l ls :
  length (paragraph (l :: ls)) = (length (units l) + length (paragraph ls))%nat.
Proof. unfold paragraph. cbn [mbind list_bind]. rewrite length_app. unfold unit_widths. rewrite length_fmap. lia. Qed.

Lemma fragments_of_app p ls ls' :
  fragments_of p (ls ++ ls') = fragments_of p ls ++ fragments_of (p + vlen (paragraph ls)) ls'.
Proof.
  revert p. induction ls as [|l ls IH]; intros p; cbn [app fragments_of].
  - f_equal. cbn. lia.
  - rewrite IH, length_paragraph_cons. do 3 f_equal. lia.
Qed.

Lemma length_fragments_of p ls : length (fragments_of p ls) = length ls.
Proof. revert p. induction ls as [|l ls IH]; intros p; cbn; [done|]. by rewrite IH. Qed.

Lemma fragments_units ls :
  vlen (paragraph ls) ≤ u32_max →
  match last (fragments_of 0 ls) with Some f => fragment_units f | None => 0 end = vlen (paragraph ls).
Proof.
  intros Hlen. destruct (decide (ls = [])) as [->|Hne]; [done|].
  destruct (exists_last Hne) as (ls' & l & ->). rewrite paragraph_app, length_app in *.
  rewrite fragments_of_app. cbn [fragments_of]. rewrite last_snoc. unfold fragment_units, sat_add. cbn [prefix_units unit_count].
  assert (vlen (paragraph [l]) = vlen (units l)) as Hl by (rewrite length_paragraph_cons; cbn; lia).
  rewrite N.min_l by lia. lia.
Qed.

Lemma partition_point_app {A} (pred : A → bool) xs ys :
  Forall (λ x, pred x = true) xs → partition_point pred (xs ++ ys) = vlen xs + partition_point pred ys.
Proof.
  induction 1 as [|x xs Hx _ IH]; [done|]. cbn [app partition_point length]. rewrite Hx, IH. lia.
Qed.

(** ** The units before an anchor *)

Definition starts_before from l : bool :=
  (line_id l <? a_line_id from) || (line_id l =? a_line_id from) && (start_offset l <? unit_offset from).

(** How many units of a line have an address before the anchor, at most. *)
Definition units_kept from l : nat :=
  if line_id l <? a_line_id from then length (units l)
  else if line_id l =? a_line_id from then N.to_nat (unit_offset from - start_offset l) else O.

Definition before_cut from l : HistoryLine := l <| units ::= take (units_kept from l) |>.

(** The lines of a paragraph up to an anchor. *)
Definition cut_lines from g : list HistoryLine := filter (λ l, units l ≠ []) (before_cut from <$> g).

Definition full (g : list HistoryLine) : Prop := Forall (λ l, units l ≠ []) g.

Lemma starts_before_iff from l :
  starts_before from l = true ↔
  line_id l < a_line_id from ∨ line_id l = a_line_id from ∧ start_offset l < unit_offset from.
Proof. unfold starts_before. by rewrite orb_true_iff, andb_true_iff, !N.ltb_lt, N.eqb_eq. Qed.

Lemma precedes_starts l l' from : line_precedes l l' → starts_before from l' = true → starts_before from l = true.
Proof. rewrite !starts_before_iff. unfold line_precedes. lia. Qed.

Lemma before_cut_whole from l : (length (units l) ≤ units_kept from l)%nat → before_cut from l = l.
Proof.
  intros Hle. unfold before_cut. revert Hle. generalize (units_kept from l). destruct l as [id us brk st]. cbn [units]. intros n Hle.
  change (mkLine id (take n us) brk st = mkLine id us brk st). by rewrite take_ge.
Qed.

(** A line before one that starts before the anchor is kept whole. *)
Lemma precedes_whole l l' from : line_precedes l l' → starts_before from l' = true → before_cut from l = l.
Proof.
  intros Hp Hs%starts_before_iff. apply before_cut_whole. unfold units_kept. unfold line_precedes in Hp.
  destruct (N.ltb_spec (line_id l) (a_line_id from)); [done|]. destruct (N.eqb_spec (line_id l) (a_line_id from)); lia.
Qed.

Lemma before_cut_units from l :
  starts_before from l = true → units l ≠ [] →
  units (before_cut from l) ≠ [] ∧
  vlen (units (before_cut from l)) =
    if line_id l <? a_line_id from then vlen (units l) else N.min (unit_offset from - start_offset l) (vlen (units l)).
Proof.
  intros Hs%starts_before_iff Hne. unfold before_cut, units_kept. cbn. rewrite <-length_zero_iff_nil in Hne |- *.
  destruct (N.ltb_spec (line_id l) (a_line_id from)); [rewrite take_ge by lia; lia|].
  destruct (N.eqb_spec (line_id l) (a_line_id from)); [|lia]. rewrite length_take. lia.
Qed.

Lemma before_cut_none from l : starts_before from l = false → units (before_cut from l) = [].
Proof.
  intros Hs. unfold before_cut, units_kept, starts_before in *. cbn. apply orb_false_iff in Hs as [-> Hs].
  destruct (line_id l =? a_line_id from); [|done]. cbn in Hs. apply N.ltb_ge in Hs. by replace (unit_offset from - start_offset l) with 0 by lia.
Qed.

(** Where an anchor falls in lines in source order. *)
Lemma cut_cases from g :
  StronglySorted line_precedes g → full g →
  (Forall (λ l, starts_before from l = false) g ∧ cut_lines from g = []) ∨
  ∃ pre l post, g = pre ++ l :: post ∧ Forall (λ l, starts_before from l = true) (pre ++ [l]) ∧
    Forall (λ l, starts_before from l = false) post ∧ cut_lines from g = pre ++ [before_cut from l].
Proof.
  intros Hs Hf. assert (∃ pre post, g = pre ++ post ∧ Forall (λ l, starts_before from l = true) pre ∧
    Forall (λ l, starts_before from l = false) post) as (pre & post & -> & Hpre & Hpost).
  { clear Hf. induction Hs as [|l g Hs IH Hl]; [by exists [], []|]. destruct (starts_before from l) eqn:Hb.
    - destruct IH as (pre & post & -> & H1 & H2). exists (l :: pre), post. split_and!; [done|by constructor|done].
    - exists [], (l :: g). split_and!; [done|constructor|]. constructor; [done|]. eapply Forall_impl; [exact Hl|].
      intros l' Hp. apply not_true_iff_false. intros Hb'. by rewrite (precedes_starts l l' from) in Hb. }
  assert (cut_lines from post = []) as Hcp.
  { unfold cut_lines. clear -Hpost. induction Hpost as [|l post Hl _ IH]; [done|]. cbn [fmap list_fmap]. rewrite filter_cons, decide_False; [done|].
    intros Hne. by apply Hne, before_cut_none. }
  assert (cut_lines from (pre ++ post) = cut_lines from pre) as Hcut.
  { unfold cut_lines in *. by rewrite fmap_app, filter_app, Hcp, app_nil_r. }
  destruct pre as [|l pre _] using rev_ind; [left; split; [done|by rewrite Hcut]|]. right.
  exists pre, l, post. split_and!; [by rewrite <-app_assoc|done|done|]. rewrite Hcut. unfold cut_lines.
  apply StronglySorted_app in Hs as (_ & Hs & _). apply StronglySorted_app in Hs as (Hord & _ & _).
  apply Forall_app in Hf as [Hf _]. apply Forall_app in Hf as [Hf Hl]. apply Forall_cons in Hl as [Hl _].
  apply Forall_app in Hpre as [_ Hb]. apply Forall_cons in Hb as [Hb _]. rewrite fmap_app, filter_app. f_equal.
  - assert (before_cut from <$> pre = pre) as ->.
    { clear -Hord Hb. induction pre as [|x pre IH]; [done|]. cbn [fmap list_fmap]. f_equal.
      - apply (precedes_whole x l from); [|exact Hb]. apply Hord; [left|by apply list_elem_of_singleton].
      - apply IH. intros y z Hy. apply Hord. by right. }
    clear -Hf. induction Hf as [|x pre Hx _ IH]; [done|]. rewrite filter_cons, decide_True by done. by f_equal.
  - cbn [fmap list_fmap]. rewrite filter_cons, decide_True; [done|]. by apply before_cut_units.
Qed.

Lemma paragraph_cut from g : paragraph (cut_lines from g) = paragraph (before_cut from <$> g).
Proof.
  unfold cut_lines, paragraph. induction (before_cut from <$> g) as [|l ls IH]; [done|]. rewrite filter_cons. cbn [mbind list_bind].
  destruct (decide (units l ≠ [])) as [Hne|He]; [cbn [mbind list_bind]; by f_equal|].
  destruct (decide (units l = [])) as [->|]; [exact IH|done].
Qed.

Lemma fragment_before_of from l count prefix :
  fragment_before from (mkFragment (line_id l) (start_offset l) count prefix) = starts_before from l.
Proof. done. Qed.

Lemma partition_fragments from pre post p :
  Forall (λ l, starts_before from l = true) pre → Forall (λ l, starts_before from l = false) post →
  partition_point (fragment_before from) (fragments_of p (pre ++ post)) = vlen pre.
Proof.
  intros Hpre Hpost. revert p. induction Hpre as [|l pre Hl _ IH]; intros p; cbn [app fragments_of partition_point length].
  - destruct Hpost as [|l post Hl _]; [done|]. cbn [fragments_of partition_point]. by rewrite fragment_before_of, Hl.
  - rewrite fragment_before_of, Hl, IH. lia.
Qed.

Lemma fragments_lookup p pre l post :
  vget (fragments_of p (pre ++ l :: post)) (vlen pre) =
  Some (mkFragment (line_id l) (start_offset l) (vlen (units l)) (p + vlen (paragraph pre))).
Proof.
  unfold vget. rewrite Nat2N.id, fragments_of_app. cbn [fragments_of].
  apply list_lookup_middle. by rewrite length_fragments_of.
Qed.

(** The units of a chain before an anchor are the units of its lines before it. *)
Lemma units_before_ok from c g :
  items (fragments c) = fragments_of 0 g → StronglySorted line_precedes g → full g → vlen (paragraph g) ≤ u32_max →
  units_before from c = Some (vlen (paragraph (cut_lines from g))).
Proof.
  intros Hfs Hs Hf Hlen. unfold units_before. rewrite Hfs.
  destruct (cut_cases from g Hs Hf) as [[Hall ->]|(pre & l & post & -> & Hpre & Hpost & ->)].
  { pose proof (partition_fragments from [] g 0 ltac:(constructor) Hall) as Hp. cbn [app length] in Hp. rewrite Hp.
    change (N.of_nat 0) with 0. destruct g as [|l g]; [done|].
    change (vget (fragments_of 0 (l :: g)) 0) with (Some (mkFragment (line_id l) (start_offset l) (vlen (units l)) 0)).
    cbv beta iota. by destruct (_ && _). }
  pose proof (partition_fragments from (pre ++ [l]) post 0 Hpre Hpost) as Hp. rewrite <-app_assoc in Hp. cbn [app] in Hp. rewrite Hp.
  rewrite length_app. cbn [length]. replace (N.of_nat (length pre + 1) =? 0) with false by lia.
  replace (N.of_nat (length pre + 1) - 1) with (vlen pre) by lia. rewrite fragments_lookup. cbn [mbind option_bind].
  apply Forall_app in Hf as [_ Hf]. apply Forall_cons in Hf as [Hfl _].
  apply Forall_app in Hpre as [_ Hb]. apply Forall_cons in Hb as [Hb _].
  destruct (before_cut_units from l Hb Hfl) as [_ Hcount]. apply starts_before_iff in Hb.
  rewrite paragraph_app, length_app, length_paragraph_cons in Hlen |- *. cbn [length paragraph mbind list_bind].
  assert (∀ f, vget (fragments_of 0 (pre ++ l :: post)) (N.of_nat (length pre + 1)) = Some f →
    (wf_line_id f =? a_line_id from) && (wf_start_offset f =? unit_offset from) = true →
    prefix_units f = vlen (paragraph pre) + vlen (units l) ∧
    (a_line_id from = line_id l → vlen (units l) ≤ unit_offset from - start_offset l)) as Hhit.
  { intros f. destruct post as [|l' post].
    { unfold vget. rewrite lookup_ge_None_2; [done|]. rewrite length_fragments_of, length_app. cbn. lia. }
    pose proof (fragments_lookup 0 (pre ++ [l]) l' post) as Hl'. rewrite <-app_assoc, length_app in Hl'. cbn [app length] in Hl'.
    rewrite Hl'. intros [= <-]. cbn [wf_line_id wf_start_offset prefix_units]. intros [H1%N.eqb_eq H2%N.eqb_eq]%andb_true_iff.
    rewrite paragraph_app, length_app, length_paragraph_cons. cbn [length paragraph mbind list_bind]. split; [lia|]. intros Hid.
    apply StronglySorted_app in Hs as (_ & _ & Hs). apply StronglySorted_cons in Hs as [Hl _]. apply Forall_cons in Hl as [Hl _].
    unfold line_precedes in Hl. lia. }
  assert (∃ m, vlen (units (before_cut from l)) = m ∧
    (line_id l < a_line_id from ∧ m = vlen (units l) ∨
     line_id l = a_line_id from ∧ start_offset l < unit_offset from ∧ m = N.min (unit_offset from - start_offset l) (vlen (units l))))
    as (m & Hm & Hcase).
  { exists (vlen (units (before_cut from l))). split; [done|]. rewrite Hcount. destruct (N.ltb_spec (line_id l) (a_line_id from)); [by left|right]. lia. }
  assert (Some (vlen (paragraph pre) + m) = Some (N.of_nat (length (paragraph pre) + (length (units (before_cut from l)) + 0)))) as <-
    by (f_equal; lia).
  assert ((if (line_id l =? a_line_id from) && (start_offset l <? unit_offset from)
     then Some (sat_add u32_max (0 + vlen (paragraph pre)) (N.min (unit_offset from - start_offset l) (vlen (units l))))
     else if line_id l <? a_line_id from then Some (sat_add u32_max (0 + vlen (paragraph pre)) (vlen (units l))) else Some 0)
     = Some (vlen (paragraph pre) + m)) as Hmiss.
  { unfold sat_add. destruct Hcase as [[Hid ->]|(Hid & Ho & ->)].
    - apply N.ltb_lt in Hid as Hlt. rewrite Hlt. replace (line_id l =? a_line_id from) with false by lia. cbn. f_equal. lia.
    - rewrite Hid, N.eqb_refl. apply N.ltb_lt in Ho as ->. cbn. f_equal. lia. }
  destruct (vget _ _) as [f|]; [|exact Hmiss]. specialize (Hhit f eq_refl).
  destruct (_ && _); [|exact Hmiss]. destruct (Hhit eq_refl) as [-> Hfull]. f_equal. lia.
Qed.

(** * What a chain covers *)

(** The runs are the widths, and a template, if any, is not longer than them. *)
Definition plain (ws : list N) (c : WrapChain) : Prop :=
  chain_exact ws c ∧ (pattern_len c < 2 ∨ vec_len (runs c) ≤ pattern_len c).

(** The chain [c] is the one of the lines [g]; at most [n] units were ever added to it. *)
Record covers (n : N) (c : WrapChain) (g : list HistoryLine) : Prop := {
  cv_runs : chain_ok (paragraph g) c;
  cv_spine : spine_ok c;
  cv_fragments : items (fragments c) = fragments_of 0 g;
  cv_full : full g;
  cv_sorted : StronglySorted line_precedes g;
  cv_units : pattern_phase c + vlen (paragraph g) ≤ n }.

Lemma covers_units n c g : covers n c g → n ≤ u32_max → chain_units c = vlen (paragraph g).
Proof.
  intros Hc Hn. unfold chain_units. rewrite (cv_fragments _ _ _ Hc). apply fragments_units. pose proof (cv_units _ _ _ Hc). lia.
Qed.

Lemma covers_settled n c g :
  covers n c g → n ≤ u32_max → settled c →
  plain (paragraph g) c ∨ chain_compacted (paragraph g) c ∧ units_of (items (runs c)) < vlen (paragraph g).
Proof.
  intros Hc Hn Hset. unfold settled, settled_at in Hset. rewrite (covers_units n c g Hc Hn) in Hset.
  destruct (cv_runs _ _ _ Hc) as [|Ht]; [by left|]. destruct Hset as [|[Hp Hl]]; [by right|].
  left. split; [by apply compacted_exact|]. right. destruct Ht as (_ & -> & _). lia.
Qed.

Lemma is_compacted_iff n c c0 g :
  covers n c g → n ≤ u32_max → settled c → runs c0 = runs c → pattern_len c0 = pattern_len c →
  wrap_chain_is_compacted c0 (wrap_runs_unit_sum (items (runs c0))) (vlen (paragraph g)) = false ∧ plain (paragraph g) c ∨
  wrap_chain_is_compacted c0 (wrap_runs_unit_sum (items (runs c0))) (vlen (paragraph g)) = true ∧ chain_compacted (paragraph g) c.
Proof.
  intros Hc Hn Hset Hr Hk. pose proof (cv_units _ _ _ Hc) as Hu. unfold wrap_chain_is_compacted. rewrite Hr, Hk.
  destruct (covers_settled n c g Hc Hn Hset) as [Hp|[Ht Hlt]].
  - left. split; [|done]. destruct Hp as [(_ & Hex & _) _]. rewrite unit_sum_exact; rewrite <-length_expand, Hex; [|lia].
    by rewrite N.ltb_irrefl, andb_false_r.
  - right. split; [|done]. destruct Ht as (Hk2 & Hl & HP & HPm & _). rewrite unit_sum_exact by done. rewrite Hl.
    apply N.ltb_lt in Hlt as ->. rewrite N.leb_refl, !andb_true_r. apply andb_true_iff. split; [by apply N.leb_le|apply N.ltb_lt; lia].
Qed.

(** ** Cutting the runs *)

Lemma drop_runs_props rs n :
  positive rs → positive (drop_rev_runs rs n) ∧ (length (drop_rev_runs rs n) ≤ length rs)%nat.
Proof.
  intros Hp. revert n. induction Hp as [|[w c] rs Hc Hp IH]; intros n; cbn [drop_rev_runs]; [by split; [constructor|]|].
  destruct (N.eqb_spec n 0); [split; [by constructor|done]|]. destruct (N.leb_spec c n).
  - destruct (IH (n - c)) as [H1 H2]. split; [done|]. cbn. lia.
  - split; [constructor; [cbn; lia|done]|done].
Qed.

Lemma suffix_runs_ok c ws k :
  plain ws c → k ≤ vlen ws →
  ∃ c', note_pattern_after_suffix_trim (c <| runs ::= vec_keep (λ rs, drop_suffix_wrap_runs rs (vlen ws - k)) |>) = Some c' ∧
    plain (take (N.to_nat k) ws) c' ∧ fragments c' = fragments c ∧ open c' = open c.
Proof.
  intros [(Hph & Hex & Hpos & _) Hpat] Hk. set (c1 := c <| runs ::= _ |>).
  assert (expand (items (runs c1)) = take (N.to_nat k) ws) as Hex1.
  { unfold c1. cbn. rewrite drop_suffix_expand, Hex. f_equal. lia. }
  assert (positive (items (runs c1)) ∧ vec_len (runs c1) ≤ vec_len (runs c)) as [Hpos1 Hlen1].
  { unfold c1, vec_len. cbn. unfold drop_suffix_wrap_runs.
    destruct (drop_runs_props (reverse (items (runs c))) (vlen ws - k)) as [H1 H2]; [by apply Forall_reverse|].
    rewrite length_reverse in H2. split; [by apply Forall_reverse|]. rewrite length_reverse. lia. }
  assert (pattern_len c1 = pattern_len c ∧ pattern_phase c1 = 0 ∧ fragments c1 = fragments c ∧ open c1 = open c)
    as (Hk1 & Hph1 & Hf1 & Ho1) by done. clearbody c1.
  assert (∀ m, (m < 2 ∨ vec_len (runs c1) ≤ m) → plain (take (N.to_nat k) ws) (c1 <| pattern_len := m |>)) as Hplain.
  { intros m Hm. split; [|exact Hm]. split_and!; [done|done|done|]. destruct Hm; [by left|by right; left]. }
  assert (∀ m, (m < 2 ∨ vec_len (runs c1) ≤ m) → ∃ c', Some (c1 <| pattern_len := m |>) = Some c' ∧
    plain (take (N.to_nat k) ws) c' ∧ fragments c' = fragments c ∧ open c' = open c) as Hret.
  { intros m Hm. eexists. split; [done|]. split; [by apply Hplain|]. by rewrite <-Hf1, <-Ho1. }
  assert (Some c1 = Some (c1 <| pattern_len := pattern_len c1 |>)) as Hself by by destruct c1.
  unfold note_pattern_after_suffix_trim. change (vlen (items (runs c1))) with (vec_len (runs c1)).
  destruct (N.leb_spec (vec_len (runs c1)) 1); [apply Hret; lia|].
  destruct (N.leb_spec 2 (pattern_len c1)).
  - destruct (N.leb_spec (vec_len (runs c1)) (pattern_len c1)); [apply Hret; lia|lia].
  - destruct (N.leb_spec (vec_len (runs c1)) WRAP_PATTERN_MAX); [apply Hret; lia|]. rewrite Hself. apply Hret. lia.
Qed.

Lemma prefix_runs_ok c ws d period :
  plain ws c → d ≤ vlen ws →
  let c' := note_pattern_after_prefix_trim (c <| runs ::= vec_keep (λ rs, drop_prefix_wrap_runs rs d) |>) d period in
  plain (drop (N.to_nat d) ws) c' ∧ fragments c' = fragments c ∧ open c' = open c.
Proof.
  intros [(Hph & Hex & Hpos & _) Hpat] Hd. cbv zeta. set (c1 := c <| runs ::= _ |>).
  assert (expand (items (runs c1)) = drop (N.to_nat d) ws) as Hex1.
  { unfold c1. cbn. unfold drop_prefix_wrap_runs. by rewrite drop_rev_runs_expand, Hex. }
  destruct (drop_runs_props (items (runs c)) d Hpos) as [Hpos1 Hlen1].
  assert (positive (items (runs c1)) ∧ vec_len (runs c1) ≤ vec_len (runs c)) as [Hpos2 Hlen2].
  { unfold c1, vec_len. cbn. unfold drop_prefix_wrap_runs. split; [done|lia]. }
  assert (pattern_len c1 = pattern_len c ∧ pattern_phase c1 = 0 ∧ fragments c1 = fragments c ∧ open c1 = open c)
    as (Hk1 & Hph1 & Hf1 & Ho1) by done. clearbody c1.
  assert (∀ m, (m < 2 ∨ vec_len (runs c1) ≤ m) → plain (drop (N.to_nat d) ws) (c1 <| pattern_len := m |>) ∧
    fragments (c1 <| pattern_len := m |>) = fragments c ∧ open (c1 <| pattern_len := m |>) = open c) as Hret.
  { intros m Hm. rewrite <-Hf1, <-Ho1. split; [|done]. split; [|exact Hm]. split_and!; [done|done|done|].
    destruct Hm; [by left|by right; left]. }
  assert (c1 = c1 <| pattern_len := pattern_len c1 |>) as Hself by by destruct c1.
  unfold note_pattern_after_prefix_trim. destruct (N.leb_spec (vec_len (runs c1)) 1); [apply Hret; lia|].
  destruct (N.leb_spec (vec_len (runs c1)) WRAP_PATTERN_MAX), (N.leb_spec (vec_len (runs c1)) (pattern_len c1)); cbn [andb];
    try (apply Hret; lia).
  all: destruct (N.leb_spec 2 (pattern_len c1)); cbn [andb]; try lia; try (apply Hret; lia).
  all: destruct (_ && _); [|apply Hret; lia]; rewrite Hself at 1 2 3; apply Hret; lia.
Qed.

(** ** Cutting a chain at its end *)

Lemma paragraph_nil_inv g : full g → paragraph g = [] → g = [].
Proof. intros Hf Hp. destruct Hf as [|l g Hl _]; [done|]. pose proof (length_paragraph_cons l g) as Hn. rewrite Hp in Hn.
  rewrite <-length_zero_iff_nil in Hl. cbn in Hn. lia. Qed.

Lemma before_cut_eq from l : length (units (before_cut from l)) = length (units l) → before_cut from l = l.
Proof. intros Hl. apply before_cut_whole. unfold before_cut in Hl. cbn in Hl. rewrite length_take in Hl. lia. Qed.

Lemma paragraph_cut_take from g :
  StronglySorted line_precedes g → full g →
  paragraph (cut_lines from g) = take (length (paragraph (cut_lines from g))) (paragraph g).
Proof.
  intros Hs Hf. destruct (cut_cases from g Hs Hf) as [[_ ->]|(pre & l & post & -> & _ & _ & ->)]; [by rewrite take_0|].
  rewrite !paragraph_app, length_app. rewrite take_app_add. f_equal. unfold paragraph. cbn [mbind list_bind]. rewrite app_nil_r.
  unfold before_cut, unit_widths. cbn. rewrite fmap_take. generalize (units_kept from l). generalize ((λ u, N.max (u_width u) 1) <$> units l).
  intros W k. rewrite length_take, take_app_le by lia. destruct (Nat.min_spec k (length W)) as [[_ ->]|[? ->]]; [done|].
  by rewrite !take_ge by lia.
Qed.

Lemma cut_lines_all from g :
  StronglySorted line_precedes g → full g → vlen (paragraph g) ≤ vlen (paragraph (cut_lines from g)) → cut_lines from g = g.
Proof.
  intros Hs Hf. destruct (cut_cases from g Hs Hf) as [[_ ->]|(pre & l & post & -> & _ & _ & ->)].
  { cbn. intros Hl. symmetry. apply paragraph_nil_inv; [done|]. apply length_zero_iff_nil. lia. }
  rewrite !paragraph_app, !length_app, !length_paragraph_cons. cbn [paragraph mbind list_bind length]. intros Hl.
  assert (length (units (before_cut from l)) ≤ length (units l))%nat.
  { unfold before_cut. cbn. rewrite length_take. lia. }
  f_equal. apply Forall_app in Hf as [_ Hf]. apply Forall_cons in Hf as [_ Hf].
  rewrite (paragraph_nil_inv post Hf) by (apply length_zero_iff_nil; lia). f_equal. apply before_cut_eq. lia.
Qed.

Lemma cut_lines_good from g :
  StronglySorted line_precedes g → full g → full (cut_lines from g) ∧ StronglySorted line_precedes (cut_lines from g).
Proof.
  intros Hs Hf. split.
  { apply Forall_forall. intros l Hl. unfold cut_lines in Hl. by apply list_elem_of_filter in Hl as [? _]. }
  destruct (cut_cases from g Hs Hf) as [[_ ->]|(pre & l & post & -> & _ & _ & ->)]; [constructor|].
  apply StronglySorted_app in Hs as (Hc & Hs & _). apply StronglySorted_app. split_and!; [|done|by repeat constructor].
  intros x y Hx ->%list_elem_of_singleton. exact (Hc x l Hx ltac:(left)).
Qed.

Lemma cut_fragments from g :
  StronglySorted line_precedes g → full g →
  let split := N.to_nat (partition_point (fragment_before from) (fragments_of 0 g)) in
  alter (cut_fragment from) (split - 1)%nat (take split (fragments_of 0 g)) = fragments_of 0 (cut_lines from g).
Proof.
  intros Hs Hf. cbv zeta. destruct (cut_cases from g Hs Hf) as [[Hall ->]|(pre & l & post & -> & Hpre & Hpost & ->)].
  { pose proof (partition_fragments from [] g 0 ltac:(constructor) Hall) as Hp. cbn [app length] in Hp. by rewrite Hp. }
  pose proof (partition_fragments from (pre ++ [l]) post 0 Hpre Hpost) as Hp. rewrite <-app_assoc in Hp. cbn [app] in Hp.
  rewrite Hp, length_app, Nat2N.id. cbn [length]. rewrite !fragments_of_app. cbn [fragments_of].
  rewrite cons_middle, app_assoc, take_app_length' by (rewrite length_app, length_fragments_of; done).
  replace (length pre + 1 - 1)%nat with (length (fragments_of 0 pre)) by (rewrite length_fragments_of; lia).
  rewrite alter_app_r_alt, Nat.sub_diag by done. cbn [alter list_alter]. do 2 f_equal.
  apply Forall_app in Hf as [_ Hf]. apply Forall_cons in Hf as [Hfl _].
  apply Forall_app in Hpre as [_ Hb]. apply Forall_cons in Hb as [Hb _].
  destruct (before_cut_units from l Hb Hfl) as [_ ->]. apply starts_before_iff in Hb. unfold cut_fragment. cbn [wf_line_id wf_start_offset].
  destruct (N.ltb_spec (line_id l) (a_line_id from)).
  - by replace (line_id l =? a_line_id from) with false by lia.
  - replace (line_id l =? a_line_id from) with true by lia. by replace (start_offset l <? unit_offset from) with true by lia.
Qed.

Lemma compacted_take ws c k :
  chain_compacted ws c → (k ≤ length ws)%nat → chain_compacted (take k ws) c.
Proof.
  intros (H1 & H2 & H3 & H4 & H5 & H6 & Hcyc) Hk. split_and!; [done..| |].
  - rewrite length_take. lia.
  - rewrite length_take, Nat.min_l by done. rewrite Hcyc at 1.
    replace (length ws) with (k + (length ws - k))%nat by lia. rewrite cyclic_add. apply take_app_length'. by rewrite length_cyclic.
Qed.

Lemma chain_ok_nil c : pattern_phase c = 0 → items (runs c) = [] → pattern_len c = 0 → chain_ok [] c.
Proof. intros Hph Hr Hk. left. split; [|left; lia]. unfold chain_exact. rewrite Hr. split_and!; [done|done|constructor|left; lia]. Qed.

Lemma trim_chain_suffix_ok n c g from :
  covers n c g → n ≤ u32_max → settled c →
  ∃ c', trim_chain_suffix from c = Some c' ∧ covers n c' (cut_lines from g) ∧
    open c' = if vlen (paragraph g) <=? vlen (paragraph (cut_lines from g)) then open c else true.
Proof.
  intros Hc Hn Hset. pose proof (cv_units _ _ _ Hc) as Hu. pose proof (cv_sorted _ _ _ Hc) as Hs. pose proof (cv_full _ _ _ Hc) as Hf.
  pose proof (cv_fragments _ _ _ Hc) as Hfs. unfold trim_chain_suffix.
  rewrite (units_before_ok from c g Hfs Hs Hf), (covers_units n c g Hc Hn) by lia. cbn [mbind option_bind].
  destruct (N.leb_spec (vlen (paragraph g)) (vlen (paragraph (cut_lines from g)))) as [Hle|Hlt].
  { exists c. by rewrite (cut_lines_all from g Hs Hf Hle). }
  pose proof (paragraph_cut_take from g Hs Hf) as Htake. pose proof (cut_fragments from g Hs Hf) as Hcf.
  destruct (cut_lines_good from g Hs Hf) as [Hf' Hs']. rewrite Hfs.
  set (c0 := c <| fragments ::= _ |>).
  assert (items (fragments c0) = fragments_of 0 (cut_lines from g)) as Hfs' by (unfold c0; cbn; by rewrite Hfs).
  assert (runs c0 = runs c ∧ pattern_len c0 = pattern_len c ∧ pattern_phase c0 = pattern_phase c ∧ spine c0 = spine c)
    as (Hr & Hk & Hph & Hsp) by done. clearbody c0.
  assert (spine_ok c0) as Hspine by (unfold spine_ok; rewrite Hsp, Hr; apply (cv_spine _ _ _ Hc)).
  assert (∀ c', chain_ok (paragraph (cut_lines from g)) c' → spine_ok c' → items (fragments c') = items (fragments c0) →
    pattern_phase c' ≤ pattern_phase c → covers n (c' <| open := true |>) (cut_lines from g)) as Hret.
  { intros c' H1 H2 H3 H4. split; [exact H1|exact H2|by rewrite <-Hfs', <-H3|done|done|]. cbn. lia. }
  destruct (is_compacted_iff n c c0 g Hc Hn Hset Hr Hk) as [[-> Hp]|[-> Ht]].
  - assert (plain (paragraph g) c0) as Hp0 by (unfold plain, chain_exact in *; by rewrite Hr, Hk, Hph).
    destruct (suffix_runs_ok c0 (paragraph g) (vlen (paragraph (cut_lines from g))) Hp0 ltac:(lia)) as (c1 & -> & Hp1 & Hf1 & _).
    rewrite Nat2N.id, <-Htake in Hp1. cbn [mbind option_bind]. eexists. split; [done|]. split; [|done].
    apply Hret; [by left|done|by rewrite <-Hf1|]. destruct Hp1 as [(Hz & _) _]. cbn. lia.
  - cbn [mbind option_bind]. eexists. split; [done|]. split; [|done].
    destruct (N.eqb_spec (vlen (paragraph (cut_lines from g))) 0) as [Hz|Hz].
    + assert (paragraph (cut_lines from g) = []) as Hnil by (apply length_zero_iff_nil; lia).
      apply Hret; [rewrite Hnil; by apply chain_ok_nil|done|done|cbn; lia].
    + apply Hret; [right; rewrite Htake|done|done|lia].
      unfold chain_compacted. rewrite Hr, Hk, Hph. apply compacted_take; [exact Ht|lia].
Qed.

(** ** Cutting a chain at its start *)

(** The lines of a paragraph from an anchor on, when no line crosses it. *)
Definition later_lines keep g : list HistoryLine := filter (λ l, starts_before keep l = false) g.

(** Every line that starts before the anchor ends before it. *)
Definition aligned keep g : Prop := Forall (λ l, starts_before keep l = true → before_cut keep l = l) g.

Lemma later_lines_all keep g : Forall (λ l, starts_before keep l = false) g → later_lines keep g = g.
Proof. unfold later_lines. induction 1 as [|x g Hx _ IH]; [done|]. rewrite filter_cons, decide_True by done. by rewrite IH. Qed.

Lemma later_lines_none keep g : Forall (λ l, starts_before keep l = true) g → later_lines keep g = [].
Proof. unfold later_lines. induction 1 as [|x g Hx _ IH]; [done|]. rewrite filter_cons, decide_False by congruence. done. Qed.

Lemma later_cases keep g :
  StronglySorted line_precedes g → full g → aligned keep g →
  ∃ pre, g = pre ++ later_lines keep g ∧ cut_lines keep g = pre ∧
    Forall (λ l, starts_before keep l = true) pre ∧ Forall (λ l, starts_before keep l = false) (later_lines keep g).
Proof.
  intros Hs Hf Ha.
  assert (Forall (λ l, starts_before keep l = false) (later_lines keep g)) as Hlater.
  { apply Forall_forall. intros l Hl. unfold later_lines in Hl. by apply list_elem_of_filter in Hl as [? _]. }
  destruct (cut_cases keep g Hs Hf) as [[Hall Hcut]|(pre & l & post & -> & Hpre & Hpo & Hcut)].
  - exists []. rewrite later_lines_all by done. by split_and!.
  - exists (pre ++ [l]). assert (later_lines keep (pre ++ l :: post) = post) as Heq.
    { rewrite cons_middle, app_assoc. unfold later_lines. rewrite filter_app. fold (later_lines keep post) (later_lines keep (pre ++ [l])).
      by rewrite (later_lines_all _ _ Hpo), (later_lines_none _ _ Hpre). }
    rewrite Heq in *. split_and!; [by rewrite <-app_assoc| |done|done]. rewrite Hcut. do 2 f_equal.
    unfold aligned in Ha. rewrite Forall_forall in Ha. apply Ha; [by rewrite elem_of_app, elem_of_cons; right; left|].
    apply Forall_app in Hpre as [_ Hl]. by apply Forall_cons in Hl as [Hl _].
Qed.

Lemma renumber_fragments p q ls :
  p + vlen (paragraph ls) ≤ u32_max → renumber p (fragments_of q ls) = (fragments_of p ls, p + vlen (paragraph ls)).
Proof.
  revert p q. induction ls as [|l ls IH]; intros p q Hle; cbn [fragments_of renumber]; [f_equal; cbn; lia|].
  rewrite length_paragraph_cons in Hle |- *. unfold sat_add. cbn [unit_count]. rewrite N.min_l by lia. rewrite IH by lia.
  f_equal. lia.
Qed.

Lemma compacted_drop ws c c' d :
  chain_compacted ws c → (d ≤ length ws)%nat → runs c' = runs c → pattern_len c' = pattern_len c →
  pattern_phase c' = pattern_phase c + N.of_nat d → chain_compacted (drop d ws) c'.
Proof.
  intros (H1 & H2 & H3 & H4 & H5 & H6 & Hcyc) Hd Hr Hk Hph. unfold chain_compacted. rewrite Hr, Hk, Hph, length_drop. split_and!; [done..|lia|].
  rewrite Hcyc at 1. replace (length ws) with (d + (length ws - d))%nat at 1 by lia. rewrite cyclic_add.
  rewrite drop_app_length' by (by rewrite length_cyclic). f_equal. lia.
Qed.

Lemma later_good keep g :
  StronglySorted line_precedes g → full g → full (later_lines keep g) ∧ StronglySorted line_precedes (later_lines keep g).
Proof.
  intros Hs Hf. assert (∀ (P : HistoryLine → Prop) g, Forall P g → Forall P (later_lines keep g)) as Hsub.
  { intros P g' Hg'. rewrite Forall_forall in Hg' |- *. intros l [_ Hl]%list_elem_of_filter. by apply Hg'. }
  split; [by apply Hsub|]. clear Hf. unfold later_lines in *. induction Hs as [|l g Hs IH Hl]; [constructor|].
  rewrite filter_cons. destruct (decide _); [|by apply IH]. constructor; [by apply IH|by apply Hsub].
Qed.

Lemma trim_chain_prefix_ok n c g keep :
  covers n c g → n ≤ u32_max → settled c → aligned keep g →
  ∃ c', trim_chain_prefix keep c = Some c' ∧ covers n c' (later_lines keep g) ∧ open c' = open c.
Proof.
  intros Hc Hn Hset Ha. pose proof (cv_units _ _ _ Hc) as Hu. pose proof (cv_sorted _ _ _ Hc) as Hs. pose proof (cv_full _ _ _ Hc) as Hf.
  pose proof (cv_fragments _ _ _ Hc) as Hfs. destruct (later_good keep g Hs Hf) as [Hf' Hs']. unfold trim_chain_prefix.
  rewrite (units_before_ok keep c g Hfs Hs Hf) by lia. cbn [mbind option_bind].
  destruct (later_cases keep g Hs Hf Ha) as (pre & Hg & -> & Hpre & Hpost). set (post := later_lines keep g) in *.
  assert (vlen (paragraph g) = vlen (paragraph pre) + vlen (paragraph post)) as Hlen by (rewrite Hg, paragraph_app, length_app; lia).
  rewrite Hfs, Hg, partition_fragments, fragments_of_app, Nat2N.id by done.
  rewrite drop_app_length' by (by rewrite length_fragments_of). rewrite renumber_fragments by lia.
  rewrite N.add_0_l. unfold sat_add. rewrite !N.min_l, <-Hlen by lia.
  set (c0 := c <| fragments ::= _ |>).
  assert (items (fragments c0) = fragments_of 0 post ∧ runs c0 = runs c ∧ pattern_len c0 = pattern_len c ∧
    pattern_phase c0 = pattern_phase c ∧ open c0 = open c) as (Hfs' & Hr & Hk & Hph & Ho) by done. clearbody c0.
  assert (∀ c', chain_ok (paragraph post) c' → fragments c' = fragments c0 → open c' = open c0 →
    pattern_phase c' + vlen (paragraph post) ≤ n →
    ∃ c1, Some (invalidate_spine c') = Some c1 ∧ covers n c1 post ∧ open c1 = open c) as Hret.
  { intros c' H1 H2 H3 H4. eexists. split; [done|]. split; [|cbn; congruence]. by split; [|done|cbn; rewrite H2| | |]. }
  destruct (is_compacted_iff n c c0 g Hc Hn Hset Hr Hk) as [[-> Hp]|[-> Ht]].
  - assert (plain (paragraph g) c0) as Hp0 by (unfold plain, chain_exact in *; by rewrite Hr, Hk, Hph).
    destruct (prefix_runs_ok c0 (paragraph g) (vlen (paragraph pre)) (wrap_pattern_period_units c0) Hp0 ltac:(lia)) as (Hp1 & Hf1 & Ho1).
    apply Hret; [|done|done|destruct Hp1 as [(Hz & _) _]; lia]. left. unfold plain in Hp1.
    rewrite Nat2N.id, Hg, paragraph_app, drop_app_length in Hp1. exact Hp1.
  - assert (pattern_phase c + vlen (paragraph pre) ≤ u32_max) as Hfit by lia.
    destruct (N.eqb_spec (vlen (paragraph post)) 0) as [Hz|Hz].
    + apply Hret; [|done|done|cbn; lia]. replace (paragraph post) with (@nil N) by (symmetry; apply length_zero_iff_nil; lia).
      by apply chain_ok_nil.
    + rewrite Hph, N.min_l by done. apply Hret; [right|done|done|cbn; lia].
      replace (paragraph post) with (drop (length (paragraph pre)) (paragraph g)) by (by rewrite Hg, paragraph_app, drop_app_length).
      by apply (compacted_drop _ c); [|lia| | |cbn; lia].
Qed.

(** * The whole index *)

(** The lines of a paragraph, and whether the next line continues it. *)
Definition Group : Type := list HistoryLine * bool.
Implicit Types (gs : list Group).

Definition lines_of gs : list HistoryLine := concat (fst <$> gs).

(** An appended line continues the newest group when that is open; an empty line adds nothing
    to it, but a hard one closes it.  Otherwise a soft-wrapped line with units starts a group. *)
Definition take_line l gs : list Group :=
  let soft := bool_decide (break_after l = SoftWrap) in
  let empty := bool_decide (units l = []) in
  match reverse gs with
  | (g, true) :: older =>
    if empty then if soft then gs else reverse older ++ [(g, false)]
    else reverse older ++ [(g ++ [l], soft)]
  | _ => if soft && negb empty then gs ++ [([l], true)] else gs
  end.

(** A cut keeps what is before the anchor, and opens the group it shortens. *)
Definition cut_group from (p : Group) : option Group :=
  let g := cut_lines from p.1 in
  if bool_decide (g = []) then None
  else Some (g, p.2 || (vlen (paragraph g) <? vlen (paragraph p.1))).

(** An eviction keeps the lines from the anchor on; without an anchor it keeps none. *)
Definition evict_group (keep : option HistoryAnchor) (p : Group) : option Group :=
  match keep with
  | Some keep => if bool_decide (later_lines keep p.1 = []) then None else Some (later_lines keep p.1, p.2)
  | None => None
  end.

Definition offset_fits l : Prop := start_offset l + vlen (units l) ≤ u32_max.

(** The chain and its group. *)
Definition chain_tracks (n : N) (c : WrapChain) (p : Group) : Prop :=
  covers n c p.1 ∧ p.1 ≠ [] ∧ Forall offset_fits p.1 ∧ open c = p.2.

Definition index_tracks (n : N) (cs : list WrapChain) gs : Prop :=
  Forall2 (chain_tracks n) cs gs ∧ StronglySorted line_precedes (lines_of gs).

Lemma lines_of_app gs gs' : lines_of (gs ++ gs') = lines_of gs ++ lines_of gs'.
Proof. unfold lines_of. by rewrite fmap_app, concat_app. Qed.

Lemma lines_of_one g b : lines_of [(g, b)] = g.
Proof. unfold lines_of. cbn. apply app_nil_r. Qed.

Lemma lines_of_elem gs p l : p ∈ gs → l ∈ p.1 → l ∈ lines_of gs.
Proof.
  intros (gs1 & gs2 & ->)%list_elem_of_split Hl. destruct p as [g b]. rewrite cons_middle, !lines_of_app, lines_of_one, !elem_of_app. by right; left.
Qed.

Lemma covers_mono n n' c g : covers n c g → n ≤ n' → covers n' c g.
Proof. intros [] ?. split; try done. lia. Qed.

Lemma tracks_mono n n' cs gs : Forall2 (chain_tracks n) cs gs → n ≤ n' → Forall2 (chain_tracks n') cs gs.
Proof.
  intros Hf Hn. eapply Forall2_impl; [exact Hf|]. intros c p (H1 & H2). split; [by eapply covers_mono|done].
Qed.

Lemma tracks_drop n cs gs k : index_tracks n cs gs → index_tracks n (drop k cs) (drop k gs).
Proof.
  intros [Hf Hs]. split; [by apply Forall2_drop|]. rewrite <-(take_drop k gs), lines_of_app in Hs.
  by apply StronglySorted_app in Hs as (_ & _ & Hs).
Qed.

(** ** The cap only drops groups from the front *)

Lemma compact_done `{Memory} ws c : chain_ok ws c → compact_repeating_wrap_runs c = c.
Proof.
  intros Hok. unfold compact_repeating_wrap_runs. destruct (N.leb_spec 2 (pattern_len c)); [|done].
  destruct (N.ltb_spec (pattern_len c) (vec_len (runs c))); [|done].
  destruct Hok as [[_ [?|?]]|(_ & ? & _)]; lia.
Qed.

Lemma drop_closed_drop `{Memory} cap cs : ∃ k, drop_closed cap cs = drop k cs.
Proof.
  induction cs as [|c cs IH]; [by exists O|]. destruct cs as [|c' cs]; [by exists O|].
  assert (drop_closed cap (c :: c' :: cs) =
    if (HISTORY_PER_EXECUTION_DERIVED_INDEX_CAP <? wrap_index_allocated_bytes (mkVec (c :: c' :: cs) cap)) && negb (open c)
    then drop_closed cap (c' :: cs) else c :: c' :: cs) as -> by done.
  destruct (_ && _); [|by exists O]. destruct IH as [k Hk]. by exists (S k).
Qed.

Lemma enforce_cap_drop `{Memory} n cs gs :
  Forall2 (chain_tracks n) (items cs) gs → ∃ k, items (enforce_wrap_index_cap cs) = drop k (items cs).
Proof.
  intros Hf. assert (compact_repeating_wrap_runs <$> items cs = items cs) as Hcs.
  { induction Hf as [|c p cs0 gs0 (Hc & _) _ IH]; [done|]. cbn. f_equal; [|exact IH]. by eapply compact_done, cv_runs. }
  unfold enforce_wrap_index_cap. assert (vec_keep (fmap compact_repeating_wrap_runs) cs = cs) as ->.
  { unfold vec_keep. rewrite Hcs. by destruct cs. }
  cbv zeta. destruct (drop_closed_drop (capacity cs) (items cs)) as [k Hk].
  destruct (_ <? _); [exists (length (items cs)); by rewrite drop_ge|by exists k].
Qed.

(** ** Appending a line *)

Lemma covers_default : covers 0 chain_default [].
Proof. split; [by apply chain_ok_nil|done|done|constructor|constructor|done]. Qed.

Lemma extend_covers `{Memory} n c g l :
  covers n c g → settled c → units l ≠ [] → n + vlen (units l) ≤ u32_max → Forall (λ l', line_precedes l' l) g →
  ∃ c', extend_chain c l = Some c' ∧ covers (n + vlen (units l)) c' (g ++ [l]) ∧ settled c' ∧
    open c' = bool_decide (break_after l = SoftWrap).
Proof.
  intros Hc Hset Hne Hn Hord. pose proof (cv_units _ _ _ Hc) as Hu. pose proof (covers_units n c g Hc ltac:(lia)) as Hcu.
  destruct (extend_chain_ok c l (paragraph g)) as (c' & Hc' & Hok & Hsp & Hfs & Hph & Hset' & Ho);
    [done|apply Hc|apply Hc|done|done|lia|].
  exists c'. split; [done|]. split; [|done]. split.
  - rewrite paragraph_app. unfold paragraph at 2. cbn [mbind list_bind]. by rewrite app_nil_r.
  - done.
  - rewrite Hfs, (cv_fragments _ _ _ Hc), fragments_of_app. done.
  - apply Forall_app. split; [apply Hc|by constructor].
  - apply StronglySorted_app. split_and!; [|apply Hc|by repeat constructor].
    intros x y Hx ->%list_elem_of_singleton. rewrite Forall_forall in Hord. by apply Hord.
  - rewrite paragraph_app, length_app, length_paragraph_cons. cbn [paragraph mbind list_bind length]. lia.
Qed.

Lemma extend_last `{Memory} n cs cs0 c older g l :
  items cs = cs0 ++ [c] → Forall2 (chain_tracks n) cs0 older → covers n c g → Forall offset_fits g →
  StronglySorted line_precedes (lines_of older ++ g) → Forall settled (items cs) →
  units l ≠ [] → n + vlen (units l) ≤ u32_max → offset_fits l → Forall (λ l', line_precedes l' l) (lines_of older ++ g) →
  ∃ cs' k, (c ← last (items cs); c ← extend_chain c l;
            Some (enforce_wrap_index_cap (vec_keep (λ chains, <[length chains - 1 := c]> chains)%nat cs))) = Some cs' ∧
    Forall settled (items cs') ∧
    index_tracks (n + vlen (units l)) (items cs') (drop k (older ++ [(g ++ [l], bool_decide (break_after l = SoftWrap))])).
Proof.
  intros Hcs Hf Hc Hfit Hs Hset Hne Hn Hl Hord. rewrite Hcs, last_snoc. cbn [mbind option_bind].
  rewrite Hcs in Hset. apply Forall_app in Hset as [Hset0 Hsetc]. apply Forall_cons in Hsetc as [Hsetc _].
  apply Forall_app in Hord as [Hord0 Hordg] . destruct (extend_covers n c g l) as (c' & -> & Hc' & Hset' & Ho); [done..|].
  cbn [mbind option_bind]. set (cs1 := vec_keep _ cs).
  assert (items cs1 = cs0 ++ [c']) as Hcs1.
  { unfold cs1. cbn. rewrite Hcs, length_app, Nat.add_sub. by rewrite insert_app_r_alt, Nat.sub_diag. }
  set (gs1 := older ++ _). assert (index_tracks (n + vlen (units l)) (items cs1) gs1) as Ht.
  { rewrite Hcs1. split.
    - apply Forall2_app; [by apply (tracks_mono n); [|lia]|]. constructor; [|constructor]. split_and!; [done|by destruct g| |done].
      apply Forall_app. split; [done|by constructor].
    - unfold gs1. rewrite lines_of_app, lines_of_one, app_assoc. apply StronglySorted_app.
      split_and!; [|done|by repeat constructor]. intros x y Hx ->%list_elem_of_singleton.
      assert (Forall (λ l', line_precedes l' l) (lines_of older ++ g)) as Hall by by apply Forall_app.
      rewrite Forall_forall in Hall. by apply Hall. }
  destruct (enforce_cap_drop _ cs1 gs1 (proj1 Ht)) as [k Hk]. eexists _, k. split; [done|]. rewrite Hk.
  split; [apply Forall_drop; rewrite Hcs1; by apply Forall_app; split; [|constructor]|by apply tracks_drop].
Qed.

(** Appending follows [take_line], up to groups that the cap drops. *)
Lemma extend_wrap_line_tracks `{Memory} n cs gs l :
  index_tracks n (items cs) gs → Forall settled (items cs) → n + vlen (units l) ≤ u32_max → offset_fits l →
  Forall (λ l', line_precedes l' l) (lines_of gs) →
  ∃ cs' k, extend_wrap_line l cs = Some cs' ∧ Forall settled (items cs') ∧
    index_tracks (n + vlen (units l)) (items cs') (drop k (take_line l gs)).
Proof.
  intros [Hf Hs] Hset Hn Hfit Hord. pose proof (tracks_mono n (n + vlen (units l)) _ _ Hf ltac:(lia)) as Hf'.
  assert (∃ cs' k, Some cs = Some cs' ∧ Forall settled (items cs') ∧
    index_tracks (n + vlen (units l)) (items cs') (drop k gs)) as Hsame by (exists cs, O; by rewrite drop_0).
  assert (break_after l = SoftWrap ∧ units l ≠ [] → ∃ cs' k,
    (c ← last (items (vec_push size_chain chain_default cs)); c ← extend_chain c l;
     Some (enforce_wrap_index_cap (vec_keep (λ chains, <[length chains - 1 := c]> chains)%nat (vec_push size_chain chain_default cs)))) = Some cs' ∧
    Forall settled (items cs') ∧ index_tracks (n + vlen (units l)) (items cs') (drop k (gs ++ [([l], true)]))) as Hfresh.
  { intros [Hb Hne]. pose proof (extend_last n (vec_push size_chain chain_default cs) (items cs) chain_default gs [] l) as Hx.
    rewrite app_nil_r, Hb in Hx. apply Hx; [done|done|eapply covers_mono; [apply covers_default|lia]|constructor|done| |done..].
    apply Forall_app. split; [done|]. constructor; [by right|constructor]. }
  assert ((match last (items cs) with Some c => open c | None => false end) = false →
    ∃ cs' k, extend_wrap_line l cs = Some cs' ∧ Forall settled (items cs') ∧ index_tracks (n + vlen (units l)) (items cs')
      (drop k (if bool_decide (break_after l = SoftWrap) && negb (bool_decide (units l = [])) then gs ++ [([l], true)] else gs)))
    as Hclosed.
  { intros Hl. unfold extend_wrap_line. rewrite Hl. cbn [negb andb]. destruct (break_after l) eqn:Hb.
    all: destruct (decide (units l = [])) as [He|He]; rewrite ?(bool_decide_true _ He), ?(bool_decide_false _ He);
      cbn [bool_decide decide andb negb]; try exact Hsame. by apply Hfresh. }
  unfold take_line. destruct gs as [|[g b] older _] using rev_ind.
  { apply Hclosed. by apply Forall2_nil_inv_r in Hf as ->. }
  apply Forall2_app_inv_r in Hf as (cs0 & cl & Hf0 & Hc & Hcs). apply Forall2_cons_inv_r in Hc as (c & cnil & Hc & Hnil & ->).
  apply Forall2_nil_inv_r in Hnil as ->. destruct Hc as (Hc & Hgne & Hgfit & Ho). cbn [fst snd] in Hc, Hgne, Hgfit, Ho.
  rewrite reverse_snoc, reverse_involutive. rewrite Hcs, last_snoc in Hclosed. destruct b; [|by apply Hclosed]. clear Hclosed Hfresh.
  rewrite lines_of_app, lines_of_one in Hs, Hord.
  assert ((match last (items cs) with Some c => open c | None => false end) = true) as Hcont by by rewrite Hcs, last_snoc.
  unfold extend_wrap_line. rewrite Hcont. cbn [negb andb]. destruct (decide (units l = [])) as [He|He].
  2:{ rewrite !(bool_decide_false _ He). by apply (extend_last n cs cs0 c older g l). }
  rewrite !(bool_decide_true _ He). destruct (break_after l); [|exact Hsame].
  change (bool_decide (HardBreak = HardBreak)) with true. change (bool_decide (HardBreak = SoftWrap)) with false. cbv iota.
  eexists _, O. split; [done|]. rewrite drop_0. cbn [items vec_keep]. rewrite Hcs, length_app, Nat.add_sub in *.
  rewrite alter_app_r_alt, Nat.sub_diag by done. cbn [alter list_alter]. apply Forall_app in Hset as [Hset0 Hsetc].
  apply Forall_cons in Hsetc as [Hsetc _]. split; [apply Forall_app; split; [done|by constructor; [exact Hsetc|]]|]. split.
  - apply Forall2_app; [by apply (tracks_mono n); [|lia]|]. constructor; [|constructor]. split_and!; [|done..].
    destruct Hc as [H1 H2 H3 H4 H5 H6]. split; [exact H1|exact H2|exact H3|done|done|].
    change (pattern_phase c + vlen (paragraph g) ≤ n + vlen (units l)). lia.
  - by rewrite lines_of_app, lines_of_one.
Qed.

(** ** Cutting *)

Lemma cut_lines_elem from g l : l ∈ cut_lines from g → ∃ l', l' ∈ g ∧ l = before_cut from l'.
Proof. intros [_ (l' & -> & Hl')%list_elem_of_fmap]%list_elem_of_filter. by exists l'. Qed.

Lemma cut_lines_id from g :
  full g → Forall (λ l, before_cut from l = l) g → cut_lines from g = g.
Proof.
  intros Hf Hw. unfold cut_lines. induction Hw as [|l g Hl _ IH]; [done|]. apply Forall_cons in Hf as [Hne Hf].
  cbn [fmap list_fmap]. rewrite Hl, filter_cons, decide_True by done. f_equal. by apply IH.
Qed.

Lemma cut_group_whole from p : full p.1 → p.1 ≠ [] → Forall (λ l, before_cut from l = l) p.1 → cut_group from p = Some p.
Proof.
  intros Hf Hne Hw. unfold cut_group. rewrite (cut_lines_id from p.1 Hf Hw), (bool_decide_false _ Hne), N.ltb_irrefl, orb_false_r.
  by destruct p.
Qed.

Lemma omap_id {A} (f : A → option A) xs : Forall (λ x, f x = Some x) xs → omap f xs = xs.
Proof. induction 1 as [|x xs Hx _ IH]; [done|]. cbn. rewrite Hx. by f_equal. Qed.

Lemma chain_starts_head n c p from :
  chain_tracks n c p →
  ∃ l g, p.1 = l :: g ∧ chain_starts_before from c = starts_before from l.
Proof.
  intros (Hc & Hne & _). destruct p as [[|l g] b]; [done|]. exists l, g. split; [done|]. unfold chain_starts_before.
  by rewrite (cv_fragments _ _ _ Hc).
Qed.

(** The chains that start before the anchor. *)
Lemma pop_chains_rev_tracks n from cs gs :
  index_tracks n cs gs →
  ∃ cs0 gs0, reverse (pop_chains_rev from (reverse cs)) = cs0 ∧ index_tracks n cs0 gs0 ∧
    omap (cut_group from) gs = omap (cut_group from) gs0 ∧
    (cs0 = [] ∧ gs0 = [] ∨ ∃ cs1 c gs1 p, cs0 = cs1 ++ [c] ∧ gs0 = gs1 ++ [p] ∧
       Forall2 (chain_tracks n) cs1 gs1 ∧ chain_tracks n c p ∧ chain_starts_before from c = true).
Proof.
  revert cs. induction gs as [|p gs IH] using rev_ind; intros cs [Hf Hs].
  { apply Forall2_nil_inv_r in Hf as ->. exists [], []. split_and!; [done|done|done|by left]. }
  apply Forall2_app_inv_r in Hf as (cs0 & cl & Hf0 & Hc & ->). apply Forall2_cons_inv_r in Hc as (c & cnil & Hc & Hnil & ->).
  apply Forall2_nil_inv_r in Hnil as ->. rewrite reverse_snoc. cbn [pop_chains_rev]. destruct (chain_starts_before from c) eqn:Hst.
  { exists (cs0 ++ [c]), (gs ++ [p]). split_and!; [by rewrite <-reverse_snoc, reverse_involutive| |done|right; by exists cs0, c, gs, p].
    split; [|done]. apply Forall2_app; [done|by constructor]. }
  destruct (IH cs0) as (cs1 & gs1 & H1 & H2 & H3 & H4).
  { split; [done|]. rewrite lines_of_app in Hs. by apply StronglySorted_app in Hs as (_ & Hs & _). }
  exists cs1, gs1. split_and!; [done|done| |done]. rewrite omap_app, H3. cbn [omap list_omap].
  destruct (chain_starts_head n c p from Hc) as (l & g & Hp & Hl). rewrite Hst in Hl. destruct Hc as (Hc & _).
  destruct (cut_cases from p.1 (cv_sorted _ _ _ Hc) (cv_full _ _ _ Hc)) as [[_ Hcut]|(pre & l' & post & Hp' & Hall & _)].
  { unfold cut_group. rewrite Hcut. cbn. by rewrite app_nil_r. }
  rewrite Hp in Hp'. destruct pre as [|x pre]; injection Hp' as <- _; apply Forall_cons in Hall as [Hall _]; congruence.
Qed.

Lemma pop_chains_rev_Forall (P : WrapChain → Prop) from cs : Forall P cs → Forall P (pop_chains_rev from cs).
Proof. induction 1 as [|c cs Hc Hcs IH]; cbn [pop_chains_rev]; [constructor|]. destruct (_ from c); [by constructor|done]. Qed.

(** Cutting follows [cut_group]. *)
Lemma trim_wrap_suffix_tracks n cs gs from :
  index_tracks n (items cs) gs → Forall settled (items cs) → n ≤ u32_max →
  ∃ cs', trim_wrap_suffix_from from cs = Some cs' ∧ index_tracks n (items cs') (omap (cut_group from) gs).
Proof.
  intros Ht Hset Hn. unfold trim_wrap_suffix_from. cbn [items vec_keep].
  assert (Forall settled (reverse (pop_chains_rev from (reverse (items cs))))) as Hset0.
  { by apply Forall_reverse, pop_chains_rev_Forall, Forall_reverse. }
  destruct (pop_chains_rev_tracks n from (items cs) gs Ht) as (cs0 & gs0 & Hpop & Ht0 & -> & Hcases). rewrite Hpop in *.
  destruct Hcases as [[-> ->]|(cs1 & c & gs1 & p & -> & -> & Hf & Hc & Hst)]; [eexists; split; [done|]; cbn; by rewrite Hpop|].
  rewrite last_snoc. destruct Ht0 as [_ Hs]. apply Forall_app in Hset0 as [_ Hsetc]. apply Forall_cons in Hsetc as [Hsetc _].
  destruct (chain_starts_head n c p from Hc) as (l & g & Hp & Hl). rewrite Hst in Hl. symmetry in Hl. destruct p as [pg b].
  cbn [fst] in Hp. subst pg. destruct Hc as (Hc & _ & Hfit & Ho). cbn [fst snd] in *.
  destruct (trim_chain_suffix_ok n c (l :: g) from Hc Hn Hsetc) as (c' & -> & Hc' & Ho'). cbn [mbind option_bind].
  rewrite lines_of_app, lines_of_one in Hs. pose proof Hs as (Hord & _ & _)%StronglySorted_app.
  assert (omap (cut_group from) gs1 = gs1) as Hwhole.
  { apply omap_id, Forall_forall. intros p Hp. apply list_elem_of_lookup in Hp as [i Hi].
    destruct (Forall2_lookup_r _ _ _ _ _ Hf Hi) as (c1 & _ & Hc1 & Hne1 & _). apply cut_group_whole; [apply Hc1|done|].
    apply Forall_forall. intros x Hx. apply (precedes_whole x l from); [|done]. apply Hord; [|by left].
    eapply lines_of_elem; [|exact Hx]. by eapply list_elem_of_lookup_2. }
  assert (cut_lines from (l :: g) ≠ []) as Hne.
  { unfold cut_lines. cbn [fmap list_fmap]. pose proof (cv_full _ _ _ Hc) as Hf1. apply Forall_cons in Hf1 as [Hl1 _].
    rewrite filter_cons, decide_True; [done|]. by apply before_cut_units. }
  eexists. split; [done|]. cbn [items vec_keep]. rewrite Hpop, omap_app, Hwhole, length_app, Nat.add_sub, insert_app_r_alt, Nat.sub_diag by done.
  cbn [omap list_omap insert list_insert]. unfold cut_group. cbn [fst snd]. rewrite (bool_decide_false _ Hne).
  split; [apply Forall2_app; [done|]; constructor; [|constructor]; split_and!; [done|done| |]|].
  - apply Forall_forall. intros x (y & Hy & ->)%cut_lines_elem. rewrite Forall_forall in Hfit. specialize (Hfit y Hy).
    unfold offset_fits in *. cbn. rewrite length_take. lia.
  - cbn [snd]. rewrite Ho', <-Ho, N.leb_antisym. by destruct (_ <? _), (open c).
  - rewrite lines_of_app, lines_of_one. apply StronglySorted_app in Hs as (_ & Hs1 & Hs2). apply StronglySorted_app.
    split_and!; [|done|by apply cut_lines_good; [done|apply Hc]]. intros x y Hx (z & Hz & ->)%cut_lines_elem. exact (Hord x z Hx Hz).
Qed.

(** ** Evicting *)

Lemma chain_ends_last n c g l b keep :
  chain_tracks n c (g ++ [l], b) → aligned keep (g ++ [l]) → chain_ends_before keep c = starts_before keep l.
Proof.
  intros (Hc & _ & Hfit & _) Ha. cbn [fst] in *. unfold chain_ends_before. rewrite (cv_fragments _ _ _ Hc), fragments_of_app.
  cbn [fragments_of]. rewrite last_snoc. cbn [wf_line_id wf_start_offset unit_count]. pose proof (cv_full _ _ _ Hc) as Hf. apply Forall_app in Hf as [_ Hf].
  apply Forall_cons in Hf as [Hf _]. apply Forall_app in Ha as [_ Ha]. apply Forall_cons in Ha as [Ha _].
  apply Forall_app in Hfit as [_ Hfit]. apply Forall_cons in Hfit as [Hfit _]. unfold offset_fits in Hfit. unfold sat_add. rewrite N.min_l by lia.
  rewrite <-length_zero_iff_nil in Hf. destruct (starts_before keep l) eqn:Hs.
  - specialize (Ha eq_refl). apply starts_before_iff in Hs. destruct (N.ltb_spec (line_id l) (a_line_id keep)); [done|].
    destruct Hs as [?|[He Ho]]; [lia|]. rewrite He, N.eqb_refl. cbn [orb andb].
    apply (f_equal units), (f_equal length) in Ha. unfold before_cut, units_kept in Ha. cbn in Ha. rewrite He, N.ltb_irrefl, N.eqb_refl, length_take in Ha.
    apply N.leb_le. lia.
  - apply not_true_iff_false. intros Hend. apply not_true_iff_false in Hs. apply Hs, starts_before_iff.
    apply orb_true_iff in Hend as [Hlt%N.ltb_lt|[He%N.eqb_eq Hle%N.leb_le]%andb_true_iff]; [by left|right]. lia.
Qed.

(** Evicting follows [evict_group]. *)
Lemma pop_chains_tracks n keep cs gs :
  index_tracks n cs gs → Forall settled cs → n ≤ u32_max → Forall (λ p, aligned keep p.1) gs →
  ∃ cs', match pop_chains keep cs with
         | [] => Some []
         | c :: rest => c ← trim_chain_prefix keep c; Some (c :: rest)
         end = Some cs' ∧ index_tracks n cs' (omap (evict_group (Some keep)) gs).
Proof.
  intros [Hf Hs] Hset Hn Ha. induction Hf as [|c p cs gs Hc Hf IH]; [exists []; split; [done|split; [constructor|done]]|].
  apply Forall_cons in Hset as [Hsetc Hset]. apply Forall_cons in Ha as [Hap Ha]. destruct p as [pg b].
  change (lines_of ((pg, b) :: gs)) with (pg ++ lines_of gs) in Hs. pose proof Hs as (Hord & Hs1 & Hs2)%StronglySorted_app.
  specialize (IH Hs2 Hset Ha). pose proof Hc as (Hcov & Hne & Hfit & Ho). cbn [fst snd] in *.
  destruct (exists_last Hne) as (g & l & ->). cbn [pop_chains]. rewrite (chain_ends_last n c g l b keep Hc Hap).
  cbn [omap list_omap evict_group fst snd]. destruct (starts_before keep l) eqn:Hl.
  { rewrite later_lines_none; [exact IH|]. apply Forall_app. split; [|by constructor]. apply StronglySorted_app in Hs1 as (Hg & _).
    apply Forall_forall. intros x Hx. eapply precedes_starts; [|exact Hl]. apply Hg; [done|left]. }
  assert (l ∈ later_lines keep (g ++ [l])) as Hin by (apply list_elem_of_filter; split; [done|apply elem_of_app; right; left]).
  rewrite bool_decide_false by (intros Hnil; rewrite Hnil in Hin; by apply not_elem_of_nil in Hin).
  destruct (trim_chain_prefix_ok n c (g ++ [l]) keep Hcov Hn Hsetc Hap) as (c' & -> & Hc' & Ho'). cbn [mbind option_bind].
  assert (omap (evict_group (Some keep)) gs = gs) as ->.
  { apply omap_id, Forall_forall. intros p Hp. apply list_elem_of_lookup in Hp as [i Hi].
    destruct (Forall2_lookup_r _ _ _ _ _ Hf Hi) as (c1 & _ & _ & Hne1 & _). cbn. rewrite later_lines_all.
    - rewrite (bool_decide_false _ Hne1). by destruct p.
    - apply Forall_forall. intros x Hx. apply not_true_iff_false. intros Hb. rewrite (precedes_starts l x keep) in Hl; [done| |done].
      apply Hord; [apply elem_of_app; right; left|]. eapply lines_of_elem; [|exact Hx]. by eapply list_elem_of_lookup_2. }
  eexists. split; [done|]. split.
  - constructor; [|done]. split_and!; [done| | |by rewrite Ho'].
    + intros Hnil. cbn in Hnil. rewrite Hnil in Hin. by apply not_elem_of_nil in Hin.
    + apply Forall_forall. intros x [_ Hx]%list_elem_of_filter. rewrite Forall_forall in Hfit. by apply Hfit.
  - change (StronglySorted line_precedes (later_lines keep (g ++ [l]) ++ lines_of gs)). apply StronglySorted_app. split_and!; [|apply Hc'|done]. intros x y [_ Hx]%list_elem_of_filter. by apply Hord.
Qed.

Lemma trim_wrap_before_tracks n cs gs first :
  index_tracks n (items cs) gs → Forall settled (items cs) → n ≤ u32_max →
  (∀ keep, first = Some keep → Forall (λ p, aligned keep p.1) gs) →
  ∃ cs', trim_wrap_before_retained first cs = Some cs' ∧ index_tracks n (items cs') (omap (evict_group first) gs).
Proof.
  intros Ht Hset Hn Ha. unfold trim_wrap_before_retained. destruct first as [keep|].
  - destruct (pop_chains_tracks n keep (items cs) gs Ht Hset Hn (Ha keep eq_refl)) as (l & Hl & Ht'). cbn [items vec_keep].
    destruct (pop_chains keep (items cs)) as [|c rest] eqn:Hp.
    + injection Hl as <-. eexists. split; [done|]. cbn. by rewrite Hp.
    + destruct (trim_chain_prefix keep c); [|done]. injection Hl as <-. cbn [mbind option_bind]. by eexists.
  - eexists. split; [done|]. cbn. replace (omap _ gs) with (@nil Group); [split; [constructor|constructor]|].
    clear. by induction gs.
Qed.

(** ** Asking *)

Lemma indexed_frame c cols k r :
  wrap_occupancy_indexed c cols k = Some r → spine_ok c → ∃ sp, r.2 = c <| spine := sp |> ∧ spine_ok r.2.
Proof.
  intros Hr Hsp. assert (∀ used, Some (used, c) = Some r → ∃ sp, r.2 = c <| spine := sp |> ∧ spine_ok r.2) as Hret.
  { intros used [= <-]. exists (spine c). split; [by destruct c|done]. }
  unfold wrap_occupancy_indexed, wrap_occupancy_aperiodic in Hr. destruct (wrap_chain_pattern c).
  { destruct (wrap_occupancy_repeating_from _ _ _ _); [|done]. by apply (Hret _ Hr). }
  destruct (_ || _); [by apply (Hret _ Hr)|]. destruct (_ <? _).
  2:{ destruct (wrap_occupancy_for_runs _ _ _); [|done]. by apply (Hret _ Hr). }
  destruct (ensure_aperiodic_spine c (N.min cols u16_max)) as [c1|] eqn:He; [|done]. cbn [mbind option_bind] in Hr.
  assert (∃ sp, c1 = c <| spine := sp |> ∧ spine_ok c1) as (sp & -> & Hsp1).
  { unfold ensure_aperiodic_spine in He. destruct (match spine c with Some _ => _ | None => _ end).
    { injection He as <-. exists (spine c). split; [by destruct c|done]. }
    destruct (build_spine _ _ _) as [built|] eqn:Hb; [|done]. injection He as <-. exists (Some built). split; [done|].
    unfold spine_ok. cbn. unfold build_spine in *. destruct (spine_loop _ _ _ _ _) eqn:Hloop; [|done].
    injection Hb as <-. cbn. by rewrite Hloop. }
  destruct (spine _); [destruct (spine_occupancy _ _ _ _)|destruct (wrap_occupancy_for_runs _ _ _)]; try done; injection Hr as <-; by exists sp.
Qed.

Lemma ask_tracks `{Memory} n h gs at_ cols r :
  index_tracks n (items (wrap_chains h)) gs → Forall settled (items (wrap_chains h)) →
  wrap_column_before at_ cols h = Some r →
  index_tracks n (items (wrap_chains r.2)) gs ∧ Forall settled (items (wrap_chains r.2)).
Proof.
  intros Ht Hset. unfold wrap_column_before. destruct at_ as [from|]; [|intros [= <-]; done].
  destruct (_ =? 0); [intros [= <-]; done|]. destruct (wrap_chain_containing _ _) as [i|].
  2:{ destruct (wrap_occupancy_from_canonical _ _ _); [|done]. intros [= <-]. done. }
  destruct (vget _ _) as [c|] eqn:Hc; [|done]. cbn [mbind option_bind]. destruct (units_before from c) as [k|]; [|done]. cbn [mbind option_bind].
  destruct (wrap_occupancy_indexed c cols k) as [[used c']|] eqn:Hr; [|done]. cbn [mbind option_bind]. intros [= <-].
  cbn [snd]. change (items (wrap_chains (h <| wrap_chains ::= ?f |>))) with (<[N.to_nat i := c']> (items (wrap_chains h))).
  unfold vget in Hc. destruct Ht as [Hf Hs]. destruct (Forall2_lookup_l _ _ _ _ _ Hf Hc) as (p & Hp & Hcov & Hrest).
  destruct (indexed_frame c cols k _ Hr (cv_spine _ _ _ Hcov)) as (sp & Heq & Hsp). cbn [snd] in Heq, Hsp. subst c'. split.
  - split; [|done]. rewrite <-(list_insert_id gs _ p Hp). apply Forall2_insert; [done|]. split; [|exact Hrest].
    destruct Hcov as [H1 H2 H3 H4 H5 H6]. by split.
  - apply Forall_insert; [done|]. rewrite Forall_lookup in Hset. exact (Hset _ _ Hc).
Qed.

(** * What the index answers *)

(** The index after any sequence of appended lines, cuts, evictions and questions, with the
    groups it stands for and the number of units appended so far.  The appended lines come in
    source order and with offsets that fit; an eviction falls between two lines; and a cut or
    an eviction leaves no template longer than its rest. *)
Inductive indexed `{Memory} : N → vec WrapChain → list Group → Prop :=
| indexed_new : indexed 0 vec_new []
| indexed_line n cs gs l cs' :
    indexed n cs gs → n + vlen (units l) ≤ u32_max → offset_fits l → Forall (λ l', line_precedes l' l) (lines_of gs) →
    extend_wrap_line l cs = Some cs' →
    indexed (n + vlen (units l)) cs' (drop (length (take_line l gs) - length (items cs')) (take_line l gs))
| indexed_cut n cs gs from cs' :
    indexed n cs gs → trim_wrap_suffix_from from cs = Some cs' → Forall settled (items cs') →
    indexed n cs' (omap (cut_group from) gs)
| indexed_evict n cs gs first cs' :
    indexed n cs gs → (∀ keep, first = Some keep → Forall (λ p, aligned keep p.1) gs) →
    trim_wrap_before_retained first cs = Some cs' → Forall settled (items cs') →
    indexed n cs' (omap (evict_group first) gs)
| indexed_ask n h gs at_ cols r :
    indexed n (wrap_chains h) gs → wrap_column_before at_ cols h = Some r → indexed n (wrap_chains r.2) gs.

Lemma indexed_tracks `{Memory} n cs gs :
  indexed n cs gs → n ≤ u32_max ∧ index_tracks n (items cs) gs ∧ Forall settled (items cs).
Proof.
  induction 1 as [|n cs gs l cs' _ (IHn & IHt & IHs) Hn Hfit Hord Hext|n cs gs from cs' _ (IHn & IHt & IHs) Htrim Hset
    |n cs gs first cs' _ (IHn & IHt & IHs) Ha Htrim Hset|n h gs at_ cols r _ (IHn & IHt & IHs) Hask].
  - split_and!; [done|split; constructor|constructor].
  - destruct (extend_wrap_line_tracks n cs gs l IHt IHs Hn Hfit Hord) as (cs1 & k & Hext1 & Hset & Ht).
    rewrite Hext in Hext1. injection Hext1 as <-. split_and!; [done| |done]. pose proof (Forall2_length _ _ _ (proj1 Ht)) as Hlen.
    rewrite length_drop in Hlen. destruct (Nat.le_gt_cases k (length (take_line l gs))).
    + by replace (length (take_line l gs) - length (items cs'))%nat with k by lia.
    + rewrite drop_ge in Ht by lia. by rewrite drop_ge by lia.
  - destruct (trim_wrap_suffix_tracks n cs gs from IHt IHs IHn) as (cs1 & Hcs1 & Ht).
    rewrite Htrim in Hcs1. by injection Hcs1 as <-.
  - destruct (trim_wrap_before_tracks n cs gs first IHt IHs IHn Ha) as (cs1 & Hcs1 & Ht).
    rewrite Htrim in Hcs1. by injection Hcs1 as <-.
  - split; [done|]. by eapply ask_tracks.
Qed.

(** ** Finding the paragraph of a unit *)

Definition unit_anchor l (o : N) : HistoryAnchor := mkAnchor (line_id l) (start_offset l + o).

Lemma starts_before_unit l l' o : line_precedes l' l → units l' ≠ [] → starts_before (unit_anchor l o) l' = true.
Proof.
  intros Hp Hne. rewrite <-length_zero_iff_nil in Hne. apply starts_before_iff. unfold line_precedes in Hp. cbn. lia.
Qed.

Lemma starts_after_unit l l' o : line_precedes l l' → o < vlen (units l) → starts_before (unit_anchor l o) l' = false.
Proof. intros Hp Ho. apply not_true_iff_false. rewrite starts_before_iff. unfold line_precedes in Hp. cbn. lia. Qed.

(** The units of a paragraph before one of its units. *)
Lemma cut_at_unit pre l post o :
  StronglySorted line_precedes (pre ++ l :: post) → full (pre ++ l :: post) → o < vlen (units l) →
  vlen (paragraph (cut_lines (unit_anchor l o) (pre ++ l :: post))) = vlen (paragraph pre) + o.
Proof.
  intros (Hpre & _ & Hl)%StronglySorted_app Hf Ho. apply StronglySorted_cons in Hl as [Hl _].
  rewrite paragraph_cut, fmap_app. cbn [fmap list_fmap]. rewrite paragraph_app, length_app, length_paragraph_cons.
  assert (before_cut (unit_anchor l o) <$> pre = pre) as ->.
  { assert (Forall (λ x, line_precedes x l) pre) as Hall by (apply Forall_forall; intros x Hx; apply Hpre; [done|left]).
    clear -Hall. induction Hall as [|x pre Hx _ IH]; [done|]. cbn [fmap list_fmap]. f_equal; [|exact IH].
    apply before_cut_whole. unfold units_kept, line_precedes in *. cbn. destruct (N.ltb_spec (line_id x) (line_id l)); [done|].
    replace (line_id x =? line_id l) with true by lia. lia. }
  assert (paragraph (before_cut (unit_anchor l o) <$> post) = []) as ->.
  { clear -Hl Ho. induction Hl as [|x post Hx _ IH]; [done|]. unfold paragraph in *. cbn [fmap list_fmap mbind list_bind]. rewrite IH.
    by rewrite before_cut_none by by apply starts_after_unit. }
  unfold before_cut, units_kept. cbn. rewrite N.ltb_irrefl, N.eqb_refl, length_take. lia.
Qed.

(** The chain of a unit that is not the first one of its group. *)
Lemma containing_unit n cs older g b newer pre l post o :
  index_tracks n (items cs) (older ++ (g, b) :: newer) → g = pre ++ l :: post → o < vlen (units l) → pre ≠ [] ∨ 0 < o →
  ∃ c, wrap_chain_containing (unit_anchor l o) cs = Some (vlen older) ∧ vget (items cs) (vlen older) = Some c ∧ covers n c g.
Proof.
  intros [Hf Hs] Hg Ho Hfirst. apply Forall2_app_inv_r in Hf as (cs0 & cl & Hf0 & Hc & Hcs).
  apply Forall2_cons_inv_r in Hc as (c & cs1 & Hc & Hf1 & ->). exists c. pose proof (Forall2_length _ _ _ Hf0) as Hlen.
  split_and!; [|unfold vget; rewrite Nat2N.id, Hcs; by apply list_lookup_middle|apply Hc].
  unfold wrap_chain_containing. rewrite Hcs. rewrite lines_of_app in Hs. apply StronglySorted_app in Hs as (Hord0 & _ & Hs).
  change (lines_of ((g, b) :: newer)) with (g ++ lines_of newer) in *. apply StronglySorted_app in Hs as (Hord1 & Hsg & _).
  assert (l ∈ g) as Hlg by (rewrite Hg; apply elem_of_app; right; left).
  assert (Forall (λ c, chain_starts_before (unit_anchor l o) c = true) (cs0 ++ [c])) as Hbefore.
  { apply Forall_app. split; [|constructor; [|constructor]].
    - apply Forall_forall. intros c0 Hc0. apply list_elem_of_lookup in Hc0 as [i Hi].
      destruct (Forall2_lookup_l _ _ _ _ _ Hf0 Hi) as (p & Hp & Hcp).
      destruct (chain_starts_head n c0 p (unit_anchor l o) Hcp) as (x & g0 & Hx & ->). assert (x ∈ p.1) as Hxp by (rewrite Hx; left).
      apply starts_before_unit; [apply Hord0; [|by apply elem_of_app; left]|].
      + eapply lines_of_elem; [|exact Hxp]. by eapply list_elem_of_lookup_2.
      + pose proof (cv_full _ _ _ (proj1 Hcp)) as Hfull. unfold full in Hfull. rewrite Forall_forall in Hfull. by apply Hfull.
    - destruct (chain_starts_head n c (g, b) (unit_anchor l o) Hc) as (x & g0 & Hx & ->). cbn [fst] in Hx.
      pose proof (cv_full _ _ _ (proj1 Hc)) as Hfull. cbn [fst] in Hfull. rewrite Hx in Hfull. apply Forall_cons in Hfull as [Hxne _].
      rewrite Hg in Hx, Hsg. destruct pre as [|y pre].
      + injection Hx as -> _. apply starts_before_iff. right. cbn. destruct Hfirst; [done|lia].
      + injection Hx as -> _. apply starts_before_unit; [|done]. cbn [app] in Hsg. apply StronglySorted_cons in Hsg as [Hall _].
        rewrite Forall_forall in Hall. apply Hall, elem_of_app. right; left. }
  rewrite cons_middle, app_assoc, partition_point_app, length_app by done. cbn [length].
  assert (partition_point (chain_starts_before (unit_anchor l o)) cs1 = 0) as ->.
  { destruct Hf1 as [|c1 p cs1 newer Hc1 _]; [done|]. cbn [partition_point].
    destruct (chain_starts_head n c1 p (unit_anchor l o) Hc1) as (x & g0 & Hx & ->). rewrite starts_after_unit; [done| |done].
    apply Hord1; [done|]. eapply lines_of_elem; [left|]. rewrite Hx. left. }
  unfold checked_sub, Group in *. rewrite Hlen. destruct (N.leb_spec 1 (N.of_nat (length older + 1) + 0)); [f_equal|]; lia.
Qed.

Lemma wrap_column_ok `{Memory} n h gs cols older g b newer pre l post o :
  indexed n (wrap_chains h) gs → 0 < cols → cols ≤ 256 →
  gs = older ++ (g, b) :: newer → g = pre ++ l :: post → o < vlen (units l) → pre ≠ [] ∨ 0 < o →
  ∃ h', wrap_column_before (Some (mkAnchor (line_id l) (start_offset l + o))) cols h =
        Some (layout cols 0 (take (length (paragraph pre) + N.to_nat o) (paragraph g)), h').
Proof.
  intros Hi Hc0 Hc1 -> Hg Ho Hfirst. destruct (indexed_tracks _ _ _ Hi) as (Hn & Ht & _).
  destruct (containing_unit n _ older g b newer pre l post o Ht Hg Ho Hfirst) as (c & Hcont & Hget & Hc).
  pose proof (cv_units _ _ _ Hc) as Hu. unfold wrap_column_before. replace (cols =? 0) with false by lia.
  unfold unit_anchor in Hcont. rewrite Hcont, Hget. cbn [mbind option_bind].
  rewrite (units_before_ok _ c g (cv_fragments _ _ _ Hc) (cv_sorted _ _ _ Hc) (cv_full _ _ _ Hc)) by lia. cbn [mbind option_bind].
  pose proof (cv_sorted _ _ _ Hc) as Hs. pose proof (cv_full _ _ _ Hc) as Hf. rewrite Hg in Hs, Hf.
  pose proof (cut_at_unit pre l post o Hs Hf Ho) as Hcut. unfold unit_anchor in Hcut. rewrite <-Hg in Hcut. rewrite Hcut.
  destruct (wrap_occupancy_indexed_ok c (paragraph g) cols (vlen (paragraph pre) + o)) as (sp & -> & _);
    [apply Hc|apply Hc|done|done|lia|rewrite Hg, paragraph_app, length_app, length_paragraph_cons; lia|].
  eexists. cbn [mbind option_bind fst]. do 4 f_equal. lia.
Qed.


(** * Examples *)

(** Lines of units of the given widths. *)
Definition line_of_widths (id : LineId) (ws : list N) (brk : HistoryBreakAfter) : HistoryLine :=
  mkLine id ((λ w, mkUnit [65] w style_default) <$> ws) brk 0.

Definition demo_lines : list HistoryLine :=
  [line_of_widths 1 [1; 1; 2; 2; 1; 1; 2; 2] SoftWrap; line_of_widths 2 [1; 1; 2; 2; 1; 1; 2] HardBreak;
   line_of_widths 3 [1; 2] SoftWrap; line_of_widths 4 [2; 1] SoftWrap; line_of_widths 5 [1; 1] HardBreak].

(** The lines appended, the last paragraph cut after the first unit of line 4, and line 1 evicted. *)
Definition demo_index : option (vec WrapChain) :=
  cs ← foldl (λ cs l, cs ≫= @extend_wrap_line exact_memory l) (Some vec_new) demo_lines;
  cs ← trim_wrap_suffix_from (mkAnchor 4 1) cs;
  trim_wrap_before_retained (Some (mkAnchor 2 0)) cs.

Definition demo_groups : list Group :=
  [([line_of_widths 2 [1; 1; 2; 2; 1; 1; 2] HardBreak], false);
   ([line_of_widths 3 [1; 2] SoftWrap; line_of_widths 4 [2] SoftWrap], true)].

#[local] Instance settled_dec c : Decision (settled c).
Proof. unfold settled, settled_at. apply _. Defined.

#[local] Instance line_precedes_dec l l' : Decision (line_precedes l l').
Proof. unfold line_precedes. apply _. Defined.

(** A line whose conditions are decided, and which the cap does not touch. *)
Lemma indexed_line_dec `{Memory} l n gs cs cs' :
  indexed n cs gs →
  bool_decide (n + vlen (units l) ≤ u32_max ∧ start_offset l + vlen (units l) ≤ u32_max ∧
    Forall (λ l', line_precedes l' l) (lines_of gs) ∧ length (items cs') = length (take_line l gs)) = true →
  extend_wrap_line l cs = Some cs' → indexed (n + vlen (units l)) cs' (take_line l gs).
Proof.
  intros H0 (H1 & H2 & H3 & H4)%bool_decide_eq_true H5. pose proof (indexed_line n cs gs l cs' H0 H1 H2 H3 H5) as Hstep.
  by rewrite H4, Nat.sub_diag, drop_0 in Hstep.
Qed.

(** Follow one step of the model in a run that is being built. *)
Local Ltac run_step Hi op step :=
  match type of Hi with @indexed _ _ ?cs _ =>
    let r := eval vm_compute in (op cs) in
    match r with Some ?cs' =>
      let Hop := fresh in
      assert (op cs = Some cs') as Hop by (vm_compute; reflexivity);
      cbn [mbind option_bind]; rewrite Hop; apply (step _ _ _ cs') in Hi; [clear Hop|first [exact Hop|vm_compute; done]..]
    end
  end.

Lemma demo_indexed : ∃ cs, demo_index = Some cs ∧ @indexed exact_memory 21 cs demo_groups.
Proof.
  unfold demo_index, demo_lines. cbn [foldl]. pose proof (@indexed_new exact_memory) as Hi.
  assert (∀ from n gs cs cs', @indexed exact_memory n cs gs → trim_wrap_suffix_from from cs = Some cs' →
    bool_decide (Forall settled (items cs')) = true → @indexed exact_memory n cs' (omap (cut_group from) gs)) as Hcut.
  { intros from n gs cs cs' H0 H1 H2%bool_decide_eq_true. by apply (@indexed_cut exact_memory n cs gs from cs'). }
  do 5 match goal with |- context [@extend_wrap_line _ ?l] => run_step Hi (@extend_wrap_line exact_memory l) (@indexed_line_dec exact_memory l) end.
  run_step Hi (trim_wrap_suffix_from (mkAnchor 4 1)) (Hcut (mkAnchor 4 1)).
  eexists. split; [vm_compute; reflexivity|].
  refine (@indexed_evict exact_memory _ _ _ (Some (mkAnchor 2 0)) _ Hi _ _ _);
    [|vm_compute; reflexivity|apply (bool_decide_eq_true_1 _); vm_compute; reflexivity].
  intros keep [= <-]. repeat constructor; (discriminate || reflexivity).
Qed.


(** A template that a cut leaves longer than its rest still has all its runs, and the next line
    is appended after them: the store then reports column 5 for unit 2 of line 2, which the
    layout of the paragraph [1, 1, 2, 2, ...] starts in column 6. *)
Example trimmed_template_misreads :
  (cs ← @extend_wrap_line exact_memory (line_of_widths 1 [1; 1; 1; 2; 2; 1; 1; 1; 2; 2; 1] SoftWrap) vec_new;
   cs ← trim_wrap_suffix_from (mkAnchor 1 2) cs;
   cs ← @extend_wrap_line exact_memory (line_of_widths 2 [2; 2; 1; 1] SoftWrap) cs;
   fst <$> wrap_column_before (Some (mkAnchor 2 2)) 80 (store_default <| wrap_chains := cs |>)) = Some 5 ∧
  layout 80 0 (take 4 (paragraph [line_of_widths 1 [1; 1] SoftWrap; line_of_widths 2 [2; 2; 1; 1] SoftWrap])) = 6.
Proof. vm_compute. split; reflexivity. Qed.
