(* ===== verification/HistoryRetain.v ===== *)
(** What the history keeps: sealing, appending and evicting as operations on the list of
    retained lines.  [HistoryStore] packs lines into flat arrays, cuts oversized lines and
    drops segments; here these are shown to be a list that grows at its end and shrinks at
    its front, with the dropped identities handed to the eviction index in order. *)

From stdpp Require Import sorting.
From S2P Require Import Prelude Utf8 Types HistoryTypes Memory Wrap WrapIndex Eviction HistoryStore.

Implicit Types (l : HistoryLine) (us : list HistoryUnit).

(** * Sealing loses nothing *)

Definition bytes_of us : N := foldr (λ u acc, unit_payload_len u + acc) 0 us.
Definition text_of us : list N := us ≫= u_utf8.
Definition total_bytes (ls : list HistoryLine) : N := foldr (λ l acc, canonical_payload_len l + acc) 0 ls.
Definition total_units (ls : list HistoryLine) : N := foldr (λ l acc, vlen (units l) + acc) 0 ls.

Lemma bytes_of_text us : bytes_of us = vlen (text_of us).
Proof.
  induction us as [|u us IH]; [done|]. cbn [bytes_of text_of foldr mbind list_bind].
  rewrite length_app. fold (bytes_of us) (text_of us). unfold unit_payload_len. rewrite IH.
  change (us ≫= u_utf8) with (text_of us). lia.
Qed.

(** The descriptors of units whose text starts at [p]. *)
Fixpoint unit_refs (p : N) us : list SegmentUnit :=
  match us with
  | [] => []
  | u :: us => mkSegmentUnit p (vlen (u_utf8 u)) (u_width u) (u_style u) :: unit_refs (p + vlen (u_utf8 u)) us
  end.

Lemma unit_refs_length p us : length (unit_refs p us) = length us.
Proof. revert p. induction us as [|u us IH]; intros p; [done|]. cbn. by rewrite IH. Qed.

Lemma seal_units_ok refs payload us :
  vlen payload + bytes_of us ≤ u32_max →
  foldl (λ (acc : list SegmentUnit * list N) u,
      let '(us, payload) := acc in
      (us ++ [mkSegmentUnit (to_u32 (vlen payload)) (to_u32 (vlen (u_utf8 u))) (u_width u) (u_style u)],
       payload ++ u_utf8 u)) (refs, payload) us
  = (refs ++ unit_refs (vlen payload) us, payload ++ text_of us).
Proof.
  revert refs payload. induction us as [|u us IH]; intros refs payload Hb; cbn [foldl].
  { by rewrite !app_nil_r. }
  cbn [bytes_of foldr] in Hb. fold (bytes_of us) in Hb. unfold unit_payload_len in Hb.
  rewrite IH by (rewrite length_app; lia). unfold to_u32. rewrite !N.min_l by lia.
  cbn [unit_refs text_of mbind list_bind]. rewrite <-!app_assoc. cbn [app].
  do 3 f_equal. f_equal. rewrite length_app. lia.
Qed.

Lemma vslice_mid {A} (a b c : list A) n m : n = vlen a → m = vlen a + vlen b → vslice (a ++ b ++ c) n m = Some b.
Proof.
  intros -> ->. unfold vslice. rewrite !length_app.
  replace (_ && _) with true by (symmetry; apply andb_true_iff; split; apply N.leb_le; lia).
  f_equal. rewrite drop_app_length' by lia. rewrite take_app_length' by lia. done.
Qed.

(** Reading the descriptors back out of any payload that holds the text at [p]. *)
Lemma unit_refs_read s pre us post :
  seg_payload s = pre ++ text_of us ++ post → vlen pre + bytes_of us ≤ usize_max →
  sealed_unit s <$> unit_refs (vlen pre) us = us.
Proof.
  revert pre. induction us as [|u us IH]; intros pre Hp Hb; [done|].
  cbn [unit_refs fmap list_fmap]. cbn [bytes_of foldr] in Hb. fold (bytes_of us) in Hb. unfold unit_payload_len in Hb.
  cbn [text_of mbind list_bind] in Hp. change (us ≫= u_utf8) with (text_of us) in Hp. rewrite <-app_assoc in Hp. f_equal.
  - unfold sealed_unit, sealed_utf8. cbn [payload_start payload_len su_width su_style]. rewrite Hp.
    rewrite (vslice_mid pre (u_utf8 u)); [by destruct u|done|unfold sat_add; lia].
  - replace (vlen pre + vlen (u_utf8 u)) with (vlen (pre ++ u_utf8 u)) by (rewrite length_app; lia).
    apply IH; [by rewrite <-app_assoc|rewrite length_app; lia].
Qed.

Lemma mapM_app {A B} (f : A → option B) (xs ys : list A) :
  mapM f (xs ++ ys) = xs' ← mapM f xs; ys' ← mapM f ys; Some (xs' ++ ys').
Proof.
  induction xs as [|x xs IH]; cbn; [by destruct (mapM f ys)|].
  destruct (f x); cbn; [|done]. rewrite IH. destruct (mapM f xs); cbn; [|done]. by destruct (mapM f ys).
Qed.

(** The arrays a list of lines is sealed into, read back line by line even when the arrays
    have since grown. *)
Definition reads (arrays : list SegmentLine * list SegmentUnit * list N) (ls : list HistoryLine) : Prop :=
  let '(lines, refs, payload) := arrays in
  ∀ s refs' payload', seg_units s = refs ++ refs' → seg_payload s = payload ++ payload' →
    mapM (sealed_line s) lines = Some ls.

Lemma seal_lines_ok ls ls' arrays :
  let '(lines, refs, payload) := arrays in
  reads arrays ls' → vlen refs + total_units ls ≤ u32_max → vlen payload + total_bytes ls ≤ u32_max →
  reads (foldl seal_line arrays ls) (ls' ++ ls).
Proof.
  revert ls' arrays. induction ls as [|l ls IH]; intros ls' [[lines refs] payload] Hr Hu Hb; cbn [foldl].
  { by rewrite app_nil_r. }
  cbn [total_units total_bytes foldr] in Hu, Hb. fold (total_units ls) in Hu. fold (total_bytes ls) in Hb.
  change (canonical_payload_len l) with (bytes_of (units l)) in Hb.
  unfold seal_line at 2. rewrite seal_units_ok by lia.
  set (arrays := (_, _, _)). replace (ls' ++ l :: ls) with ((ls' ++ [l]) ++ ls) by (by rewrite <-app_assoc).
  apply (IH _ arrays); subst arrays; [|rewrite length_app, unit_refs_length; lia|
    rewrite length_app; rewrite bytes_of_text in Hb; lia].
  intros s refs' payload' Hs1 Hs2. rewrite <-app_assoc in Hs1, Hs2.
  rewrite mapM_app, (Hr s _ _ Hs1 Hs2). cbn [mbind option_bind mapM]. unfold sealed_line.
  cbn [sl_line_id sl_unit_start sl_unit_len sl_start_offset sl_break_after]. unfold to_u32.
  rewrite !length_app, unit_refs_length, !N.min_l by lia. rewrite Hs1.
  rewrite (vslice_mid refs (unit_refs (vlen payload) (units l))); cbn [mbind option_bind].
  - rewrite (unit_refs_read s payload (units l) payload' Hs2); [by destruct l|].
    unfold usize_max, u32_max, u64_max in *. lia.
  - done.
  - rewrite unit_refs_length. unfold sat_add, usize_max. unfold u32_max, u64_max in *. lia.
Qed.

Lemma sealed_lines_ok ls lines refs payload age bytes :
  foldl seal_line ([], [], []) ls = (lines, refs, payload) →
  total_units ls ≤ u32_max → total_bytes ls ≤ u32_max →
  sealed_lines (mkSegment lines refs payload age bytes) = Some ls.
Proof.
  intros Hf Hu Hb. pose proof (seal_lines_ok ls [] ([], [], [])) as Hr. rewrite Hf in Hr.
  apply (Hr ltac:(done) Hu Hb _ [] []); cbn; by rewrite app_nil_r.
Qed.

(** * The retained lines *)

(** A line the tail can take whole: no unit is empty, the text fits a segment and every unit
    has a 32-bit offset. *)
Record line_fits l : Prop := {
  lf_units : Forall (λ u, 1 ≤ unit_payload_len u) (units l);
  lf_bytes : canonical_payload_len l ≤ HISTORY_SEGMENT_PAYLOAD_TARGET;
  lf_offset : start_offset l + vlen (units l) ≤ u32_max }.

Lemma units_le_bytes us : Forall (λ u, 1 ≤ unit_payload_len u) us → vlen us ≤ bytes_of us.
Proof.
  induction 1 as [|u us Hu _ IH]; [done|]. cbn [bytes_of foldr length]. fold (bytes_of us). lia.
Qed.

Lemma total_units_le ls : Forall line_fits ls → total_units ls ≤ total_bytes ls.
Proof.
  induction 1 as [|l ls [Hl _ _] _ IH]; [done|]. cbn [total_units total_bytes foldr].
  fold (total_units ls) (total_bytes ls). apply units_le_bytes in Hl.
  change (bytes_of (units l)) with (canonical_payload_len l) in Hl. lia.
Qed.

Lemma total_bytes_app ls ls' : total_bytes (ls ++ ls') = total_bytes ls + total_bytes ls'.
Proof.
  induction ls as [|l ls IH]; [done|]. cbn [total_bytes foldr app]. fold (total_bytes ls) (total_bytes (ls ++ ls')). lia.
Qed.

Section retain.
Context `{Memory}.
Implicit Types (h : HistoryStore).

Definition tail_lines h : list HistoryLine := tl_line <$> items (tail h).

(** Descriptors of sealed lines address 32-bit unit ranges. *)
Definition segment_line_ok (l : SegmentLine) : Prop := sl_unit_start l + sl_unit_len l ≤ u32_max.

Definition segment_ok (s : Segment) : Prop := seg_lines s ≠ [] ∧ Forall segment_line_ok (seg_lines s).

Lemma seal_lines_addresses ls arrays :
  Forall segment_line_ok arrays.1.1 → Forall segment_line_ok (foldl seal_line arrays ls).1.1.
Proof.
  revert arrays. induction ls as [|l ls IH]; intros [[lines refs] payload] Ha; [done|]. cbn [foldl]. apply IH.
  unfold seal_line. destruct (foldl _ _ _) as [refs' payload']. cbn [fst] in *. apply Forall_app_2; [done|].
  constructor; [|done]. unfold segment_line_ok, to_u32. cbn [sl_unit_start sl_unit_len]. lia.
Qed.

(** The store holds the lines [ls]. *)
Record store_ok h (ls : list HistoryLine) : Prop := {
  so_entries : entries h = Some ls;
  so_fits : Forall line_fits ls;
  so_payload : tail_payload_bytes h = total_bytes (tail_lines h);
  so_tail : tail_payload_bytes h ≤ HISTORY_SEGMENT_PAYLOAD_TARGET;
  so_lines : Forall segment_ok (items (segments h));
}.

Lemma store_ok_split h ls :
  store_ok h ls → ∃ sealed, mapM sealed_lines (items (segments h)) = Some sealed ∧ ls = mjoin sealed ++ tail_lines h.
Proof.
  intros [He _ _ _ _]. unfold entries in He. destruct (mapM _ _) as [sealed|]; [|done].
  injection He as <-. by exists sealed.
Qed.

Lemma store_ok_intro h sealed ls :
  mapM sealed_lines (items (segments h)) = Some sealed → ls = mjoin sealed ++ tail_lines h →
  Forall line_fits ls → tail_payload_bytes h = total_bytes (tail_lines h) →
  tail_payload_bytes h ≤ HISTORY_SEGMENT_PAYLOAD_TARGET →
  Forall segment_ok (items (segments h)) → store_ok h ls.
Proof. intros Hs -> Hf Hp Ht Hl. split; [|done..]. unfold entries. by rewrite Hs. Qed.

(** Sealing moves the tail into a segment and keeps the lines. *)
Lemma seal_tail_ok h ls :
  store_ok h ls → store_ok (seal_tail h) ls ∧ items (tail (seal_tail h)) = [] ∧
    tail_payload_bytes (seal_tail h) = 0 ∧ evicted (seal_tail h) = evicted h.
Proof.
  intros Hok. pose proof (so_payload _ _ Hok) as Hp. pose proof (so_tail _ _ Hok) as Ht.
  destruct (store_ok_split h ls Hok) as (sealed & Hs & ->). pose proof (so_fits _ _ Hok) as Hf.
  apply Forall_app in Hf as Hf'. destruct Hf' as [_ Hft].
  assert (total_units (tail_lines h) ≤ total_bytes (tail_lines h)) as Hu by by apply total_units_le.
  unfold seal_tail. destruct (items (tail h)) as [|t ts] eqn:Hi.
  { split_and!; [done|done| |done]. rewrite Hp. unfold tail_lines. by rewrite Hi. }
  assert (tail_lines h = tl_line <$> t :: ts) as Htl by (unfold tail_lines; by rewrite Hi).
  destruct (foldl seal_line _ _) as [[lines refs] payload] eqn:Hfold.
  split_and!; [|done|done|done]. rewrite <-Htl in Hfold.
  eapply (store_ok_intro _ (sealed ++ [tail_lines h])).
  - cbn. rewrite mapM_app, Hs. cbn [mbind option_bind mapM].
    erewrite sealed_lines_ok; [done|exact Hfold|unfold HISTORY_SEGMENT_PAYLOAD_TARGET, u32_max in *; lia..].
  - rewrite join_app. cbn. by rewrite !app_nil_r.
  - done.
  - done.
  - done.
  - cbn. apply Forall_app_2; [apply Hok|]. constructor; [|done]. split; cbn [seg_lines].
    { intros ->. pose proof (sealed_lines_ok _ _ _ _ 0 0 Hfold) as Hn. cbn in Hn.
      rewrite Htl in Hn. unfold HISTORY_SEGMENT_PAYLOAD_TARGET, u32_max in *.
      rewrite Htl in Hu, Hp. assert (Some [] = Some (tl_line <$> t :: ts)); [apply Hn; lia|done]. }
    pose proof (seal_lines_addresses (tail_lines h) ([], [], [])) as Ha. rewrite Hfold in Ha. by apply Ha.
Qed.

Lemma push_fragment_ok t b h h' ls :
  store_ok h ls → line_fits (tl_line t) → push_fragment_inner t b h = Some h' →
  store_ok h' (ls ++ [tl_line t]) ∧ evicted h' = evicted h.
Proof.
  intros Hok Hfit. unfold push_fragment_inner. cbv zeta.
  match goal with |- context [if ?c then seal_tail h else h] => set (full := c) end.
  set (h0 := if full then seal_tail h else h).
  assert (store_ok h0 ls ∧ evicted h0 = evicted h ∧
    canonical_payload_len (tl_line t) + tail_payload_bytes h0 ≤ HISTORY_SEGMENT_PAYLOAD_TARGET) as (Hok0 & He0 & Hb).
  { subst h0. destruct full eqn:Hfull; subst full.
    - destruct (seal_tail_ok h ls Hok) as (H1 & _ & H2 & H3). split_and!; [done|done|]. rewrite H2. destruct Hfit. lia.
    - split_and!; [done|done|]. apply andb_false_iff in Hfull as [Hn%negb_false_iff%bool_decide_eq_true|Hn].
      + rewrite (so_payload _ _ Hok). unfold tail_lines. rewrite Hn. destruct Hfit. cbn. lia.
      + apply orb_false_iff in Hn as [Hn%N.ltb_ge _]. lia. }
  clearbody h0. clear full. match goal with |- context [extend_wrap_line _ ?cs] => set (cs0 := cs) end.
  destruct (if b then _ else _) as [cs|]; [|done]. cbn [mbind option_bind].
  match goal with |- context [update_resident_bytes ?x] => set (h1 := update_resident_bytes x) end.
  assert (store_ok h1 (ls ++ [tl_line t])) as Hok1.
  { destruct (store_ok_split h0 ls Hok0) as (sealed & Hs & ->). apply (store_ok_intro h1 sealed).
    - done.
    - unfold tail_lines. cbn. rewrite fmap_app. cbn. by rewrite app_assoc.
    - apply Forall_app_2; [apply Hok0|by constructor].
    - unfold tail_lines. cbn. rewrite fmap_app, total_bytes_app. cbn. rewrite (so_payload _ _ Hok0). unfold tail_lines. lia.
    - exact Hb.
    - apply Hok0. }
  destruct (_ || _); intros [= <-]; [|by split].
  destruct (seal_tail_ok h1 _ Hok1) as (H1 & _ & _ & H2). split; [done|]. by rewrite H2.
Qed.

(** ** Appending a line *)

(** The lines that stand for one line: its units in consecutive pieces of the same
    identity, soft-wrapped except for the last, which keeps the break. *)
Inductive cut_into (id : LineId) (brk : HistoryBreakAfter) : N → list HistoryUnit → list HistoryLine → Prop :=
  | cut_last offset us : cut_into id brk offset us [mkLine id us brk offset]
  | cut_more offset us us' fs :
      us ≠ [] → cut_into id brk (offset + vlen us) us' fs →
      cut_into id brk offset (us ++ us') (mkLine id us SoftWrap offset :: fs).

Definition pieces_of l (fs : list HistoryLine) : Prop :=
  cut_into (line_id l) (break_after l) (start_offset l) (units l) fs.

(** A line that can be appended without losing text: each unit fits a segment. *)
Record line_sound l : Prop := {
  ls_units : Forall (λ u, 1 ≤ unit_payload_len u ∧ unit_payload_len u ≤ HISTORY_SEGMENT_PAYLOAD_TARGET) (units l);
  ls_offset : start_offset l + vlen (units l) ≤ u32_max }.

Lemma bytes_of_app us us' : bytes_of (us ++ us') = bytes_of us + bytes_of us'.
Proof.
  induction us as [|u us IH]; [done|]. cbn [bytes_of foldr app]. fold (bytes_of us) (bytes_of (us ++ us')). lia.
Qed.

Lemma fragment_fits id us brk offset :
  Forall (λ u, 1 ≤ unit_payload_len u ∧ unit_payload_len u ≤ HISTORY_SEGMENT_PAYLOAD_TARGET) us →
  bytes_of us ≤ HISTORY_SEGMENT_PAYLOAD_TARGET → offset + vlen us ≤ u32_max → line_fits (mkLine id us brk offset).
Proof. intros Hu Hb Ho. split; [|done|done]. eapply Forall_impl; [exact Hu|]. by intros u [? _]. Qed.

Lemma fragment_start (fragment : vec (HistoryUnit * N)) offset :
  vlen (fst <$> items fragment) ≤ offset → offset ≤ u32_max →
  checked_sub offset (as_u32 (vec_len fragment)) = Some (offset - vlen (fst <$> items fragment)).
Proof.
  rewrite length_fmap. intros Ho Hm. unfold checked_sub, as_u32, vec_len.
  rewrite N.mod_small by (unfold u32_max in Hm; lia). by apply N.leb_le in Ho as ->.
Qed.

Lemma fragment_loop_ok id brk rest fragment bytes offset h h' ls :
  let us := fst <$> items fragment in
  store_ok h ls →
  Forall (λ u, 1 ≤ unit_payload_len u ∧ unit_payload_len u ≤ HISTORY_SEGMENT_PAYLOAD_TARGET) (us ++ rest.*1) →
  bytes = bytes_of us → bytes ≤ HISTORY_SEGMENT_PAYLOAD_TARGET →
  vlen us ≤ offset → offset + vlen rest ≤ u32_max → us ++ rest.*1 ≠ [] →
  fragment_loop id brk rest fragment bytes offset h = Some h' →
  ∃ fs, cut_into id brk (offset - vlen us) (us ++ rest.*1) fs ∧ store_ok h' (ls ++ fs) ∧ evicted h' = evicted h.
Proof.
  revert fragment bytes offset h ls.
  induction rest as [|[u c] rest IH]; intros fragment bytes offset h ls us Hok Hu -> Hb Ho Hm Hne; subst us;
    cbn [fragment_loop].
  - rewrite app_nil_r in *. case_bool_decide as Hi; [by rewrite Hi in Hne|].
    rewrite fragment_start by (cbn [length] in Hm; lia).
    cbn [mbind option_bind]. unfold push_fragment. intros Hp. eexists. split; [apply cut_last|].
    apply (push_fragment_ok _ _ _ _ _ Hok) in Hp; [done|].
    apply fragment_fits; [done|done|]. cbn [length] in Hm. lia.
  - cbn [fmap list_fmap fst length] in *. apply Forall_app in Hu as Hu'. destruct Hu' as [Hu1 Hu2].
    apply Forall_cons in Hu2 as [Hux Hu2]. destruct (_ && _) eqn:Hc.
    + apply andb_true_iff in Hc as [Hn%negb_true_iff%bool_decide_eq_false _].
      rewrite fragment_start by lia.
      cbn [mbind option_bind]. unfold push_fragment. destruct (push_fragment_inner _ _ _) as [h1|] eqn:Hp; [|done].
      cbn [mbind option_bind]. apply (push_fragment_ok _ _ _ _ _ Hok) in Hp as [Hok1 He1]; [|apply fragment_fits; [done|done|lia]].
      replace (sat_add u32_max offset 1) with (offset + 1) by (unfold sat_add; lia). intros Hl.
      apply (IH _ _ _ _ _ Hok1) in Hl as (fs & Hcut & Hok' & He'); cbn [vec_push vec_new items app fmap list_fmap fst length].
      * eexists. split; [|split; [by rewrite <-app_assoc in Hok'|congruence]].
        apply cut_more; [by destruct (items fragment)|].
        cbn in Hcut. replace (_ - _ + _) with (offset + 1 - 1) by lia. exact Hcut.
      * by constructor.
      * cbn. unfold unit_payload_len. lia.
      * lia.
      * lia.
      * lia.
      * done.
    + assert (bytes_of (fst <$> items fragment) + unit_payload_len u ≤ HISTORY_SEGMENT_PAYLOAD_TARGET) as Hb'.
      { apply andb_false_iff in Hc as [Hn%negb_false_iff%bool_decide_eq_true|Hn%N.ltb_ge]; [|done].
        rewrite Hn. cbn. lia. }
      replace (sat_add u32_max offset 1) with (offset + 1) by (unfold sat_add; lia). intros Hl.
      apply (IH _ _ _ _ _ Hok) in Hl; cbn [vec_push items]; rewrite ?fmap_app, <-?app_assoc; cbn [fmap list_fmap fst app].
      * cbn [vec_push items] in Hl. rewrite fmap_app, length_app, <-app_assoc in Hl. cbn [fmap list_fmap fst length app] in Hl.
        replace (offset + 1 - _) with (offset - vlen (fst <$> items fragment)) in Hl by lia. exact Hl.
      * done.
      * rewrite bytes_of_app. cbn. lia.
      * done.
      * rewrite length_app. cbn [length]. lia.
      * lia.
      * done.
Qed.

Lemma retain_line_ok l n h h' ls :
  store_ok h ls → line_sound l → retain_line l (line_caps n l) h = Some h' →
  ∃ fs, pieces_of l fs ∧ store_ok h' (ls ++ fs) ∧ evicted h' = evicted h.
Proof.
  intros Hok [Hu Ho]. unfold retain_line. destruct (_ <? _) eqn:Hb.
  - intros Hl. assert (fst <$> zip (units l) (utf8_caps (line_caps n l)) = units l) as Hz.
    { apply fst_zip. by rewrite line_caps_len. }
    apply (fragment_loop_ok _ _ _ _ _ _ _ _ _ Hok) in Hl; cbn [vec_new items fmap list_fmap app length].
    + cbn [vec_new items fmap list_fmap app length] in Hl. rewrite Hz, N.sub_0_r in Hl. exact Hl.
    + by rewrite Hz.
    + done.
    + done.
    + lia.
    + rewrite length_zip_with_l_eq by (by rewrite line_caps_len). lia.
    + rewrite Hz. intros He. apply N.ltb_lt in Hb. unfold canonical_payload_len in Hb. rewrite He in Hb. done.
  - apply N.ltb_ge in Hb. unfold push_fragment. intros Hp. exists [l]. split; [unfold pieces_of; destruct l; apply cut_last|].
    apply (push_fragment_ok _ _ _ _ _ Hok) in Hp; [done|]. split; [|done|done].
    eapply Forall_impl; [exact Hu|]. by intros u [? _].
Qed.

(** ** Evicting *)

Lemma mapM_sealed_ids s ls : sealed_lines s = Some ls → sl_line_id <$> seg_lines s = line_id <$> ls.
Proof.
  unfold sealed_lines. revert ls. induction (seg_lines s) as [|l lines IH]; intros ls; cbn [mapM].
  { intros [= <-]. done. }
  destruct (sealed_line s l) as [l'|] eqn:Hl; [|done]. cbn [mbind option_bind].
  destruct (mapM _ lines) as [ls'|]; [|done]. cbn [mbind option_bind]. intros [= <-].
  unfold sealed_line in Hl. apply bind_Some in Hl as (us & _ & [= <-]).
  cbn [fmap list_fmap line_id]. f_equal. by apply IH.
Qed.

Lemma drop_oldest_ok h h' ls :
  store_ok h ls → items (segments h) ≠ [] → drop_oldest_segment h = Some h' →
  ∃ ds ls', ls = ds ++ ls' ∧ store_ok h' ls' ∧ record_evicted_ids (line_id <$> ds) (evicted h) = Some (evicted h').
Proof.
  intros Hok Hne. destruct (store_ok_split h ls Hok) as (sealed & Hs & ->).
  pose proof (so_fits _ _ Hok) as Hf. pose proof (so_payload _ _ Hok) as Hp. pose proof (so_tail _ _ Hok) as Ht.
  unfold drop_oldest_segment, record_evicted_segment. destruct (items (segments h)) as [|s rest] eqn:Hi; [done|].
  cbn [mapM] in Hs. destruct (sealed_lines s) as [ds|] eqn:Hds; [|done]. cbn [mbind option_bind] in Hs.
  destruct (mapM sealed_lines rest) as [sealed'|] eqn:Hrest; [|done]. injection Hs as <-.
  rewrite (mapM_sealed_ids s ds Hds). cbn [evicted].
  destruct (record_evicted_ids _ _) as [x|] eqn:Hx; [|done]. cbn [mbind option_bind]. intros [= <-].
  exists ds, (mjoin sealed' ++ tail_lines h). split_and!.
  - cbn. by rewrite app_assoc.
  - eapply store_ok_intro; [exact Hrest|done| |done|done|].
    + cbn in Hf. rewrite <-app_assoc in Hf. by apply Forall_app in Hf as [_ Hf].
    + pose proof (so_lines _ _ Hok) as Hl. rewrite Hi in Hl. by apply Forall_cons in Hl as [_ Hl].
  - done.
Qed.

(** How an index changes while lines with identities [new] are dropped: whatever it held, it
    has recorded them too. *)
Definition index_takes x x' (new : list LineId) : Prop :=
  ∀ ids, index_holds x ids → Forall (λ id, id ≤ u64_max) new → index_holds x' (ids ++ new).

Lemma index_takes_trans x y z a b : index_takes x y a → index_takes y z b → index_takes x z (a ++ b).
Proof.
  intros H1 H2 ids Hx Hm. apply Forall_app in Hm as [Hma Hmb]. rewrite app_assoc. apply H2; [|done]. by apply H1.
Qed.

Lemma index_takes_nil x : index_takes x x [].
Proof. intros ids Hx _. by rewrite app_nil_r. Qed.

Lemma evict_loop_ok fuel b h b' h' ls :
  store_ok h ls → evict_loop fuel b h = Some (b', h') →
  ∃ ds ls', ls = ds ++ ls' ∧ store_ok h' ls' ∧ index_takes (evicted h) (evicted h') (line_id <$> ds) ∧
    (resident_bytes h' ≤ HISTORY_PER_EXECUTION_BYTE_CAP ∨ ls' = []).
Proof.
  revert b h ls. induction fuel as [|fuel IH]; intros b h ls Hok; cbn [evict_loop]; [done|].
  destruct (_ <? resident_bytes h) eqn:Hcap.
  2: { intros [= <- <-]. exists [], ls. split_and!; [done|done|apply index_takes_nil|]. left. by apply N.ltb_ge. }
  set (h0 := match items (segments h) with [] => _ | _ :: _ => _ end).
  assert (store_ok h0 ls ∧ evicted h0 = evicted h ∧ (items (segments h0) = [] → ls = [])) as (Hok0 & He0 & Hnil).
  { assert (items (tail h) = [] → items (segments h) = [] → ls = []) as Hnil.
    { intros Ht Hs. destruct (store_ok_split h ls Hok) as (sealed & Hm & ->). rewrite Hs in Hm. injection Hm as <-.
      unfold tail_lines. by rewrite Ht. }
    subst h0. destruct (items (segments h)) as [|s rest] eqn:Hs; [destruct (items (tail h)) as [|t ts] eqn:Ht|].
    - split_and!; [done|done|]. intros _. by apply Hnil.
    - destruct (seal_tail_ok h ls Hok) as (H1 & _ & _ & H2). split_and!; [done|done|].
      destruct (seal_tail_items h) as [_ [s ->]]; [by rewrite Ht|]. by rewrite Hs.
    - split_and!; [done|done|]. by rewrite Hs. }
  clearbody h0. destruct (items (segments h0)) as [|s rest] eqn:Hs.
  { intros [= <- <-]. exists [], ls. rewrite He0.
    split_and!; [done|done|apply index_takes_nil|right; by apply Hnil]. }
  destruct (drop_oldest_segment h0) as [h1|] eqn:Hd; [|done]. cbn [mbind option_bind]. intros Hl.
  destruct (drop_oldest_ok h0 h1 ls Hok0) as (ds & ls1 & -> & Hok1 & Hrec); [by rewrite Hs|done|].
  destruct (IH _ _ _ Hok1 Hl) as (ds' & ls' & -> & Hok' & Htake & Hres).
  exists (ds ++ ds'), ls'. split_and!; [by rewrite app_assoc|done| |done].
  rewrite fmap_app. eapply index_takes_trans; [|exact Htake].
  intros ids Hx Hm. rewrite He0 in Hrec. destruct (index_holds_record _ _ _ Hx Hm) as (x' & Hr & Hx'). congruence.
Qed.

Lemma store_ok_resident h ls : store_ok h ls → store_ok (update_resident_bytes h) ls.
Proof. by intros [H1 H2 H3 H4 H5]. Qed.

Lemma evict_to_cap_ok h h' ls :
  store_ok h ls → evict_to_cap h = Some h' →
  ∃ ds ls', ls = ds ++ ls' ∧ store_ok h' ls' ∧ index_takes (evicted h) (evicted h') (line_id <$> ds) ∧
    (resident_bytes h' ≤ HISTORY_PER_EXECUTION_BYTE_CAP ∨ ls' = []).
Proof.
  intros Hok. unfold evict_to_cap. destruct (evict_loop _ _ _) as [[b h1]|] eqn:Hl; [|done]. cbn [mbind option_bind fst snd].
  apply (evict_loop_ok _ _ _ _ _ ls) in Hl as (ds & ls' & -> & [H1 H2 H3 H4 H5] & Htake & Hres); [|by apply store_ok_resident].
  unfold trim_before_retained. destruct b; [destruct (trim_wrap_before_retained _ _); [|done]|]; intros [= <-];
    by exists ds, ls'.
Qed.

Lemma append_line_ok l h h' ls :
  store_ok h ls → line_sound l → append_line_store l h = Some h' →
  ∃ fs ds ls', pieces_of l fs ∧ ls ++ fs = ds ++ ls' ∧ store_ok h' ls' ∧
    index_takes (evicted h) (evicted h') (line_id <$> ds) ∧
    (resident_bytes h' ≤ HISTORY_PER_EXECUTION_BYTE_CAP ∨ ls' = []).
Proof.
  intros Hok Hl. unfold append_line_store. set (h0 := h <| reflow_cache := None |> <| lines_taken ::= _ |>).
  assert (store_ok h0 ls) as Hok0 by (by destruct Hok as [H1 H2 H3 H4 H5]).
  destruct (retain_line _ _ _) as [h1|] eqn:Hr; [|done]. cbn [mbind option_bind]. intros He.
  destruct (retain_line_ok l _ _ h1 ls Hok0 Hl Hr) as (fs & Hfs & Hok1 & He1).
  destruct (evict_to_cap_ok _ h' (ls ++ fs) (store_ok_resident _ _ Hok1) He) as (ds & ls' & Heq & Hok' & Ht & Hres).
  exists fs, ds, ls'. split_and!; [done|done|done| |done]. change (evicted h) with (evicted h0). rewrite <-He1. exact Ht.
Qed.

(** ** Any sequence of appends *)

Lemma append_lines_ok ls h log :
  Forall line_sound ls →
  (∃ ds kept, log = ds ++ kept ∧ store_ok h kept ∧ index_takes evicted_default (evicted h) (line_id <$> ds) ∧
    (resident_bytes h ≤ HISTORY_PER_EXECUTION_BYTE_CAP ∨ kept = [])) →
  ∃ h' fss ds kept, append_lines ls h = Some h' ∧ Forall2 pieces_of ls fss ∧
    log ++ mjoin fss = ds ++ kept ∧ store_ok h' kept ∧
    index_takes evicted_default (evicted h') (line_id <$> ds) ∧
    (resident_bytes h' ≤ HISTORY_PER_EXECUTION_BYTE_CAP ∨ kept = []).
Proof.
  intros Hls. revert h log. induction Hls as [|l ls Hl _ IH]; intros h log (ds & kept & -> & Hok & Htake & Hres).
  { exists h, [], ds, kept. split_and!; try done. by rewrite app_nil_r. }
  destruct (append_line_total l h) as [h1 H1]; [destruct Hl; lia..|].
  destruct (append_line_ok l h h1 kept Hok Hl H1) as (fs & ds1 & kept1 & Hfs & Heq & Hok1 & Htake1 & Hres1).
  destruct (IH h1 (ds ++ ds1 ++ kept1)) as (h' & fss & ds' & kept' & Ha & Hfss & Heq' & Hrest).
  { exists (ds ++ ds1), kept1. split_and!; [by rewrite app_assoc|done| |done].
    rewrite fmap_app. by eapply index_takes_trans. }
  exists h', (fs :: fss), ds', kept'. split_and!; [| |cbn|apply Hrest..].
  - unfold append_lines in *. cbn [foldl]. cbn [mbind option_bind]. by rewrite H1.
  - by constructor.
  - rewrite <-Heq', <-Heq. by rewrite <-!app_assoc.
Qed.

Lemma store_default_ok : store_ok store_default [].
Proof. split; done. Qed.

Lemma cut_into_ids id brk o us fs : cut_into id brk o us fs → Forall (λ f, line_id f = id) fs.
Proof. induction 1; by repeat constructor. Qed.

(** Pieces carry the identity of their line. *)
Lemma fragments_ids ls fss :
  Forall2 pieces_of ls fss → ∀ P : LineId → Prop, Forall P (line_id <$> ls) → ∀ id, id ∈ line_id <$> mjoin fss → P id.
Proof.
  induction 1 as [|l fs ls fss Hf _ IH]; intros P Hp id; cbn [fmap list_fmap mjoin list_join] in *; [by intros ?%not_elem_of_nil|].
  apply Forall_cons in Hp as [Hl Hp]. rewrite fmap_app. intros [(f & -> & Hin)%list_elem_of_fmap|Hid]%elem_of_app; [|by eapply IH].
  apply cut_into_ids in Hf. rewrite Forall_forall in Hf. by rewrite (Hf f Hin).
Qed.

Lemma fragments_sorted ls fss :
  Forall2 pieces_of ls fss → StronglySorted N.le (line_id <$> ls) →
  StronglySorted N.le (line_id <$> mjoin fss) ∧ ∀ id, id ∈ line_id <$> mjoin fss → id ∈ line_id <$> ls.
Proof.
  induction 1 as [|l fs ls fss Hf _ IH]; intros Hs; [done|]. cbn [fmap list_fmap] in Hs.
  apply StronglySorted_cons in Hs as [Hl Hs]. destruct (IH Hs) as [IH1 IH2].
  apply cut_into_ids in Hf. cbn [mjoin list_join]. rewrite fmap_app.
  assert (∀ id, id ∈ line_id <$> fs → id = line_id l) as Hids.
  { intros id (f & -> & Hin)%list_elem_of_fmap. rewrite Forall_forall in Hf. by apply Hf. }
  split.
  - apply StronglySorted_app_2; [|clear -Hids|done].
    + intros x y Hx Hy. rewrite (Hids x Hx). rewrite Forall_forall in Hl. by apply Hl, IH2.
    + induction (line_id <$> fs) as [|x xs IHx]; constructor.
      * apply IHx. intros id Hid. by apply Hids, elem_of_cons; right.
      * apply Forall_forall. intros y Hy. rewrite (Hids x), (Hids y); [done|apply elem_of_cons; auto..].
  - intros id [Hid|Hid]%elem_of_app; apply elem_of_cons; [left; by apply Hids|right; by apply IH2].
Qed.
End retain.

(** C23. The history store refines a queue of lines.  Appending any sequence of lines whose
    units fit a segment never panics; each line is kept as pieces that concatenate to it,
    and the retained lines are exactly the newest part of everything appended, however they
    are spread over sealed segments and the tail: sealing into the flat arrays of a segment
    and reading them back loses no unit, byte, width, style, offset or break.  Afterwards the
    accounted memory is within the cap, or nothing is retained.  Of the identities of the lines
    dropped from the front, the eviction index reports those that were larger than every
    identity dropped before them and, while it is not saturated, no other identity: all the
    dropped ones when lines arrive in the order of their identities, and not a line that was
    dropped after one with a larger identity. *)
Theorem history_keeps_newest `{Memory} (ls : list HistoryLine) :
  Forall line_sound ls →
  ∃ h fss ds kept, append_lines ls store_default = Some h ∧ Forall2 pieces_of ls fss ∧
    mjoin fss = ds ++ kept ∧ entries h = Some kept ∧
    (resident_bytes h ≤ HISTORY_PER_EXECUTION_BYTE_CAP ∨ kept = []) ∧
    (Forall (λ l, line_id l ≤ u64_max) ls →
     (∀ id, new_maximum (line_id <$> ds) id → line_was_evicted id (evicted h) = true) ∧
     (evicted_index_saturated (evicted h) = false →
      ∀ id, line_was_evicted id (evicted h) = true → new_maximum (line_id <$> ds) id) ∧
     (StronglySorted N.le (line_id <$> ls) →
      ∀ id, id ∈ line_id <$> ds → line_was_evicted id (evicted h) = true)).
Proof.
  intros Hls. destruct (append_lines_ok ls store_default [] Hls) as (h & fss & ds & kept & Ha & Hf & Heq & Hok & Ht & Hres).
  { exists [], []. split_and!; [done|apply store_default_ok|apply index_takes_nil|by right]. }
  exists h, fss, ds, kept. split_and!; [done|done|done|apply Hok|done|]. intros Hm. cbn [app] in Heq.
  destruct (Ht [] index_default_holds) as (_ & _ & H1 & H2); cbn [app] in *.
  { apply Forall_forall. intros id Hid. apply (fragments_ids ls fss Hf) with (P := λ id, id ≤ u64_max); [by apply Forall_fmap|].
    rewrite Heq, fmap_app. apply elem_of_app. by left. }
  split_and!; [done|done|]. intros Hs id Hid. apply H1, new_maximum_sorted; [|done].
  destruct (fragments_sorted ls fss Hf Hs) as [Hs1 _]. rewrite Heq, fmap_app in Hs1.
  by apply StronglySorted_app in Hs1 as (_ & Hs1 & _).
Qed.

Lemma history_keeps_newest_witness :
  let l n := mkLine n [mkUnit [97] 1 style_default; mkUnit [195; 169] 1 style_default] HardBreak 0 in
  ∃ h fss ds kept, @append_lines exact_memory [l 1; l 2] store_default = Some h ∧ Forall2 pieces_of [l 1; l 2] fss ∧
    mjoin fss = ds ++ kept ∧ entries h = Some kept ∧
    (resident_bytes h ≤ HISTORY_PER_EXECUTION_BYTE_CAP ∨ kept = []) ∧
    (∀ id, new_maximum (line_id <$> ds) id → line_was_evicted id (evicted h) = true).
Proof.
  intros l. destruct (@history_keeps_newest exact_memory [l 1; l 2]) as (h & fss & ds & kept & H1 & H2 & H3 & H4 & H5 & H6).
  - repeat constructor; vm_compute; done.
  - exists h, fss, ds, kept. split_and!; [exact H1|exact H2|exact H3|exact H4|exact H5|]. apply H6. repeat constructor; done.
Defined.
