(* ===== verification/HistoryTruncate.v ===== *)
(** Cutting the newest part off the history ([HistoryStore::truncate_from]) and what every
    operation of the store keeps.

    The code pops lines off the back of the tail and of the newest segment, and leaves older
    segments whole; the specification, [units_before_cut], scans the lines from the front.
    They agree as long as the cut does not lie behind the newest segment. *)

From stdpp Require Import sorting.
From S2P Require Import Prelude Utf8 Types HistoryTypes Memory Wrap WrapIndex Eviction HistoryStore HistoryRetain.

Implicit Types (l : HistoryLine) (from : HistoryAnchor).

(** * The lines before a cut *)

(** Source order: identities grow, and pieces of one line follow each other. *)
Definition source_before l l' : Prop :=
  line_id l < line_id l' ∨
  line_id l = line_id l' ∧ start_offset l + vlen (units l) ≤ start_offset l'.

Definition source_ordered : list HistoryLine → Prop := StronglySorted source_before.

Definition kept from (ls : list HistoryLine) : list HistoryLine := (kept_lines from ls).1.

Lemma before_iff l from :
  line_entirely_before l from = true ↔
  line_id l < a_line_id from ∨
  line_id l = a_line_id from ∧ start_offset l < unit_offset from ∧
    sat_add u32_max (start_offset l) (to_u32 (vlen (units l))) ≤ unit_offset from.
Proof.
  unfold line_entirely_before, range_entirely_before.
  destruct (N.ltb_spec (line_id l) (a_line_id from)); [naive_solver|].
  destruct (N.ltb_spec (a_line_id from) (line_id l)); [split; [done|lia]|].
  rewrite andb_true_iff, N.ltb_lt, N.leb_le. split; [|lia]. intros [H1 H2]. right. split_and!; [lia|done|done].
Qed.

(** Whatever precedes a line before the cut, or a line the cut falls on, is before it. *)
Lemma before_earlier l l' from :
  source_before l l' →
  line_entirely_before l' from = true ∨ line_id l' = a_line_id from ∧ start_offset l' < unit_offset from →
  line_entirely_before l from = true.
Proof.
  intros Hs Hl. apply before_iff. assert (line_id l' < a_line_id from ∨
    line_id l' = a_line_id from ∧ start_offset l' < unit_offset from) as Hl'.
  { destruct Hl as [Hl%before_iff|]; [|by right]. naive_solver. }
  unfold sat_add, to_u32. destruct Hs as [Hs|[Hs1 Hs2]], Hl' as [Hl'|[Hl1 Hl2]]; [left; lia..|].
  right. split_and!; lia.
Qed.

Lemma cut_of_Some l from k :
  cut_of from l = Some k → line_id l = a_line_id from ∧ start_offset l < unit_offset from.
Proof.
  unfold cut_of. destruct (_ && _) eqn:Hc; [|done]. apply andb_true_iff in Hc as [H1%N.eqb_eq H2%N.ltb_lt]. done.
Qed.

Lemma kept_before_app from ls ls' :
  Forall (λ l, line_entirely_before l from = true) ls → kept from (ls ++ ls') = ls ++ kept from ls'.
Proof.
  unfold kept. induction 1 as [|l ls Hl _ IH]; [done|]. cbn [app kept_lines]. rewrite Hl.
  destruct (kept_lines from (ls ++ ls')). cbn [fst] in *. by rewrite IH.
Qed.

Lemma kept_all from ls : Forall (λ l, line_entirely_before l from = true) ls → kept from ls = ls.
Proof. intros Hl. rewrite <-(app_nil_r ls) at 1. rewrite kept_before_app by done. by rewrite app_nil_r. Qed.

Lemma kept_stops from ls ls' :
  (kept_lines from ls).2 = true → kept from (ls ++ ls') = kept from ls.
Proof.
  unfold kept. induction ls as [|l ls IH]; [done|]. cbn [app kept_lines]. destruct (line_entirely_before l from).
  - destruct (kept_lines from ls) as [k r], (kept_lines from (ls ++ ls')) as [k' r']. cbn [fst snd] in *. intros Hr.
    f_equal. by apply IH.
  - by destruct (cut_of from l).
Qed.

Lemma kept_reached from ls :
  (kept_lines from ls).2 = false → Forall (λ l, line_entirely_before l from = true) ls.
Proof.
  induction ls as [|l ls IH]; [constructor|]. cbn [kept_lines]. destruct (line_entirely_before l from) eqn:Hl.
  - destruct (kept_lines from ls). intros Hr. constructor; [done|by apply IH].
  - by destruct (cut_of from l).
Qed.

Lemma kept_app_nil from ls ls' : kept from ls' = [] → kept from (ls ++ ls') = kept from ls.
Proof.
  intros Hk. destruct (kept_lines from ls).2 eqn:Hr; [by apply kept_stops|]. apply kept_reached in Hr.
  by rewrite kept_before_app, (kept_all from ls), Hk, app_nil_r.
Qed.

(** A line after the cut at the end of a list adds nothing. *)
Lemma kept_drop_last from ls l :
  line_entirely_before l from = false → cut_of from l = None → kept from (ls ++ [l]) = kept from ls.
Proof.
  intros Hl Hc. apply kept_app_nil. unfold kept. cbn [kept_lines]. by rewrite Hl, Hc.
Qed.

Lemma ordered_before_last ls l from :
  source_ordered (ls ++ [l]) →
  line_entirely_before l from = true ∨ line_id l = a_line_id from ∧ start_offset l < unit_offset from →
  Forall (λ l, line_entirely_before l from = true) ls.
Proof.
  intros Hs Hl. apply StronglySorted_app in Hs as (Hr & _ & _). apply Forall_forall. intros x Hx.
  eapply before_earlier; [|exact Hl]. apply Hr; [done|]. by apply list_elem_of_singleton.
Qed.

(** The loop over the tail, from the back, is the scan from the front; it returns early only
    when the cut falls on a line, and stops before emptying the tail only when a line is
    before the cut. *)
Lemma truncate_tail_ok from ts rt early :
  source_ordered (tl_line <$> ts) → truncate_tail from (reverse ts) = (rt, early) →
  tl_line <$> reverse rt = kept from (tl_line <$> ts) ∧
  ((early = false ∧ rt = []) ∨
   ∃ t, t ∈ ts ∧
     (line_entirely_before (tl_line t) from = true ∨
      line_id (tl_line t) = a_line_id from ∧ start_offset (tl_line t) < unit_offset from)).
Proof.
  revert rt. induction ts as [|t ts IH] using rev_ind; intros rt Hs; [intros [= <- <-]; by auto|].
  rewrite reverse_snoc. cbn [truncate_tail]. rewrite fmap_app in *. cbn [fmap list_fmap] in *.
  destruct (line_entirely_before (tl_line t) from) eqn:Hb.
  - intros [= <- <-]. rewrite reverse_cons, reverse_involutive, fmap_app. cbn [fmap list_fmap]. split.
    + rewrite kept_all; [done|]. apply Forall_app_2; [|by constructor]. eapply ordered_before_last; [exact Hs|by left].
    + right. exists t. split; [|by left]. apply elem_of_app. right. by apply list_elem_of_singleton.
  - destruct (cut_of from (tl_line t)) as [k|] eqn:Hc.
    + pose proof (cut_of_Some _ _ _ Hc) as Hcut. intros Heq.
      assert (Forall (λ l, line_entirely_before l from = true) (tl_line <$> ts)) as Hall.
      { eapply ordered_before_last; [exact Hs|by right]. }
      split; [|right; exists t; split; [|by right]; apply elem_of_app; right; by apply list_elem_of_singleton].
      rewrite kept_before_app by done. unfold kept. cbn [kept_lines]. rewrite Hb, Hc.
      destruct k as [|k]; injection Heq as <- <-; cbn [fst Nat.ltb Nat.leb].
      * by rewrite reverse_involutive, app_nil_r.
      * rewrite reverse_cons, reverse_involutive, fmap_app. done.
    + intros Heq. assert (source_ordered (tl_line <$> ts)) as Hs' by (by apply StronglySorted_app in Hs as (_ & Hs & _)).
      destruct (IH rt Hs' Heq) as [H1 H2]. split; [by rewrite kept_drop_last|].
      destruct H2 as [|(t' & Ht' & H3)]; [by left|]. right. exists t'. split; [|done]. apply elem_of_app. by left.
Qed.

(** * Truncation keeps the lines before the cut *)

Lemma bytes_of_take k us : bytes_of (take k us) ≤ bytes_of us.
Proof. rewrite <-(take_drop k us) at 2. rewrite bytes_of_app. lia. Qed.

Lemma kept_fits from ls : Forall line_fits ls → Forall line_fits (kept from ls) ∧ total_bytes (kept from ls) ≤ total_bytes ls.
Proof.
  unfold kept. induction 1 as [|l ls [Hl1 Hl2 Hl3] _ [IH1 IH2]]; [done|]. cbn [kept_lines total_bytes foldr]. fold (total_bytes ls).
  destruct (line_entirely_before l from).
  { destruct (kept_lines from ls). cbn [fst total_bytes foldr] in *. split; [by constructor|]. unfold total_bytes in *. lia. }
  destruct (cut_of from l) as [k|]; [|cbn; split; [constructor|lia]].
  pose proof (bytes_of_take k (units l)) as Hk. change (bytes_of (units l)) with (canonical_payload_len l) in Hk.
  destruct (0 <? k)%nat; cbn [fst]; [|cbn; split; [constructor|lia]]. split.
  - constructor; [|done]. split; [by apply Forall_take|change (canonical_payload_len _) with (bytes_of (take k (units l))); lia|].
    cbn. rewrite length_take. lia.
  - cbn [total_bytes foldr]. change (canonical_payload_len (cut_line k l)) with (bytes_of (take k (units l))). lia.
Qed.

(** ** In terms of single units *)

(** The units of a line with their addresses. *)
Definition located l : list (HistoryAnchor * HistoryUnit) :=
  imap (λ i u, (mkAnchor (line_id l) (start_offset l + N.of_nat i), u)) (units l).

Definition anchor_before (a from : HistoryAnchor) : bool :=
  (a_line_id a <? a_line_id from) || (a_line_id a =? a_line_id from) && (unit_offset a <? unit_offset from).

Definition units_before_cut from (ls : list HistoryLine) : list (HistoryAnchor * HistoryUnit) :=
  List.filter (λ x, anchor_before x.1 from) (ls ≫= located).

Lemma anchor_before_iff a from :
  anchor_before a from = true ↔
  a_line_id a < a_line_id from ∨ a_line_id a = a_line_id from ∧ unit_offset a < unit_offset from.
Proof. unfold anchor_before. by rewrite orb_true_iff, andb_true_iff, !N.ltb_lt, N.eqb_eq. Qed.

Lemma filter_all {A} (f : A → bool) (xs : list A) : Forall (λ x, f x = true) xs → List.filter f xs = xs.
Proof. induction 1 as [|x xs Hx _ IH]; [done|]. cbn [List.filter]. by rewrite Hx, IH. Qed.
Lemma filter_none {A} (f : A → bool) (xs : list A) : Forall (λ x, f x = false) xs → List.filter f xs = [].
Proof. induction 1 as [|x xs Hx _ IH]; [done|]. cbn [List.filter]. by rewrite Hx. Qed.

Lemma located_lookup l i x :
  located l !! i = Some x →
  a_line_id x.1 = line_id l ∧ unit_offset x.1 = start_offset l + N.of_nat i ∧ (i < length (units l))%nat.
Proof.
  unfold located. rewrite list_lookup_imap. intros (u & Hu & ->)%fmap_Some. cbn. split_and!; [done|done|].
  by apply lookup_lt_Some in Hu.
Qed.

Lemma located_before l from :
  line_fits l → line_entirely_before l from = true → List.filter (λ x, anchor_before x.1 from) (located l) = located l.
Proof.
  intros [_ _ Ho] Hb%before_iff. apply filter_all, Forall_lookup_2. intros i x (H1 & H2 & H3)%located_lookup.
  apply anchor_before_iff. rewrite H1, H2. unfold sat_add, to_u32 in Hb.
  destruct Hb as [|(-> & _ & Hb)]; [by left|right]. lia.
Qed.

Lemma located_cut l from :
  line_entirely_before l from = false →
  List.filter (λ x, anchor_before x.1 from) (located l) =
  match cut_of from l with Some k => located (cut_line k l) | None => [] end.
Proof.
  intros Hb. assert (¬ line_id l < a_line_id from) as Hid.
  { intros Hlt. assert (line_entirely_before l from = true); [|congruence]. apply before_iff. by left. }
  destruct (cut_of from l) as [k|] eqn:Hc.
  - unfold cut_of in Hc. destruct (_ && _) eqn:Hcond; [|done]. injection Hc as <-.
    apply andb_true_iff in Hcond as [Heq%N.eqb_eq Hlt%N.ltb_lt]. set (k := N.to_nat _).
    assert (located l = located (cut_line k l) ++ drop k (located l)) as Hsplit.
    { unfold located at 1 2. unfold cut_line. cbn. rewrite <-(take_drop k (imap _ (units l))) at 1. f_equal.
      apply list_eq. intros i. destruct (decide (i < k)%nat).
      - rewrite lookup_take_lt, !list_lookup_imap, lookup_take_lt by done. done.
      - rewrite lookup_take_ge, list_lookup_imap, lookup_take_ge by lia. done. }
    rewrite Hsplit at 1. rewrite List.filter_app, filter_all, filter_none; [apply app_nil_r| |].
    + apply Forall_lookup_2. intros i x. rewrite lookup_drop. intros (H1 & H2 & H3)%located_lookup.
      apply not_true_iff_false. rewrite anchor_before_iff, H1, H2. subst k. lia.
    + apply Forall_lookup_2. intros i x (H1 & H2 & H3)%located_lookup. apply anchor_before_iff. rewrite H1, H2.
      right. unfold cut_line in *. cbn in *. rewrite length_take in H3. subst k. lia.
  - apply filter_none, Forall_lookup_2. intros i x (H1 & H2 & H3)%located_lookup.
    apply not_true_iff_false. rewrite anchor_before_iff, H1, H2. intros [|[Heq Hlt]]; [done|].
    unfold cut_of in Hc. destruct (_ && _) eqn:Hcond; [done|]. apply andb_false_iff in Hcond as [?%N.eqb_neq|?%N.ltb_ge]; [done|lia].
Qed.

(** The scan keeps exactly the units whose address is before the cut. *)
Lemma kept_units from ls :
  Forall line_fits ls → source_ordered ls → kept from ls ≫= located = units_before_cut from ls.
Proof.
  unfold units_before_cut, kept. intros Hf. induction Hf as [|l ls Hl Hls IH]; intros Hs; [done|].
  apply StronglySorted_cons in Hs as [Hl1 Hs]. cbn [kept_lines mbind list_bind]. rewrite List.filter_app.
  destruct (line_entirely_before l from) eqn:Hb.
  { destruct (kept_lines from ls). cbn [fst mbind list_bind] in *. rewrite (located_before l from Hl Hb). f_equal. by apply IH. }
  rewrite located_cut by done. rewrite (filter_none _ (ls ≫= located)), app_nil_r.
  2: { apply Forall_forall. intros x (l' & Hx & Hl')%list_elem_of_bind. apply list_elem_of_lookup_1 in Hx as [i Hx].
    apply located_lookup in Hx as (H1 & H2 & _). apply not_true_iff_false. rewrite anchor_before_iff, H1, H2. intros Hlt.
    rewrite Forall_forall in Hl1. rewrite (before_earlier l l' from) in Hb; [done|by apply Hl1|].
    destruct Hlt as [Hlt|[? ?]]; [left; apply before_iff; by left|right; split; [done|lia]]. }
  destruct (cut_of from l) as [k|]; [|done]. destruct k as [|k]; [done|]. cbn [Nat.ltb Nat.leb fst mbind list_bind].
  apply app_nil_r.
Qed.

Section truncate.
Context `{Memory}.
Implicit Types (h : HistoryStore).

(** The lines of every segment but the newest. *)
Definition older_lines h : option (list HistoryLine) :=
  let ss := items (segments h) in
  mjoin <$> mapM sealed_lines (take (length ss - 1) ss).

(** They are all before the cut. *)
Definition cut_in_newest from h : bool :=
  forallb (λ l, line_entirely_before l from) (default [] (older_lines h)).

Lemma push_kept_ok ls h kept_before :
  store_ok h kept_before → Forall line_fits ls →
  ∃ h', push_kept ls h = Some h' ∧ store_ok h' (kept_before ++ ls) ∧ evicted h' = evicted h.
Proof.
  intros Hok Hf. revert h kept_before Hok. unfold push_kept.
  induction Hf as [|l ls Hl _ IH]; intros h ks Hok; cbn [foldl].
  { exists h. by rewrite app_nil_r. }
  cbn [mbind option_bind]. destruct (push_fragment_total (mkTail l (cloned_caps l)) false h) as [h1 H1]. rewrite H1.
  destruct (push_fragment_ok (mkTail l _) _ _ _ _ Hok Hl H1) as [Hok1 He1]. destruct (IH h1 _ Hok1) as (h' & -> & Hok' & He').
  exists h'. rewrite <-app_assoc in Hok'. split_and!; [done|done|congruence].
Qed.

Lemma vslice_length {A} (l s : list A) a b : vslice l a b = Some s → vlen s = b - a.
Proof.
  unfold vslice. destruct (_ && _) eqn:Hb; [|done]. intros [= <-].
  apply andb_true_iff in Hb as [H1%N.leb_le H2%N.leb_le]. rewrite length_take, length_drop. lia.
Qed.

Lemma sealed_len a n : a + n ≤ u32_max → n = to_u32 (sat_add usize_max a n - a).
Proof.
  assert (u32_max ≤ usize_max) as Hm by (by apply N.leb_le). revert Hm. unfold to_u32, sat_add.
  generalize u32_max usize_max. intros m m'. lia.
Qed.

Lemma sealed_last s ls (l : SegmentLine) :
  segment_ok s → sealed_lines s = Some ls → last (seg_lines s) = Some l →
  ∃ l', last ls = Some l' ∧ ∀ from,
    range_entirely_before (sl_line_id l) (sl_start_offset l) (sl_unit_len l) from = line_entirely_before l' from.
Proof.
  intros [_ Hok] Hs Hl. rewrite last_lookup in Hl. unfold sealed_lines in Hs. apply mapM_Some in Hs.
  destruct (Forall2_lookup_l _ _ _ _ _ Hs Hl) as (l' & Hl' & Hr). exists l'. split.
  { rewrite last_lookup. apply Forall2_length in Hs. by rewrite <-Hs. }
  intros from. apply bind_Some in Hr as (us & Hus & [= <-]). unfold line_entirely_before.
  cbn [line_id start_offset units]. f_equal. rewrite length_fmap.
  rewrite Forall_lookup in Hok. specialize (Hok _ _ Hl). unfold segment_line_ok in Hok.
  rewrite (vslice_length _ _ _ _ Hus). apply sealed_len. exact Hok.
Qed.

Lemma sealed_app h ss s ls :
  items (segments h) = ss ++ [s] → store_ok h ls →
  ∃ olds ds, mapM sealed_lines ss = Some olds ∧ sealed_lines s = Some ds ∧ ls = mjoin olds ++ ds ++ tail_lines h.
Proof.
  intros Hi Hok. destruct (store_ok_split h ls Hok) as (sealed & Hs & ->). rewrite Hi, mapM_app in Hs.
  destruct (mapM sealed_lines ss) as [olds|]; [|done]. cbn [mbind option_bind mapM] in Hs.
  destruct (sealed_lines s) as [ds|]; [|done]. injection Hs as <-. exists olds, ds. split_and!; [done|done|].
  rewrite join_app. cbn [mjoin list_join]. by rewrite app_nil_r, app_assoc.
Qed.

Lemma older_lines_split h sealed :
  mapM sealed_lines (items (segments h)) = Some sealed →
  ∃ older newest, older_lines h = Some older ∧ mjoin sealed = older ++ newest.
Proof.
  unfold older_lines. destruct (items (segments h)) as [|s ss _] using rev_ind; [intros [= <-]; by exists [], []|].
  rewrite length_app, take_app_length' by (cbn; lia). rewrite mapM_app.
  destruct (mapM sealed_lines ss) as [olds|]; [|done]. cbn [mbind option_bind mapM]. destruct (sealed_lines s) as [ds|]; [|done].
  intros [= <-]. exists (mjoin olds), ds. split; [done|]. rewrite join_app. cbn [mjoin list_join]. by rewrite app_nil_r.
Qed.

(** The loop over segments: it stops at a segment whose last line is before the cut, and
    otherwise cuts the newest segment and stops there. *)
Lemma truncate_segments_run fuel from h segs :
  store_ok h (segs ++ tail_lines h) →
  ∃ h' ls', truncate_segments (S fuel) from h = Some h' ∧ store_ok h' ls' ∧ evicted h' = evicted h ∧
    (ls' = segs ++ tail_lines h ∧ (segs = [] ∨ ∃ ls l, segs = ls ++ [l] ∧ line_entirely_before l from = true) ∨
     ∃ olds ds l, mapM sealed_lines (take (length (items (segments h)) - 1) (items (segments h))) = Some olds ∧
       segs = mjoin olds ++ ds ++ [l] ∧ line_entirely_before l from = false ∧
       ls' = mjoin olds ++ tail_lines h ++ kept from (ds ++ [l])).
Proof.
  intros Hok. cbn [truncate_segments]. destruct (last (items (segments h))) as [s|] eqn:Hlast.
  2: { apply last_None in Hlast. destruct (store_ok_split _ _ Hok) as (sealed & Hs & Heq). rewrite Hlast in Hs.
    injection Hs as <-. apply app_inv_tail in Heq as ->. exists h, (tail_lines h). split_and!; [done..|]. left. auto. }
  apply last_Some in Hlast as [ss Hi]. destruct (sealed_app h ss s _ Hi Hok) as (olds & ds & Hss & Hs & Heq).
  rewrite app_assoc in Heq. apply app_inv_tail in Heq as ->.
  pose proof (so_lines _ _ Hok) as Hseg. rewrite Hi in Hseg. apply Forall_app in Hseg as [Hsegs Hseg].
  apply Forall_cons in Hseg as [Hseg _].
  destruct (last (seg_lines s)) as [l|] eqn:Hl; [|apply last_None in Hl; by destruct Hseg].
  destruct (sealed_last s ds l Hseg Hs Hl) as (l' & Hl' & Hrange). rewrite Hrange.
  apply last_Some in Hl' as [ds' ->]. destruct (line_entirely_before l' from) eqn:Hb.
  { exists h. eexists. split_and!; [done|exact Hok|done|]. left. split; [done|]. right.
    exists (mjoin olds ++ ds'), l'. by rewrite app_assoc. }
  rewrite Hs. cbn [mbind option_bind]. destruct (kept_lines from (ds' ++ [l'])) as [keep reached] eqn:Hk.
  destruct reached.
  2: { exfalso. assert ((kept_lines from (ds' ++ [l'])).2 = false) as Hr by (by rewrite Hk).
    apply kept_reached, Forall_app in Hr as [_ Hr]. apply Forall_cons in Hr as [Hr _]. congruence. }
  match goal with |- context [push_kept keep ?x] => set (h1 := x) end.
  pose proof (so_fits _ _ Hok) as Hf. apply Forall_app in Hf as [Hf Hft]. apply Forall_app in Hf as [Hf Hfd].
  assert (take (length (items (segments h)) - 1) (items (segments h)) = ss) as Htake.
  { rewrite Hi, take_app_length' by (rewrite length_app; cbn; lia). done. }
  assert (store_ok h1 (mjoin olds ++ tail_lines h)) as Hok1.
  { apply (store_ok_intro h1 olds); [|done|by apply Forall_app_2|apply Hok|apply Hok|]; subst h1; cbn; by rewrite Htake. }
  destruct (push_kept_ok keep h1 _ Hok1) as (h' & Hp & Hok' & He').
  { change keep with ((keep, true).1). rewrite <-Hk. by apply kept_fits. }
  rewrite Hp. cbn [mbind option_bind]. exists h'. eexists. split_and!; [done|exact Hok'|done|]. right.
  exists olds, ds', l'. rewrite Htake. split_and!; [done|done|done|]. unfold kept. rewrite Hk. by rewrite <-app_assoc.
Qed.

(** On an emptied tail, or on segments that are all before the cut: the older segments stay
    whole. *)
Lemma truncate_segments_ok fuel from h segs older newest :
  store_ok h (segs ++ tail_lines h) → source_ordered segs → segs = older ++ newest → older_lines h = Some older →
  tail_lines h = [] ∨ Forall (λ l, line_entirely_before l from = true) segs →
  ∃ h', truncate_segments (S fuel) from h = Some h' ∧ store_ok h' (older ++ kept from newest ++ tail_lines h) ∧
    evicted h' = evicted h.
Proof.
  intros Hok Hord Heq Hold Hcase. destruct (truncate_segments_run fuel from h segs Hok) as (h' & ls' & Hr & Hok' & He & Hend).
  exists h'. split_and!; [done| |done]. destruct Hend as [[-> Hb]|(olds & ds & l & Hm & Hsegs & Hl & ->)].
  - rewrite kept_all; [by rewrite app_assoc, <-Heq|]. assert (Forall (λ l, line_entirely_before l from = true) segs) as Hall.
    { destruct Hb as [->|(ls & l & -> & Hl)]; [done|]. apply Forall_app_2; [|by constructor].
      eapply ordered_before_last; [exact Hord|by left]. }
    rewrite Heq in Hall. by apply Forall_app in Hall as [_ Hall].
  - unfold older_lines in Hold. rewrite Hm in Hold. injection Hold as <-. rewrite Hsegs in Heq. apply app_inv_head in Heq as <-.
    assert (tail_lines h = []) as Ht.
    { destruct Hcase as [|Hall]; [done|]. rewrite Hsegs in Hall. apply Forall_app in Hall as [_ Hall].
      apply Forall_app in Hall as [_ Hall]. apply Forall_cons in Hall as [Hall _]. congruence. }
    rewrite Ht in *. by rewrite app_nil_r.
Qed.

Lemma recount_ok h sealed ls :
  mapM sealed_lines (items (segments h)) = Some sealed → ls = mjoin sealed ++ tail_lines h →
  Forall line_fits ls → total_bytes (tail_lines h) ≤ HISTORY_SEGMENT_PAYLOAD_TARGET →
  Forall segment_ok (items (segments h)) → store_ok (recount_tail h) ls.
Proof.
  intros Hs Hls Hf Ht Hl.
  assert (tail_payload_bytes (recount_tail h) = total_bytes (tail_lines h)) as Heq.
  { unfold recount_tail, tail_lines, total_bytes. cbn. induction (items (tail h)) as [|t ts IH]; [done|]. cbn. by rewrite IH. }
  apply (store_ok_intro _ sealed); [done|done|done| |by rewrite Heq|done]. rewrite Heq. done.
Qed.

Lemma store_ok_recount h ls : store_ok h ls → store_ok (recount_tail h) ls.
Proof.
  intros Hok. destruct (store_ok_split h ls Hok) as (sealed & Hs & ->).
  eapply recount_ok; [exact Hs|done|apply Hok| |apply Hok]. rewrite <-(so_payload _ _ Hok). apply Hok.
Qed.

Lemma truncate_from_ok from h ls :
  store_ok h ls → source_ordered ls →
  ∃ h' older newer, ls = older ++ newer ∧ older_lines h = Some older ∧
    truncate_from from h = Some h' ∧ store_ok h' (older ++ kept from newer) ∧ evicted h' = evicted h.
Proof.
  intros Hok Hord. unfold truncate_from. cbv zeta. cbn [tail].
  destruct (truncate_tail from _) as [rt early] eqn:Ht. change (tail (h <| reflow_cache := None |>)) with (tail h) in Ht.
  destruct (store_ok_split h ls Hok) as (sealed & Hs & ->). destruct (older_lines_split h sealed Hs) as (older & newest & Hold & Hseg).
  pose proof (so_fits _ _ Hok) as Hf.
  apply Forall_app in Hf as Hf'. destruct Hf' as [Hf1 Hf2].
  apply StronglySorted_app in Hord as Hord'. destruct Hord' as (Hbetween & Hord1 & Hord2).
  destruct (truncate_tail_ok from (items (tail h)) rt early Hord2 Ht) as [Hkept Hcase].
  change (tl_line <$> items (tail h)) with (tail_lines h) in Hkept.
  match goal with |- context [recount_tail ?x] => set (h0 := x) end.
  assert (tail_lines h0 = kept from (tail_lines h)) as Htl by exact Hkept.
  destruct (kept_fits from (tail_lines h) Hf2) as [Hkf Hkb].
  assert (store_ok (recount_tail h0) (mjoin sealed ++ kept from (tail_lines h))) as Hok0.
  { eapply recount_ok; [exact Hs|by rewrite Htl|by apply Forall_app_2| |apply Hok].
    rewrite Htl. pose proof (so_payload _ _ Hok). pose proof (so_tail _ _ Hok). lia. }
  assert (rt ≠ [] ∨ early = true → Forall (λ l, line_entirely_before l from = true) (mjoin sealed)) as Hbefore.
  { destruct Hcase as [[-> ->]|(t & Hin & Hb)]; [naive_solver|]. intros _. apply Forall_forall. intros x Hx.
    eapply before_earlier; [|exact Hb]. apply Hbetween; [done|]. apply list_elem_of_fmap. by exists t. }
  assert (rt ≠ [] ∨ early = true → Forall (λ l, line_entirely_before l from = true) newest) as Hnew.
  { intros Hr. specialize (Hbefore Hr). rewrite Hseg in Hbefore. by apply Forall_app in Hbefore as [_ ?]. }
  assert (∃ h1, (if early then Some (recount_tail h0)
      else h ← truncate_segments (length (items (segments (recount_tail h0))) + 1) from (recount_tail h0); Some (recount_tail h))
      = Some h1 ∧ store_ok h1 (older ++ kept from (newest ++ tail_lines h)) ∧ evicted h1 = evicted h) as (h1 & -> & Hok1 & He1).
  { destruct early.
    { eexists. split_and!; [done| |done]. rewrite kept_before_app by auto. by rewrite app_assoc, <-Hseg. }
    rewrite Nat.add_1_r. change (tail_lines h0) with (tail_lines (recount_tail h0)) in Htl. rewrite <-Htl in Hok0.
    destruct (truncate_segments_ok (length (items (segments (recount_tail h0)))) from (recount_tail h0) (mjoin sealed)
      older newest Hok0) as (h1 & -> & Hok1 & He1); [done|done|exact Hold| |].
    { destruct rt as [|t rt]; [left; rewrite Htl; exact (eq_sym Hkept)|right; apply Hbefore; by left]. }
    eexists. split_and!; [done| |done]. apply store_ok_recount. rewrite Htl in Hok1.
    destruct rt as [|t rt]; [rewrite kept_app_nil by exact (eq_sym Hkept); by rewrite <-Hkept, app_nil_r in Hok1|].
    rewrite kept_all in Hok1 by (apply Hnew; by left). rewrite kept_before_app by (apply Hnew; by left). done. }
  cbn [mbind option_bind].
  destruct (trim_wrap_suffix_total from (wrap_chains (update_resident_bytes h1))) as [cs ->]. cbn [mbind option_bind].
  eexists _, older, (newest ++ tail_lines h). split_and!; [by rewrite Hseg, app_assoc|done|done| |done]. by destruct Hok1.
Qed.

(** ** Every operation keeps the store readable *)

Lemma truncate_tail_fits from rts rt early :
  truncate_tail from rts = (rt, early) → Forall line_fits (tl_line <$> rts) →
  Forall line_fits (tl_line <$> rt) ∧ total_bytes (tl_line <$> rt) ≤ total_bytes (tl_line <$> rts).
Proof.
  revert rt. induction rts as [|t rts IH]; intros rt; cbn [truncate_tail fmap list_fmap]; [by intros [= <- <-]|].
  destruct (line_entirely_before _ _); [by intros [= <- <-]|]. intros Hc Hf. apply Forall_cons in Hf as [[H1 H2 H3] Hf].
  cbn [total_bytes foldr]. fold (total_bytes (tl_line <$> rts)). destruct (cut_of from (tl_line t)) as [k|].
  - pose proof (bytes_of_take k (units (tl_line t))) as Hk. change (bytes_of (units (tl_line t))) with (canonical_payload_len (tl_line t)) in Hk.
    destruct (k =? 0)%nat; injection Hc as <- <-; [split; [done|lia]|]. cbn [fmap list_fmap total_bytes foldr].
    fold (total_bytes (tl_line <$> rts)).
    change (canonical_payload_len (tl_line (mkTail (cut_line k (tl_line t)) _))) with (bytes_of (take k (units (tl_line t)))).
    split; [|lia]. constructor; [|done]. split; [by apply Forall_take|
      change (canonical_payload_len _) with (bytes_of (take k (units (tl_line t)))); lia|cbn; rewrite length_take; lia].
  - destruct (IH rt Hc Hf). split; [done|lia].
Qed.

(** Lines that only have identities with a property. *)
Definition ids_all (P : LineId → Prop) (ls : list HistoryLine) : Prop := Forall (λ l, P (line_id l)) ls.

Lemma truncate_tail_ids P from rts rt early :
  truncate_tail from rts = (rt, early) → ids_all P (tl_line <$> rts) → ids_all P (tl_line <$> rt).
Proof.
  revert rt. induction rts as [|t rts IH]; intros rt; cbn [truncate_tail fmap list_fmap]; [by intros [= <- <-]|].
  destruct (line_entirely_before _ _); [by intros [= <- <-]|]. intros Hc [Ht Hf]%Forall_cons.
  destruct (cut_of from (tl_line t)) as [[|k]|]; [by injection Hc as <- <-| |by eapply IH].
  injection Hc as <- <-. by apply Forall_cons.
Qed.

Lemma kept_ids P from ls : ids_all P ls → ids_all P (kept from ls).
Proof.
  unfold kept, ids_all. induction 1 as [|l ls Hl _ IH]; [constructor|]. cbn [kept_lines]. destruct (line_entirely_before l from).
  - destruct (kept_lines from ls). by apply Forall_cons.
  - destruct (cut_of from l) as [[|k]|]; cbn; [constructor|by apply Forall_singleton|constructor].
Qed.

Lemma total_bytes_reverse ls : total_bytes (reverse ls) = total_bytes ls.
Proof.
  induction ls as [|l ls IH]; [done|]. rewrite reverse_cons, total_bytes_app, IH. cbn [total_bytes foldr]. fold (total_bytes ls). lia.
Qed.

Lemma truncate_from_readable from h ls :
  store_ok h ls →
  ∃ h' ls', truncate_from from h = Some h' ∧ store_ok h' ls' ∧ evicted h' = evicted h ∧ ∀ P, ids_all P ls → ids_all P ls'.
Proof.
  intros Hok. unfold truncate_from. cbv zeta. destruct (truncate_tail from _) as [rt early] eqn:Ht.
  destruct (store_ok_split h ls Hok) as (sealed & Hs & ->). pose proof (so_fits _ _ Hok) as Hf.
  assert (∀ P, ids_all P (tail_lines h) → ids_all P (reverse (tl_line <$> rt))) as Hids.
  { intros P Hp. apply Forall_reverse. eapply truncate_tail_ids; [exact Ht|]. rewrite fmap_reverse. by apply Forall_reverse. }
  apply Forall_app in Hf as [Hf1 Hf2]. apply truncate_tail_fits in Ht as [Hfit Hle].
  2: { change (tail (h <| reflow_cache := None |>)) with (tail h). rewrite fmap_reverse. by apply Forall_reverse. }
  change (tail (h <| reflow_cache := None |>)) with (tail h) in Hle. rewrite fmap_reverse, total_bytes_reverse in Hle.
  match goal with |- context [recount_tail ?x] => set (h0 := x) end.
  assert (tail_lines h0 = reverse (tl_line <$> rt)) as Htl by (unfold tail_lines, h0; cbn; by rewrite fmap_reverse).
  assert (store_ok (recount_tail h0) (mjoin sealed ++ tail_lines (recount_tail h0))) as Hok0.
  { eapply recount_ok; [exact Hs|done| | |apply Hok]; change (tail_lines (recount_tail h0)) with (tail_lines h0); rewrite Htl.
    - apply Forall_app_2; [done|]. by apply Forall_reverse.
    - rewrite total_bytes_reverse. pose proof (so_payload _ _ Hok) as Hp. pose proof (so_tail _ _ Hok).
      unfold tail_lines in Hp. lia. }
  assert (∀ P, ids_all P (mjoin sealed ++ tail_lines h) → ids_all P (mjoin sealed ++ tail_lines (recount_tail h0))) as Hids0.
  { intros P [Hp1 Hp2]%Forall_app. apply Forall_app_2; [done|]. change (tail_lines (recount_tail h0)) with (tail_lines h0).
    rewrite Htl. by apply Hids. }
  assert (∃ h1 ls1, (if early then Some (recount_tail h0)
      else h ← truncate_segments (length (items (segments (recount_tail h0))) + 1) from (recount_tail h0); Some (recount_tail h))
      = Some h1 ∧ store_ok h1 ls1 ∧ evicted h1 = evicted h ∧
      ∀ P, ids_all P (mjoin sealed ++ tail_lines h) → ids_all P ls1) as (h1 & ls1 & -> & Hok1 & He1 & Hi1).
  { destruct early; [by eexists _, _|]. rewrite Nat.add_1_r.
    destruct (truncate_segments_run (length (items (segments (recount_tail h0)))) from _ _ Hok0) as (h1 & ls1 & -> & Hok1 & He1 & Hcase).
    eexists _, ls1. split_and!; [done|by apply store_ok_recount|done|]. intros P Hp%Hids0.
    destruct Hcase as [[-> _]|(olds & ds & l & _ & Hseg & _ & ->)]; [done|].
    rewrite Hseg in Hp. apply Forall_app in Hp as [Hp Ht]. apply Forall_app in Hp as [Ho Hn].
    apply Forall_app_2; [done|]. apply Forall_app_2; [done|]. by apply kept_ids. }
  cbn [mbind option_bind].
  destruct (trim_wrap_suffix_total from (wrap_chains (update_resident_bytes h1))) as [cs ->].
  eexists _, ls1. split_and!; [done| |done|done]. by destruct Hok1.
Qed.

Lemma evict_oldest_readable h ls :
  store_ok h ls →
  ∃ n h' ds ls', evict_oldest_segment h = Some (n, h') ∧ store_ok h' ls' ∧ ls = ds ++ ls' ∧
    index_takes (evicted h) (evicted h') (line_id <$> ds).
Proof.
  intros Hok. unfold evict_oldest_segment. set (h0 := h <| reflow_cache := None |>).
  assert (store_ok h0 ls) as Hok0 by by destruct Hok.
  destruct (items (segments h0)) as [|s rest] eqn:Hi.
  { eexists _, _, [], ls. split_and!; [done|exact Hok0|done|apply index_takes_nil]. }
  destruct (drop_oldest_total h0) as [h1 H1]. rewrite H1. cbn [mbind option_bind].
  destruct (drop_oldest_ok h0 h1 ls Hok0) as (ds & ls' & Hls & Hok1 & Hrec); [by rewrite Hi|done|].
  unfold trim_before_retained.
  destruct (trim_wrap_before_total (first_anchor h1) (wrap_chains h1)) as [cs ->]. cbn [mbind option_bind].
  eexists _, _, ds, ls'. split_and!; [done|by destruct Hok1|done|]. intros ids Hx Hm.
  destruct (index_holds_record _ _ _ Hx Hm) as (x' & Hr & Hx'). change (evicted h0) with (evicted h) in Hrec.
  rewrite Hr in Hrec. injection Hrec as Hrec. change (index_holds (evicted h1) (ids ++ (line_id <$> ds))). by rewrite <-Hrec.
Qed.

Lemma append_line_readable l h ls :
  store_ok h ls → line_sound l → ∃ h' ls', append_line_store l h = Some h' ∧ store_ok h' ls'.
Proof.
  intros Hok Hl. destruct (append_line_total l h) as [h' Ha]; [destruct Hl; lia..|].
  destruct (append_line_ok l h h' ls Hok Hl Ha) as (_ & _ & ls' & _ & _ & Hok' & _). by exists h', ls'.
Qed.

Lemma replace_payload_readable new h :
  Forall line_sound new → ∃ h' ls', replace_payload new h = Some h' ∧ store_ok h' ls'.
Proof.
  intros Hnew. unfold replace_payload. match goal with |- context [append_lines new ?x] => set (h0 := x) end.
  assert (store_ok h0 []) as Hok0 by (by split).
  clearbody h0. revert h0 Hok0. generalize (@nil HistoryLine). induction Hnew as [|l new Hl _ IH]; intros ls h0 Hok0.
  { by exists h0, ls. }
  destruct (append_line_readable l h0 ls Hok0 Hl) as (h1 & ls1 & H1 & Hok1).
  unfold append_lines in *. cbn [foldl mbind option_bind]. rewrite H1. by apply (IH ls1).
Qed.

(** The operations of the store, as steps. *)
Inductive hstep : HistoryStore → HistoryStore → Prop :=
  | step_append l h h' : line_sound l → append_line_store l h = Some h' → hstep h h'
  | step_truncate from h h' : truncate_from from h = Some h' → hstep h h'
  | step_replace new h h' : Forall line_sound new → replace_payload new h = Some h' → hstep h h'
  | step_evict_oldest n h h' : evict_oldest_segment h = Some (n, h') → hstep h h'
  | step_drop_cache h : hstep h (drop_derived_cache h).

(** Stores reached by operations whose lines carry 64-bit identities, as [LineId] does. *)
Definition id_fits (id : LineId) : Prop := id ≤ u64_max.

Inductive reached : HistoryStore → Prop :=
  | reached_default : reached store_default
  | reached_append l h h' :
      reached h → line_sound l → id_fits (line_id l) → append_line_store l h = Some h' → reached h'
  | reached_truncate from h h' : reached h → truncate_from from h = Some h' → reached h'
  | reached_replace new h h' :
      reached h → Forall line_sound new → ids_all id_fits new → replace_payload new h = Some h' → reached h'
  | reached_evict n h h' : reached h → evict_oldest_segment h = Some (n, h') → reached h'
  | reached_drop_cache h : reached h → reached (drop_derived_cache h).

(** The lines are readable, and the index has recorded some identities. *)
Definition store_sound h ls : Prop :=
  store_ok h ls ∧ ids_all id_fits ls ∧ ∃ ids, index_holds (evicted h) ids.

Lemma append_line_sound l h h' ls :
  store_sound h ls → line_sound l → id_fits (line_id l) → append_line_store l h = Some h' → ∃ ls', store_sound h' ls'.
Proof.
  intros (Hok & Hids & ids & Hx) Hl Hid Ha.
  destruct (append_line_ok l h h' ls Hok Hl Ha) as (fs & ds & ls' & Hfs & Heq & Hok' & Ht & _).
  assert (ids_all id_fits (ds ++ ls')) as [Hd Hl']%Forall_app.
  { rewrite <-Heq. apply Forall_app_2; [done|]. apply cut_into_ids in Hfs. eapply Forall_impl; [exact Hfs|]. by intros ? ->. }
  exists ls'. split_and!; [done|done|]. exists (ids ++ (line_id <$> ds)). apply Ht; [done|]. by apply Forall_fmap.
Qed.

Lemma reached_sound h : reached h → ∃ ls, store_sound h ls.
Proof.
  induction 1 as [|l h h' _ [ls IH] Hl Hid Ha|from h h' _ [ls (Hok & Hids & Hx)] Ht|new h h' _ [ls (_ & _ & Hx)] Hn Hid Hr
    |n h h' _ [ls (Hok & Hids & ids & Hx)] He|h _ [ls (Hok & Hids & Hx)]].
  - exists []. split_and!; [apply store_default_ok|constructor|]. exists []. apply index_default_holds.
  - by eapply append_line_sound.
  - destruct (truncate_from_readable from h ls Hok) as (h1 & ls' & Hr & Hok' & He & Hi). rewrite Ht in Hr.
    injection Hr as <-. exists ls'. split_and!; [done|by apply Hi|by rewrite He].
  - revert Hr. unfold replace_payload. match goal with |- context [append_lines new ?x] => set (h0 := x) end.
    assert (store_sound h0 []) as H0 by (split_and!; [by split|constructor|exact Hx]).
    clearbody h0. revert h0 H0. generalize (@nil HistoryLine). unfold append_lines. clear -Hn Hid.
    induction Hn as [|l new Hl _ IH]; intros ls h0 H0; cbn [foldl mbind option_bind]; [intros [= <-]; by exists ls|].
    apply Forall_cons in Hid as [Hid Hids]. destruct (append_line_store l h0) as [h1|] eqn:H1.
    + destruct (append_line_sound l h0 h1 ls H0 Hl Hid H1) as [ls1 Hs1]. by apply (IH Hids ls1).
    + intros Hf. exfalso. revert Hf. clear. induction new as [|l' new IHl]; [done|apply IHl].
  - destruct (evict_oldest_readable h ls Hok) as (m & h1 & ds & ls' & Hr & Hok' & -> & Ht). rewrite He in Hr.
    injection Hr as <- <-. apply Forall_app in Hids as [Hd Hl']. exists ls'. split_and!; [done|done|].
    exists (ids ++ (line_id <$> ds)). apply Ht; [done|]. by apply Forall_fmap.
  - exists ls. split_and!; [by destruct Hok|done|exact Hx].
Qed.

Lemma hstep_ok h h' ls : store_ok h ls → hstep h h' → ∃ ls', store_ok h' ls'.
Proof.
  intros Hok Hstep. destruct Hstep as [l h h' Hl Hr|from h h' Hr|new h h' Hn Hr|n h h' Hr|h].
  - destruct (append_line_readable l h ls Hok Hl) as (? & ls' & Hr' & ?). exists ls'. congruence.
  - destruct (truncate_from_readable from h ls Hok) as (? & ls' & Hr' & ? & _). exists ls'. congruence.
  - destruct (replace_payload_readable new h Hn) as (? & ls' & Hr' & ?). exists ls'. congruence.
  - destruct (evict_oldest_readable h ls Hok) as (? & ? & ? & ls' & Hr' & ? & _). exists ls'. congruence.
  - exists ls. by destruct Hok.
Qed.

Lemma reachable_ok h : rtc hstep store_default h → ∃ ls, store_ok h ls.
Proof.
  intros Hr. assert (∃ ls, store_ok store_default ls) as H0 by (exists []; apply store_default_ok).
  induction Hr as [|h1 h2 h3 Hstep _ IH]; [done|]. apply IH. destruct H0 as [ls Hok]. by eapply hstep_ok.
Qed.
End truncate.

(** C24. What truncation keeps, on a history in source order (identities grow from line to
    line, and the pieces of one line follow each other).  For every cut: all units of the
    segments older than the newest one, and of the newest segment and the tail exactly the units
    whose address is before the cut, each with its own text, width and style, whether the cut
    falls between lines, inside a line of the tail or inside a sealed line.  So when the older
    segments lie before the cut, exactly the units before the cut are kept; when the cut lies
    in an older segment, that segment stays whole.  Truncation never panics and leaves the
    eviction index alone. *)
Theorem truncate_exact `{Memory} (h : HistoryStore) (ls : list HistoryLine) (from : HistoryAnchor) :
  store_ok h ls → source_ordered ls →
  ∃ h' ls' older newer, ls = older ++ newer ∧ older_lines h = Some older ∧
    truncate_from from h = Some h' ∧ entries h' = Some ls' ∧ evicted h' = evicted h ∧
    ls' ≫= located = (older ≫= located) ++ units_before_cut from newer ∧
    (cut_in_newest from h = true → ls' ≫= located = units_before_cut from ls).
Proof.
  intros Hok Hord. destruct (truncate_from_ok from h ls Hok Hord) as (h' & older & newer & -> & Hold & Hr & Hok' & He).
  pose proof (so_fits _ _ Hok) as Hf. apply Forall_app in Hf as [Hf1 Hf2].
  apply StronglySorted_app in Hord as (_ & Hord1 & Hord2).
  assert ((older ++ kept from newer) ≫= located = (older ≫= located) ++ units_before_cut from newer) as Hunits.
  { rewrite bind_app. f_equal. by apply kept_units. }
  exists h', (older ++ kept from newer), older, newer. split_and!; [done|done|done|apply Hok'|done|done|].
  intros Hcut. rewrite Hunits. unfold cut_in_newest in Hcut. rewrite Hold in Hcut. cbn [default] in Hcut.
  unfold units_before_cut. rewrite bind_app, List.filter_app. f_equal. symmetry. fold (units_before_cut from older).
  rewrite <-kept_units by done. rewrite kept_all; [done|]. apply Forall_forall. intros l Hl.
  rewrite forallb_forall in Hcut. by apply Hcut, list_elem_of_In.
Qed.

Definition demo_line (n : N) : HistoryLine :=
  mkLine n (replicate 80 (mkUnit [97] 1 style_default)) HardBreak 0.
Definition demo_store (n : nat) : HistoryStore :=
  default store_default (@append_lines exact_memory (demo_line <$> (N.of_nat <$> seq 1 n)) store_default).

Lemma truncate_exact_witness :
  ∃ h' ls', @truncate_from exact_memory (mkAnchor 5 30) (demo_store 12) = Some h' ∧ entries h' = Some ls' ∧
    ls' ≫= located = units_before_cut (mkAnchor 5 30) (demo_line <$> (N.of_nat <$> seq 1 12)) ∧
    evicted h' = evicted (demo_store 12).
Proof.
  destruct (@truncate_exact exact_memory (demo_store 12) (demo_line <$> (N.of_nat <$> seq 1 12)) (mkAnchor 5 30))
    as (h' & ls' & older & newer & _ & _ & H1 & H2 & H3 & _ & H4).
  - split; [vm_compute; reflexivity| |vm_compute; reflexivity|apply N.leb_le; vm_compute; reflexivity|].
    + repeat (apply Forall_cons; split; [split; [repeat constructor; done|apply N.leb_le; vm_compute; reflexivity..]|]).
      apply Forall_nil. done.
    + apply (bool_decide_unpack _). vm_compute. exact I.
  - apply (bool_decide_unpack _). vm_compute. exact I.
  - exists h', ls'. split_and!; [exact H1|exact H2| |exact H3]. apply H4. vm_compute. reflexivity.
Defined.

(** A cut behind the newest segment stops short: of thirty lines in three segments and the
    tail, cutting at line 5 leaves lines 5 to 18. *)
Example truncate_stops_at_newest_segment :
  (h ← @truncate_from exact_memory (mkAnchor 5 0) (demo_store 30); ls ← entries h; Some (map line_id ls))
  = Some (N.of_nat <$> seq 1 18).
Proof. vm_compute. reflexivity. Qed.

(** C25. No sequence of operations makes the history unreadable.  Whatever lines are
    appended, wherever the history is cut, however often it is replaced, evicted or loses its
    caches: every sealed line can be read back, the tail's payload is accounted exactly and
    is at most one segment's, and each operation is again defined. *)
Theorem history_stays_readable `{Memory} (h : HistoryStore) :
  rtc hstep store_default h →
  (∃ ls, entries h = Some ls) ∧
  tail_payload_bytes h = total_bytes (tail_lines h) ∧ tail_payload_bytes h ≤ HISTORY_SEGMENT_PAYLOAD_TARGET ∧
  (∀ l, line_sound l → is_Some (append_line_store l h)) ∧ (∀ from, is_Some (truncate_from from h)) ∧
  (∀ new, Forall line_sound new → is_Some (replace_payload new h)) ∧ is_Some (evict_oldest_segment h).
Proof.
  intros [ls Hok]%reachable_ok. split_and!; [exists ls; apply Hok|apply Hok|apply Hok| | | |].
  - intros l Hl. destruct (append_line_readable l h ls Hok Hl) as (h' & _ & -> & _). done.
  - intros from. destruct (truncate_from_readable from h ls Hok) as (h' & _ & -> & _). done.
  - intros new Hn. destruct (replace_payload_readable new h Hn) as (h' & _ & -> & _). done.
  - destruct (evict_oldest_readable h ls Hok) as (n & h' & _ & _ & -> & _). done.
Qed.

Lemma history_stays_readable_witness :
  let h := default store_default (@append_line_store exact_memory (demo_line 1) store_default) in
  (∃ ls, entries h = Some ls) ∧
  tail_payload_bytes h = total_bytes (tail_lines h) ∧ tail_payload_bytes h ≤ HISTORY_SEGMENT_PAYLOAD_TARGET ∧
  (∀ l, line_sound l → is_Some (@append_line_store exact_memory l h)) ∧
  (∀ from, is_Some (@truncate_from exact_memory from h)) ∧
  (∀ new, Forall line_sound new → is_Some (@replace_payload exact_memory new h)) ∧
  is_Some (@evict_oldest_segment exact_memory h).
Proof.
  intros h. apply (@history_stays_readable exact_memory h). eapply rtc_l; [|apply rtc_refl].
  eapply (@step_append exact_memory (demo_line 1)); [|vm_compute; reflexivity].
  split; [repeat constructor; done|apply N.leb_le; vm_compute; reflexivity].
Defined.
