(* ===== verification/Reflow.v ===== *)
(** Laying the retained history out for a width: [crates/seyal-terminal/src/history/reflow.rs].

    Lines joined by soft wraps form a paragraph; a paragraph is filled greedily into rows.
    The code does this in one pass with early exits at a row limit; the specification splits
    into paragraphs first, fills each, and takes the rows asked for.  A unit wider than the
    grid gets an unavailable row.  A suffix of the history laid out from the column of the wrap
    index continues the layout of the whole. *)

From S2P Require Import Prelude Utf8 Types HistoryTypes Memory Wrap WrapIndex Eviction HistoryStore HistoryRetain HistoryTruncate WrapParagraphs.

Implicit Types (l : HistoryLine).

(** * The one-pass layout *)

(** [HistoryUnitRef::reflow_wire_cell] and [HistoryWireCell::continuation_placeholder]. *)
Definition reflow_wire_cell (u : HistoryUnit) : HistoryWireCell :=
  mkWire (utf8_lossy (u_utf8 u)) (u_width u) (u_style u) false.
Definition continuation_placeholder (style : Style) : HistoryWireCell := mkWire [] 0 style true.

(** The loop goes on with its rows, the current row and the used columns, or is left with
    the rows; it is only left when the current row is empty, so that [break] and [return]
    have the same effect. *)
Inductive flow :=
  | Leave (rows : list ReflowRow)
  | Go (rows : list ReflowRow) (current : ReflowRow) (used : N).

(** [rows.push(current)], then the test of the limit. *)
Definition push_row (max_rows : N) (rows : list ReflowRow) (row : ReflowRow) (next : list ReflowRow → flow) : flow :=
  let rows := rows ++ [row] in
  if max_rows <=? vlen rows then Leave rows else next rows.

Definition soft (row : ReflowRow) : ReflowRow := row <| row_break := Some SoftWrap |>.

(** The wrap before a unit that does not fit the rest of the row. *)
Definition wrap_before (width max_rows unit_width : N) (rows : list ReflowRow) (current : ReflowRow) (used : N) : flow :=
  if (0 <? used) && (width <? used + unit_width) then
    if bool_decide (row_cells current = []) then Go rows current 0
    else push_row max_rows rows (soft current) (λ rows, Go rows row_default 0)
  else Go rows current used.

(** A unit wider than the grid gets an unavailable row of its own. *)
Definition place_too_wide (max_rows : N) (anchor : HistoryAnchor) (rows : list ReflowRow) (current : ReflowRow) : flow :=
  let row := mkRow (Some (a_line_id anchor)) [anchor] [] (Some SoftWrap) true in
  if bool_decide (row_cells current = []) && bool_decide (row_anchors current = [])
  then push_row max_rows rows row (λ rows, Go rows current 0)
  else push_row max_rows rows (soft current) (λ rows, push_row max_rows rows row (λ rows, Go rows row_default 0)).

Definition place_unit (width max_rows : N) (anchor : HistoryAnchor) (u : HistoryUnit)
    (rows : list ReflowRow) (current : ReflowRow) (used : N) : flow :=
  let unit_width := N.max (u_width u) 1 in
  match wrap_before width max_rows unit_width rows current used with
  | Leave rows => Leave rows
  | Go rows current used =>
    if width <? unit_width then place_too_wide max_rows anchor rows current
    else
      let cells := reflow_wire_cell u :: (if unit_width =? 2 then [continuation_placeholder (u_style u)] else []) in
      Go rows
        (current <| source_line_id := Some (default (a_line_id anchor) (source_line_id current)) |>
                 <| row_anchors ::= (.++ [anchor]) |> <| row_cells ::= (.++ cells) |>)
        (sat_add usize_max used unit_width)
  end.

Fixpoint place_units (width max_rows : N) (id : LineId) (start index : N) (us : list HistoryUnit)
    (rows : list ReflowRow) (current : ReflowRow) (used : N) : flow :=
  match us with
  | [] => Go rows current used
  | u :: us =>
    match place_unit width max_rows (mkAnchor id (sat_add u32_max start (as_u32 index))) u rows current used with
    | Leave rows => Leave rows
    | Go rows current used => place_units width max_rows id start (index + 1) us rows current used
    end
  end.

(** The end of a hard-broken line. *)
Definition close_line (max_rows : N) l (rows : list ReflowRow) (current : ReflowRow) : flow :=
  let finish rows current := if max_rows <=? vlen rows then Leave rows else Go rows current 0 in
  if bool_decide (row_cells current = []) && bool_decide (row_anchors current = []) then
    match last rows with
    | Some row =>
      if unavailable row
      then finish (alter (λ row, row <| row_break := Some HardBreak |>) (length rows - 1)%nat rows) current
      else finish (rows ++ [current <| source_line_id := Some (line_id l) |> <| row_break := Some HardBreak |>]) row_default
    | None => finish (rows ++ [current <| source_line_id := Some (line_id l) |> <| row_break := Some HardBreak |>]) row_default
    end
  else finish (rows ++ [current <| row_break := Some HardBreak |>]) row_default.

Fixpoint reflow_lines (width max_rows : N) (ls : list HistoryLine) (previous : option HistoryBreakAfter)
    (rows : list ReflowRow) (current : ReflowRow) (used : N) : list ReflowRow :=
  match ls with
  | [] =>
    if negb (bool_decide (row_cells current = [])) && (vlen rows <? max_rows)
    then rows ++ [current <| row_break := previous |>] else rows
  | l :: ls =>
    let joins := bool_decide (previous = Some SoftWrap) in
    match (if negb joins && negb (bool_decide (row_cells current = []))
           then push_row max_rows rows current (λ rows, Go rows row_default 0)
           else Go rows current used) with
    | Leave rows => rows
    | Go rows current used =>
      match place_units width max_rows (line_id l) (start_offset l) 0 (units l) rows current used with
      | Leave rows => rows
      | Go rows current used =>
        match break_after l with
        | HardBreak =>
          match close_line max_rows l rows current with
          | Leave rows => rows
          | Go rows current used => reflow_lines width max_rows ls None rows current used
          end
        | SoftWrap => reflow_lines width max_rows ls (Some SoftWrap) rows current used
        end
      end
    end
  end.

Definition reflow_uncached_from (cols max_rows start_col : N) (h : HistoryStore) : option (list ReflowRow) :=
  ls ← entries h;
  Some (if (cols =? 0) || (max_rows =? 0) then []
        else reflow_lines cols max_rows ls None [] row_default (N.min start_col cols)).

Definition reflow_uncached (cols max_rows : N) (h : HistoryStore) : option (list ReflowRow) :=
  reflow_uncached_from cols max_rows 0 h.

(** ** The cached layout *)

(** Sizes and capacities of the rows, which the allocator and the layout of types decide. *)
Class RowMemory := {
  size_rows_vec : N; size_row : N; size_wire_cell : N; size_anchor : N;
  rows_cap : list ReflowRow → N;
  cells_cap : ReflowRow → N; anchors_cap : ReflowRow → N; text_cap : HistoryWireCell → N;
}.

Section cached.
Context `{Memory, RowMemory}.
Implicit Types (h : HistoryStore).

Definition reflow_rows_allocated_bytes (rows : list ReflowRow) : N :=
  let add := sat_add usize_max in
  let row_bytes r :=
    add (add (sat_mul usize_max (cells_cap r) size_wire_cell) (foldr (λ c sum, text_cap c + sum) 0 (row_cells r)))
      (sat_mul usize_max (anchors_cap r) size_anchor) in
  add (add size_rows_vec (sat_mul usize_max (rows_cap rows) size_row)) (foldr (λ r sum, row_bytes r + sum) 0 rows).

Definition derived_cache_bytes h : N :=
  sat_add usize_max (wrap_index_allocated_bytes (wrap_chains h))
    (match reflow_cache h with Some c => reflow_rows_allocated_bytes (rc_rows c) | None => 0 end).

(** The cache sits behind a shared reference: the store comes back with it. *)
Definition reflow_from (cols max_rows start_col : N) h : option (list ReflowRow * HistoryStore) :=
  let fresh :=
    rows ← reflow_uncached_from cols max_rows start_col h;
    if (start_col =? 0) && (reflow_rows_allocated_bytes rows <=? HISTORY_PER_EXECUTION_DERIVED_INDEX_CAP)
    then Some (rows, h <| reflow_cache := Some (mkCache cols max_rows (eviction_generation h) rows) |>)
    else Some (rows, h) in
  match reflow_cache h with
  | Some c =>
    if (start_col =? 0) && ((rc_columns c =? cols) && (rc_max_rows c =? max_rows)
         && (rc_eviction_generation c =? eviction_generation h))
    then Some (rc_rows c, h) else fresh
  | None => fresh
  end.

Definition reflow (cols max_rows : N) h : option (list ReflowRow * HistoryStore) := reflow_from cols max_rows 0 h.
End cached.

(** * Paragraphs filled greedily *)

Abbreviation lunit := (HistoryAnchor * HistoryUnit)%type.
Definition lwidth (x : lunit) : N := N.max (u_width x.2) 1.
Definition widths_of (xs : list lunit) : N := foldr (λ x sum, lwidth x + sum) 0 xs.

(** A paragraph is laid out as rows of units, and units that are wider than the grid. *)
Inductive chunk :=
  | Row (xs : list lunit)
  | Wide (x : lunit).

Definition flush (row : list lunit) : list chunk := match row with [] => [] | _ => [Row row] end.

(** The chunks of a paragraph: [row] holds what the current row has so far. *)
Fixpoint fill (width used : N) (row xs : list lunit) : list chunk :=
  match xs with
  | [] => flush row
  | x :: xs =>
    if width <? lwidth x then flush row ++ Wide x :: fill width 0 [] xs
    else if (0 <? used) && (width <? used + lwidth x) then flush row ++ fill width (lwidth x) [x] xs
    else fill width (used + lwidth x) (row ++ [x]) xs
  end.

(** How a paragraph ends: at a hard break after a line, or still open. *)
Abbreviation para := (list lunit * option LineId)%type.

Fixpoint paragraphs (joined : list lunit) (ls : list HistoryLine) : list para :=
  match ls with
  | [] => [(joined, None)]
  | l :: ls =>
    match break_after l with
    | SoftWrap => paragraphs (joined ++ located l) ls
    | HardBreak => (joined ++ located l, Some (line_id l)) :: paragraphs [] ls
    end
  end.

Definition unit_cells (x : lunit) : list HistoryWireCell :=
  reflow_wire_cell x.2 :: (if lwidth x =? 2 then [continuation_placeholder (u_style x.2)] else []).

(** A row in the making; a unit that is too wide has an unavailable row without cells. *)
Definition row_of (xs : list lunit) : ReflowRow :=
  mkRow (a_line_id ∘ fst <$> head xs) xs.*1 (xs ≫= unit_cells) None false.

Definition chunk_row (c : chunk) : ReflowRow :=
  match c with
  | Row xs => row_of xs
  | Wide x => mkRow (Some (a_line_id x.1)) [x.1] [] None true
  end.

Definition hard (row : ReflowRow) : ReflowRow := row <| row_break := Some HardBreak |>.
Definition soft_rows (chunks : list chunk) : list ReflowRow := (soft ∘ chunk_row) <$> chunks.

Lemma soft_rows_app c c' : soft_rows (c ++ c') = soft_rows c ++ soft_rows c'.
Proof. apply fmap_app. Qed.

(** The last row of a closed paragraph is hard-broken; an empty paragraph is a blank row, but
    no row at all after an unavailable one. *)
Definition hard_rows (wide : bool) (id : LineId) (chunks : list chunk) : list ReflowRow :=
  match last chunks with
  | None => if wide then [] else [mkRow (Some id) [] [] (Some HardBreak) false]
  | Some c => soft_rows (take (length chunks - 1) chunks) ++ [hard (chunk_row c)]
  end.

(** Is the last row so far an unavailable one? *)
Definition ends_wide (wide : bool) (chunks : list chunk) : bool :=
  match last chunks with Some (Wide _) => true | Some (Row _) => false | None => wide end.

Definition para_rows (wide : bool) (end_ : option LineId) (chunks : list chunk) : list ReflowRow :=
  match end_ with Some id => hard_rows wide id chunks | None => soft_rows chunks end.

(** Only the first paragraph starts inside a row. *)
Fixpoint paras_rows (width used : N) (wide : bool) (ps : list para) : list ReflowRow :=
  match ps with
  | [] => []
  | (xs, end_) :: ps =>
    let chunks := fill width used [] xs in
    para_rows wide end_ chunks ++ paras_rows width 0 (ends_wide wide chunks) ps
  end.

Definition layout_rows (width start : N) (ls : list HistoryLine) : list ReflowRow :=
  paras_rows width start false (paragraphs [] ls).

(** The rows up to a limit.  An unavailable row that the limit makes the last one is returned
    before it is known whether its paragraph goes on. *)
Definition soften (row : ReflowRow) : ReflowRow := if unavailable row then soft row else row.
Definition limited (max_rows : N) (rows : list ReflowRow) : list ReflowRow :=
  alter soften (N.to_nat max_rows - 1)%nat (take (N.to_nat max_rows) rows).

(** * The pass computes the specification *)

(** The same filling, stopped after [xs]: finished chunks, the current row and its width. *)
Fixpoint fill_state (width used : N) (row xs : list lunit) : list chunk * list lunit * N :=
  match xs with
  | [] => ([], row, used)
  | x :: xs =>
    if width <? lwidth x then
      let '(c, r, u) := fill_state width 0 [] xs in (flush row ++ Wide x :: c, r, u)
    else if (0 <? used) && (width <? used + lwidth x) then
      let '(c, r, u) := fill_state width (lwidth x) [x] xs in (flush row ++ c, r, u)
    else fill_state width (used + lwidth x) (row ++ [x]) xs
  end.

Lemma fill_app width used row xs ys :
  fill width used row (xs ++ ys) = let '(c, r, u) := fill_state width used row xs in c ++ fill width u r ys.
Proof.
  revert used row. induction xs as [|x xs IH]; intros used row; [done|]. cbn [app fill fill_state].
  destruct (width <? lwidth x); [|destruct (_ && _); [|apply IH]].
  all: rewrite IH; destruct (fill_state _ _ _ _) as [[c r] u]; by rewrite <-app_assoc.
Qed.

Lemma fill_state_app width used row xs ys :
  fill_state width used row (xs ++ ys) =
  let '(c, r, u) := fill_state width used row xs in
  let '(c', r', u') := fill_state width u r ys in (c ++ c', r', u').
Proof.
  revert used row. induction xs as [|x xs IH]; intros used row.
  { cbn. by destruct (fill_state _ _ _ _) as [[? ?] ?]. }
  cbn [app fill_state]. destruct (width <? lwidth x); [|destruct (_ && _); [|apply IH]].
  all: rewrite IH; destruct (fill_state _ _ _ xs) as [[c r] u]; destruct (fill_state _ _ r ys) as [[c' r'] u'];
    by rewrite <-app_assoc.
Qed.

(** Only a row that goes on leaves the current one empty. *)
Definition row_open (cs : list chunk) (row : list lunit) : Prop := row ≠ [] ∨ ∀ xs, last cs ≠ Some (Row xs).

Lemma fill_state_props width used row xs c r u :
  used ≤ width → (row ≠ [] → 0 < used) → fill_state width used row xs = (c, r, u) →
  u ≤ width ∧ (r ≠ [] → 0 < u) ∧ (∀ cs, row_open cs row → row_open (cs ++ c) r).
Proof.
  assert (∀ x, 0 < lwidth x) as Hpos by (intros x; unfold lwidth; lia).
  revert used row c r u. induction xs as [|x xs IH]; intros used row c r u Hu Hrow; cbn [fill_state].
  { intros [= <- <- <-]. split_and!; [done|done|]. intros cs. by rewrite app_nil_r. }
  specialize (Hpos x). destruct (N.ltb_spec width (lwidth x)); [|destruct (_ && _) eqn:Ho].
  - destruct (fill_state _ _ _ _) as [[c' r'] u'] eqn:Hf. intros [= <- <- <-].
    apply IH in Hf as (H1 & H2 & H3); [|lia|done]. split_and!; [done|done|]. intros cs _.
    specialize (H3 (cs ++ flush row ++ [Wide x])). rewrite <-!app_assoc in H3. apply H3. right. intros ys.
    by rewrite app_assoc, last_snoc.
  - destruct (fill_state _ _ _ _) as [[c' r'] u'] eqn:Hf. intros [= <- <- <-].
    apply IH in Hf as (H1 & H2 & H3); [|lia|lia]. split_and!; [done|done|]. intros cs _. rewrite app_assoc. apply H3. by left.
  - intros Hf. apply andb_false_iff in Ho as [Ho%N.ltb_ge|Ho%N.ltb_ge].
    all: apply IH in Hf as (H1 & H2 & H3); [|lia|lia]; split_and!; [done|done|]; intros cs _; apply H3; left; by destruct row.
Qed.

Lemma row_of_snoc row a u :
  (row_of row) <| source_line_id := Some (default (a_line_id a) (source_line_id (row_of row))) |>
    <| row_anchors ::= (.++ [a]) |>
    <| row_cells ::= (.++ reflow_wire_cell u ::
         (if N.max (u_width u) 1 =? 2 then [continuation_placeholder (u_style u)] else [])) |>
  = row_of (row ++ [(a, u)]).
Proof.
  transitivity (mkRow (Some (default (a_line_id a) (source_line_id (row_of row)))) (row.*1 ++ [a])
    ((row ≫= unit_cells) ++ unit_cells (a, u)) None false); [done|]. unfold row_of. f_equal.
  - by destruct row as [|[a' u'] row].
  - by rewrite fmap_app.
  - rewrite bind_app. cbn [mbind list_bind]. by rewrite app_nil_r.
Qed.

Section pass.
Variable (width max_rows : N).
Hypothesis (Hwidth : width ≤ u16_max).

(** The rows so far with more rows, up to the limit. *)
Definition reaches (rows more : list ReflowRow) (next : flow) : flow :=
  if max_rows <=? vlen rows + vlen more then Leave (take (N.to_nat max_rows) (rows ++ more)) else next.

Lemma push_row_ok rows row next :
  vlen rows < max_rows → push_row max_rows rows row next = reaches rows [row] (next (rows ++ [row])).
Proof.
  intros Hr. unfold push_row, reaches. rewrite length_app. cbn [length].
  replace (N.of_nat (length rows + 1)) with (vlen rows + N.of_nat 1) by lia.
  destruct (N.leb_spec max_rows (vlen rows + N.of_nat 1)); [|done]. f_equal. rewrite take_ge; [done|].
  rewrite length_app. cbn. lia.
Qed.

Lemma reaches_nil rows next : vlen rows < max_rows → reaches rows [] next = next.
Proof. intros Hr. unfold reaches. cbn [length]. destruct (N.leb_spec max_rows (vlen rows + N.of_nat 0)); [lia|done]. Qed.

Lemma reaches_app rows more more' next :
  reaches rows more (reaches (rows ++ more) more' next) = reaches rows (more ++ more') next.
Proof.
  unfold reaches. rewrite !length_app. destruct (N.leb_spec max_rows (vlen rows + vlen more)).
  - destruct (N.leb_spec max_rows (vlen rows + N.of_nat (length more + length more'))); [|lia]. f_equal.
    rewrite app_assoc. symmetry. apply take_app_le. rewrite length_app. lia.
  - replace (N.of_nat (length rows + length more) + vlen more') with (vlen rows + N.of_nat (length more + length more')) by lia.
    by rewrite app_assoc.
Qed.

Lemma place_unit_ok rows row used a u :
  vlen rows < max_rows → used ≤ width → (row ≠ [] → 0 < used) →
  place_unit width max_rows a u rows (row_of row) used =
  let '(c, r, u') := fill_state width used row [(a, u)] in
  reaches rows (soft_rows c) (Go (rows ++ soft_rows c) (row_of r) u').
Proof.
  intros Hr Hu Hrow. unfold place_unit, wrap_before. cbn [fill_state]. change (N.max (u_width u) 1) with (lwidth (a, u)).
  set (w := lwidth (a, u)). assert (0 < w) as Hw by (unfold w, lwidth; lia).
  set (wide := mkRow (Some (a_line_id a)) [a] [] (Some SoftWrap) true).
  destruct (N.ltb_spec width w) as [Hwide|Hfit].
  { destruct row as [|y row].
    - assert ((if (0 <? used) && (width <? used + w) then
        if bool_decide (row_cells (row_of []) = []) then Go rows (row_of []) 0
        else push_row max_rows rows (soft (row_of [])) (λ rows, Go rows row_default 0) else Go rows (row_of []) used) =
        Go rows (row_of []) (if (0 <? used) && (width <? used + w) then 0 else used)) as ->.
      { destruct (_ && _); [|done]. by rewrite bool_decide_true. }
      unfold place_too_wide. rewrite !bool_decide_true by done. cbn [andb]. by rewrite push_row_ok.
    - specialize (Hrow ltac:(done)). apply N.ltb_lt in Hrow as ->. replace (width <? used + w) with true by lia. cbn [andb].
      rewrite bool_decide_false by done.
      change (soft_rows (flush (y :: row) ++ [Wide (a, u)])) with ([soft (row_of (y :: row))] ++ [wide]).
      rewrite <-reaches_app, app_assoc. unfold push_row at 1, reaches at 1. rewrite length_app. cbn [length].
      replace (N.of_nat (length rows + 1)) with (vlen rows + N.of_nat 1) by lia.
      destruct (N.leb_spec max_rows (vlen rows + N.of_nat 1)).
      { f_equal. rewrite take_ge; [done|]. rewrite length_app. cbn. lia. }
      unfold place_too_wide. rewrite !bool_decide_true by done. cbn [andb]. rewrite push_row_ok; [done|]. rewrite length_app. cbn. lia. }
  assert (∀ used, used ≤ width → sat_add usize_max used w = used + w) as Hsat.
  { intros used0 Hu0. unfold sat_add, usize_max, u64_max, u16_max in *. lia. }
  destruct ((0 <? used) && (width <? used + w)).
  - destruct row as [|y row].
    + rewrite bool_decide_true by done. rewrite Hsat by lia. cbn [flush app soft_rows fmap list_fmap].
      rewrite reaches_nil, app_nil_r by done. f_equal. apply (row_of_snoc []).
    + rewrite bool_decide_false by done. rewrite push_row_ok by done. rewrite app_nil_r.
      change (soft_rows (flush (y :: row))) with [soft (row_of (y :: row))]. unfold reaches.
      destruct (max_rows <=? _); [done|]. rewrite Hsat by lia. f_equal. apply (row_of_snoc []).
  - rewrite Hsat by done. cbn [soft_rows fmap list_fmap]. rewrite reaches_nil, app_nil_r by done. f_equal.
    apply row_of_snoc.
Qed.

(** A line's units from the [i]-th on. *)
Definition located_from (id : LineId) (start : N) (i : nat) (us : list HistoryUnit) : list lunit :=
  imap (λ j u, (mkAnchor id (start + N.of_nat (i + j)), u)) us.

Lemma place_units_ok id start i us rows row used :
  vlen rows < max_rows → used ≤ width → (row ≠ [] → 0 < used) → start + N.of_nat (i + length us) ≤ u32_max →
  place_units width max_rows id start (N.of_nat i) us rows (row_of row) used =
  let '(c, r, u') := fill_state width used row (located_from id start i us) in
  reaches rows (soft_rows c) (Go (rows ++ soft_rows c) (row_of r) u').
Proof.
  revert i rows row used. induction us as [|u us IH]; intros i rows row used Hr Hu Hrow Ho.
  { cbn. by rewrite reaches_nil, app_nil_r. }
  cbn [place_units length] in *. replace (sat_add u32_max start (as_u32 (N.of_nat i))) with (start + N.of_nat i).
  2: { unfold sat_add, as_u32. rewrite N.mod_small; unfold u32_max in *; lia. }
  set (x := (mkAnchor id (start + N.of_nat i), u)).
  assert (located_from id start i (u :: us) = [x] ++ located_from id start (S i) us) as ->.
  { unfold located_from. cbn [imap app]. unfold x. rewrite Nat.add_0_r. f_equal. apply imap_ext.
    intros j u' _. cbn. by rewrite Nat.add_succ_r. }
  rewrite place_unit_ok by done. fold x. rewrite fill_state_app.
  destruct (fill_state width used row [x]) as [[c r] v] eqn:Hf.
  destruct (fill_state_props _ _ _ _ _ _ _ Hu Hrow Hf) as (Hv & Hrv & _).
  destruct (fill_state width v r _) as [[c' r'] v'] eqn:Hf'.
  rewrite soft_rows_app, <-reaches_app. unfold reaches at 1 2.
  destruct (N.leb_spec max_rows (vlen rows + vlen (soft_rows c))); [done|].
  replace (N.of_nat i + 1) with (N.of_nat (S i)) by lia. rewrite (IH (S i)); [|rewrite length_app; lia|done|done|lia].
  by rewrite Hf', app_assoc.
Qed.

(** ** Whole lines *)

(** Finished paragraphs have made the rows [base]; is the last of them unavailable? *)
Definition base_wide (base : list ReflowRow) : bool := match last base with Some r => unavailable r | None => false end.

Definition base_closed (base : list ReflowRow) : Prop := ∀ r, last base = Some r → unavailable r = true → hard r = r.

Lemma hard_rows_snoc wide id cs c : hard_rows wide id (cs ++ [c]) = soft_rows cs ++ [hard (chunk_row c)].
Proof. unfold hard_rows. by rewrite last_snoc, length_app, Nat.add_sub, take_app_length. Qed.

Lemma base_wide_hard base id chunks :
  base_wide (base ++ hard_rows (base_wide base) id chunks) = ends_wide (base_wide base) chunks.
Proof.
  destruct chunks as [|c cs _] using rev_ind.
  - unfold hard_rows, ends_wide. cbn [last]. destruct (base_wide base) eqn:Hb; [by rewrite app_nil_r|].
    unfold base_wide. by rewrite last_snoc.
  - rewrite hard_rows_snoc. unfold base_wide, ends_wide. rewrite app_assoc, !last_snoc. by destruct c.
Qed.

Lemma base_closed_hard base id chunks : base_closed base → base_closed (base ++ hard_rows (base_wide base) id chunks).
Proof.
  intros Hb. destruct chunks as [|c cs _] using rev_ind.
  - unfold hard_rows. cbn [last]. destruct (base_wide base); [by rewrite app_nil_r|].
    intros r. rewrite last_snoc. by intros [= <-].
  - rewrite hard_rows_snoc. intros r. rewrite app_assoc, last_snoc. by intros [= <-].
Qed.

Lemma close_line_ok l base cs row :
  vlen (base ++ soft_rows cs) < max_rows → row_open cs row → base_closed base →
  let base' := base ++ hard_rows (base_wide base) (line_id l) (cs ++ flush row) in
  close_line max_rows l (base ++ soft_rows cs) (row_of row) =
    (if max_rows <=? vlen base' then Leave base' else Go base' (row_of []) 0) ∧
  (max_rows ≤ vlen base' → vlen base' = max_rows ∧ base_wide base' = false).
Proof.
  intros Hr Hopen Hb base'.
  assert (∀ row', base' = (base ++ soft_rows cs) ++ [row'] → unavailable row' = false →
    (if max_rows <=? vlen ((base ++ soft_rows cs) ++ [row']) then Leave ((base ++ soft_rows cs) ++ [row'])
     else Go ((base ++ soft_rows cs) ++ [row']) row_default 0) = (if max_rows <=? vlen base' then Leave base' else Go base' (row_of []) 0) ∧
    (max_rows ≤ vlen base' → vlen base' = max_rows ∧ base_wide base' = false)) as Hpush.
  { intros row' -> Hun. split; [done|]. unfold base_wide. rewrite last_snoc, (length_app _ [_]). cbn [length]. split; [lia|done]. }
  unfold close_line. destruct row as [|x row].
  2:{ rewrite !bool_decide_false by done. cbn [andb]. apply (Hpush (hard (row_of (x :: row)))); [|done].
      unfold base'. change (flush (x :: row)) with [Row (x :: row)]. rewrite hard_rows_snoc. apply app_assoc. }
  rewrite !bool_decide_true by done. cbn [andb]. unfold base' in *. clear base'. change (flush []) with (@nil chunk) in *. rewrite app_nil_r in *.
  destruct Hopen as [?|Hopen]; [done|]. destruct cs as [|c cs _] using rev_ind.
  - assert (soft_rows [] = []) as Hnil by done. rewrite Hnil, app_nil_r in *.
    unfold base_wide, hard_rows in *. cbn [last] in *. destruct (last base) as [r|] eqn:Hl; [destruct (unavailable r) eqn:Hun|].
    + specialize (Hb r Hl Hun). rewrite app_nil_r in *. assert (alter hard (length base - 1)%nat base = base) as Halter.
      { apply last_Some in Hl as [b ->]. rewrite length_app, Nat.add_sub, alter_app_r_alt, Nat.sub_diag by done. cbn. by rewrite Hb. }
      unfold hard in Halter at 1. rewrite Halter. split; [done|]. lia.
    + by apply Hpush.
    + by apply Hpush.
  - rewrite last_snoc in Hopen. destruct c as [xs|x]; [by destruct (Hopen xs)|]. clear Hpush.
    rewrite hard_rows_snoc. unfold soft_rows in *. rewrite fmap_app, app_assoc in *. cbn [fmap list_fmap] in *. rewrite last_snoc.
    change (unavailable ((soft ∘ chunk_row) (Wide x))) with true. cbv iota.
    rewrite length_app, Nat.add_sub, alter_app_r_alt, Nat.sub_diag by done. cbn [alter list_alter].
    change (hard ((soft ∘ chunk_row) (Wide x))) with (hard (chunk_row (Wide x))). rewrite !app_assoc. split; [done|].
    rewrite !length_app in *. cbn [length] in *. intros. lia.
Qed.

(** All rows, without a limit: [cs] and [row] are what the open paragraph has made so far. *)
Fixpoint rest_rows (base : list ReflowRow) (cs : list chunk) (used : N) (row : list lunit) (ls : list HistoryLine) : list ReflowRow :=
  match ls with
  | [] => base ++ soft_rows (cs ++ flush row)
  | l :: ls =>
    let '(c, r, u) := fill_state width used row (located l) in
    match break_after l with
    | SoftWrap => rest_rows base (cs ++ c) u r ls
    | HardBreak => rest_rows (base ++ hard_rows (base_wide base) (line_id l) ((cs ++ c) ++ flush r)) [] 0 [] ls
    end
  end.

(** The rows made so far stay, but the last one may turn out to end its paragraph. *)
Lemma rest_rows_prefix ls base cs used row :
  used ≤ width → (row ≠ [] → 0 < used) → row_open cs row →
  (∃ more, rest_rows base cs used row ls = base ++ soft_rows cs ++ more) ∨
  (∃ cs0 x more, cs = cs0 ++ [Wide x] ∧ rest_rows base cs used row ls = base ++ soft_rows cs0 ++ hard (chunk_row (Wide x)) :: more).
Proof.
  revert base cs used row. induction ls as [|l ls IH]; intros base cs used row Hu Hrow Hopen; cbn [rest_rows].
  { left. rewrite soft_rows_app. by eexists. }
  destruct (fill_state width used row (located l)) as [[c r] u] eqn:Hf.
  destruct (fill_state_props _ _ _ _ _ _ _ Hu Hrow Hf) as (Hu' & Hr' & Ho). specialize (Ho cs Hopen).
  assert (∀ cs' more, soft_rows (cs ++ cs') ++ more = soft_rows cs ++ soft_rows cs' ++ more) as Hsoft.
  { intros. by rewrite soft_rows_app, app_assoc. }
  destruct (break_after l).
  - destruct (IH (base ++ hard_rows (base_wide base) (line_id l) ((cs ++ c) ++ flush r)) [] 0 []) as [[more ->]|(cs0 & x & more & Hc & _)];
      [lia|done|by right|..|by destruct cs0].
    rewrite <-!app_assoc. destruct (c ++ flush r) as [|y ys _] eqn:Hy using rev_ind.
    + rewrite app_nil_r. apply app_eq_nil in Hy as [-> Hy]. destruct r; [|done]. rewrite app_nil_r in Ho.
      destruct cs as [|z cs _] using rev_ind; [left; by eexists|]. destruct Ho as [?|Ho]; [done|]. rewrite last_snoc in Ho.
      destruct z as [xs|x]; [by destruct (Ho xs)|]. right. rewrite hard_rows_snoc, <-app_assoc. by eexists _, _, _.
    + left. rewrite (app_assoc cs), hard_rows_snoc, <-app_assoc, Hsoft. by eexists.
  - destruct (IH base (cs ++ c) u r Hu' Hr' Ho) as [[more ->]|(cs0 & x & more & Hc & ->)].
    + left. rewrite Hsoft. by eexists.
    + destruct c as [|y c _] using rev_ind; [rewrite app_nil_r in Hc; right; by eexists _, _, _|]. left.
      rewrite app_assoc in Hc. apply app_inj_tail in Hc as [<- ->]. rewrite Hsoft. by eexists.
Qed.

Lemma soften_soft row : soften (soft row) = soft row.
Proof. unfold soften. by destruct (unavailable _). Qed.

Lemma alter_same {A} (f : A → A) (xs : list A) (i : nat) : (∀ x, xs !! i = Some x → f x = x) → alter f i xs = xs.
Proof. intros Hf. rewrite (list_alter_ext f id xs xs i Hf eq_refl). by apply list_alter_id. Qed.

Lemma limited_soft base cs more :
  vlen base < max_rows → max_rows ≤ vlen (base ++ soft_rows cs) →
  limited max_rows (base ++ soft_rows cs ++ more) = take (N.to_nat max_rows) (base ++ soft_rows cs).
Proof.
  intros Hb Hm. unfold limited. rewrite app_assoc, take_app_le by lia. apply alter_same. intros row.
  rewrite lookup_take_Some, lookup_app_r by lia. unfold soft_rows. rewrite list_lookup_fmap.
  intros [(c & _ & ->)%fmap_Some _]. apply soften_soft.
Qed.

(** Reaching the limit inside a paragraph. *)
Lemma rest_rows_limited ls base cs used row :
  used ≤ width → (row ≠ [] → 0 < used) → row_open cs row →
  vlen base < max_rows → max_rows ≤ vlen (base ++ soft_rows cs) →
  limited max_rows (rest_rows base cs used row ls) = take (N.to_nat max_rows) (base ++ soft_rows cs).
Proof.
  intros Hu Hrow Hopen Hb Hm.
  destruct (rest_rows_prefix ls base cs used row Hu Hrow Hopen) as [[more ->]|(cs0 & x & more & -> & ->)]; [by apply limited_soft|].
  assert (soft_rows (cs0 ++ [Wide x]) = soft_rows cs0 ++ [soft (chunk_row (Wide x))]) as Hs by apply soft_rows_app.
  rewrite Hs, !length_app in *. cbn [length] in *. destruct (decide (max_rows ≤ vlen (base ++ soft_rows cs0))) as [Hle|Hgt].
  { rewrite limited_soft by done. rewrite (app_assoc base (soft_rows cs0) [_]). symmetry. apply take_app_le. lia. }
  rewrite length_app in Hgt. rewrite !app_assoc, (take_ge _ (N.to_nat max_rows)) by (rewrite !length_app; cbn; lia).
  unfold limited. rewrite cons_middle, app_assoc, take_app_length' by (rewrite !length_app; cbn; lia).
  rewrite alter_app_r_alt by (rewrite length_app; lia).
  replace (N.to_nat max_rows - 1 - length (base ++ soft_rows cs0))%nat with O by (rewrite length_app; lia). done.
Qed.

(** Lines whose unit addresses fit 32 bits. *)
Definition offsets_fit l : Prop := start_offset l + vlen (units l) ≤ u32_max.

Lemma reflow_lines_ok ls previous base cs row used :
  vlen (base ++ soft_rows cs) < max_rows → used ≤ width → (row ≠ [] → 0 < used) → row_open cs row → base_closed base →
  Forall offsets_fit ls → (row ≠ [] → previous = Some SoftWrap) →
  reflow_lines width max_rows ls previous (base ++ soft_rows cs) (row_of row) used =
  limited max_rows (rest_rows base cs used row ls).
Proof.
  intros Hr Hu Hrow Hopen Hb Hls. revert previous base cs row used Hr Hu Hrow Hopen Hb.
  induction Hls as [|l ls Hl _ IH]; intros previous base cs row used Hr Hu Hrow Hopen Hb Hp; cbn [reflow_lines rest_rows].
  { rewrite soft_rows_app, app_assoc.
    set (rows := base ++ soft_rows cs) in *. destruct row as [|x row].
    - rewrite bool_decide_true by done. cbn [negb andb flush]. change (soft_rows []) with (@nil ReflowRow). rewrite app_nil_r.
      unfold limited. rewrite take_ge by lia. symmetry. apply alter_same. intros r Hr'%lookup_lt_Some. lia.
    - rewrite bool_decide_false by done. apply N.ltb_lt in Hr as Hr'. rewrite Hr'. cbn [negb andb flush].
      rewrite Hp by done. change (soft_rows [Row (x :: row)]) with [soft (row_of (x :: row))].
      unfold limited. rewrite take_ge by (rewrite length_app; cbn; lia). symmetry. apply alter_same. intros r.
      rewrite lookup_app_r by lia. destruct (N.to_nat max_rows - 1 - length rows)%nat; [|done]. intros [= <-]. apply soften_soft. }
  assert (negb (bool_decide (previous = Some SoftWrap)) && negb (bool_decide (row_cells (row_of row) = [])) = false) as ->.
  { destruct row as [|x row]; [by rewrite (bool_decide_true (_ = [])), andb_false_r|].
    rewrite Hp by done. by rewrite bool_decide_true. }
  change 0 with (N.of_nat 0). rewrite place_units_ok by done. change (N.of_nat 0) with 0.
  change (located_from (line_id l) (start_offset l) 0 (units l)) with (located l).
  destruct (fill_state width used row (located l)) as [[c r] u] eqn:Hf.
  destruct (fill_state_props _ _ _ _ _ _ _ Hu Hrow Hf) as (Hu' & Hr' & Ho). specialize (Ho cs Hopen).
  assert (vlen base < max_rows) as Hbm by (rewrite length_app in Hr; lia).
  assert ((base ++ soft_rows cs) ++ soft_rows c = base ++ soft_rows (cs ++ c)) as Happ.
  { by rewrite soft_rows_app, app_assoc. }
  unfold reaches. rewrite Happ. replace (vlen (base ++ soft_rows cs) + vlen (soft_rows c)) with (vlen (base ++ soft_rows (cs ++ c)))
    by (rewrite <-Happ, length_app; lia).
  destruct (N.leb_spec max_rows (vlen (base ++ soft_rows (cs ++ c)))) as [Hge|Hlt].
  { destruct (break_after l) eqn:Hbr.
    - pose proof (rest_rows_limited (l <| units := [] |> :: ls) base (cs ++ c) u r Hu' Hr' Ho Hbm Hge) as Hlim.
      cbn [rest_rows] in Hlim. rewrite <-Hlim. change (break_after (l <| units := [] |>)) with (break_after l). rewrite Hbr.
      change (located (l <| units := [] |>)) with (@nil lunit). cbn [fill_state]. by rewrite (app_nil_r (cs ++ c)).
    - symmetry. by apply rest_rows_limited. }
  destruct (break_after l); [|by apply IH]. destruct (close_line_ok l base (cs ++ c) r Hlt Ho Hb) as [-> Hfull].
  set (base' := base ++ hard_rows _ _ _) in *. assert (base_closed base') as Hb' by by apply base_closed_hard.
  assert (row_open [] []) as Hopen' by (by right).
  destruct (N.leb_spec max_rows (vlen base')) as [Hge|Hlt'].
  - destruct (Hfull Hge) as [Hlen Hwide].
    destruct (rest_rows_prefix ls base' [] 0 []) as [[more ->]|(cs0 & x & more & Hc & _)]; [lia|done|done|..|by destruct cs0].
    change (soft_rows []) with (@nil ReflowRow). cbn [app]. unfold limited. rewrite take_app_length' by lia.
    symmetry. apply alter_same. intros row' Hrow'. unfold soften. replace (unavailable row') with false; [done|].
    unfold base_wide in Hwide. rewrite last_lookup in Hwide. replace (N.to_nat max_rows - 1)%nat with (pred (length base')) in Hrow' by lia.
    by rewrite Hrow' in Hwide.
  - pose proof (IH None base' [] [] 0) as Hnext. change (soft_rows []) with (@nil ReflowRow) in Hnext. rewrite app_nil_r in Hnext.
    apply Hnext; [lia|lia|done|done|done|done].
Qed.

(** Row by row or paragraph by paragraph. *)
Lemma rest_rows_paragraphs ls joined start base cs row used :
  fill_state width start [] joined = (cs, row, used) →
  rest_rows base cs used row ls = base ++ paras_rows width start (base_wide base) (paragraphs joined ls).
Proof.
  assert (∀ joined start cs row used, fill_state width start [] joined = (cs, row, used) → fill width start [] joined = cs ++ flush row) as Hfill.
  { intros xs s c r u Hf. pose proof (fill_app width s [] xs []) as Ha. by rewrite Hf, app_nil_r in Ha. }
  revert joined start base cs row used. induction ls as [|l ls IH]; intros joined start base cs row used Hf; cbn [paragraphs rest_rows].
  { cbn [paras_rows para_rows]. by rewrite (Hfill _ _ _ _ _ Hf), app_nil_r. }
  destruct (fill_state width used row (located l)) as [[c r] u] eqn:Hf'.
  assert (fill_state width start [] (joined ++ located l) = (cs ++ c, r, u)) as Hf2 by (by rewrite fill_state_app, Hf, Hf').
  destruct (break_after l); [|by apply IH]. cbn [paras_rows para_rows]. rewrite (Hfill _ _ _ _ _ Hf2), (IH [] 0) by done.
  by rewrite base_wide_hard, <-app_assoc.
Qed.

Lemma reflow_is_layout ls start :
  0 < max_rows → start ≤ width → Forall offsets_fit ls →
  reflow_lines width max_rows ls None [] row_default start = limited max_rows (layout_rows width start ls).
Proof.
  intros Hm Hs Hls. pose proof (reflow_lines_ok ls None [] [] [] start) as Hr. cbn [app soft_rows fmap list_fmap] in Hr.
  change (row_of []) with row_default in Hr. rewrite Hr by (done || cbn; lia || (by right)).
  by rewrite (rest_rows_paragraphs ls [] start [] [] [] start eq_refl).
Qed.
End pass.

(** The two early exits are part of the limit. *)
Lemma reflow_rows_layout width max_rows ls start :
  0 < width → width ≤ u16_max → Forall offsets_fit ls →
  (if (width =? 0) || (max_rows =? 0) then [] else reflow_lines width max_rows ls None [] row_default (N.min start width)) =
  limited max_rows (layout_rows width (N.min start width) ls).
Proof.
  intros Hw Hm Hls. destruct (N.eqb_spec width 0); [lia|]. cbn [orb]. destruct (N.eqb_spec max_rows 0) as [->|]; [done|].
  apply reflow_is_layout; [done|lia|lia|done].
Qed.

(** ** Greedy filling *)

Lemma widths_of_app xs ys : widths_of (xs ++ ys) = widths_of xs + widths_of ys.
Proof. induction xs as [|x xs IH]; [done|]. cbn [app widths_of foldr]. fold (widths_of xs) (widths_of (xs ++ ys)). lia. Qed.

Definition chunk_units (c : chunk) : list lunit := match c with Row xs => xs | Wide x => [x] end.
Definition chunk_fits (width : N) (c : chunk) : Prop := match c with Row xs => widths_of xs ≤ width | Wide _ => True end.

Lemma flush_units row : flush row ≫= chunk_units = row.
Proof. destruct row; cbn; by rewrite ?app_nil_r. Qed.

Lemma fill_concat width used row xs : fill width used row xs ≫= chunk_units = row ++ xs.
Proof.
  revert used row. induction xs as [|x xs IH]; intros used row; cbn [fill]; [by rewrite flush_units, app_nil_r|].
  destruct (width <? lwidth x); [|destruct (_ && _); [|by rewrite IH, <-app_assoc]].
  - rewrite bind_app, flush_units. cbn [mbind list_bind chunk_units].
    change (list_bind _ _ chunk_units (fill width 0 [] xs)) with (fill width 0 [] xs ≫= chunk_units). by rewrite IH.
  - by rewrite bind_app, flush_units, IH.
Qed.

Lemma flush_fits width row : widths_of row ≤ width → Forall (chunk_fits width) (flush row).
Proof. intros Hr. destruct row; [constructor|]. by constructor. Qed.

Lemma fill_fits width used row xs :
  widths_of row ≤ used → used ≤ width → Forall (chunk_fits width) (fill width used row xs).
Proof.
  revert used row. induction xs as [|x xs IH]; intros used row Hr Hu; cbn [fill]; [apply flush_fits; lia|].
  destruct (N.ltb_spec width (lwidth x)); [|destruct (_ && _) eqn:Ho].
  - apply Forall_app_2; [apply flush_fits; lia|]. constructor; [done|]. apply IH; [done|lia].
  - apply Forall_app_2; [apply flush_fits; lia|]. apply IH; [cbn; lia|done].
  - apply andb_false_iff in Ho as [Ho%N.ltb_ge|Ho%N.ltb_ge]; apply IH; rewrite ?widths_of_app; cbn; lia.
Qed.

Lemma unit_cells_width x : vlen (unit_cells x) ≤ lwidth x.
Proof. unfold unit_cells. destruct (N.eqb_spec (lwidth x) 2); cbn [length]; unfold lwidth in *; lia. Qed.

Lemma chunk_row_width width c : chunk_fits width c → vlen (row_cells (chunk_row c)) ≤ width.
Proof.
  destruct c as [xs|x]; [|cbn; lia]. intros Hc. transitivity (widths_of xs); [|exact Hc]. clear Hc.
  change (vlen (xs ≫= unit_cells) ≤ widths_of xs). induction xs as [|x xs IH]; [done|].
  change ((x :: xs) ≫= unit_cells) with (unit_cells x ++ (xs ≫= unit_cells)). cbn [widths_of foldr]. fold (widths_of xs).
  rewrite length_app. pose proof (unit_cells_width x). lia.
Qed.

Lemma chunk_row_anchors c : row_anchors (chunk_row c) = (chunk_units c).*1.
Proof. by destruct c. Qed.

(** The rows of chunks: none wider than the grid, and all units in order. *)
Definition rows_hold (width : N) (rows : list ReflowRow) (xs : list lunit) : Prop :=
  Forall (λ r, vlen (row_cells r) ≤ width) rows ∧ rows ≫= row_anchors = xs.*1.

Lemma rows_hold_app width rows rows' xs xs' :
  rows_hold width rows xs → rows_hold width rows' xs' → rows_hold width (rows ++ rows') (xs ++ xs').
Proof. intros [H1 H2] [H3 H4]. split; [by apply Forall_app_2|]. by rewrite bind_app, H2, H4, fmap_app. Qed.

Lemma soft_rows_hold width chunks : Forall (chunk_fits width) chunks → rows_hold width (soft_rows chunks) (chunks ≫= chunk_units).
Proof.
  induction 1 as [|c cs Hc _ IH]; [by split; [constructor|]|].
  change (soft_rows (c :: cs)) with ([soft (chunk_row c)] ++ soft_rows cs).
  change ((c :: cs) ≫= chunk_units) with (chunk_units c ++ (cs ≫= chunk_units)). apply rows_hold_app; [|done].
  split; [constructor; [exact (chunk_row_width width c Hc)|constructor]|]. cbn. rewrite app_nil_r. apply chunk_row_anchors.
Qed.

Lemma para_rows_hold width wide end_ chunks :
  Forall (chunk_fits width) chunks → rows_hold width (para_rows wide end_ chunks) (chunks ≫= chunk_units).
Proof.
  intros Hc. unfold para_rows. destruct end_ as [id|]; [|by apply soft_rows_hold]. destruct chunks as [|c cs _] using rev_ind.
  { unfold hard_rows. cbn [last]. destruct wide; (split; [|done]); repeat constructor. cbn. lia. }
  apply Forall_app in Hc as [Hcs Hc]. apply Forall_cons in Hc as [Hc _].
  rewrite hard_rows_snoc, bind_app. apply rows_hold_app; [by apply soft_rows_hold|].
  split; [constructor; [exact (chunk_row_width width c Hc)|constructor]|]. cbn. rewrite !app_nil_r. apply chunk_row_anchors.
Qed.

Lemma paras_rows_hold width used wide ps : used ≤ width → rows_hold width (paras_rows width used wide ps) (ps ≫= fst).
Proof.
  revert used wide. induction ps as [|[xs end_] ps IH]; intros used wide Hu; [by split; [constructor|]|]. cbn [paras_rows].
  change (((xs, end_) :: ps) ≫= fst) with (xs ++ (ps ≫= fst)).
  pose proof (fill_concat width used [] xs) as Hx. cbn [app] in Hx.
  apply rows_hold_app; [rewrite <-Hx at 2; by apply para_rows_hold, fill_fits; [apply N.le_0_l|]|]. apply IH. lia.
Qed.

Lemma paragraphs_units joined ls : (paragraphs joined ls ≫= fst) = joined ++ (ls ≫= located).
Proof.
  revert joined. induction ls as [|l ls IH]; intros joined; [by cbn; rewrite !app_nil_r|]. cbn [paragraphs].
  destruct (break_after l); cbn [mbind list_bind fst]; change (list_bind _ _ located ls) with (ls ≫= located).
  - change (list_bind _ _ fst (paragraphs [] ls)) with (paragraphs [] ls ≫= fst). by rewrite IH, <-app_assoc.
  - by rewrite IH, <-app_assoc.
Qed.

Lemma layout_rows_hold width start ls : start ≤ width → rows_hold width (layout_rows width start ls) (ls ≫= located).
Proof.
  intros Hs. pose proof (paragraphs_units [] ls) as Hu. cbn [app] in Hu. rewrite <-Hu. by apply paras_rows_hold.
Qed.

(** The limit changes neither cells nor anchors of the rows it keeps. *)
Lemma soften_row row : row_cells (soften row) = row_cells row ∧ row_anchors (soften row) = row_anchors row.
Proof. unfold soften. by destruct (unavailable row). Qed.

Lemma limited_hold width max_rows rows :
  Forall (λ r, vlen (row_cells r) ≤ width) rows →
  vlen (limited max_rows rows) = N.min max_rows (vlen rows) ∧ Forall (λ r, vlen (row_cells r) ≤ width) (limited max_rows rows) ∧
  (limited max_rows rows ≫= row_anchors) ++ (drop (N.to_nat max_rows) rows ≫= row_anchors) = rows ≫= row_anchors.
Proof.
  intros Hr. unfold limited. split_and!.
  - rewrite length_alter, length_take. lia.
  - apply Forall_alter; [by apply Forall_take|]. intros row _. by destruct (soften_row row) as [-> _].
  - rewrite <-(take_drop (N.to_nat max_rows) rows) at 3. rewrite bind_app. f_equal.
    generalize (take (N.to_nat max_rows) rows). generalize (N.to_nat max_rows - 1)%nat. clear. intros i rows. revert i.
    induction rows as [|row rows IH]; intros [|i]; [done|done|..]; cbn [alter list_alter mbind list_bind].
    + by destruct (soften_row row) as [_ ->].
    + change (list_bind _ _ row_anchors ?l) with (l ≫= row_anchors). f_equal. apply IH.
Qed.

(** ** Starting in the middle of a paragraph *)

(** The column of the wrap index: a full row counts as none. *)
Definition column (width used : N) : N := if width <=? used then 0 else used.

Lemma advance_column width used w :
  0 < width → 0 < w → used ≤ width →
  wrap_advance (column width used) width w =
  if width <? w then 0 else column width (if (0 <? used) && (width <? used + w) then w else used + w).
Proof.
  intros Hw H0 Hu. unfold wrap_advance. replace (N.max w 1) with w by lia. destruct (N.ltb_spec width w); [done|].
  unfold column. destruct (N.leb_spec width used) as [Hf|Hf].
  - assert (used = width) as -> by lia. cbn [N.ltb N.compare andb].
    replace (0 <? width) with true by (symmetry; by apply N.ltb_lt).
    replace (width <? width + w) with true by (symmetry; apply N.ltb_lt; lia). done.
  - by destruct ((0 <? used) && (width <? used + w)).
Qed.

Lemma fill_state_column width used row xs c r u :
  0 < width → used ≤ width → fill_state width used row xs = (c, r, u) →
  column width u = layout width (column width used) (lwidth <$> xs).
Proof.
  intros Hw. revert used row c r u. induction xs as [|x xs IH]; intros used row c r u Hu; cbn [fill_state].
  { by intros [= <- <- <-]. }
  cbn [fmap list_fmap layout foldl]. fold (layout width (wrap_advance (column width used) width (lwidth x)) (lwidth <$> xs)).
  rewrite advance_column by (done || unfold lwidth; lia).
  destruct (N.ltb_spec width (lwidth x)) as [Hx|Hx]; [|destruct (_ && _) eqn:Ho].
  - destruct (fill_state _ _ _ _) as [[c' r'] u'] eqn:Hf. intros [= <- <- <-]. rewrite (IH _ _ _ _ _ (N.le_0_l width) Hf).
    unfold column. destruct (N.leb_spec width 0); done.
  - destruct (fill_state _ _ _ _) as [[c' r'] u'] eqn:Hf. intros [= <- <- <-]. exact (IH _ _ _ _ _ Hx Hf).
  - intros Hf. eapply IH; [|exact Hf]. apply andb_false_iff in Ho as [Ho%N.ltb_ge|Ho%N.ltb_ge]; lia.
Qed.

Lemma fill_column width used xs :
  0 < width → used ≤ width → fill width (column width used) [] xs = fill width used [] xs.
Proof.
  intros Hw Hu. unfold column. destruct (N.leb_spec width used); [|done]. destruct xs as [|x xs]; [done|]. cbn [fill].
  assert (0 < lwidth x) as Hx by (unfold lwidth; lia).
  replace (0 <? used) with true by (symmetry; apply N.ltb_lt; lia).
  replace (width <? used + lwidth x) with true by (symmetry; apply N.ltb_lt; lia). done.
Qed.

(** Chunks that go on after the units [cur]: on the same row, or on the next. *)
Definition continues (cur : list lunit) (cs cs' : list chunk) : Prop :=
  cs' = flush cur ++ cs ∨ ∃ first rest, cs = Row first :: rest ∧ cs' = Row (cur ++ first) :: rest.

Lemma fill_continues width used row xs : continues row (fill width used [] xs) (fill width used row xs).
Proof.
  assert (∀ xs used row row', row' ≠ [] → ∃ first rest, fill width used row' xs = Row first :: rest ∧
    fill width used (row ++ row') xs = Row (row ++ first) :: rest) as Hgo.
  { clear. assert (∀ row row', row' ≠ [] → flush row' = [Row row'] ∧ flush (row ++ row') = [Row (row ++ row')]) as Hflush.
    { intros row [|x row'] Hne; [done|]. split; [done|]. by destruct row. }
    induction xs as [|x xs IH]; intros used row row' Hne; destruct (Hflush row row' Hne) as [H1 H2]; cbn [fill]; rewrite ?H1, ?H2.
    - by exists row', [].
    - destruct (width <? lwidth x); [by eexists row', _|]. destruct (_ && _); [by eexists row', _|].
      rewrite <-app_assoc. apply IH. by destruct row'. }
  destruct xs as [|x xs]; [left; by rewrite app_nil_r|]. cbn [fill flush app]. destruct (width <? lwidth x); [by left|].
  destruct (_ && _); [by left|]. right. by apply (Hgo xs (used + lwidth x) row [x]).
Qed.

(** A row with the units [cur] in front, and rows that go on after them. *)
Definition row_after (cur : list lunit) (row : ReflowRow) : ReflowRow :=
  mkRow (match head cur with Some x => Some (a_line_id x.1) | None => source_line_id row end)
    (cur.*1 ++ row_anchors row) ((cur ≫= unit_cells) ++ row_cells row) (row_break row) (unavailable row).

Definition rows_continue (cur : list lunit) (rows rows' : list ReflowRow) : Prop :=
  rows' = soft_rows (flush cur) ++ rows ∨ ∃ first rest, rows = first :: rest ∧ rows' = row_after cur first :: rest.

Lemma row_after_of cur xs brk :
  (row_of (cur ++ xs)) <| row_break := brk |> = row_after cur ((row_of xs) <| row_break := brk |>).
Proof.
  change (mkRow (a_line_id ∘ fst <$> head (cur ++ xs)) (cur ++ xs).*1 ((cur ++ xs) ≫= unit_cells) brk false =
    mkRow (match head cur with Some x => Some (a_line_id x.1) | None => a_line_id ∘ fst <$> head xs end)
      (cur.*1 ++ xs.*1) ((cur ≫= unit_cells) ++ (xs ≫= unit_cells)) brk false).
  rewrite fmap_app, bind_app. by destruct cur.
Qed.

Lemma para_rows_continue wide wide' end_ cur cs cs' more :
  continues cur cs cs' → cs ≠ [] →
  rows_continue cur (para_rows wide end_ cs ++ more) (para_rows wide' end_ cs' ++ more) ∧ ends_wide wide cs = ends_wide wide' cs'.
Proof.
  intros Hc Hne. destruct (exists_last Hne) as (ys & z & ->). destruct Hc as [->|(first & rest & Hcs & ->)].
  - split; [|unfold ends_wide; by rewrite app_assoc, !last_snoc]. left. unfold para_rows. destruct end_ as [id|].
    + by rewrite app_assoc, !hard_rows_snoc, soft_rows_app, <-!app_assoc.
    + by rewrite soft_rows_app, <-app_assoc.
  - destruct ys as [|y ys]; injection Hcs as -> <-.
    + split; [|done]. right. destruct end_ as [id|]; [exists (hard (row_of first))|exists (soft (row_of first))]; exists more; (split; [done|]);
        (cbn; f_equal; apply (row_after_of cur first)).
    + split; [|unfold ends_wide; by rewrite !app_comm_cons, !last_snoc]. right. unfold para_rows. destruct end_ as [id|].
      * rewrite !app_comm_cons, !hard_rows_snoc. eexists _, _. split; [done|]. cbn. f_equal. apply (row_after_of cur first).
      * eexists _, _. split; [done|]. cbn. f_equal. apply (row_after_of cur first).
Qed.

(** The units of the paragraph that is open after some lines. *)
Fixpoint open_units (joined : list lunit) (ls : list HistoryLine) : list lunit :=
  match ls with
  | [] => joined
  | l :: ls => open_units (match break_after l with SoftWrap => joined ++ located l | HardBreak => [] end) ls
  end.

Lemma paragraphs_app joined pre post :
  ∃ closed, paragraphs joined (pre ++ post) = closed ++ paragraphs (open_units joined pre) post ∧
    (closed ≫= fst) ++ open_units joined pre = joined ++ (pre ≫= located).
Proof.
  revert joined. induction pre as [|l pre IH]; intros joined; cbn [app paragraphs open_units].
  { exists []. by rewrite app_nil_r. }
  change ((l :: pre) ≫= located) with (located l ++ (pre ≫= located)). destruct (break_after l).
  - destruct (IH []) as (closed & -> & Hu). exists ((joined ++ located l, Some (line_id l)) :: closed). split; [done|].
    change (((joined ++ located l) ++ (closed ≫= fst)) ++ open_units [] pre = joined ++ located l ++ (pre ≫= located)).
    by rewrite <-app_assoc, Hu, <-app_assoc.
  - destruct (IH (joined ++ located l)) as (closed & -> & Hu). exists closed. split; [done|]. by rewrite Hu, <-app_assoc.
Qed.

Lemma paragraphs_joined l ls :
  ∃ xs end_ ps, ∀ joined, paragraphs joined (l :: ls) = (joined ++ located l ++ xs, end_) :: ps.
Proof.
  revert l. induction ls as [|l' ls IH]; intros l; cbn [paragraphs]; destruct (break_after l).
  1, 3: exists [], (Some (line_id l)); eexists; intros joined; by rewrite app_nil_r.
  - exists [], None, []. intros joined. by rewrite app_nil_r.
  - destruct (IH l') as (xs & end_ & ps & Hps). exists (located l' ++ xs), end_, ps. intros joined.
    specialize (Hps (joined ++ located l)). by rewrite <-app_assoc in Hps.
Qed.

Lemma paras_rows_app width wide ps qs :
  ∃ wide', paras_rows width 0 wide (ps ++ qs) = paras_rows width 0 wide ps ++ paras_rows width 0 wide' qs.
Proof.
  revert wide. induction ps as [|[xs end_] ps IH]; intros wide; [by exists wide|]. cbn [app paras_rows].
  destruct (IH (ends_wide wide (fill width 0 [] xs))) as [wide' ->]. exists wide'. by rewrite app_assoc.
Qed.

(** The layout of some lines and the layout of the last of them from the right column. *)
Lemma layout_rows_continue width pre l post :
  0 < width → units l ≠ [] →
  ∃ finished cur rows, layout_rows width 0 (pre ++ l :: post) = finished ++ rows ∧
    (finished ≫= row_anchors) ++ cur.*1 = (pre ≫= located).*1 ∧
    rows_continue cur (layout_rows width (layout width 0 (lwidth <$> open_units [] pre)) (l :: post)) rows.
Proof.
  intros Hw Hne. unfold layout_rows. destruct (paragraphs_app [] pre (l :: post)) as (closed & -> & Hu). cbn [app] in Hu.
  destruct (paras_rows_app width false closed (paragraphs (open_units [] pre) (l :: post))) as [wide ->].
  destruct (paragraphs_joined l post) as (xs0 & end_ & ps & Hps). rewrite !Hps. set (xs := located l ++ xs0). cbn [paras_rows app].
  assert (xs ≠ []) as Hxs.
  { intros [Hl _]%app_eq_nil. apply Hne, length_zero_iff_nil. apply (f_equal length) in Hl. unfold located in Hl. by rewrite length_imap in Hl. }
  destruct (fill_state width 0 [] (open_units [] pre)) as [[cs r] u] eqn:Hf.
  destruct (fill_state_props _ _ _ _ _ _ _ (N.le_0_l width) ltac:(done) Hf) as (Hu' & _ & _).
  pose proof (fill_state_column width 0 [] _ cs r u Hw (N.le_0_l _) Hf) as Hcol.
  replace (column width 0) with 0 in Hcol by (unfold column; by destruct (_ <=? _)). rewrite <-Hcol.
  rewrite fill_column, fill_app, Hf by done.
  exists (paras_rows width 0 false closed ++ soft_rows cs), r, (para_rows wide end_ (fill width u r xs) ++ paras_rows width 0 (ends_wide wide (cs ++ fill width u r xs)) ps).
  pose proof (fill_concat width u [] xs) as Hchunks. cbn [app] in Hchunks.
  assert (fill width u [] xs ≠ []) as Hcne by (intros Hnil; by rewrite Hnil in Hchunks).
  assert (∀ more, para_rows wide end_ (cs ++ fill width u r xs) ++ more = soft_rows cs ++ para_rows wide end_ (fill width u r xs) ++ more) as Hsplit.
  { intros more. assert (fill width u r xs ≠ []) as Hne'.
    { intros Hnil. pose proof (fill_concat width u r xs) as Hr. rewrite Hnil in Hr. symmetry in Hr. by apply app_eq_nil in Hr as [_ ?]. }
    destruct (exists_last Hne') as (ys & z & ->). unfold para_rows. destruct end_ as [id|].
    - by rewrite app_assoc, !hard_rows_snoc, soft_rows_app, <-!app_assoc.
    - by rewrite soft_rows_app, <-app_assoc. }
  destruct (para_rows_continue false wide end_ r _ _ (paras_rows width 0 (ends_wide false (fill width u [] xs)) ps)
    (fill_continues width u r xs) Hcne) as [Hcont Hends].
  assert (ends_wide wide (cs ++ fill width u r xs) = ends_wide false (fill width u [] xs)) as ->.
  { rewrite Hends. destruct (fill_continues width u r xs) as [->|(f & rest & _ & ->)].
    - destruct (exists_last Hcne) as (ys & z & ->). unfold ends_wide. by rewrite !app_assoc, !last_snoc.
    - unfold ends_wide. destruct rest as [|y rest _] using rev_ind; [by rewrite last_snoc|]. by rewrite app_comm_cons, app_assoc, !last_snoc. }
  split_and!; [by rewrite Hsplit, app_assoc| |done].
  destruct (paras_rows_hold width 0 false closed (N.le_0_l _)) as [_ Hclosed].
  pose proof (fill_app width 0 [] (open_units [] pre) []) as Hopen. rewrite Hf, app_nil_r in Hopen. cbn [fill] in Hopen.
  pose proof (fill_fits width 0 [] (open_units [] pre) (N.le_0_l _) (N.le_0_l _)) as Hfits. rewrite Hopen in Hfits.
  apply Forall_app in Hfits as [Hfits _]. destruct (soft_rows_hold width cs Hfits) as [_ Hsoft].
  pose proof (fill_concat width 0 [] (open_units [] pre)) as Hopen'. rewrite Hopen, bind_app, flush_units in Hopen'. cbn [app] in Hopen'.
  rewrite bind_app, Hclosed, Hsoft, <-app_assoc, <-!fmap_app, Hopen', Hu. done.
Qed.

(** C26. The one-pass reflow computes the paragraph layout: for every width, row limit and
    starting column, it returns the rows, up to the limit, of the layout in which lines joined
    by soft wraps form a paragraph and every paragraph is filled greedily.  Units wider than
    the grid get an unavailable row of their own, wide units are followed by a continuation
    cell, and rows are soft-wrapped except the last of a closed paragraph.  An empty paragraph
    is one blank row, but no row directly after an unavailable one; and an unavailable row that
    is the last one the limit allows is returned as soft-wrapped.  The lines' unit addresses
    must fit 32 bits. *)
Theorem reflow_exact (cols max_rows start_col : N) (h : HistoryStore) (ls : list HistoryLine) :
  entries h = Some ls → 0 < cols → cols ≤ u16_max → Forall offsets_fit ls →
  reflow_uncached_from cols max_rows start_col h = Some (limited max_rows (layout_rows cols (N.min start_col cols) ls)).
Proof.
  intros He Hc Hm Hls. unfold reflow_uncached_from. rewrite He. cbn [mbind option_bind]. by rewrite reflow_rows_layout.
Qed.

(** C27. Reflow loses nothing and overflows nothing: no row has more cells than columns, there
    are at most as many rows as asked for, and the anchors of the rows, in order, are the
    addresses of the retained units, all of them unless the row limit was hit -- also the
    addresses of units wider than the grid.  The lines' unit addresses must fit 32 bits. *)
Theorem reflow_complete (cols max_rows start_col : N) (h : HistoryStore) (ls : list HistoryLine) :
  entries h = Some ls → 0 < cols → cols ≤ u16_max → Forall offsets_fit ls →
  ∃ rows, reflow_uncached_from cols max_rows start_col h = Some rows ∧ vlen rows ≤ max_rows ∧
    Forall (λ r, vlen (row_cells r) ≤ cols) rows ∧
    ∃ hidden, (rows ≫= row_anchors) ++ hidden = (ls ≫= located).*1 ∧ (vlen rows < max_rows → hidden = []).
Proof.
  intros He Hc Hm Hls. unfold reflow_uncached_from. rewrite He. cbn [mbind option_bind]. eexists. split; [done|].
  rewrite reflow_rows_layout by done. destruct (layout_rows_hold cols (N.min start_col cols) ls) as [H1 H2]; [lia|].
  destruct (limited_hold cols max_rows _ H1) as (L1 & L2 & L3). rewrite H2 in L3.
  split_and!; [lia|done|]. eexists. split; [exact L3|]. rewrite L1. intros Hlt. rewrite drop_ge by lia. done.
Qed.


(** ** The cache is coherent *)

Section coherence.
Context `{Memory}.
Implicit Types (h : HistoryStore).

Lemma seal_tail_cache h : reflow_cache (seal_tail h) = reflow_cache h.
Proof. unfold seal_tail. destruct (items (tail h)); [done|]. by destruct (foldl _ _ _) as [[? ?] ?]. Qed.

Lemma push_fragment_cache t b h h' : push_fragment_inner t b h = Some h' → reflow_cache h' = reflow_cache h.
Proof.
  unfold push_fragment_inner. cbv zeta. intros (cs & _ & Hr)%bind_Some. revert Hr.
  match goal with |- context [if ?c then seal_tail h else h] => generalize c end. intros full.
  assert (reflow_cache (if full then seal_tail h else h) = reflow_cache h) as <- by (destruct full; [apply seal_tail_cache|done]).
  generalize (if full then seal_tail h else h). intros h0.
  destruct (_ || _); intros [= <-]; [by rewrite seal_tail_cache|done].
Qed.

Lemma fragment_loop_cache id brk rest fragment bytes offset h h' :
  fragment_loop id brk rest fragment bytes offset h = Some h' → reflow_cache h' = reflow_cache h.
Proof.
  revert fragment bytes offset h. induction rest as [|u rest IH]; intros fragment bytes offset h; cbn [fragment_loop];
    unfold push_fragment.
  - destruct (bool_decide _); [by intros [= <-]|]. intros (s & _ & Hr)%bind_Some. by apply push_fragment_cache in Hr.
  - destruct (_ && _); [|apply IH]. intros (s & _ & (h1 & H1 & Hr)%bind_Some)%bind_Some.
    apply push_fragment_cache in H1. rewrite <-H1. by eapply IH.
Qed.

Lemma drop_oldest_cache h h' : drop_oldest_segment h = Some h' → reflow_cache h' = reflow_cache h.
Proof.
  unfold drop_oldest_segment, record_evicted_segment. destruct (items (segments h)); [by intros [= <-]|].
  destruct (record_evicted_ids _ _); [|done]. by intros [= <-].
Qed.

Lemma evict_loop_cache fuel b h r : evict_loop fuel b h = Some r → reflow_cache r.2 = reflow_cache h.
Proof.
  revert b h. induction fuel as [|fuel IH]; intros b h; cbn [evict_loop]; [done|]. destruct (_ <? _); [|by intros [= <-]].
  set (h0 := match items (segments h) with [] => _ | _ :: _ => _ end).
  assert (reflow_cache h0 = reflow_cache h) as <-.
  { subst h0. destruct (items (segments h)); [|done]. destruct (items (tail h)); [done|apply seal_tail_cache]. }
  clearbody h0. destruct (items (segments h0)); [by intros [= <-]|]. intros (h1 & H1 & Hr)%bind_Some.
  apply drop_oldest_cache in H1 as <-. by eapply IH.
Qed.

Lemma append_line_cache l h h' : append_line_store l h = Some h' → reflow_cache h' = None.
Proof.
  unfold append_line_store. intros (h1 & H1 & H2)%bind_Some. assert (reflow_cache h1 = None) as Hn.
  { revert H1. unfold retain_line, push_fragment. destruct (_ <? _); [intros Hr%fragment_loop_cache|intros Hr%push_fragment_cache]; done. }
  revert H2. unfold evict_to_cap. intros (r & Hr & H3)%bind_Some. apply evict_loop_cache in Hr.
  change (reflow_cache r.2 = reflow_cache h1) in Hr. rewrite Hn in Hr.
  destruct (r.1); [unfold trim_before_retained in H3; apply bind_Some in H3 as (cs & _ & [= <-])|injection H3 as <-];
    exact Hr.
Qed.

Lemma push_kept_cache ls h h' : push_kept ls h = Some h' → reflow_cache h' = reflow_cache h.
Proof.
  unfold push_kept. revert h. induction ls as [|l ls IH]; intros h; cbn [foldl]; [by intros [= <-]|].
  cbn [mbind option_bind]. destruct (push_fragment_inner _ _ h) as [h1|] eqn:H1.
  - apply push_fragment_cache in H1 as <-. apply IH.
  - intros Hn. exfalso. revert Hn. clear. induction ls as [|l' ls IHl]; [done|apply IHl].
Qed.

Lemma truncate_segments_cache fuel from h h' :
  truncate_segments fuel from h = Some h' → reflow_cache h' = reflow_cache h.
Proof.
  revert h. induction fuel as [|fuel IH]; intros h; cbn [truncate_segments]; [done|].
  destruct (last (items (segments h))) as [s|]; [|by intros [= <-]].
  destruct (last (seg_lines s)); [|by intros Hr%IH]. destruct (range_entirely_before _ _ _ _); [by intros [= <-]|].
  intros (ls & _ & Hr)%bind_Some. destruct (kept_lines from ls) as [keep reached].
  apply bind_Some in Hr as (h1 & H1 & Hr). apply push_kept_cache in H1.
  destruct reached; [injection Hr as <-|apply IH in Hr; rewrite Hr]; by rewrite H1.
Qed.

(** Every operation that changes the retained lines drops the cache. *)
Lemma hstep_cache h h' : hstep h h' → reflow_cache h' = None.
Proof.
  intros Hstep. destruct Hstep as [l h h' Hl Hr|from h h' Hr|new h h' Hn Hr|n h h' Hr|h].
  - by apply append_line_cache in Hr.
  - revert Hr. unfold truncate_from. cbv zeta. destruct (truncate_tail from _) as [rt early].
    intros (h1 & H1 & (cs & _ & [= <-])%bind_Some)%bind_Some. change (reflow_cache h1 = None).
    destruct early; [by injection H1 as <-|]. apply bind_Some in H1 as (h2 & H2 & [= <-]).
    by apply truncate_segments_cache in H2.
  - revert Hr. unfold replace_payload. match goal with |- context [append_lines new ?x] => set (h0 := x) end.
    assert (reflow_cache h0 = None) as Hc by done. clearbody h0. revert h0 Hc. clear Hn. unfold append_lines.
    induction new as [|l new IH]; intros h0 Hc; cbn [foldl mbind option_bind]; [by intros [= <-]|].
    destruct (append_line_store l h0) as [h1|] eqn:H1; [apply append_line_cache in H1; by apply IH|].
    intros Hf. exfalso. revert Hf. clear. induction new as [|l' new IHl]; [done|apply IHl].
  - revert Hr. unfold evict_oldest_segment. destruct (items _); [by intros [= <- <-]|].
    intros (h1 & H1 & (h2 & H2 & [= <- <-])%bind_Some)%bind_Some. apply drop_oldest_cache in H1.
    unfold trim_before_retained in H2. apply bind_Some in H2 as (cs & _ & [= <-]). exact H1.
  - done.
Qed.

Context `{RowMemory}.

(** Stores reached by any operations interleaved with cached layouts. *)
Inductive cstep : HistoryStore → HistoryStore → Prop :=
  | cstep_operation h h' : hstep h h' → cstep h h'
  | cstep_reflow cols max_rows start rows h h' : reflow_from cols max_rows start h = Some (rows, h') → cstep h h'.

Definition cache_ok h : Prop :=
  ∀ c, reflow_cache h = Some c → reflow_uncached_from (rc_columns c) (rc_max_rows c) 0 h = Some (rc_rows c).

Lemma reflow_from_ok cols max_rows start h rows h' :
  cache_ok h → reflow_from cols max_rows start h = Some (rows, h') →
  reflow_uncached_from cols max_rows start h = Some rows ∧ cache_ok h' ∧ entries h' = entries h ∧ h' <| reflow_cache := None |> = h <| reflow_cache := None |>.
Proof.
  intros Hok. unfold reflow_from. cbv zeta.
  assert ((rows ← reflow_uncached_from cols max_rows start h;
    if (start =? 0) && (reflow_rows_allocated_bytes rows <=? HISTORY_PER_EXECUTION_DERIVED_INDEX_CAP)
    then Some (rows, h <| reflow_cache := Some (mkCache cols max_rows (eviction_generation h) rows) |>)
    else Some (rows, h)) = Some (rows, h') →
    reflow_uncached_from cols max_rows start h = Some rows ∧ cache_ok h' ∧ entries h' = entries h ∧
    h' <| reflow_cache := None |> = h <| reflow_cache := None |>) as Hfresh.
  { intros (rows0 & Hu & Hr)%bind_Some. destruct (_ && _) eqn:Hc; injection Hr as <- <-; [|by split_and!].
    apply andb_true_iff in Hc as [->%N.eqb_eq _]. split_and!; [done| |done|done]. intros c [= <-]. exact Hu. }
  destruct (reflow_cache h) as [c|] eqn:Hc; [|exact Hfresh]. destruct (_ && _) eqn:Hhit; [|exact Hfresh].
  intros [= <- <-]. apply andb_true_iff in Hhit as [->%N.eqb_eq Hhit]. apply andb_true_iff in Hhit as [Hhit _].
  apply andb_true_iff in Hhit as [<-%N.eqb_eq <-%N.eqb_eq]. split_and!; [by apply Hok|done|done|done].
Qed.

Lemma cstep_ok h h' : cache_ok h → cstep h h' → cache_ok h'.
Proof.
  intros Hok Hstep. destruct Hstep as [h h' Hs%hstep_cache|cols max_rows start rows h h' Hr].
  - intros c Hc. congruence.
  - by destruct (reflow_from_ok _ _ _ _ _ _ Hok Hr) as (_ & ? & _).
Qed.
End coherence.

(** C29. The reflow cache is transparent.  In every store reached by appends, cuts,
    replacements, evictions, cache drops and earlier layouts in any order, a cached layout
    returns exactly the rows that laying out afresh returns, and changes nothing but the
    cache. *)
Theorem reflow_cache_transparent `{Memory, RowMemory} (h : HistoryStore) (cols max_rows start : N) rows h' :
  rtc cstep store_default h → reflow_from cols max_rows start h = Some (rows, h') →
  reflow_uncached_from cols max_rows start h = Some rows ∧
  h' <| reflow_cache := None |> = h <| reflow_cache := None |>.
Proof.
  intros Hr Hf. assert (cache_ok h) as Hok.
  { assert (cache_ok store_default) as Hd by done. clear Hf. induction Hr as [|h1 h2 h3 Hs _ IH]; [done|].
    by apply IH, (cstep_ok h1). }
  destruct (reflow_from_ok _ _ _ _ _ _ Hok Hf) as (? & _ & _ & ?). done.
Qed.

(** ** The claims on concrete stores *)

Definition row_memory : RowMemory := {|
  size_rows_vec := 24; size_row := 80; size_wire_cell := 48; size_anchor := 16;
  rows_cap := λ rows, vlen rows; cells_cap r := vlen (row_cells r); anchors_cap r := vlen (row_anchors r);
  text_cap c := vlen (wc_text c) |}.

#[local] Instance offsets_fit_dec l : Decision (offsets_fit l).
Proof. unfold offsets_fit. apply _. Defined.

(** A store after appending some lines. *)
Definition store_of (ls : list HistoryLine) : HistoryStore := default store_default (@append_lines exact_memory ls store_default).

(** Two wide units on a grid of one column, and a blank line after the second. *)
Definition narrow_lines : list HistoryLine :=
  [line_of_widths 1 [1; 2; 1] HardBreak; line_of_widths 2 [2] HardBreak; line_of_widths 3 [] HardBreak; line_of_widths 4 [1] HardBreak].

Lemma reflow_exact_witness :
  reflow_uncached_from 1 4 0 (store_of narrow_lines) = Some (limited 4 (layout_rows 1 0 narrow_lines)).
Proof.
  apply (reflow_exact 1 4 0 (store_of narrow_lines) narrow_lines);
    [vm_compute; reflexivity|lia|unfold u16_max; lia|apply (bool_decide_eq_true_1 _); vm_compute; reflexivity].
Defined.

(** The blank line 3 has no row of its own: the unavailable row of line 2 stands for it too. *)
Example blank_after_wide_lost :
  fmap (M := list) source_line_id <$> reflow_uncached_from 1 9 0 (store_of narrow_lines) =
    Some [Some 1; Some 1; Some 1; Some 2; Some 4] ∧
  fmap (M := list) source_line_id <$> reflow_uncached_from 2 9 0 (store_of narrow_lines) =
    Some [Some 1; Some 1; Some 1; Some 2; Some 3; Some 4].
Proof. vm_compute. split; reflexivity. Qed.

Lemma reflow_complete_witness :
  ∃ rows, reflow_uncached_from 1 9 0 (store_of narrow_lines) = Some rows ∧ vlen rows ≤ 9 ∧
    Forall (λ r, vlen (row_cells r) ≤ 1) rows ∧
    ∃ hidden, (rows ≫= row_anchors) ++ hidden = (narrow_lines ≫= located).*1 ∧ (vlen rows < 9 → hidden = []).
Proof.
  apply (reflow_complete 1 9 0 (store_of narrow_lines) narrow_lines);
    [vm_compute; reflexivity|lia|unfold u16_max; lia|apply (bool_decide_eq_true_1 _); vm_compute; reflexivity].
Defined.

(** A paragraph of two lines after a line of its own. *)
Definition split_lines : list HistoryLine :=
  [line_of_widths 1 [1; 1] HardBreak; line_of_widths 2 [1; 1; 2; 2; 1; 1; 2; 2] SoftWrap; line_of_widths 3 [1; 1; 2; 2; 1; 1; 2] HardBreak].

Lemma split_indexed : @indexed exact_memory 17 (wrap_chains (store_of split_lines))
  [([line_of_widths 2 [1; 1; 2; 2; 1; 1; 2; 2] SoftWrap; line_of_widths 3 [1; 1; 2; 2; 1; 1; 2] HardBreak], false)].
Proof.
  assert (∀ k n gs l, @indexed exact_memory n (wrap_chains (store_of (take k split_lines))) gs → split_lines !! k = Some l →
    bool_decide (n + vlen (units l) ≤ u32_max ∧ start_offset l + vlen (units l) ≤ u32_max ∧
      Forall (λ l', line_precedes l' l) (lines_of gs) ∧
      length (items (wrap_chains (store_of (take (S k) split_lines)))) = length (take_line l gs)) = true →
    @extend_wrap_line exact_memory l (wrap_chains (store_of (take k split_lines))) =
      Some (wrap_chains (store_of (take (S k) split_lines))) →
    @indexed exact_memory (n + vlen (units l)) (wrap_chains (store_of (take (S k) split_lines))) (take_line l gs)) as Hstep.
  { intros k n gs l Hi _ Hb Hx. exact (@indexed_line_dec exact_memory l n gs _ _ Hi Hb Hx). }
  refine (Hstep 2%nat _ _ _ (Hstep 1%nat _ _ _ (Hstep 0%nat 0 [] _ _ eq_refl _ _) eq_refl _ _) eq_refl _ _);
    [exact (@indexed_new exact_memory)|vm_compute; reflexivity..].
Qed.


Lemma reflow_cache_transparent_witness :
  let h := default store_default (@append_line_store exact_memory (demo_line 1) store_default) in
  ∃ rows h', @reflow_from row_memory 30 9 0 h = Some (rows, h') ∧
    reflow_uncached_from 30 9 0 h = Some rows ∧ h' <| reflow_cache := None |> = h <| reflow_cache := None |>.
Proof.
  intros h. destruct (@reflow_from row_memory 30 9 0 h) as [[rows h']|] eqn:Hr; [|vm_compute in Hr; discriminate].
  exists rows, h'. split; [reflexivity|]. apply (@reflow_cache_transparent exact_memory row_memory h 30 9 0 rows h'); [|exact Hr].
  eapply rtc_l; [|apply rtc_refl]. apply cstep_operation.
  eapply (@step_append exact_memory (demo_line 1)); [|vm_compute; reflexivity].
  split; [repeat constructor; done|apply N.leb_le; vm_compute; reflexivity].
Defined.
