(* ===== verification/Screen.v ===== *)
(** The live grid: [crates/seyal-terminal/src/screen/mod.rs] and [screen/ops.rs].

    Every operation is a computation over a [World]: the screen, the line-identity
    allocator and the grapheme store, the three mutable things the Rust methods receive.
    Indexing, slicing and unsigned subtraction panic as in the source; an exhausted
    allocator is the [Err] of the source and keeps the mutations done before it. *)

From S2P Require Import Prelude Types Damage LineIds GraphemeStore HistoryTypes.

Definition MAX_TERMINAL_COLUMNS : N := 512.
Definition MAX_TERMINAL_ROWS : N := 256.

Record SavedCursor := mkSaved { saved_at : Cursor; saved_style : Style }.

Record Screen {H : Type} := mkScreen {
  cols : N;
  rows : N;
  cells : list Cell;
  cell_anchors : list (option HistoryAnchor);
  line_ids : list LineId;
  row_breaks : list (option HistoryBreakAfter);
  source_breaks : gmap LineId HistoryBreakAfter;
  cursor : Cursor;
  pen : Style;
  saved_cursor : option SavedCursor;
  history : H;
  retain_history : bool;
  ed2_remint_frontier : option LineId;
  scroll_top : N;
  scroll_bottom : N }.
Arguments Screen : clear implicits.
Arguments mkScreen {H}.

Record World {H : Type} := mkWorld { scr : Screen H; alloc : LineIdAllocator; store : GraphemeStore }.
Arguments World : clear implicits.
Arguments mkWorld {H}.

Section screen.
Context {H : Type} `{HistoryLog H}.

Definition SM (A : Type) : Type := M TerminalError (World H) A.

(** * Primitive accesses *)

Definition gscr {A} (f : Screen H → A) : SM A := gets (λ w, f (scr w)).
Definition mscr (f : Screen H → Screen H) : SM unit := modify (λ w, w <| scr := f (scr w) |>).
Definition mcur (f : Cursor → Cursor) : SM unit := mscr (λ s, s <| cursor := f (cursor s) |>).

Definition with_alloc {A} (m : M TerminalError LineIdAllocator A) : SM A :=
  zoom alloc (λ a w, w <| alloc := a |>) m.
Definition with_store {A} (m : M TerminalError GraphemeStore A) : SM A :=
  zoom store (λ g w, w <| store := g |>) m.

Definition sub (a b : N) : SM N := or_panic (checked_sub a b).
Definition add16 (a b : N) : SM N := or_panic (checked_add u16_max a b).

Definition index_of (s : Screen H) (c r : N) : N := r * cols s + c.
Definition index (c r : N) : SM N := gscr (λ s, index_of s c r).

Definition get_cell (i : N) : SM Cell := let! l := gscr cells in or_panic (vget l i).
Definition set_cell (i : N) (c : Cell) : SM unit :=
  let! l := gscr cells in let! l := or_panic (vset l i c) in mscr (λ s, s <| cells := l |>).
Definition get_anchor (i : N) : SM (option HistoryAnchor) :=
  let! l := gscr cell_anchors in or_panic (vget l i).
Definition set_anchor (i : N) (a : option HistoryAnchor) : SM unit :=
  let! l := gscr cell_anchors in
  let! l := or_panic (vset l i a) in mscr (λ s, s <| cell_anchors := l |>).
Definition get_line_id (i : N) : SM LineId := let! l := gscr line_ids in or_panic (vget l i).
Definition set_line_id (i : N) (id : LineId) : SM unit :=
  let! l := gscr line_ids in let! l := or_panic (vset l i id) in mscr (λ s, s <| line_ids := l |>).
Definition get_break (i : N) : SM (option HistoryBreakAfter) :=
  let! l := gscr row_breaks in or_panic (vget l i).
Definition set_break (i : N) (b : option HistoryBreakAfter) : SM unit :=
  let! l := gscr row_breaks in let! l := or_panic (vset l i b) in mscr (λ s, s <| row_breaks := l |>).
Definition fill_cells (lo hi : N) (c : Cell) : SM unit :=
  let! l := gscr cells in let! l := or_panic (vfill l lo hi c) in mscr (λ s, s <| cells := l |>).
Definition fill_anchors (lo hi : N) (a : option HistoryAnchor) : SM unit :=
  let! l := gscr cell_anchors in
  let! l := or_panic (vfill l lo hi a) in mscr (λ s, s <| cell_anchors := l |>).
Definition copy_cells (lo hi dst : N) : SM unit :=
  let! l := gscr cells in
  let! l := or_panic (vcopy_within l lo hi dst) in mscr (λ s, s <| cells := l |>).
Definition copy_anchors (lo hi dst : N) : SM unit :=
  let! l := gscr cell_anchors in
  let! l := or_panic (vcopy_within l lo hi dst) in mscr (λ s, s <| cell_anchors := l |>).
Definition copy_line_ids (lo hi dst : N) : SM unit :=
  let! l := gscr line_ids in
  let! l := or_panic (vcopy_within l lo hi dst) in mscr (λ s, s <| line_ids := l |>).
Definition copy_breaks (lo hi dst : N) : SM unit :=
  let! l := gscr row_breaks in
  let! l := or_panic (vcopy_within l lo hi dst) in mscr (λ s, s <| row_breaks := l |>).
Definition slice_cells (lo hi : N) : SM (list Cell) :=
  let! l := gscr cells in or_panic (vslice l lo hi).
Definition blank_cell : SM Cell := gscr (λ s, blank (bg (pen s))).

(** * Construction and simple queries *)

(** [Screen::new]; the world's screen is not read, only its allocator. *)
Definition new_screen (c r : N) (retain : bool) : M TerminalError LineIdAllocator (Screen H) :=
  if (c =? 0) || (r =? 0) then fail InvalidSize
  else if (MAX_TERMINAL_COLUMNS <? c) || (MAX_TERMINAL_ROWS <? r) then fail InvalidSize
  else
    let! ok := gets (can_allocate r) in
    if negb ok then fail LineIdentityExhausted
    else
      let! ids := allocate_n (N.to_nat r) in
      ret {| cols := c; rows := r;
             cells := replicate (N.to_nat (c * r)) cell_default;
             cell_anchors := replicate (N.to_nat (c * r)) None;
             line_ids := ids;
             row_breaks := replicate (N.to_nat r) (Some HardBreak);
             source_breaks := ∅;
             cursor := cursor_default;
             pen := style_default;
             saved_cursor := None;
             history := history_default;
             retain_history := retain;
             ed2_remint_frontier := None;
             scroll_top := 0;
             scroll_bottom := r - 1 |}.

Definition region_is_full_screen (s : Screen H) : bool :=
  (scroll_top s =? 0) && (scroll_bottom s + 1 =? rows s).

Definition clamp_scroll_region_to_geometry (s : Screen H) : Screen H :=
  if rows s =? 0 then s <| scroll_top := 0 |> <| scroll_bottom := 0 |>
  else
    let max_row := rows s - 1 in
    let s := if max_row <? scroll_top s then s <| scroll_top := 0 |> else s in
    if (max_row <? scroll_bottom s) || (scroll_bottom s <=? scroll_top s) then
      let s := s <| scroll_bottom := max_row |> in
      if scroll_bottom s <=? scroll_top s then s <| scroll_top := 0 |> else s
    else s.

Definition release_cell (c : Cell) : SM unit :=
  if decide (role c = Lead) then with_store (modify (release (store_id c))) else ret tt.

(** The loop that releases every cell of a slice. *)
Definition release_cells (l : list Cell) : SM unit := for_each l release_cell.

Definition release_all_payloads : SM unit := let! l := gscr cells in release_cells l.

Definition inherit_pen_for_clean_buffer (p : Style) : SM unit :=
  mscr (λ s, s <| pen := p |>) ;;;
  release_all_payloads ;;;
  mscr (λ s, s <| cells := (λ _, blank (bg p)) <$> cells s |>).

Definition cursor_state (visible : bool) (s : Screen H) : CursorState :=
  mkCursorState (col (cursor s)) (row (cursor s)) visible.

(** Outer [None]: the index panics. *)
Definition cell (c r : N) (s : Screen H) : option (option Cell) :=
  if (cols s <=? c) || (rows s <=? r) then Some None
  else x ← vget (cells s) (index_of s c r); Some (Some x).

Definition screen_line_id (r : N) (s : Screen H) : option LineId := line_ids s !! N.to_nat r.

Definition row_break_after (r : N) (s : Screen H) : option HistoryBreakAfter :=
  mjoin (row_breaks s !! N.to_nat r).

Definition cell_row (r : N) (s : Screen H) : option (option (list Cell)) :=
  if rows s <=? r then Some None
  else x ← vslice (cells s) (r * cols s) (r * cols s + cols s); Some (Some x).

Definition cell_anchor (c r : N) (s : Screen H) : option (option HistoryAnchor) :=
  if (c <? cols s) && (r <? rows s) then vget (cell_anchors s) (index_of s c r) else Some None.

(** * Cursor movement *)

Definition set_cursor (r c : N) : SM Mutation :=
  let! old := gscr (λ s, row (cursor s)) in
  let! rs := gscr rows in
  let! cs := gscr cols in
  mcur (λ _, mkCursor (N.min c (cs - 1)) (N.min r (rs - 1)) false) ;;;
  ret (mut_rows old (N.min r (rs - 1))).

Definition set_scroll_region (top bottom : N) : SM Mutation :=
  let! rs := gscr rows in
  let top := if top =? 0 then 1 else top in
  let bottom := if bottom =? 0 then rs else bottom in
  if (top <? 1) || (rs <? bottom) || (bottom <=? top) then ret mut_none
  else
    mscr (λ s, s <| scroll_top := top - 1 |> <| scroll_bottom := bottom - 1 |>) ;;;
    set_cursor 0 0.

Definition cursor_up (count : N) : SM Mutation :=
  let! old := gscr (λ s, row (cursor s)) in
  mcur (λ c, c <| row := row c - count |> <| pending_wrap := false |>) ;;;
  ret (mut_rows old (old - count)).

Definition cursor_down (count : N) : SM Mutation :=
  let! old := gscr (λ s, row (cursor s)) in
  let! rs := gscr rows in
  let new := N.min (sat_add u16_max old count) (rs - 1) in
  mcur (λ c, c <| row := new |> <| pending_wrap := false |>) ;;;
  ret (mut_rows old new).

Definition cursor_forward (count : N) : SM Mutation :=
  let! r := gscr (λ s, row (cursor s)) in
  let! cs := gscr cols in
  mcur (λ c, c <| col := N.min (sat_add u16_max (col c) count) (cs - 1) |>
              <| pending_wrap := false |>) ;;;
  ret (mut_row r).

Definition cursor_back (count : N) : SM Mutation :=
  let! r := gscr (λ s, row (cursor s)) in
  mcur (λ c, c <| col := col c - count |> <| pending_wrap := false |>) ;;;
  ret (mut_row r).

Definition set_col (c : N) : SM Mutation :=
  let! r := gscr (λ s, row (cursor s)) in
  let! cs := gscr cols in
  mcur (λ cur, cur <| col := N.min c (cs - 1) |> <| pending_wrap := false |>) ;;;
  ret (mut_row r).

Definition set_row (r : N) : SM Mutation :=
  let! old := gscr (λ s, row (cursor s)) in
  let! rs := gscr rows in
  mcur (λ cur, cur <| row := N.min r (rs - 1) |> <| pending_wrap := false |>) ;;;
  ret (mut_rows old (N.min r (rs - 1))).

Definition backspace : SM Mutation :=
  let! r := gscr (λ s, row (cursor s)) in
  mcur (λ c, c <| col := col c - 1 |> <| pending_wrap := false |>) ;;;
  ret (mut_row r).

Definition tab : SM Mutation :=
  let! r := gscr (λ s, row (cursor s)) in
  let! cs := gscr cols in
  mcur (λ c, c <| col := N.min (sat_mul u16_max (sat_add u16_max (col c / 8) 1) 8) (cs - 1) |>
              <| pending_wrap := false |>) ;;;
  ret (mut_row r).

Definition carriage_return : SM Mutation :=
  let! r := gscr (λ s, row (cursor s)) in
  mcur (λ c, c <| col := 0 |> <| pending_wrap := false |>) ;;;
  ret (mut_row r).

Definition set_pending_wrap (pending : bool) : SM unit := mcur (λ c, c <| pending_wrap := pending |>).

Definition save_cursor : SM unit :=
  mscr (λ s, s <| saved_cursor := Some (mkSaved (cursor s) (pen s)) |>).

Definition restore_cursor : SM Mutation :=
  let! saved := gscr saved_cursor in
  match saved with
  | None => ret mut_none
  | Some saved =>
    let! old := gscr (λ s, row (cursor s)) in
    mscr (λ s, s <| cursor := clamp (cols s) (rows s) (saved_at saved) |>
                 <| pen := saved_style saved |>) ;;;
    let! r := gscr (λ s, row (cursor s)) in
    ret (mut_rows old r)
  end.

(** * Select graphic rendition *)

(** [params[i].min(255) as u8]. *)
Definition byte_param (v : N) : N := N.min v 255.

Definition set_color (foreground : bool) (c : Color) (p : Style) : Style :=
  if foreground then p <| fg := c |> else p <| bg := c |>.

(** One turn of the loop of [apply_sgr]: the new pen, whether the parameter was deferred,
    and how many parameters the turn consumed. *)
Definition sgr_step (ps : list N) (p : Style) : Style * bool * nat :=
  match ps with
  | [] => (p, false, 1%nat)
  | v :: rest =>
    if v =? 0 then (style_default, false, 1%nat)
    else if v =? 1 then (p <| bold := true |>, false, 1%nat)
    else if v =? 22 then (p <| bold := false |>, false, 1%nat)
    else if v =? 4 then (p <| underline := true |>, false, 1%nat)
    else if v =? 24 then (p <| underline := false |>, false, 1%nat)
    else if v =? 7 then (p <| inverse := true |>, false, 1%nat)
    else if v =? 27 then (p <| inverse := false |>, false, 1%nat)
    else if inr 30 37 v then (p <| fg := Indexed (v - 30) |>, false, 1%nat)
    else if v =? 39 then (p <| fg := ColorDefault |>, false, 1%nat)
    else if inr 40 47 v then (p <| bg := Indexed (v - 40) |>, false, 1%nat)
    else if v =? 49 then (p <| bg := ColorDefault |>, false, 1%nat)
    else if inr 90 97 v then (p <| fg := Indexed (v - 90 + 8) |>, false, 1%nat)
    else if inr 100 107 v then (p <| bg := Indexed (v - 100 + 8) |>, false, 1%nat)
    else if (v =? 38) || (v =? 48) then
      match rest with
      | 5 :: i :: _ => (set_color (v =? 38) (Indexed (byte_param i)) p, false, 3%nat)
      | 2 :: r :: g :: b :: _ =>
        (set_color (v =? 38) (Rgb (byte_param r) (byte_param g) (byte_param b)) p, false, 5%nat)
      | _ => (p, true, 1%nat)
      end
    else (p, true, 1%nat)
  end.

(** The loop: [index] advances by what each turn consumed, so the number of parameters
    bounds the number of turns. *)
Fixpoint sgr_loop (fuel : nat) (ps : list N) (p : Style) (deferred : bool) : Style * bool :=
  match fuel, ps with
  | O, _ | _, [] => (p, deferred)
  | S fuel, _ =>
    let '(p, d, used) := sgr_step ps p in sgr_loop fuel (drop used ps) p (deferred || d)
  end.

Definition apply_sgr (ps : list N) : SM bool :=
  if bool_decide (ps = []) then mscr (λ s, s <| pen := style_default |>) ;;; ret false
  else
    let! p := gscr pen in
    let '(p, deferred) := sgr_loop (length ps) ps p false in
    mscr (λ s, s <| pen := p |>) ;;; ret deferred.

(** * Leaving the grid: history *)

(** [iter().rev().flatten().next()] over optional anchors. *)
Definition last_anchor (l : list (option HistoryAnchor)) : option HistoryAnchor :=
  last (omap id l).

Definition current_source_line_id (r : N) : SM LineId :=
  let! cs := gscr cols in
  let! anchors := gscr cell_anchors in
  let! l := or_panic (vslice anchors (r * cs) (r * cs + cs)) in
  let! fallback := get_line_id r in
  match last_anchor l with
  | Some a => ret (a_line_id a)
  | None => ret fallback
  end.

(** Push a unit's fragment, or extend the previous fragment when it continues it. *)
Definition push_or_extend (fragments : list HistoryLine) (fragment : HistoryLine) :
    list HistoryLine :=
  match last fragments with
  | Some previous =>
    if (line_id previous =? line_id fragment) &&
       (sat_add u32_max (start_offset previous) (to_u32 (vlen (units previous)))
          =? start_offset fragment)
    then take (length fragments - 1) fragments
           ++ [previous <| units := units previous ++ units fragment |>]
    else fragments ++ [fragment]
  | None => [fragment]
  end.

(** The fragments of a row: one per run of units with consecutive anchors.  The columns of
    the row are paired with their anchors; a lead without one is anchored at the row. *)
Definition fragment_step (row_id : LineId) (st : GraphemeStore) (fragments : list HistoryLine)
    (p : Cell * option HistoryAnchor) : list HistoryLine :=
  if decide (role p.1 = Lead) then
    let a := default (mkAnchor row_id (vlen fragments mod 2 ^ 32)) p.2 in
    push_or_extend fragments
      ((from_cells (a_line_id a) SoftWrap [p.1] st) <| start_offset := unit_offset a |>)
  else fragments.
Definition row_fragments (row_id : LineId) (st : GraphemeStore)
    (l : list (Cell * option HistoryAnchor)) : list HistoryLine :=
  foldl (fragment_step row_id st) [] l.

(** The last fragment of every source line, by line identity. *)
Definition last_fragments (fragments : list HistoryLine) : gmap LineId nat :=
  (foldl (λ '(m, i) f, (<[line_id f := i]> m, S i)) (∅, O) fragments).1.

(** The last fragment of a line takes the line's recorded break; the indices are distinct,
    so the order of the iteration over the map does not matter. *)
Definition close_fragments (breaks : gmap LineId HistoryBreakAfter) (fallback : HistoryBreakAfter)
    (fragments : list HistoryLine) : list HistoryLine :=
  foldl (λ fs '(id, i), alter (λ f, f <| break_after := default fallback (breaks !! id) |>) i fs)
    fragments (map_to_list (last_fragments fragments)).

Definition history_append (l : HistoryLine) : SM unit :=
  let! h := gscr history in
  let! h := or_panic (append_line l h) in
  mscr (λ s, s <| history := h |>).

Definition append_row_to_history (r : N) (fallback : HistoryBreakAfter) : SM unit :=
  let! cs := gscr cols in
  let! st := gets store in
  let! row_cells := slice_cells (r * cs) (r * cs + cs) in
  let! anchors := gscr cell_anchors in
  let! row_anchors := or_panic (vslice anchors (r * cs) (r * cs + cs)) in
  let! id := get_line_id r in
  match row_fragments id st (zip row_cells row_anchors) with
  | [] =>
    history_append (from_cells id fallback row_cells st) ;;;
    mscr (λ s, s <| source_breaks := delete id (source_breaks s) |>)
  | fragments =>
    let! breaks := gscr source_breaks in
    for_each (close_fragments breaks fallback fragments) (λ f,
      mscr (λ s, s <| source_breaks := delete (line_id f) (source_breaks s) |>) ;;;
      history_append f)
  end.

(** * Moving rows *)

(** Release the payloads of a grid row. *)
Definition release_row (r : N) : SM unit :=
  let! cs := gscr cols in
  let! l := slice_cells (r * cs) (r * cs + cs) in
  release_cells l.

(** Blank a row and give it a fresh identity. *)
Definition reset_row (r : N) (b : Cell) : SM unit :=
  let! cs := gscr cols in
  fill_cells (r * cs) (r * cs + cs) b ;;;
  fill_anchors (r * cs) (r * cs + cs) None ;;;
  let! id := with_alloc allocate in
  set_line_id r id ;;;
  set_break r (Some HardBreak).

(** The store is always passed by the callers ([Some(store)]). *)
Definition shift_region_rows_up (top bottom n : N) (brk : HistoryBreakAfter) : SM Mutation :=
  let! cs := gscr cols in
  let! height := sub bottom top in
  let region_rows := height + 1 in
  if (n =? 0) || (region_rows <? n) then ret mut_none
  else
    let! retain := gscr retain_history in
    let! full_screen := gscr region_is_full_screen in
    (if retain && full_screen && (top =? 0) then
       for_from 0 (N.to_nat n) (λ r,
         let! b := get_break (top + r) in
         append_row_to_history (top + r) (default brk b) ;;;
         release_row (top + r))
     else
       for_from 0 (N.to_nat n) (λ r, release_row (top + r))) ;;;
    let keep := region_rows - n in
    (if 0 <? keep then
       let src := (top + n) * cs in
       let dst := top * cs in
       let len := keep * cs in
       copy_cells src (src + len) dst ;;;
       copy_anchors src (src + len) dst ;;;
       copy_line_ids (top + n) (top + n + keep) top ;;;
       copy_breaks (top + n) (top + n + keep) top
     else ret tt) ;;;
    let! b := blank_cell in
    for_from 0 (N.to_nat n) (λ r,
      let! base := sub (bottom + 1) n in
      release_row (base + r) ;;;
      reset_row (base + r) b) ;;;
    ret (mut_rows top bottom).

Definition shift_region_rows_down (top bottom n : N) : SM Mutation :=
  let! cs := gscr cols in
  let! height := sub bottom top in
  let region_rows := height + 1 in
  if (n =? 0) || (region_rows <? n) then ret mut_none
  else
    for_from 0 (N.to_nat n) (λ r,
      let! base := sub (bottom + 1) n in
      release_row (base + r)) ;;;
    let keep := region_rows - n in
    (if 0 <? keep then
       let src := top * cs in
       let len := keep * cs in
       let dst := (top + n) * cs in
       copy_cells src (src + len) dst ;;;
       copy_anchors src (src + len) dst ;;;
       for_each (reverse (seq 0 (N.to_nat keep))) (λ r,
         let! id := get_line_id (top + N.of_nat r) in
         set_line_id (top + N.of_nat r + n) id ;;;
         let! b := get_break (top + N.of_nat r) in
         set_break (top + N.of_nat r + n) b)
     else ret tt) ;;;
    let! b := blank_cell in
    for_from 0 (N.to_nat n) (λ r, reset_row (top + r) b) ;;;
    ret (mut_rows top bottom).

Definition scroll_up (count : N) (brk : HistoryBreakAfter) : SM Mutation :=
  let! top := gscr scroll_top in
  let! bottom := gscr scroll_bottom in
  let n := N.min (N.max count 1) (sat_add u16_max (bottom - top) 1) in
  if n =? 0 then ret mut_none else shift_region_rows_up top bottom n brk.

Definition scroll_down (count : N) : SM Mutation :=
  let! top := gscr scroll_top in
  let! bottom := gscr scroll_bottom in
  let n := N.min (N.max count 1) (sat_add u16_max (bottom - top) 1) in
  if n =? 0 then ret mut_none else shift_region_rows_down top bottom n.

Definition line_feed (brk : HistoryBreakAfter) : SM Mutation :=
  mcur (λ c, c <| pending_wrap := false |>) ;;;
  let! old := gscr (λ s, row (cursor s)) in
  set_break old (Some brk) ;;;
  let! source := current_source_line_id old in
  mscr (λ s, s <| source_breaks := <[source := brk]> (source_breaks s) |>) ;;;
  let! bottom := gscr scroll_bottom in
  let! rs := gscr rows in
  if old =? bottom then scroll_up 1 brk
  else if old <? rs - 1 then
    let! r := add16 old 1 in
    mcur (λ c, c <| row := r |>) ;;;
    ret (mut_rows old r)
  else ret (mut_row old).

Definition index_down : SM Mutation := line_feed HardBreak.

Definition reverse_index : SM Mutation :=
  mcur (λ c, c <| pending_wrap := false |>) ;;;
  let! old := gscr (λ s, row (cursor s)) in
  let! top := gscr scroll_top in
  if old =? top then scroll_down 1
  else if 0 <? old then
    mcur (λ c, c <| row := old - 1 |>) ;;; ret (mut_rows old (old - 1))
  else ret (mut_row old).

Definition next_line : SM Mutation :=
  let! cr := carriage_return in
  let! ind := index_down in
  ret (merge cr ind).

(** The guard and the clamp of [insert_lines] and [delete_lines]. *)
Definition lines_at_cursor (count : N) (shift : N → N → N → SM Mutation) : SM Mutation :=
  let! r := gscr (λ s, row (cursor s)) in
  let! top := gscr scroll_top in
  let! bottom := gscr scroll_bottom in
  if (r <? top) || (bottom <? r) then ret mut_none
  else
    let n := N.min (N.max count 1) (sat_add u16_max (bottom - r) 1) in
    mcur (λ c, c <| pending_wrap := false |>) ;;;
    shift r bottom n.

Definition insert_lines (count : N) : SM Mutation :=
  lines_at_cursor count shift_region_rows_down.

Definition delete_lines (count : N) : SM Mutation :=
  lines_at_cursor count (λ top bottom n, shift_region_rows_up top bottom n HardBreak).

(** * Placing and clearing units *)

Definition blank_at (i : N) : SM unit :=
  let! b := blank_cell in set_cell i b ;;; set_anchor i None.

Definition clear_unit_at (c r : N) : SM Mutation :=
  let! cs := gscr cols in
  let! rs := gscr rows in
  if (cs <=? c) || (rs <=? r) then ret mut_none
  else
    let! i := index c r in
    let! x := get_cell i in
    let lead_col := if bool_decide (role x = Continuation) && (0 <? c) then c - 1 else c in
    let! lead_index := index lead_col r in
    let! lead := get_cell lead_index in
    (if decide (role lead = Lead) then
       release_cell lead ;;;
       blank_at lead_index ;;;
       if 2 <=? N.max (width lead) 1 then
         let! next_col := add16 lead_col 1 in
         if next_col <? cs then
           let! cont := index next_col r in
           let! y := get_cell cont in
           if decide (role y = Continuation) then blank_at cont else ret tt
         else ret tt
       else ret tt
     else blank_at i) ;;;
    ret (mut_row r).

(** The soft wrap of [place_new_unit]: line feed, then column 0. *)
Definition soft_wrap : SM Mutation :=
  let! m := line_feed SoftWrap in
  mcur (λ c, c <| col := 0 |>) ;;;
  ret m.

(** Does a unit of width [w] not fit the rest of the row? *)
Definition needs_wrap (w : N) : SM bool :=
  if w <? 2 then ret false
  else
    let! c := gscr (λ s, col (cursor s)) in
    let! cs := gscr cols in
    let! next_col := add16 c 1 in
    if next_col <? cs then ret false
    else let! last_col := sub cs 1 in ret ((c =? last_col) || (last_col <? next_col)).

(** The anchor of a unit placed at column [c] of row [r] where there was none. *)
Definition fresh_anchor (c r : N) : SM HistoryAnchor :=
  let! cs := gscr cols in
  let! anchors := gscr cell_anchors in
  let! before := or_panic (vslice anchors (r * cs) (r * cs + c)) in
  match last_anchor before with
  | Some a => ret (mkAnchor (a_line_id a) (sat_add u32_max (unit_offset a) 1))
  | None =>
    let! id := get_line_id r in
    let! l := slice_cells (r * cs) (r * cs + c) in
    ret (mkAnchor id (vlen (filter (λ x, role x = Lead) l) mod 2 ^ 32))
  end.

(** The cursor after a unit of width [w] at column [c]. *)
Definition advance_cursor (c w : N) (wrap : bool) : SM unit :=
  let! cs := gscr cols in
  let next_col := sat_add u16_max c w in
  if cs <=? next_col then
    let! last_col := sub cs 1 in
    mcur (λ cur, cur <| col := last_col |> <| pending_wrap := wrap |>)
  else mcur (λ cur, cur <| col := next_col |> <| pending_wrap := false |>).

(** The second half of [place_new_unit]: the unit goes to the cursor. *)
Definition put_unit (lead : Cell) (wrap : bool) (m : Mutation) (soft_wrapped : bool) :
    SM (Mutation * bool * N * N) :=
  let w := N.max (width lead) 1 in
  let! cs := gscr cols in
  let! c := gscr (λ s, col (cursor s)) in
  let! r := gscr (λ s, row (cursor s)) in
  let! i := index c r in
  let! replaced := get_anchor i in
  let! m1 := clear_unit_at c r in
  let m := merge m m1 in
  let! m := (if 2 <=? w then
               let! next_col := add16 c 1 in
               if next_col <? cs then let! m2 := clear_unit_at next_col r in ret (merge m m2)
               else ret m
             else ret m) in
  set_cell i lead ;;;
  let! anchor := (match replaced with Some a => ret a | None => fresh_anchor c r end) in
  set_anchor i (Some anchor) ;;;
  let! placed := (if 2 <=? w then
                    let! next_col := add16 c 1 in
                    if cs <=? next_col then
                      release_cell lead ;;;
                      let! b := blank_cell in set_cell i b ;;; ret false
                    else
                      let! cont := index next_col r in
                      set_cell cont continuation ;;; set_anchor cont None ;;; ret true
                  else ret true) in
  if placed then
    advance_cursor c w wrap ;;; ret (merge m (mut_row r), soft_wrapped, c, r)
  else ret (m, soft_wrapped, c, r).

Definition place_new_unit (lead : Cell) (wrap : bool) : SM (Mutation * bool * N * N) :=
  let w := N.max (width lead) 1 in
  let! pending := gscr (λ s, pending_wrap (cursor s)) in
  let! (m, soft) :=
    (if pending then
       if wrap then let! m := soft_wrap in ret (merge mut_none m, true)
       else mcur (λ c, c <| pending_wrap := false |>) ;;; ret (mut_none, false)
     else ret (mut_none, false)) in
  let! must_wrap := needs_wrap w in
  if must_wrap then
    if wrap then let! m' := soft_wrap in put_unit lead wrap (merge m m') true
    else
      let! c := gscr (λ s, col (cursor s)) in
      let! r := gscr (λ s, row (cursor s)) in
      ret (m, soft, c, r)
  else put_unit lead wrap m soft.

Definition replace_active_lead (c r : N) (lead : Cell) (previous_width : N) : SM Mutation :=
  let! cs := gscr cols in
  (if 2 <=? previous_width then
     let! next_col := add16 c 1 in
     if next_col <? cs then
       let! cont := index next_col r in
       let! x := get_cell cont in
       if decide (role x = Continuation) then let! b := blank_cell in set_cell cont b else ret tt
     else ret tt
   else ret tt) ;;;
  let! i := index c r in
  let! old := get_cell i in
  (if bool_decide (role old = Lead) && negb (store_id old =? store_id lead)
   then release_cell old else ret tt) ;;;
  set_cell i lead ;;;
  let! m := (if 2 <=? width lead then
               let! next_col := add16 c 1 in
               if next_col <? cs then
                 let! m := clear_unit_at next_col r in
                 let! cont := index next_col r in
                 set_cell cont continuation ;;; set_anchor cont None ;;; ret (merge mut_none m)
               else ret mut_none
             else ret mut_none) in
  ret (merge m (mut_row r)).

Definition execute (byte : N) : SM Mutation :=
  if byte =? 8 then backspace
  else if byte =? 9 then tab
  else if inr 10 12 byte then line_feed HardBreak
  else if byte =? 13 then carriage_return
  else ret mut_none.

(** * Erasing *)

(** Release and blank the cells [lo..hi]. *)
Definition erase_cells (lo hi : N) (b : Cell) : SM unit :=
  let! l := slice_cells lo hi in
  release_cells l ;;; fill_cells lo hi b.

(** The reminting loop of [erase_display_all]: the first identity is the frontier. *)
Fixpoint remint_rows (n : nat) (r : N) (frontier : option LineId) : SM (option LineId) :=
  match n with
  | O => ret frontier
  | S n =>
    let! id := with_alloc allocate in
    set_line_id r id ;;;
    set_break r (Some HardBreak) ;;;
    remint_rows n (r + 1) (match frontier with None => Some id | Some _ => frontier end)
  end.

Definition erase_display_all (b : Cell) : SM Mutation :=
  let! rs := gscr rows in
  let! retain := gscr retain_history in
  (if (retain : bool) then
     for_from 0 (N.to_nat rs) (λ r,
       let! brk := get_break r in append_row_to_history r (default HardBreak brk))
   else ret tt) ;;;
  let! l := gscr cells in
  release_cells l ;;;
  mscr (λ s, s <| cells := (λ _, b) <$> cells s |>
               <| cell_anchors := (λ _, None) <$> cell_anchors s |>) ;;;
  let! ok := gets (λ w, can_allocate rs (alloc w)) in
  if negb ok then fail LineIdentityExhausted
  else
    let! frontier := remint_rows (N.to_nat rs) 0 None in
    mscr (λ s, s <| ed2_remint_frontier := frontier |>) ;;;
    ret (mut_full rs).

Definition erase_display (mode : N) : SM Mutation :=
  let! b := blank_cell in
  let! cur := gscr cursor in
  let! i := index (col cur) (row cur) in
  let! rs := gscr rows in
  if mode =? 0 then
    let! l := gscr cells in
    erase_cells i (vlen l) b ;;;
    let! last_row := sub rs 1 in
    ret (mut_rows (row cur) last_row)
  else if mode =? 1 then erase_cells 0 (i + 1) b ;;; ret (mut_rows 0 (row cur))
  else if mode =? 2 then erase_display_all b
  else ret mut_none.

Definition erase_line (mode : N) : SM Mutation :=
  let! b := blank_cell in
  let! cs := gscr cols in
  let! cur := gscr cursor in
  let start := row cur * cs in
  if mode =? 0 then erase_cells (start + col cur) (start + cs) b ;;; ret (mut_row (row cur))
  else if mode =? 1 then erase_cells start (start + col cur + 1) b ;;; ret (mut_row (row cur))
  else if mode =? 2 then erase_cells start (start + cs) b ;;; ret (mut_row (row cur))
  else ret mut_none.

(** * Editing inside a row *)

(** The scan of [sanitize_row]; each turn moves at least one column to the right. *)
Fixpoint sanitize_loop (fuel : nat) (start cs c : N) : SM unit :=
  match fuel with
  | O => if c <? cs then nofuel else ret tt
  | S fuel =>
    if cs <=? c then ret tt
    else
      let! x := get_cell (start + c) in
      let! b := blank_cell in
      if bool_decide (role x = Lead) && (2 <=? width x) then
        let! orphan := (if cs <=? c + 1 then ret true
                        else let! y := get_cell (start + c + 1) in
                             ret (negb (bool_decide (role y = Continuation)))) in
        if (orphan : bool) then
          release_cell x ;;; set_cell (start + c) b ;;; sanitize_loop fuel start cs (c + 1)
        else sanitize_loop fuel start cs (c + 2)
      else if bool_decide (role x = Continuation) then
        let! orphan := (if c =? 0 then ret true
                        else let! y := get_cell (start + c - 1) in
                             ret (negb (bool_decide (role y = Lead)))) in
        (if (orphan : bool) then set_cell (start + c) b else ret tt) ;;;
        sanitize_loop fuel start cs (c + 1)
      else sanitize_loop fuel start cs (c + 1)
  end.

Definition sanitize_row (r : N) : SM unit :=
  let! cs := gscr cols in
  sanitize_loop (N.to_nat cs) (r * cs) cs 0.

Definition insert_characters (count : N) : SM Mutation :=
  let! cur := gscr cursor in
  let! cs := gscr cols in
  if cs <=? col cur then ret mut_none
  else
    mcur (λ c, c <| pending_wrap := false |>) ;;;
    let start := row cur * cs in
    let at_ := start + col cur in
    let n := N.min (N.max count 1) (cs - col cur) in
    if n =? 0 then ret mut_none
    else
      let! edge := sub (start + cs) n in
      let! l := slice_cells edge (start + cs) in
      release_cells l ;;;
      copy_cells at_ edge (at_ + n) ;;;
      copy_anchors at_ edge (at_ + n) ;;;
      let! b := blank_cell in
      fill_cells at_ (at_ + n) b ;;;
      fill_anchors at_ (at_ + n) None ;;;
      sanitize_row (row cur) ;;;
      ret (mut_row (row cur)).

Definition delete_characters (count : N) : SM Mutation :=
  let! cur := gscr cursor in
  let! cs := gscr cols in
  if cs <=? col cur then ret mut_none
  else
    mcur (λ c, c <| pending_wrap := false |>) ;;;
    let start := row cur * cs in
    let at_ := start + col cur in
    let n := N.min (N.max count 1) (cs - col cur) in
    if n =? 0 then ret mut_none
    else
      let! l := slice_cells at_ (at_ + n) in
      release_cells l ;;;
      copy_cells (at_ + n) (start + cs) at_ ;;;
      copy_anchors (at_ + n) (start + cs) at_ ;;;
      let! b := blank_cell in
      let! edge := sub (start + cs) n in
      fill_cells edge (start + cs) b ;;;
      fill_anchors edge (start + cs) None ;;;
      sanitize_row (row cur) ;;;
      ret (mut_row (row cur)).

(** [end_col] is at most the number of columns, so [c + 1] does not saturate. *)
Fixpoint erase_units (n : nat) (c r : N) (m : Mutation) : SM Mutation :=
  match n with
  | O => ret m
  | S n => let! m1 := clear_unit_at c r in erase_units n (c + 1) r (merge m m1)
  end.

Definition erase_characters (count : N) : SM Mutation :=
  let! cur := gscr cursor in
  let! cs := gscr cols in
  if cs <=? col cur then ret mut_none
  else
    mcur (λ c, c <| pending_wrap := false |>) ;;;
    let end_col := N.min (sat_add u16_max (col cur) (N.max count 1)) cs in
    erase_units (N.to_nat (end_col - col cur)) (col cur) (row cur) mut_none.
End screen.
