(* ===== verification/ScreenSafe.v ===== *)
(** Memory safety of the grid: the invariant of [Screen.v]'s state and that every operation
    keeps it, never panics and fails only with an exhausted allocator.

    [safe m Q] says that [m], started in a well-formed world with [c] columns and [r]
    rows, returns a value satisfying [Q], or the allocator's error, in a well-formed world
    of the same size.  The rules below follow the structure of the code, and the tactic
    [safe_run] applies them. *)

From S2P Require Import Prelude Types Utf8 Damage LineIds GraphemeStore HistoryTypes Screen.

(** Colour components are bytes. *)
Definition color_in (x : Color) : Prop :=
  match x with ColorDefault => True | Indexed i => i ≤ u8_max | Rgb r g b => r ≤ u8_max ∧ g ≤ u8_max ∧ b ≤ u8_max end.
Definition style_in (st : Style) : Prop := color_in (fg st) ∧ color_in (bg st).

(** Leads hold a scalar and occupy one or two columns; the other cells have no width and no
    payload. *)
Definition cell_ok (x : Cell) : Prop :=
  style_in (cell_style x) ∧
  match role x with
  | Lead => is_scalar (character x) = true ∧ 1 ≤ width x ∧ width x ≤ 2
  | Empty | Continuation => width x = 0 ∧ store_id x = INLINE_STORE_ID
  end.

(** Payloads of the grapheme store are text. *)
Definition is_text (p : list N) : Prop :=
  ∃ ch chars, Forall (λ ch, is_scalar ch = true) (ch :: chars) ∧ p = utf8_bytes (ch :: chars).
Definition store_ok (g : GraphemeStore) : Prop := store_wf g ∧ ∀ id p, get id g = Some p → is_text p.

Lemma store_ok_release id g : store_ok g → store_ok (release id g).
Proof.
  intros [Hg Ht]. split; [by apply store_wf_release|]. intros j p. rewrite get_release. destruct (_ =? _); [done|apply Ht].
Qed.

Lemma store_ok_default : store_ok store_default.
Proof. split; [apply store_wf_default|]. intros id p. unfold get. by destruct (_ =? _). Qed.

Definition anchor_ok (a : HistoryAnchor) : Prop := unit_offset a ≤ u32_max.
Definition oanchor_ok (a : option HistoryAnchor) : Prop := ∀ x, a = Some x → anchor_ok x.

Lemma blank_ok b : color_in b → cell_ok (blank b).
Proof. intros Hb. by split; [split|]. Qed.

Lemma style_default_in : style_in style_default.
Proof. done. Qed.

Lemma continuation_ok : cell_ok continuation.
Proof. done. Qed.

Lemma oanchor_ok_None : oanchor_ok None.
Proof. done. Qed.

Lemma oanchor_ok_Some a : anchor_ok a → oanchor_ok (Some a).
Proof. by intros ? x [= <-]. Qed.
#[export] Hint Resolve blank_ok continuation_ok style_default_in oanchor_ok_None oanchor_ok_Some : vt.

Record screen_wf {H : Type} `{HistoryLaws H} (s : Screen H) : Prop := {
  w_cols : 1 ≤ cols s ∧ cols s ≤ MAX_TERMINAL_COLUMNS;
  w_rows : 1 ≤ rows s ∧ rows s ≤ MAX_TERMINAL_ROWS;
  w_cells : vlen (cells s) = cols s * rows s ∧ Forall cell_ok (cells s);
  w_anchors : vlen (cell_anchors s) = cols s * rows s ∧ Forall oanchor_ok (cell_anchors s);
  w_line_ids : vlen (line_ids s) = rows s;
  w_breaks : vlen (row_breaks s) = rows s;
  w_cursor : col (cursor s) < cols s ∧ row (cursor s) < rows s;
  w_history : history_wf (history s);
  w_pen : style_in (pen s) ∧ ∀ x, saved_cursor s = Some x → style_in (saved_style x);
  w_region : scroll_top s ≤ scroll_bottom s ∧ scroll_bottom s < rows s;
}.

(** The pen after a select-graphic-rendition sequence. *)
Lemma set_color_in foreground x st : color_in x → style_in st → style_in (set_color foreground x st).
Proof. intros ? [??]. by destruct foreground; split. Qed.

Lemma byte_param_in v : byte_param v ≤ u8_max.
Proof. unfold byte_param, u8_max. lia. Qed.

Lemma sgr_step_in ps st : style_in st → style_in (sgr_step ps st).1.1.
Proof.
  intros Hst. pose proof Hst as [Hf Hb]. unfold sgr_step, inr. destruct ps as [|v rest]; [done|].
  repeat (case_match; to_prop; subst; cbn [fst]); try done; try (split; simpl; unfold u8_max; done || lia).
  all: apply set_color_in; [|done]; cbn; split_and?; apply byte_param_in.
Qed.

Lemma sgr_loop_in fuel ps st d : style_in st → style_in (sgr_loop fuel ps st d).1.
Proof.
  revert ps st d. induction fuel as [|fuel IH]; intros ps st d Hst; [done|]. cbn [sgr_loop].
  destruct ps as [|v ps]; [done|]. pose proof (sgr_step_in (v :: ps) st Hst) as Hs.
  destruct (sgr_step (v :: ps) st) as [[st' d'] used]. by apply IH.
Qed.

Create HintDb safe_ops.

Section safe.
Context {H : Type} `{HistoryLaws H} (c r : N) (mf : Prop).
Hypothesis Hc1 : 1 ≤ c.
Hypothesis Hc2 : c ≤ MAX_TERMINAL_COLUMNS.
Hypothesis Hr1 : 1 ≤ r.
Hypothesis Hr2 : r ≤ MAX_TERMINAL_ROWS.

Record inv (w : World H) : Prop := {
  i_screen : screen_wf (scr w);
  i_cols : cols (scr w) = c;
  i_rows : rows (scr w) = r;
  i_alloc : alloc_wf (alloc w);
  i_store : store_ok (store w);
}.

(** [mf] (may fail) is whether the allocator's error is possible at all. *)
Definition safe {A} (m : SM A) (Q : A → Prop) : Prop := ∀ w, inv w →
  wp m (λ a w', inv w' ∧ Q a) (λ e w', inv w' ∧ e = LineIdentityExhausted ∧ mf) w.

Definition anything {A} (_ : A) : Prop := True.

(** * Rules *)

Lemma safe_weaken {A} (m : SM A) (Q Q' : A → Prop) :
  safe m Q → (∀ a, Q a → Q' a) → safe m Q'.
Proof. intros Hm HQ w Hw. eapply wp_mono; [by apply Hm|naive_solver|naive_solver]. Qed.

Lemma safe_ret {A} (a : A) (Q : A → Prop) : Q a → safe (ret a) Q.
Proof. intros HQ w Hw. by apply wp_ret. Qed.

Lemma safe_fail {A} (Q : A → Prop) : mf → safe (fail LineIdentityExhausted) Q.
Proof. intros Hmf w Hw. by apply wp_fail. Qed.

Lemma safe_bind {A B} (m : SM A) (k : A → SM B) (Q : A → Prop) R :
  safe m Q → (∀ a, Q a → safe (k a) R) → safe (bind m k) R.
Proof.
  intros Hm Hk w Hw. apply wp_bind. eapply wp_mono; [by apply Hm| |done].
  intros a w' [Hw' HQ]. by apply Hk.
Qed.

Lemma safe_if {A} (b : bool) (m1 m2 : SM A) Q :
  (b = true → safe m1 Q) → (b = false → safe m2 Q) → safe (if b then m1 else m2) Q.
Proof. destruct b; auto. Qed.

Lemma safe_or_panic {A} (o : option A) (Q : A → Prop) :
  (∃ a, o = Some a ∧ Q a) → safe (or_panic o) Q.
Proof. intros (a & -> & HQ) w Hw. done. Qed.

Lemma safe_gscr {A} (f : Screen H → A) (Q : A → Prop) :
  (∀ s, screen_wf s → cols s = c → rows s = r → Q (f s)) → safe (gscr f) Q.
Proof. intros HQ w Hw. split; [done|]. apply HQ; apply Hw. Qed.

Lemma safe_mscr (g : Screen H → Screen H) :
  (∀ s, screen_wf s → cols s = c → rows s = r →
    screen_wf (g s) ∧ cols (g s) = c ∧ rows (g s) = r) → safe (mscr g) anything.
Proof.
  intros Hg w [Hs Hcc Hrr Ha Hst]. apply wp_modify.
  destruct (Hg _ Hs Hcc Hrr) as (? & ? & ?). by split; [split|].
Qed.

Lemma safe_for_from lo n (body : N → SM unit) :
  (∀ i, lo ≤ i → i < lo + N.of_nat n → safe (body i) anything) →
  safe (for_from lo n body) anything.
Proof.
  intros Hb w Hw. set (F := λ (e : TerminalError) w', inv w' ∧ e = LineIdentityExhausted ∧ mf).
  eapply (wp_mono _ (λ _, inv) _ F); [|done|done].
  apply (wp_for_from (λ _, inv)); [done|]. intros i w' ?? Hw'. eapply wp_mono; [by apply Hb|naive_solver|naive_solver].
Qed.

Lemma safe_for_each {X} (xs : list X) (body : X → SM unit) :
  (∀ x, x ∈ xs → safe (body x) anything) → safe (for_each xs body) anything.
Proof using Type.
  induction xs as [|x xs IH]; intros Hb; [by apply safe_ret|].
  apply (safe_bind _ _ anything); [apply Hb, list_elem_of_here|]. intros _ _. apply IH.
  intros y Hy. by apply Hb, list_elem_of_further.
Qed.

Lemma safe_alloc : mf → safe (with_alloc allocate) anything.
Proof.
  intros Hmf w [Hs Hcc Hrr Ha Hst]. apply wp_zoom.
  eapply wp_mono; [by apply allocate_spec| |].
  - intros id a (_ & _ & Ha' & _). by split; [split|].
  - intros e a (-> & -> & _). by split; [split|].
Qed.

Lemma safe_store {A} (m : M TerminalError GraphemeStore A) (Q : A → Prop) :
  (∀ g, store_ok g → wp m (λ a g', store_ok g' ∧ Q a) (λ _ _, False) g) → safe (with_store m) Q.
Proof.
  intros Hm w [Hs Hcc Hrr Ha Hst]. apply wp_zoom.
  eapply wp_mono; [by apply Hm| |done]. intros a g [??]. by split; [split|].
Qed.

Lemma safe_get_store : safe (gets store) store_ok.
Proof. intros w Hw. split; [done|]. apply Hw. Qed.

Lemma safe_get_alloc {A} (f : World H → A) : safe (gets f) anything.
Proof. intros w Hw. by split. Qed.

Lemma safe_sub a b (Q : N → Prop) : b ≤ a → Q (a - b) → safe (sub a b) Q.
Proof. intros ?? w Hw. by apply wp_checked_sub. Qed.

Lemma safe_add16 a b (Q : N → Prop) : a + b ≤ u16_max → Q (a + b) → safe (add16 a b) Q.
Proof. intros ?? w Hw. by apply wp_checked_add. Qed.

(** * Primitive accesses *)

Lemma grid_index rr cc : rr < r → cc < c → rr * c + cc < c * r.
Proof. nia. Qed.

Lemma grid_row rr : rr < r → rr * c + c ≤ c * r.
Proof. nia. Qed.

Lemma safe_cols : safe (gscr cols) (λ x, x = c).
Proof. by apply safe_gscr. Qed.
Lemma safe_rows : safe (gscr rows) (λ x, x = r).
Proof. by apply safe_gscr. Qed.
Lemma safe_row : safe (gscr (λ s, row (cursor s))) (λ x, x < r).
Proof. apply safe_gscr. intros s Hs <- <-. apply Hs. Qed.
Lemma safe_col : safe (gscr (λ s, col (cursor s))) (λ x, x < c).
Proof. apply safe_gscr. intros s Hs <- <-. apply Hs. Qed.
Lemma safe_cursor : safe (gscr cursor) (λ x, col x < c ∧ row x < r).
Proof. apply safe_gscr. intros s Hs <- <-. apply Hs. Qed.
Lemma safe_scroll_bottom : safe (gscr scroll_bottom) (λ x, x < r).
Proof. apply safe_gscr. intros s Hs <- <-. apply Hs. Qed.
Lemma safe_index cc rr : safe (index cc rr) (λ i, i = rr * c + cc).
Proof. apply safe_gscr. by intros s Hs <- <-. Qed.
Lemma safe_blank_cell : safe blank_cell cell_ok.
Proof. apply safe_gscr. intros s Hs _ _. apply blank_ok, (w_pen s Hs). Qed.
Lemma safe_cells : safe (gscr cells) (λ l, vlen l = c * r ∧ Forall cell_ok l).
Proof. apply safe_gscr. intros s Hs <- <-. apply Hs. Qed.
Lemma safe_anchors : safe (gscr cell_anchors) (λ l, vlen l = c * r ∧ Forall oanchor_ok l).
Proof. apply safe_gscr. intros s Hs <- <-. apply Hs. Qed.
Lemma safe_line_ids : safe (gscr line_ids) (λ l, vlen l = r).
Proof. apply safe_gscr. intros s Hs <- <-. apply Hs. Qed.
Lemma safe_breaks : safe (gscr row_breaks) (λ l, vlen l = r).
Proof. apply safe_gscr. intros s Hs <- <-. apply Hs. Qed.

Lemma safe_set_cells l :
  vlen l = c * r → Forall cell_ok l → safe (mscr (λ s, s <| cells := l |>)) anything.
Proof. intros Hl Hf. apply safe_mscr. intros s [] <- <-. by split_and!; [split|..]. Qed.
Lemma safe_set_anchors l :
  vlen l = c * r → Forall oanchor_ok l → safe (mscr (λ s, s <| cell_anchors := l |>)) anything.
Proof. intros Hl Hf. apply safe_mscr. intros s [] <- <-. by split_and!; [split|..]. Qed.
Lemma safe_set_line_ids l : vlen l = r → safe (mscr (λ s, s <| line_ids := l |>)) anything.
Proof. intros Hl. apply safe_mscr. intros s [] <- <-. by split_and!; [split|..]. Qed.
Lemma safe_set_breaks l : vlen l = r → safe (mscr (λ s, s <| row_breaks := l |>)) anything.
Proof. intros Hl. apply safe_mscr. intros s [] <- <-. by split_and!; [split|..]. Qed.

(** Read, update and write back a vector of the screen. *)
Lemma safe_update {A} (get : Screen H → list A) (put : list A → Screen H → Screen H)
    (n : N) (P : A → Prop) (f : list A → option (list A)) :
  safe (gscr get) (λ l, vlen l = n ∧ Forall P l) →
  (∀ l, vlen l = n → Forall P l → safe (mscr (put l)) anything) →
  (∀ l, vlen l = n → Forall P l → ∃ l', f l = Some l' ∧ vlen l' = n ∧ Forall P l') →
  safe (let! l := gscr get in let! l := or_panic (f l) in mscr (put l)) anything.
Proof.
  intros Hg Hp Hf. eapply safe_bind; [exact Hg|]. intros l [Hl HP].
  destruct (Hf l Hl HP) as (l' & Hf' & Hl' & HP').
  apply (safe_bind _ _ (λ x, x = l')); [apply safe_or_panic; eauto|]. intros ? ->. by apply Hp.
Qed.

Lemma vset_keeps {A} (P : A → Prop) i x (l : list A) n :
  i < n → P x → vlen l = n → Forall P l →
  ∃ l', vset l i x = Some l' ∧ vlen l' = n ∧ Forall P l'.
Proof.
  intros Hi Hx Hl HP. eexists. split; [apply vset_ok; lia|]. rewrite length_insert.
  split; [done|]. by apply Forall_insert.
Qed.

Lemma vfill_keeps {A} (P : A → Prop) lo hi x (l : list A) n :
  lo ≤ hi → hi ≤ n → P x → vlen l = n → Forall P l →
  ∃ l', vfill l lo hi x = Some l' ∧ vlen l' = n ∧ Forall P l'.
Proof.
  intros ??? Hl HP. destruct (vfill_ok l lo hi x) as [l' Hl']; [lia..|].
  exists l'. split; [done|]. split; [vlens; lia|]. by eapply Forall_vfill.
Qed.

Lemma vcopy_keeps {A} (P : A → Prop) lo hi dst (l : list A) n :
  lo ≤ hi → hi ≤ n → dst + (hi - lo) ≤ n → vlen l = n → Forall P l →
  ∃ l', vcopy_within l lo hi dst = Some l' ∧ vlen l' = n ∧ Forall P l'.
Proof.
  intros ??? Hl HP. destruct (vcopy_within_ok l lo hi dst) as [l' Hl']; [lia..|].
  exists l'. split; [done|]. split; [vlens; lia|]. by eapply Forall_vcopy_within.
Qed.

Lemma Forall_anything {A} (l : list A) : Forall anything l.
Proof. by apply Forall_true. Qed.

Lemma safe_line_ids' : safe (gscr line_ids) (λ l, vlen l = r ∧ Forall anything l).
Proof. eapply safe_weaken; [apply safe_line_ids|]. intros l. auto using Forall_anything. Qed.
Lemma safe_breaks' : safe (gscr row_breaks) (λ l, vlen l = r ∧ Forall anything l).
Proof. eapply safe_weaken; [apply safe_breaks|]. intros l. auto using Forall_anything. Qed.

Lemma safe_set_cell i x : i < c * r → cell_ok x → safe (set_cell i x) anything.
Proof.
  intros. apply (safe_update cells (λ l s, s <| cells := l |>) (c * r) cell_ok).
  - apply safe_cells.
  - apply safe_set_cells.
  - intros. by apply vset_keeps.
Qed.
Lemma safe_set_anchor i x : i < c * r → oanchor_ok x → safe (set_anchor i x) anything.
Proof.
  intros. apply (safe_update cell_anchors (λ l s, s <| cell_anchors := l |>) (c * r) oanchor_ok).
  - apply safe_anchors.
  - apply safe_set_anchors.
  - intros. by apply vset_keeps.
Qed.
Lemma safe_set_line_id i x : i < r → safe (set_line_id i x) anything.
Proof.
  intros. apply (safe_update line_ids (λ l s, s <| line_ids := l |>) r anything).
  - apply safe_line_ids'.
  - intros. by apply safe_set_line_ids.
  - intros. by apply vset_keeps.
Qed.
Lemma safe_set_break i x : i < r → safe (set_break i x) anything.
Proof.
  intros. apply (safe_update row_breaks (λ l s, s <| row_breaks := l |>) r anything).
  - apply safe_breaks'.
  - intros. by apply safe_set_breaks.
  - intros. by apply vset_keeps.
Qed.
Lemma safe_fill_cells lo hi x : lo ≤ hi → hi ≤ c * r → cell_ok x → safe (fill_cells lo hi x) anything.
Proof.
  intros. apply (safe_update cells (λ l s, s <| cells := l |>) (c * r) cell_ok).
  - apply safe_cells.
  - apply safe_set_cells.
  - intros. by apply vfill_keeps.
Qed.
Lemma safe_fill_anchors lo hi x :
  lo ≤ hi → hi ≤ c * r → oanchor_ok x → safe (fill_anchors lo hi x) anything.
Proof.
  intros. apply (safe_update cell_anchors (λ l s, s <| cell_anchors := l |>) (c * r) oanchor_ok).
  - apply safe_anchors.
  - apply safe_set_anchors.
  - intros. by apply vfill_keeps.
Qed.
Lemma safe_copy_cells lo hi dst :
  lo ≤ hi → hi ≤ c * r → dst + (hi - lo) ≤ c * r → safe (copy_cells lo hi dst) anything.
Proof.
  intros. apply (safe_update cells (λ l s, s <| cells := l |>) (c * r) cell_ok).
  - apply safe_cells.
  - apply safe_set_cells.
  - intros. by apply vcopy_keeps.
Qed.
Lemma safe_copy_anchors lo hi dst :
  lo ≤ hi → hi ≤ c * r → dst + (hi - lo) ≤ c * r → safe (copy_anchors lo hi dst) anything.
Proof.
  intros. apply (safe_update cell_anchors (λ l s, s <| cell_anchors := l |>) (c * r) oanchor_ok).
  - apply safe_anchors.
  - apply safe_set_anchors.
  - intros. by apply vcopy_keeps.
Qed.
Lemma safe_copy_line_ids lo hi dst :
  lo ≤ hi → hi ≤ r → dst + (hi - lo) ≤ r → safe (copy_line_ids lo hi dst) anything.
Proof.
  intros. apply (safe_update line_ids (λ l s, s <| line_ids := l |>) r anything).
  - apply safe_line_ids'.
  - intros. by apply safe_set_line_ids.
  - intros. by apply vcopy_keeps.
Qed.
Lemma safe_copy_breaks lo hi dst :
  lo ≤ hi → hi ≤ r → dst + (hi - lo) ≤ r → safe (copy_breaks lo hi dst) anything.
Proof.
  intros. apply (safe_update row_breaks (λ l s, s <| row_breaks := l |>) r anything).
  - apply safe_breaks'.
  - intros. by apply safe_set_breaks.
  - intros. by apply vcopy_keeps.
Qed.

(** Reading an element of a vector of the screen. *)
Lemma safe_read {A} (get : Screen H → list A) (n : N) (P : A → Prop) i :
  safe (gscr get) (λ l, vlen l = n ∧ Forall P l) → i < n →
  safe (let! l := gscr get in or_panic (vget l i)) P.
Proof.
  intros Hg Hi. eapply safe_bind; [exact Hg|]. intros l [Hl HP]. apply safe_or_panic.
  destruct (vget_Some l i) as [x Hx]; [lia|]. exists x. split; [done|].
  by eapply Forall_lookup_1.
Qed.

Lemma safe_get_cell i : i < c * r → safe (get_cell i) cell_ok.
Proof. apply safe_read, safe_cells. Qed.
Lemma safe_get_anchor i : i < c * r → safe (get_anchor i) oanchor_ok.
Proof. apply safe_read, safe_anchors. Qed.
Lemma safe_get_line_id i : i < r → safe (get_line_id i) anything.
Proof. apply safe_read, safe_line_ids'. Qed.
Lemma safe_get_break i : i < r → safe (get_break i) anything.
Proof. apply safe_read, safe_breaks'. Qed.

Lemma safe_vslice {A} (P : A → Prop) (l : list A) lo hi :
  lo ≤ hi → hi ≤ vlen l → Forall P l →
  safe (or_panic (vslice l lo hi)) (λ l', vlen l' = hi - lo ∧ Forall P l').
Proof.
  intros ???. apply safe_or_panic. eexists. split; [by apply vslice_ok|].
  rewrite length_take, length_drop. split; [lia|]. by apply Forall_take, Forall_drop.
Qed.

Lemma safe_slice_cells lo hi :
  lo ≤ hi → hi ≤ c * r → safe (slice_cells lo hi) (λ l, vlen l = hi - lo ∧ Forall cell_ok l).
Proof.
  intros ??. eapply safe_bind; [apply safe_cells|]. intros l [Hl Hf].
  apply safe_vslice; [lia..|done].
Qed.

(** * Automation *)

Ltac grid_side :=
  try done; try (by eauto with vt);
  unfold sat_add, sat_mul, u16_max, MAX_TERMINAL_COLUMNS, MAX_TERMINAL_ROWS in *;
  to_prop; subst; first [lia | nia].

#[local] Hint Extern 1 (_ < _) => grid_side : safe_ops.
#[local] Hint Extern 1 (_ ≤ _) => grid_side : safe_ops.

(** The specification of a primitive, by its head. *)
Ltac safe_prim :=
  lazymatch goal with
  | |- safe (gscr cols) _ => apply safe_cols
  | |- safe (gscr rows) _ => apply safe_rows
  | |- safe (gscr cursor) _ => apply safe_cursor
  | |- safe (gscr (λ s, row (cursor s))) _ => apply safe_row
  | |- safe (gscr (λ s, col (cursor s))) _ => apply safe_col
  | |- safe (gscr scroll_bottom) _ => apply safe_scroll_bottom
  | |- safe (gscr cells) _ => apply safe_cells
  | |- safe (gscr cell_anchors) _ => apply safe_anchors
  | |- safe (gscr _) _ => apply (safe_gscr _ anything); done
  | |- safe (index _ _) _ => apply safe_index
  | |- safe blank_cell _ => apply safe_blank_cell
  | |- safe (gets store) _ => apply safe_get_store
  | |- safe (gets _) _ => apply safe_get_alloc
  | |- safe (sub _ _) _ => eapply safe_sub; [grid_side|exact eq_refl]
  | |- safe (add16 _ _) _ => eapply safe_add16; [grid_side|exact eq_refl]
  | |- safe (get_cell _) _ => apply safe_get_cell; grid_side
  | |- safe (set_cell _ _) _ => apply safe_set_cell; grid_side
  | |- safe (get_anchor _) _ => apply safe_get_anchor; grid_side
  | |- safe (set_anchor _ _) _ => apply safe_set_anchor; grid_side
  | |- safe (get_line_id _) _ => apply safe_get_line_id; grid_side
  | |- safe (set_line_id _ _) _ => apply safe_set_line_id; grid_side
  | |- safe (get_break _) _ => apply safe_get_break; grid_side
  | |- safe (set_break _ _) _ => apply safe_set_break; grid_side
  | |- safe (fill_cells _ _ _) _ => apply safe_fill_cells; grid_side
  | |- safe (fill_anchors _ _ _) _ => apply safe_fill_anchors; grid_side
  | |- safe (copy_cells _ _ _) _ => apply safe_copy_cells; grid_side
  | |- safe (copy_anchors _ _ _) _ => apply safe_copy_anchors; grid_side
  | |- safe (copy_line_ids _ _ _) _ => apply safe_copy_line_ids; grid_side
  | |- safe (copy_breaks _ _ _) _ => apply safe_copy_breaks; grid_side
  | |- safe (slice_cells _ _) _ => apply safe_slice_cells; grid_side
  | |- safe (with_alloc allocate) _ => by apply safe_alloc
  | |- safe _ _ => solve [eauto with safe_ops]
  end.

Ltac safe_clean :=
  repeat match goal with
  | H : anything _ |- _ => clear H
  | H : _ ∧ _ |- _ => destruct H
  | H : ?x = _ |- _ => is_var x; subst x
  end.

(** Symbolic execution: binds whose head is not a primitive get a trivial intermediate
    condition. *)
Ltac safe_step :=
  lazymatch goal with
  | |- safe (bind (if _ then _ else _) _) _ => eapply (safe_bind _ _ anything)
  | |- safe (bind (match _ with _ => _ end) _) _ => eapply (safe_bind _ _ anything)
  | |- safe (bind (bind _ _) _) _ => eapply (safe_bind _ _ anything)
  | |- safe (bind (for_from _ _ _) _) _ => eapply (safe_bind _ _ anything)
  | |- safe (bind (for_each _ _) _) _ => eapply (safe_bind _ _ anything)
  | |- safe (bind _ _) _ => eapply safe_bind; [safe_prim|]
  | |- safe (for_from _ _ _) _ => apply safe_for_from; intros ? ? ?
  | |- safe (for_each _ _) _ => apply safe_for_each; intros ? ?
  | |- safe (ret _) _ => apply safe_ret
  | |- safe (fail _) _ => by apply safe_fail
  | |- safe (if ?b then _ else _) _ => first [apply safe_if; intros ? | destruct b]
  | |- safe (match ?x with _ => _ end) _ => destruct x eqn:?
  | |- safe _ _ => eapply safe_weaken; [safe_prim|done]
  | |- ∀ _, _ => intros ?; safe_clean
  | |- anything _ => exact I
  end.
Ltac safe_run := cbv zeta; repeat (cbv beta; safe_step).

(** * Operations *)

Lemma safe_release_cell x : safe (release_cell x) anything.
Proof.
  unfold release_cell. case_decide; [|by apply safe_ret].
  apply safe_store. intros g Hg. apply wp_modify. split; [|done]. by apply store_ok_release.
Qed.
#[local] Hint Resolve safe_release_cell : safe_ops.

Lemma safe_release_cells l : safe (release_cells l) anything.
Proof. apply safe_for_each. intros x _. apply safe_release_cell. Qed.
#[local] Hint Resolve safe_release_cells : safe_ops.

Lemma safe_release_row rr : rr < r → safe (release_row rr) anything.
Proof. intros Hrr. unfold release_row. safe_run. Qed.
#[local] Hint Resolve safe_release_row : safe_ops.

Lemma safe_reset_row rr b : mf → rr < r → cell_ok b → safe (reset_row rr b) anything.
Proof. intros Hmf. intros Hrr Hb. unfold reset_row. safe_run. Qed.
#[local] Hint Resolve safe_reset_row : safe_ops.

Lemma safe_blank_at i : i < c * r → safe (blank_at i) anything.
Proof. intros Hi. unfold blank_at. safe_run. Qed.

#[local] Hint Resolve safe_blank_at : safe_ops.

Lemma safe_clear_unit_at cc rr : safe (clear_unit_at cc rr) anything.
Proof.
  unfold clear_unit_at. safe_run. to_prop.
  match goal with |- context [if ?b then cc - 1 else cc] =>
    assert ((if b then cc - 1 else cc) < c) by (destruct b; lia);
    generalize dependent (if b then cc - 1 else cc)
  end.
  intros lead_col Hlead. safe_run.
Qed.
#[local] Hint Resolve safe_clear_unit_at : safe_ops.

(** Fragments of a row are acceptable history lines. *)
Lemma push_or_extend_ok n fs f :
  Forall (fragment_ok n) fs → fragment_ok 1 f →
  Forall (fragment_ok (n + 1)) (push_or_extend fs f).
Proof.
  intros Hfs (Hu & Hp & Ho).
  assert (Forall (fragment_ok (n + 1)) fs) as Hfs'.
  { eapply Forall_impl; [exact Hfs|]. intros g (?&?&?). split_and!; [lia|done..]. }
  assert (fragment_ok (n + 1) f) as Hf' by (split_and!; [lia|done..]).
  unfold push_or_extend. destruct (last fs) as [prev|] eqn:Hl; [|by constructor].
  assert (fragment_ok n prev) as (Hpu & Hpp & Hpo).
  { eapply Forall_forall; [exact Hfs|]. by apply last_Some_elem_of. }
  destruct (_ && _); apply Forall_app; (split; [|constructor; [|constructor]]); try done.
  - by apply Forall_take.
  - split_and!; simpl.
    + rewrite length_app. lia.
    + by apply Forall_app.
    + done.
Qed.

Lemma row_fragments_ok id st (l : list (Cell * option HistoryAnchor)) :
  store_wf st → vlen l ≤ MAX_TERMINAL_COLUMNS → Forall (λ p, oanchor_ok p.2) l →
  Forall (fragment_ok (vlen l)) (row_fragments id st l).
Proof.
  intros Hst. unfold row_fragments. induction l as [|[x a] l IH] using rev_ind; [constructor|].
  rewrite foldl_app, length_app, Forall_app. cbn [length foldl]. intros Hlen [Hl Ha].
  replace (N.of_nat (length l + 1)) with (vlen l + 1) in * by lia.
  rewrite Forall_singleton in Ha. simpl in Ha.
  assert (Forall (fragment_ok (vlen l)) (foldl (fragment_step id st) [] l)) as IH'
    by (apply IH; [lia|done]).
  generalize dependent (foldl (fragment_step id st) [] l). intros fs _ IH'.
  unfold fragment_step. cbn [fst snd]. case_decide.
  - apply push_or_extend_ok; [done|].
    destruct (from_cells_ok st (a_line_id (default (mkAnchor id (vlen fs mod 2 ^ 32)) a))
                SoftWrap [x] Hst) as (? & ? & _).
    split_and!; [done..|]. simpl. destruct a as [a|]; simpl.
    + by apply Ha.
    + pose proof (N.mod_lt (vlen fs) (2 ^ 32)). unfold u32_max. lia.
  - eapply Forall_impl; [exact IH'|]. intros g (?&?&?). split_and!; [lia|done..].
Qed.

Lemma close_fragments_ok n breaks fb fs :
  Forall (fragment_ok n) fs → Forall (fragment_ok n) (close_fragments breaks fb fs).
Proof.
  intros Hfs. unfold close_fragments. generalize (map_to_list (last_fragments fs)). intros l.
  revert fs Hfs. induction l as [|[id i] l IH]; intros fs Hfs; [done|]. simpl. apply IH.
  apply Forall_alter; [done|]. by intros g _ (?&?&?).
Qed.

Lemma safe_history_append l : line_ok l → safe (history_append l) anything.
Proof.
  intros Hl. unfold history_append. eapply safe_bind.
  { apply (safe_gscr _ history_wf). intros s Hs _ _. apply Hs. }
  intros h Hh. destruct (append_line_wf l h Hh Hl) as (h' & Heq & Hh').
  apply (safe_bind _ _ (λ x, x = h')); [apply safe_or_panic; eauto|]. intros ? ->.
  apply safe_mscr. intros s [] <- <-. by split_and!; [split|..].
Qed.

Lemma safe_set_source_breaks f :
  safe (mscr (λ s, s <| source_breaks := f (source_breaks s) |>)) anything.
Proof. apply safe_mscr. intros s [] <- <-. by split_and!; [split|..]. Qed.

Lemma safe_append_row rr fb : rr < r → safe (append_row_to_history rr fb) anything.
Proof.
  intros Hrr. unfold append_row_to_history.
  eapply safe_bind; [apply safe_cols|]. intros ? ->.
  eapply safe_bind; [apply safe_get_store|]. intros st [Hst _].
  eapply safe_bind; [safe_prim|]. intros row_cells [Hlen Hcells].
  eapply safe_bind; [apply safe_anchors|]. intros anchors [Hal Ha].
  eapply safe_bind; [apply (safe_vslice oanchor_ok); [lia|grid_side|done]|].
  intros row_anchors [Hrl Hra].
  eapply safe_bind; [safe_prim|]. intros id _.
  assert (vlen row_cells = c ∧ vlen row_anchors = c) as [Hl1 Hl2] by lia.
  assert (Forall (fragment_ok c) (row_fragments id st (zip row_cells row_anchors))) as Hf.
  { replace c with (vlen (zip row_cells row_anchors)) by (rewrite length_zip_with; lia).
    apply row_fragments_ok; [done|rewrite length_zip_with; lia|].
    apply Forall_forall. intros [x a] Hin. apply elem_of_zip_r in Hin.
    by eapply Forall_forall in Hra. }
  assert (c ≤ 512) as H512 by done.
  destruct (row_fragments _ _ _) as [|f fs].
  - apply (safe_bind _ _ anything); [|intros; apply safe_set_source_breaks].
    apply safe_history_append, (fragment_line_ok c); [done|].
    rewrite <-Hl1 at 1. by apply from_cells_ok.
  - eapply safe_bind; [by apply (safe_gscr _ anything)|]. intros breaks _.
    apply safe_for_each. intros g Hg.
    eapply safe_bind; [apply safe_set_source_breaks|]. intros _ _.
    apply safe_history_append, (fragment_line_ok c); [done|].
    eapply Forall_forall; [|exact Hg]. by apply close_fragments_ok.
Qed.
#[local] Hint Resolve safe_append_row : safe_ops.

Lemma safe_shift_up top bottom n brk :
  mf → top ≤ bottom → bottom < r → safe (shift_region_rows_up top bottom n brk) anything.
Proof. intros Hmf. intros Ht Hb. unfold shift_region_rows_up. safe_run. Qed.
#[local] Hint Resolve safe_shift_up : safe_ops.

Lemma safe_shift_down top bottom n :
  mf → top ≤ bottom → bottom < r → safe (shift_region_rows_down top bottom n) anything.
Proof. intros Hmf.
  intros Ht Hb. unfold shift_region_rows_down. safe_run.
  all: match goal with Hin : _ ∈ reverse (seq _ _) |- _ =>
         rewrite elem_of_reverse in Hin; apply elem_of_seq in Hin end.
  all: safe_run.
Qed.
#[local] Hint Resolve safe_shift_down : safe_ops.

(** Moving the cursor inside the grid. *)
Lemma safe_mcur g :
  (∀ cur, col cur < c → row cur < r → col (g cur) < c ∧ row (g cur) < r) →
  safe (mcur g) anything.
Proof.
  intros Hg. apply safe_mscr. intros s [] <- <-.
  destruct (Hg (cursor s)) as [??]; [naive_solver..|]. by split_and!; [split|..].
Qed.
#[local] Hint Extern 1 (safe (mcur _) _) =>
  apply safe_mcur; intros [] ? ?; cbn [col row] in *; simpl; split; grid_side : safe_ops.

(** The two margins read together. *)
Lemma safe_region {A} (k : N → N → SM A) Q :
  (∀ top bottom, top ≤ bottom → bottom < r → safe (k top bottom) Q) →
  safe (let! top := gscr scroll_top in let! bottom := gscr scroll_bottom in k top bottom) Q.
Proof.
  intros Hk w Hw. apply wp_bind, wp_gets, wp_bind, wp_gets. destruct Hw as [Hs Hcc Hrr Ha Hst].
  apply Hk; [apply Hs|rewrite <-Hrr; apply Hs|by split].
Qed.

Lemma safe_scroll_up count brk : mf → safe (scroll_up count brk) anything.
Proof. intros Hmf. unfold scroll_up. apply safe_region. intros top bottom ??. safe_run. Qed.
#[local] Hint Resolve safe_scroll_up : safe_ops.

Lemma safe_scroll_down count : mf → safe (scroll_down count) anything.
Proof. intros Hmf. unfold scroll_down. apply safe_region. intros top bottom ??. safe_run. Qed.
#[local] Hint Resolve safe_scroll_down : safe_ops.

Lemma safe_current_source_line_id rr : rr < r → safe (current_source_line_id rr) anything.
Proof.
  intros Hrr. unfold current_source_line_id.
  eapply safe_bind; [apply safe_cols|]. intros ? ->.
  eapply safe_bind; [apply safe_anchors|]. intros anchors [Hal Ha].
  eapply safe_bind; [apply (safe_vslice oanchor_ok); [lia|grid_side|done]|]. safe_run.
Qed.
#[local] Hint Resolve safe_current_source_line_id : safe_ops.
#[local] Hint Extern 1 (safe (mscr _) _) =>
  apply safe_mscr; intros ? [] <- <-; by split_and!; [split|..] : safe_ops.

Lemma safe_line_feed brk : mf → safe (line_feed brk) anything.
Proof. intros Hmf. unfold line_feed. safe_run. Qed.
#[local] Hint Resolve safe_line_feed : safe_ops.

Lemma safe_reverse_index : mf → safe reverse_index anything.
Proof. intros Hmf. unfold reverse_index. safe_run. Qed.

Lemma safe_carriage_return : safe carriage_return anything.
Proof. unfold carriage_return. safe_run. Qed.
#[local] Hint Resolve safe_carriage_return : safe_ops.

Lemma safe_next_line : mf → safe next_line anything.
Proof. intros Hmf. unfold next_line, index_down. safe_run. Qed.

Lemma safe_insert_lines count : mf → safe (insert_lines count) anything.
Proof. intros Hmf. unfold insert_lines, lines_at_cursor. safe_run. Qed.

Lemma safe_delete_lines count : mf → safe (delete_lines count) anything.
Proof. intros Hmf. unfold delete_lines, lines_at_cursor. safe_run. Qed.

Lemma safe_soft_wrap : mf → safe soft_wrap anything.
Proof. intros Hmf. unfold soft_wrap. safe_run. Qed.
#[local] Hint Resolve safe_soft_wrap : safe_ops.

Lemma last_anchor_ok l a : Forall oanchor_ok l → last_anchor l = Some a → anchor_ok a.
Proof.
  intros Hl Ha. unfold last_anchor in Ha. apply last_Some_elem_of in Ha.
  apply list_elem_of_omap in Ha as (x & Hx & Hid). unfold id in Hid. subst x.
  rewrite Forall_forall in Hl. by apply (Hl _ Hx).
Qed.

Lemma safe_fresh_anchor cc rr : cc < c → rr < r → safe (fresh_anchor cc rr) anchor_ok.
Proof.
  intros Hcc Hrr. unfold fresh_anchor.
  eapply safe_bind; [apply safe_cols|]. intros ? ->.
  eapply safe_bind; [apply safe_anchors|]. intros anchors [Hal Ha].
  eapply safe_bind; [apply (safe_vslice oanchor_ok); [lia|grid_side|done]|].
  intros before [_ Hb]. destruct (last_anchor before) as [a|] eqn:Hl.
  - apply safe_ret. unfold anchor_ok, sat_add. simpl. lia.
  - safe_run. unfold anchor_ok. cbn [unit_offset].
    match goal with |- ?x `mod` _ ≤ _ => pose proof (N.mod_lt x (2 ^ 32)) end.
    unfold u32_max. lia.
Qed.

Lemma safe_needs_wrap w : safe (needs_wrap w) anything.
Proof. unfold needs_wrap. safe_run. Qed.
#[local] Hint Resolve safe_needs_wrap : safe_ops.

Lemma safe_advance_cursor cc w wrap : safe (advance_cursor cc w wrap) anything.
Proof. unfold advance_cursor. safe_run. Qed.
#[local] Hint Resolve safe_advance_cursor : safe_ops.

Lemma safe_put_unit lead wrap m soft :
  cell_ok lead → safe (put_unit lead wrap m soft) (λ p, p.1.2 < c ∧ p.2 < r).
Proof.
  intros Hlead. unfold put_unit. cbv zeta.
  eapply safe_bind; [apply safe_cols|]. intros ? ->.
  eapply safe_bind; [apply safe_col|]. intros cc Hcc.
  eapply safe_bind; [apply safe_row|]. intros rr Hrr.
  eapply safe_bind; [apply safe_index|]. intros ? ->.
  eapply safe_bind; [safe_prim|]. intros replaced Hrep.
  eapply safe_bind; [safe_prim|]. intros m1 _.
  apply (safe_bind _ _ anything); [safe_run|]. intros m2 _.
  eapply safe_bind; [safe_prim|]. intros _ _.
  apply (safe_bind _ _ anchor_ok).
  { destruct replaced as [a|]; [apply safe_ret; by apply Hrep|by apply safe_fresh_anchor]. }
  intros anchor Hanchor.
  eapply safe_bind; [safe_prim|]. intros _ _.
  apply (safe_bind _ _ anything); [safe_run|]. intros placed _.
  safe_run; done.
Qed.

Lemma safe_place_new_unit lead wrap :
  mf → cell_ok lead → safe (place_new_unit lead wrap) (λ p, p.1.2 < c ∧ p.2 < r).
Proof. intros Hmf.
  intros Hlead. unfold place_new_unit. cbv zeta.
  eapply safe_bind; [by apply (safe_gscr _ anything)|]. intros pending _.
  apply (safe_bind _ _ anything); [safe_run|]. intros [m soft] _.
  eapply safe_bind; [safe_prim|]. intros must_wrap _.
  safe_run; try by apply safe_put_unit. done.
Qed.

Lemma safe_replace_active_lead cc rr lead pw :
  cc < c → rr < r → cell_ok lead → safe (replace_active_lead cc rr lead pw) anything.
Proof. intros ???. unfold replace_active_lead. safe_run. Qed.

Lemma safe_backspace : safe backspace anything.
Proof. unfold backspace. safe_run. Qed.
Lemma safe_tab : safe tab anything.
Proof. unfold tab. safe_run. Qed.
#[local] Hint Resolve safe_backspace safe_tab : safe_ops.

Lemma safe_execute byte : mf → safe (execute byte) anything.
Proof. intros Hmf. unfold execute. safe_run. Qed.

Lemma safe_set_cursor rr cc : safe (set_cursor rr cc) anything.
Proof. unfold set_cursor. safe_run. Qed.
#[local] Hint Resolve safe_set_cursor : safe_ops.
Lemma safe_cursor_up n : safe (cursor_up n) anything.
Proof. unfold cursor_up. safe_run. Qed.
Lemma safe_cursor_down n : safe (cursor_down n) anything.
Proof. unfold cursor_down. safe_run. Qed.
Lemma safe_cursor_forward n : safe (cursor_forward n) anything.
Proof. unfold cursor_forward. safe_run. Qed.
Lemma safe_cursor_back n : safe (cursor_back n) anything.
Proof. unfold cursor_back. safe_run. Qed.
Lemma safe_set_col n : safe (set_col n) anything.
Proof. unfold set_col. safe_run. Qed.
Lemma safe_set_row n : safe (set_row n) anything.
Proof. unfold set_row. safe_run. Qed.
Lemma safe_save_cursor : safe save_cursor anything.
Proof.
  apply safe_mscr. intros s [] <- <-. split_and!; [split|..]; try done. cbn [pen saved_cursor].
  split; [naive_solver|]. intros x [= <-]. cbn. naive_solver.
Qed.
Lemma safe_set_pending_wrap b : safe (set_pending_wrap b) anything.
Proof. unfold set_pending_wrap. safe_run. Qed.

Lemma safe_set_scroll_region top bottom : safe (set_scroll_region top bottom) anything.
Proof.
  unfold set_scroll_region. eapply safe_bind; [apply safe_rows|]. intros ? ->. cbv zeta.
  apply safe_if; intros Hb; [by apply safe_ret|]. to_prop.
  apply (safe_bind _ _ anything); [|intros; apply safe_set_cursor].
  apply safe_mscr. intros s [] <- <-. split_and!; [split|..]; try done. simpl. lia.
Qed.

Lemma safe_restore_cursor : safe restore_cursor anything.
Proof.
  unfold restore_cursor.
  eapply safe_bind; [apply (safe_gscr _ (λ sv, ∀ x, sv = Some x → style_in (saved_style x))); intros s Hs _ _; apply (w_pen s Hs)|].
  intros [saved|] Hsv; [|by apply safe_ret].
  eapply safe_bind; [apply safe_row|]. intros old _.
  apply (safe_bind _ _ anything); [|safe_run].
  apply safe_mscr. intros s [] <- <-. split_and!; [split|..]; try done; simpl; [lia|].
  split; [by apply Hsv|naive_solver].
Qed.

Lemma safe_set_pen p : style_in p → safe (mscr (λ s, s <| pen := p |>)) anything.
Proof. intros Hp. apply safe_mscr. intros s [] <- <-. split_and!; [split|..]; try done. simpl. naive_solver. Qed.

Lemma safe_apply_sgr ps : safe (apply_sgr ps) anything.
Proof.
  unfold apply_sgr. apply safe_if; intros _.
  { apply (safe_bind _ _ anything); [by apply safe_set_pen|]. safe_run. }
  eapply safe_bind; [apply (safe_gscr _ style_in); intros s Hs _ _; apply (w_pen s Hs)|]. intros p Hp.
  pose proof (sgr_loop_in (length ps) ps p false Hp) as Hl. destruct (sgr_loop _ _ _ _) as [p' d].
  apply (safe_bind _ _ anything); [by apply safe_set_pen|]. safe_run.
Qed.

Lemma safe_erase_cells lo hi b :
  lo ≤ hi → hi ≤ c * r → cell_ok b → safe (erase_cells lo hi b) anything.
Proof. intros ???. unfold erase_cells. safe_run. Qed.
#[local] Hint Resolve safe_erase_cells : safe_ops.

Lemma safe_remint_rows n lo f :
  mf → lo + N.of_nat n ≤ r → safe (remint_rows n lo f) anything.
Proof. intros Hmf.
  revert lo f. induction n as [|n IH]; intros lo f Hn; cbn [remint_rows]; [by apply safe_ret|].
  safe_run.
Qed.

Lemma Forall_fmap_const {A B} (P : B → Prop) (x : B) (l : list A) :
  P x → Forall P ((λ _, x) <$> l).
Proof. intros Hx. apply Forall_fmap. by apply Forall_true. Qed.

Lemma safe_erase_display_all b : mf → cell_ok b → safe (erase_display_all b) anything.
Proof. intros Hmf.
  intros Hb. unfold erase_display_all. safe_run.
  - apply (safe_bind _ _ anything); [|safe_run].
    { apply safe_mscr. intros s [] <- <-. split_and!; [split|..]; try done; simpl;
        rewrite length_fmap; (split; [naive_solver|by apply Forall_fmap_const]). }
    apply (safe_bind _ _ anything); [apply safe_remint_rows; [done|lia]|]. safe_run.
Qed.
#[local] Hint Resolve safe_erase_display_all : safe_ops.

Lemma safe_erase_display mode : mf → safe (erase_display mode) anything.
Proof. intros Hmf.
  unfold erase_display. safe_run.
Qed.

Lemma safe_erase_line mode : safe (erase_line mode) anything.
Proof. unfold erase_line. safe_run. Qed.

(** Each turn of the scan moves right, so the number of columns is enough fuel. *)
Lemma safe_sanitize_loop fuel start cc :
  start + c ≤ c * r → c ≤ cc + N.of_nat fuel → safe (sanitize_loop fuel start c cc) anything.
Proof.
  revert cc. induction fuel as [|fuel IH]; intros cc Hs Hf; cbn [sanitize_loop].
  - destruct (cc <? c) eqn:?; [to_prop; lia|by apply safe_ret].
  - safe_run.
Qed.

Lemma safe_sanitize_row rr : rr < r → safe (sanitize_row rr) anything.
Proof.
  intros Hrr. unfold sanitize_row. eapply safe_bind; [apply safe_cols|]. intros ? ->.
  apply safe_sanitize_loop; [by apply grid_row|lia].
Qed.
#[local] Hint Resolve safe_sanitize_row : safe_ops.

Lemma safe_insert_characters n : safe (insert_characters n) anything.
Proof. unfold insert_characters. safe_run. Qed.

Lemma safe_delete_characters n : safe (delete_characters n) anything.
Proof. unfold delete_characters. safe_run. Qed.

Lemma safe_erase_units n cc rr m : safe (erase_units n cc rr m) anything.
Proof.
  revert cc m. induction n as [|n IH]; intros cc m; cbn [erase_units]; [by apply safe_ret|].
  safe_run.
Qed.
#[local] Hint Resolve safe_erase_units : safe_ops.

Lemma safe_erase_characters n : safe (erase_characters n) anything.
Proof. unfold erase_characters. safe_run. Qed.

Lemma safe_release_all_payloads : safe release_all_payloads anything.
Proof. unfold release_all_payloads. safe_run. Qed.
#[local] Hint Resolve safe_release_all_payloads : safe_ops.

Lemma safe_inherit_pen p : style_in p → safe (inherit_pen_for_clean_buffer p) anything.
Proof.
  intros Hp. unfold inherit_pen_for_clean_buffer.
  apply (safe_bind _ _ anything); [by apply safe_set_pen|]. intros _ _.
  apply (safe_bind _ _ anything); [apply safe_release_all_payloads|]. intros _ _.
  apply safe_mscr. intros s [] <- <-. split_and!; [split|..]; try done. simpl.
  rewrite length_fmap. split; [naive_solver|]. apply Forall_fmap_const, blank_ok, Hp.
Qed.
End safe.

(** * Sequences of operations *)

Section calls.
Context {H : Type} `{HistoryLaws H}.

Record world_wf (w : World H) : Prop := {
  ww_screen : screen_wf (scr w);
  ww_alloc : alloc_wf (alloc w);
  ww_store : store_ok (store w);
}.

Lemma inv_world_wf c r w : inv c r w ↔ world_wf w ∧ cols (scr w) = c ∧ rows (scr w) = r.
Proof.
  split.
  - intros []. split; [by split|done].
  - intros [[] [??]]. by split.
Qed.

(** The operations the terminal core performs on a screen. *)
Inductive call :=
| CPlace (lead : Cell) (wrap : bool)
| CReplaceActive (c r : N) (lead : Cell) (previous_width : N)
| CClearUnit (c r : N)
| CExecute (byte : N)
| CSetPendingWrap (b : bool)
| CCursorUp (n : N) | CCursorDown (n : N) | CCursorForward (n : N) | CCursorBack (n : N)
| CSetCursor (r c : N) | CSetCol (c : N) | CSetRow (r : N)
| CSaveCursor | CRestoreCursor
| CSgr (params : list N)
| CSetScrollRegion (top bottom : N)
| CEraseDisplay (mode : N) | CEraseLine (mode : N)
| CInsertCharacters (n : N) | CDeleteCharacters (n : N) | CEraseCharacters (n : N)
| CInsertLines (n : N) | CDeleteLines (n : N)
| CScrollUp (n : N) (brk : HistoryBreakAfter) | CScrollDown (n : N)
| CIndexDown | CReverseIndex | CNextLine
| CReleaseAll | CInheritPen (p : Style).

Definition ignore {A} (m : @SM H A) : SM unit := m ;;; ret tt.

Definition run_call (k : call) : SM unit :=
  match k with
  | CPlace lead wrap => ignore (place_new_unit lead wrap)
  | CReplaceActive c r lead pw => ignore (replace_active_lead c r lead pw)
  | CClearUnit c r => ignore (clear_unit_at c r)
  | CExecute byte => ignore (execute byte)
  | CSetPendingWrap b => set_pending_wrap b
  | CCursorUp n => ignore (cursor_up n)
  | CCursorDown n => ignore (cursor_down n)
  | CCursorForward n => ignore (cursor_forward n)
  | CCursorBack n => ignore (cursor_back n)
  | CSetCursor r c => ignore (set_cursor r c)
  | CSetCol c => ignore (set_col c)
  | CSetRow r => ignore (set_row r)
  | CSaveCursor => save_cursor
  | CRestoreCursor => ignore restore_cursor
  | CSgr ps => ignore (apply_sgr ps)
  | CSetScrollRegion t b => ignore (set_scroll_region t b)
  | CEraseDisplay mode => ignore (erase_display mode)
  | CEraseLine mode => ignore (erase_line mode)
  | CInsertCharacters n => ignore (insert_characters n)
  | CDeleteCharacters n => ignore (delete_characters n)
  | CEraseCharacters n => ignore (erase_characters n)
  | CInsertLines n => ignore (insert_lines n)
  | CDeleteLines n => ignore (delete_lines n)
  | CScrollUp n brk => ignore (scroll_up n brk)
  | CScrollDown n => ignore (scroll_down n)
  | CIndexDown => ignore index_down
  | CReverseIndex => ignore reverse_index
  | CNextLine => ignore next_line
  | CReleaseAll => release_all_payloads
  | CInheritPen p => inherit_pen_for_clean_buffer p
  end.

(** What a caller must provide: units are leads of width 1 or 2 that hold a scalar, the active
    lead is inside the grid, and colours are bytes. *)
Definition call_ok (c r : N) (k : call) : Prop :=
  match k with
  | CPlace lead _ => cell_ok lead
  | CReplaceActive cc rr lead _ => cc < c ∧ rr < r ∧ cell_ok lead
  | CInheritPen p => style_in p
  | _ => True
  end.

Lemma safe_ignore {A} c r mf (m : @SM H A) Q : safe c r mf m Q → safe c r mf (ignore m) anything.
Proof. intros Hm. eapply safe_bind; [exact Hm|]. intros. by apply safe_ret. Qed.

Lemma safe_run_call c r k :
  1 ≤ c → c ≤ MAX_TERMINAL_COLUMNS → 1 ≤ r → r ≤ MAX_TERMINAL_ROWS →
  call_ok c r k → safe c r True (run_call k) anything.
Proof.
  intros Hc1 Hc2 Hr1 Hr2 Hk. destruct k; cbn [run_call call_ok] in *; try eapply safe_ignore;
  lazymatch goal with
  | |- safe _ _ _ (place_new_unit _ _) _ => by apply safe_place_new_unit
  | |- safe _ _ _ (replace_active_lead _ _ _ _) _ => apply safe_replace_active_lead; naive_solver
  | |- safe _ _ _ index_down _ => by apply safe_line_feed
  | |- safe _ _ _ (inherit_pen_for_clean_buffer _) _ => by apply safe_inherit_pen
  | |- safe _ _ _ (clear_unit_at _ _) _ => by apply safe_clear_unit_at
  | |- safe _ _ _ (execute _) _ => by apply safe_execute
  | |- safe _ _ _ (set_pending_wrap _) _ => by apply safe_set_pending_wrap
  | |- safe _ _ _ (cursor_up _) _ => by apply safe_cursor_up
  | |- safe _ _ _ (cursor_down _) _ => by apply safe_cursor_down
  | |- safe _ _ _ (cursor_forward _) _ => by apply safe_cursor_forward
  | |- safe _ _ _ (cursor_back _) _ => by apply safe_cursor_back
  | |- safe _ _ _ (set_cursor _ _) _ => by apply safe_set_cursor
  | |- safe _ _ _ (set_col _) _ => by apply safe_set_col
  | |- safe _ _ _ (set_row _) _ => by apply safe_set_row
  | |- safe _ _ _ save_cursor _ => by apply safe_save_cursor
  | |- safe _ _ _ restore_cursor _ => by apply safe_restore_cursor
  | |- safe _ _ _ (apply_sgr _) _ => by apply safe_apply_sgr
  | |- safe _ _ _ (set_scroll_region _ _) _ => by apply safe_set_scroll_region
  | |- safe _ _ _ (erase_display _) _ => by apply safe_erase_display
  | |- safe _ _ _ (erase_line _) _ => by apply safe_erase_line
  | |- safe _ _ _ (insert_characters _) _ => by apply safe_insert_characters
  | |- safe _ _ _ (delete_characters _) _ => by apply safe_delete_characters
  | |- safe _ _ _ (erase_characters _) _ => by apply safe_erase_characters
  | |- safe _ _ _ (insert_lines _) _ => by apply safe_insert_lines
  | |- safe _ _ _ (delete_lines _) _ => by apply safe_delete_lines
  | |- safe _ _ _ (scroll_up _ _) _ => by apply safe_scroll_up
  | |- safe _ _ _ (scroll_down _) _ => by apply safe_scroll_down
  | |- safe _ _ _ reverse_index _ => by apply safe_reverse_index
  | |- safe _ _ _ next_line _ => by apply safe_next_line
  | |- safe _ _ _ release_all_payloads _ => by apply safe_release_all_payloads
  end.
Qed.

(** A new screen is well formed; the error is a refused size or an exhausted allocator. *)
Lemma new_screen_wf c r retain a :
  alloc_wf a →
  wp (new_screen (H := H) c r retain)
    (λ s a', screen_wf s ∧ cols s = c ∧ rows s = r ∧ alloc_wf a')
    (λ e a', alloc_wf a' ∧ (e = LineIdentityExhausted ∨ e = InvalidSize ∧
       (c = 0 ∨ r = 0 ∨ MAX_TERMINAL_COLUMNS < c ∨ MAX_TERMINAL_ROWS < r))) a.
Proof.
  intros Ha. unfold new_screen. wp_run; to_prop; try (split; [done|by left]);
    try (split; [done|right; split; [done|lia]]).
  destruct (allocate_n_ok (N.to_nat r) a) as (ids & a' & Hall & Ha' & Hlen & _);
    [done|by rewrite N2Nat.id|].
  unfold wp at 1. rewrite Hall. apply wp_ret. unfold MAX_TERMINAL_COLUMNS, MAX_TERMINAL_ROWS in *.
  split_and!; [|done..]. split; simpl; try done.
  - unfold MAX_TERMINAL_COLUMNS. lia.
  - unfold MAX_TERMINAL_ROWS. lia.
  - rewrite length_replicate. split; [lia|]. by apply Forall_replicate.
  - rewrite length_replicate. split; [lia|]. by apply Forall_replicate.
  - rewrite Hlen. lia.
  - rewrite length_replicate. lia.
  - lia.
  - apply history_default_wf.
  - lia.
Qed.

(** C9. The grid is memory safe: whatever operations are performed on a well-formed
    screen, in whatever order, no index, slice, copy or subtraction is ever out of range,
    every loop ends, and the invariant holds after each of them (one cell and one anchor
    per grid position, one identity and one break per row, the cursor and the scrolling
    margins inside the grid, cell widths in their domain, scalar characters and byte colours in
    cells and pens, text in the grapheme store, and the invariants of the allocator, of the
    store and of the history).  The only error is the exhausted
    allocator, and it leaves a well-formed screen too. *)
Theorem screen_calls_safe (calls : list call) (w : World H) :
  world_wf w → Forall (call_ok (cols (scr w)) (rows (scr w))) calls →
  wp (for_each calls run_call)
    (λ _ w', world_wf w' ∧ cols (scr w') = cols (scr w) ∧ rows (scr w') = rows (scr w))
    (λ e w', world_wf w' ∧ e = LineIdentityExhausted) w.
Proof.
  intros Hw Hcalls. destruct (ww_screen w Hw) as [[??] [??] _ _ _ _ _ _ _].
  assert (safe (cols (scr w)) (rows (scr w)) True (for_each calls run_call) anything) as Hsafe.
  { apply safe_for_each. intros k Hk. rewrite Forall_forall in Hcalls.
    apply safe_run_call; auto. }
  assert (inv (cols (scr w)) (rows (scr w)) w) as Hi by by apply inv_world_wf.
  eapply wp_mono; [exact (Hsafe w Hi)| |].
  - intros _ w' [Hw' _]. by apply inv_world_wf.
  - intros e w' (Hw' & -> & _). by apply inv_world_wf in Hw' as [? _].
Qed.
End calls.

(** A two-row screen on which a wide unit is printed, scrolled, edited and erased. *)
Definition demo_screen : Screen (list HistoryLine) :=
  mkScreen 3 2 (replicate 6 cell_default) (replicate 6 None) [1; 2] (replicate 2 (Some HardBreak)) ∅
    cursor_default style_default None [] true None 0 1.
Definition demo_world : World (list HistoryLine) :=
  mkWorld demo_screen (mkAllocator (Some 3)) store_default.

Lemma demo_world_wf : world_wf demo_world.
Proof.
  split; cbn [scr alloc store demo_world].
  - split; try done; (split; [done|]); by apply Forall_replicate.
  - by intros n [= <-].
  - apply store_ok_default.
Qed.

Lemma screen_calls_safe_witness :
  wp (for_each [CPlace (lead_inline 19990 2 style_default) true; CPlace (lead_inline 65 1 style_default) true;
                CPlace (lead_inline 66 1 style_default) true; CExecute 10; CScrollUp 1 SoftWrap;
                CDeleteCharacters 1; CEraseDisplay 2] run_call)
    (λ _ w', world_wf w' ∧ cols (scr w') = 3 ∧ rows (scr w') = 2)
    (λ e w', world_wf w' ∧ e = LineIdentityExhausted) demo_world.
Proof.
  apply (screen_calls_safe
    [CPlace (lead_inline 19990 2 style_default) true; CPlace (lead_inline 65 1 style_default) true;
     CPlace (lead_inline 66 1 style_default) true; CExecute 10; CScrollUp 1 SoftWrap;
     CDeleteCharacters 1; CEraseDisplay 2] demo_world).
  - apply demo_world_wf.
  - by repeat constructor.
Defined.
