(* ===== verification/Grapheme.v ===== *)
(** Occupation width and the active grapheme:
    [crates/seyal-terminal/src/width.rs] and [active_grapheme.rs].

    A Rust [String] is the list of its scalar values; its bytes are [utf8_bytes].  The
    Unicode tables come from the crates [unicode-segmentation] and [unicode-width], which
    are not part of the sources: they are the operations of the class [UnicodeTables].  No
    theorem needs a hypothesis on them, so they hold for every version of the tables. *)

From S2P Require Import Prelude Utf8 Types GraphemeStore.

Class UnicodeTables := {
  (** [text.graphemes(true).count()] *)
  grapheme_count : list N → N;
  (** [UnicodeWidthChar::width] and [width_cjk] *)
  char_width : N → option N;
  char_width_cjk : N → option N;
}.

Inductive AmbiguousWidthPolicy := Narrow | Wide.
#[global] Instance AmbiguousWidthPolicy_eq_dec : EqDecision AmbiguousWidthPolicy.
Proof. solve_decision. Defined.

Record ActiveGrapheme := mkActive {
  ag_col : N; ag_row : N; ag_utf8 : list N; ag_width : N; ag_style : Style;
  ag_store_id : N; ag_overflow : bool }.

Inductive EdgeDecision := Place | IgnoreUnit | RejectExtension.

Record AppendResult := mkAppend { ar_width : N; ar_width_changed : bool }.

(** [text.len()], in bytes. *)
Definition str_len (text : list N) : N := vlen (utf8_bytes text).

Section grapheme.
Context `{UnicodeTables}.

Definition extends_active_grapheme (existing : list N) (next : N) : bool :=
  if bool_decide (existing = []) then false
  else grapheme_count (existing ++ [next]) =? 1.

Definition is_nonspacing_mark_or_format (ch : N) : bool :=
  (ch =? 65038) || (ch =? 65039) || (ch =? 8205) || (ch =? 8419) || inr 65024 65037 ch
  || bool_decide (char_width ch = Some 0).

(** The width added by one scalar, as a [u32]. *)
Definition scalar_width (ambiguous : AmbiguousWidthPolicy) (ch : N) : N :=
  let w := match ambiguous with Narrow => char_width ch | Wide => char_width_cjk ch end in
  default 1 w mod 2 ^ 32.

Definition grapheme_terminal_width (text : list N) (ambiguous : AmbiguousWidthPolicy) : N :=
  if bool_decide (text = []) then 0
  else if existsb (λ ch, ch =? 65039) text &&
          existsb (λ ch, negb (is_nonspacing_mark_or_format ch)) text then 2
  else
    let w := foldl (λ acc ch,
               if is_nonspacing_mark_or_format ch then acc
               else sat_add u32_max acc (scalar_width ambiguous ch)) 0 text in
    if w =? 0 then 0 else if w =? 1 then 1 else 2.

(** [None] is the overflow of [col + 1] or [cols - 1]. *)
Definition edge_decision_new_unit (c cs w : N) (wrap : bool) : option EdgeDecision :=
  if w <? 2 then Some Place
  else if cs <? w then Some IgnoreUnit
  else
    next_col ← checked_add u16_max c 1;
    if next_col <? cs then Some Place
    else if wrap then Some Place else Some IgnoreUnit.

Definition edge_decision_late_widen (c cs new_width : N) (wrap : bool) : option EdgeDecision :=
  if new_width <? 2 then Some Place
  else if cs <? new_width then Some RejectExtension
  else
    next_col ← checked_add u16_max c 1;
    if next_col <? cs then Some Place
    else
      last_col ← checked_sub cs 1;
      if c =? last_col then if wrap then Some Place else Some RejectExtension
      else Some Place.

Definition try_append_scalar (active : ActiveGrapheme) (next : N) (core : bool) : bool :=
  if negb core then false
  else extends_active_grapheme (ag_utf8 active) next.

Definition append_payload {E} (active : ActiveGrapheme) (next : N)
    (ambiguous : AmbiguousWidthPolicy) : M E GraphemeStore (ActiveGrapheme * AppendResult) :=
  if ag_overflow active then ret (active, mkAppend (ag_width active) false)
  else if MAX_ACTIVE_GRAPHEME_BYTES <?
          sat_add u64_max (str_len (ag_utf8 active)) (len_utf8 next) then
    modify (λ s, s <| grapheme_payload_overflow_count := bump (grapheme_payload_overflow_count s) |>) ;;;
    let active := active <| ag_overflow := true |> in
    let! active := (if negb (ag_store_id active =? INLINE_STORE_ID) then
                      modify (release (ag_store_id active)) ;;;
                      ret (active <| ag_store_id := INLINE_STORE_ID |>)
                    else ret active) in
    ret (active, mkAppend (ag_width active) false)
  else
    let active := active <| ag_utf8 := ag_utf8 active ++ [next] |> in
    let new_width := grapheme_terminal_width (ag_utf8 active) ambiguous in
    ret (active, mkAppend new_width (negb (new_width =? ag_width active))).
End grapheme.

Definition build_lead_cell {E} (text : list N) (w : N) (st : Style) (overflow : bool)
    (release_first : option N) : M E GraphemeStore Cell :=
  if overflow then ret (lead_from_admit 65533 (N.max w 1) st OverflowSentinel)
  else
    let first := default 65533 (head text) in
    let multi := bool_decide (tail text ≠ []) || (len_utf8 first <? str_len text) in
    if negb multi then
      let! _ := insert_replacing [] release_first in
      ret (lead_inline first (N.max w 1) st)
    else
      let! adm := insert_replacing (utf8_bytes text) release_first in
      ret (lead_from_admit first (N.max w 1) st adm).
