(* ===== verification/Osc.v ===== *)
(** Operating system commands: the presentation events of
    [crates/seyal-terminal/src/presentation.rs] and the shell-integration markers of
    [terminal/state.rs] ([ShellIntegrationToken]) as parsed by [terminal/vt/osc.rs]. *)

From S2P Require Import Prelude Utf8 Types.

Definition MAX_HOST_PRESENTATION_EVENTS : N := 16.
Definition MAX_PRESENTATION_PAYLOAD_BYTES : N := 1024.

Record PresentationPayload := mkPayload { p_len : N; p_bytes : list N }.

(** The first [take] bytes of [data] copied into a zeroed array of 1024 bytes; [take] is at
    most both lengths, so neither slice panics. *)
Definition payload_from_slice (data : list N) : PresentationPayload :=
  let n := N.min (vlen data) MAX_PRESENTATION_PAYLOAD_BYTES in
  mkPayload n (take (N.to_nat n) data
                 ++ replicate (N.to_nat (MAX_PRESENTATION_PAYLOAD_BYTES - n)) 0).

(** [None] is the panic of the slice. *)
Definition payload_as_bytes (p : PresentationPayload) : option (list N) :=
  vslice (p_bytes p) 0 (p_len p).

Inductive HostPresentationEvent :=
| IconAndWindowTitle (text : PresentationPayload)
| WindowTitle (text : PresentationPayload)
| WorkingDirectory (uri : PresentationPayload)
| Hyperlink (id uri : PresentationPayload).

(** The loop of [split_osc_code]; [first] says that no digit was read yet. *)
Fixpoint split_code_loop (bytes : list N) (first : bool) (value : N) : option (N * list N) :=
  match bytes with
  | [] => if first then None else Some (value mod 2 ^ 16, [])
  | b :: bytes =>
    if inr 48 57 b then
      let value := sat_add u32_max (sat_mul u32_max value 10) (b - 48) in
      if u16_max <? value then None else split_code_loop bytes false value
    else if b =? 59 then Some (value mod 2 ^ 16, bytes)
    else None
  end.
Definition split_osc_code (bytes : list N) : option (N * list N) := split_code_loop bytes true 0.

(** [slice.split(|b| b == sep)]: at least one, possibly empty, part. *)
Fixpoint split_on (sep : N) (l : list N) : list (list N) :=
  match l with
  | [] => [[]]
  | b :: l =>
    if b =? sep then [] :: split_on sep l
    else match split_on sep l with
         | [] => [[b]]
         | part :: parts => (b :: part) :: parts
         end
  end.

(** [slice.strip_prefix(prefix)]. *)
Fixpoint strip_prefix (prefix l : list N) : option (list N) :=
  match prefix, l with
  | [], l => Some l
  | _ :: _, [] => None
  | a :: prefix, b :: l => if a =? b then strip_prefix prefix l else None
  end.

Definition extract_hyperlink_id (params : list N) : PresentationPayload :=
  match omap (strip_prefix [105; 100; 61]) (split_on 58 params) with
  | value :: _ => payload_from_slice value
  | [] => payload_from_slice []
  end.

Definition parse_osc8 (rest : list N) : option HostPresentationEvent :=
  '(semi, _) ← list_find (λ b, b = 59) rest;
  Some (Hyperlink (extract_hyperlink_id (take semi rest))
                  (payload_from_slice (drop (semi + 1) rest))).

Definition parse_osc_presentation (bytes : list N) : option HostPresentationEvent :=
  '(code, rest) ← split_osc_code bytes;
  if code =? 0 then Some (IconAndWindowTitle (payload_from_slice rest))
  else if code =? 2 then Some (WindowTitle (payload_from_slice rest))
  else if code =? 7 then Some (WorkingDirectory (payload_from_slice rest))
  else if code =? 8 then parse_osc8 rest
  else None.

(** * Shell-integration tokens *)

Definition hex (byte : N) : option N :=
  if inr 48 57 byte then Some (byte - 48)
  else if inr 97 102 byte then Some (byte - 97 + 10)
  else if inr 65 70 byte then Some (byte - 65 + 10)
  else None.

(** The sixteen bytes of a token. *)
Definition ShellIntegrationToken := list N.

(** [(hex(pair[0])? << 4) | hex(pair[1])?] for every pair, at 8 bits. *)
Fixpoint from_hex_pairs (bytes : list N) : option (list N) :=
  match bytes with
  | a :: b :: bytes =>
    h ← hex a; l ← hex b;
    rest ← from_hex_pairs bytes;
    Some (N.lor (N.shiftl h 4 mod 256) l :: rest)
  | _ => Some []
  end.

Definition from_hex (bytes : list N) : option ShellIntegrationToken :=
  if vlen bytes =? 32 then from_hex_pairs bytes else None.

Definition hex_digit (n : N) : N := if n <? 10 then 48 + n else 87 + n.

Definition write_hex (token : ShellIntegrationToken) : list N :=
  mjoin ((λ b, [hex_digit (N.shiftr b 4); hex_digit (N.land b 15)]) <$> token).

Inductive SessionShellKind := Zsh | Bash.

Inductive ShellIntegrationEvent :=
| PromptStarted (token : ShellIntegrationToken)
| CommandStarted (token : ShellIntegrationToken) (line : LineId)
| CommandFinished (token : ShellIntegrationToken) (exit_status : Z) (line : LineId)
| Readiness (token : ShellIntegrationToken) (shell : SessionShellKind).

(** [str::parse::<i32>]: an optional sign and at least one digit, in range. *)
Fixpoint parse_digits (text : list N) (acc : N) : option N :=
  match text with
  | [] => Some acc
  | d :: text => if inr 48 57 d then parse_digits text (acc * 10 + (d - 48)) else None
  end.
Definition parse_nonempty (text : list N) : option N :=
  match text with [] => None | _ => parse_digits text 0 end.
Definition parse_i32 (text : list N) : option Z :=
  match text with
  | 45 :: digits =>
    n ← parse_nonempty digits; if n <=? 2147483648 then Some (- Z.of_N n)%Z else None
  | 43 :: digits =>
    n ← parse_nonempty digits; if n <=? 2147483647 then Some (Z.of_N n) else None
  | _ =>
    n ← parse_nonempty text; if n <=? 2147483647 then Some (Z.of_N n) else None
  end.

(** The marker of an OSC 133 string, with the lines it would be stamped with. *)
Definition parse_shell_marker (bytes : list N) (current completion : LineId) :
    option ShellIntegrationEvent :=
  payload ← strip_prefix [49; 51; 51; 59] bytes;
  match split_on 59 payload with
  | [[65]; token] => token ← from_hex token; Some (PromptStarted token)
  | [[67]; token] => token ← from_hex token; Some (CommandStarted token current)
  | [68] :: token :: status :: _ =>
    token ← from_hex token;
    text ← from_utf8 status;
    status ← parse_i32 text;
    Some (CommandFinished token status completion)
  | [[82]; token; [kind]] =>
    shell ← (if kind =? 122 then Some Zsh else if kind =? 98 then Some Bash else None);
    token ← from_hex token;
    Some (Readiness token shell)
  | _ => None
  end.
