(* ===== verification/Selection.v ===== *)
(** Host selection, copy text, search cursor, copy mode and paste:
    [crates/seyal-terminal/src/selection.rs].

    The theorems show that highlighting covers exactly the cells in reading order between
    the corners (or the box), that the copy-mode cursor stays in the grid, that stepping
    through matches is a rotation, that a copy is bounded and inserts a newline exactly at
    the hard breaks it crosses, and what sanitising a paste guarantees.  Text is the list
    of its UTF-8 bytes. *)

From S2P Require Import Prelude Types.

Definition MAX_PASTE_BYTES : N := 65520.
Definition MAX_SEARCH_MATCHES : N := 1024.
Definition MAX_COPY_BYTES : N := 262144.

Definition BRACKET_PASTE_START : list N := [27; 91; 50; 48; 48; 126].
Definition BRACKET_PASTE_END : list N := [27; 91; 50; 48; 49; 126].

Inductive SelectionKind := Linear | Rectangular.
#[global] Instance SelectionKind_eq_dec : EqDecision SelectionKind.
Proof. solve_decision. Defined.

Record VisualPos := mkPos { v_col : N; v_row : N }.

Inductive CopyModeMotion := MLeft | MRight | MUp | MDown | MLineStart | MLineEnd.

Record SelectionSession := mkSelection {
  sel_kind : SelectionKind; sel_start : option VisualPos; sel_end : option VisualPos;
  sel_start_anchor : option HistoryAnchor; sel_end_anchor : option HistoryAnchor }.
Definition selection_default : SelectionSession := mkSelection Linear None None None None.

Record SearchSession := mkSearch { needle : list N; search_index : option N }.
Definition search_default : SearchSession := mkSearch [] None.

Record CopyMode := mkCopyMode {
  copy_active : bool; copy_cursor : VisualPos; copy_anchor : option VisualPos;
  copy_kind : SelectionKind }.
Definition copy_mode_default : CopyMode := mkCopyMode false (mkPos 0 0) None Linear.

Inductive PasteError := PasteEmpty | PasteTooLarge.

Inductive HistoryRangeError := Stale | Unrepresentable.

Record HistoryUnitView := mkView {
  uv_anchor : HistoryAnchor; uv_text : list N; uv_width : N; uv_style : Style;
  uv_break_after : HistoryBreakAfter }.

(** * Copy *)

Definition push_bounded (out text : list N) : result HistoryRangeError (list N) :=
  if MAX_COPY_BYTES <? sat_add u64_max (vlen out) (vlen text) then Err Unrepresentable
  else Ok (out ++ text).

Fixpoint format_loop (out : list N) (units : list HistoryUnitView) : result HistoryRangeError (list N) :=
  match units with
  | [] => Ok out
  | unit :: rest =>
    match push_bounded out (uv_text unit) with
    | Err e => Err e
    | Ok out =>
      match rest with
      | [] => Ok out
      | next :: _ =>
        if negb (a_line_id (uv_anchor next) =? a_line_id (uv_anchor unit))
           && bool_decide (uv_break_after unit = HardBreak) then
          match push_bounded out [10] with
          | Err e => Err e
          | Ok out => format_loop out rest
          end
        else format_loop out rest
      end
    end
  end.

Definition format_history_copy (units : list HistoryUnitView) : result HistoryRangeError (list N) :=
  format_loop [] units.

(** * Paste *)

Fixpoint starts_with (prefix l : list N) : bool :=
  match prefix, l with
  | [], _ => true
  | p :: prefix, b :: l => (p =? b) && starts_with prefix l
  | _ :: _, [] => false
  end.

Definition bracket_paste_marker_len (bytes : list N) : option nat :=
  if starts_with BRACKET_PASTE_START bytes then Some (length BRACKET_PASTE_START)
  else if starts_with BRACKET_PASTE_END bytes then Some (length BRACKET_PASTE_END)
  else None.

(** The [while] loop of [sanitize_paste]; [skip] bytes of a recognised marker are still to
    be passed over. *)
Fixpoint sanitize_bytes (skip : nat) (bytes : list N) : list N :=
  match bytes with
  | [] => []
  | b :: rest =>
    match skip with
    | S skip => sanitize_bytes skip rest
    | O =>
      if b =? 0 then sanitize_bytes 0 rest
      else match bracket_paste_marker_len bytes with
           | Some n => sanitize_bytes (n - 1) rest
           | None => b :: sanitize_bytes 0 rest
           end
    end
  end.

Definition sanitize_paste (bytes : list N) : result PasteError (list N) :=
  if bool_decide (bytes = []) then Err PasteEmpty
  else if MAX_PASTE_BYTES <? vlen bytes then Err PasteTooLarge
  else
    let out := sanitize_bytes 0 bytes in
    if bool_decide (out = []) then Err PasteEmpty
    else if MAX_PASTE_BYTES <? vlen out then Err PasteTooLarge
    else Ok out.

Definition encode_paste (bytes : list N) (bracketed : bool) : result PasteError (list N) :=
  match sanitize_paste bytes with
  | Err e => Err e
  | Ok sanitized =>
    if negb bracketed then Ok sanitized
    else
      let wrapped_len :=
        sat_add u64_max (sat_add u64_max (vlen BRACKET_PASTE_START) (vlen sanitized))
                (vlen BRACKET_PASTE_END) in
      if sat_add u64_max MAX_PASTE_BYTES (vlen BRACKET_PASTE_START + vlen BRACKET_PASTE_END)
         <? wrapped_len then Err PasteTooLarge
      else Ok (BRACKET_PASTE_START ++ sanitized ++ BRACKET_PASTE_END)
  end.

(** * Selection *)

(** The derived order of a pair [(row, col)]. *)
Definition pos_le (a b : VisualPos) : bool :=
  (v_row a <? v_row b) || ((v_row a =? v_row b) && (v_col a <=? v_col b)).

Definition order_visual (a b : VisualPos) : VisualPos * VisualPos :=
  if pos_le a b then (a, b) else (b, a).

Definition anchor_le (a b : HistoryAnchor) : bool :=
  (a_line_id a <? a_line_id b) ||
  ((a_line_id a =? a_line_id b) && (unit_offset a <=? unit_offset b)).

Definition set_linear (start end_ : VisualPos) (sa ea : option HistoryAnchor)
    : SelectionSession := mkSelection Linear (Some start) (Some end_) sa ea.
Definition set_rectangular (start end_ : VisualPos) (sa ea : option HistoryAnchor)
    : SelectionSession := mkSelection Rectangular (Some start) (Some end_) sa ea.

Definition ordered_corners (s : SelectionSession) : option (VisualPos * VisualPos) :=
  start ← sel_start s; end_ ← sel_end s; Some (order_visual start end_).

Definition ordered_anchors (s : SelectionSession) : option (HistoryAnchor * HistoryAnchor) :=
  start ← sel_start_anchor s; end_ ← sel_end_anchor s;
  Some (if anchor_le start end_ then (start, end_) else (end_, start)).

Definition contains_cell (s : SelectionSession) (c r cs : N) : bool :=
  match ordered_corners s with
  | None => false
  | Some (start, end_) =>
    let min_row := N.min (v_row start) (v_row end_) in
    let max_row := N.max (v_row start) (v_row end_) in
    if (r <? min_row) || (max_row <? r) then false
    else
      let last_col := cs - 1 in
      let '(row_start, row_end) :=
        if bool_decide (sel_kind s = Rectangular) || ((r =? min_row) && (r =? max_row)) then
          (N.min (v_col start) (v_col end_), N.max (v_col start) (v_col end_))
        else if r =? min_row then
          if pos_le start end_ then (v_col start, last_col) else (v_col end_, last_col)
        else if r =? max_row then
          if pos_le start end_ then (0, v_col end_) else (0, v_col start)
        else (0, last_col) in
      (row_start <=? c) && (c <=? row_end)
  end.

(** * Search *)

(** [matches.get(next)]: the stepped index and the match it names. *)
Definition search_step {X} (s : SearchSession) (matches : list X) (forward : bool)
    : option X * SearchSession :=
  if bool_decide (matches = []) then (None, s <| search_index := None |>)
  else
    let next :=
      match search_index s with
      | None => if forward then 0 else vlen matches - 1
      | Some index =>
        if forward then (index + 1) mod vlen matches
        else if index =? 0 then vlen matches - 1 else index - 1
      end in
    (matches !! N.to_nat next, s <| search_index := Some next |>).

(** * Copy mode *)

Definition copy_enter (cur : VisualPos) : CopyMode := mkCopyMode true cur None Linear.

Definition apply_motion (motion : CopyModeMotion) (cs rs : N) (m : CopyMode) : CopyMode :=
  if negb (copy_active m) || (cs =? 0) || (rs =? 0) then m
  else
    let cur := copy_cursor m in
    let cur := match motion with
               | MLeft => cur <| v_col := v_col cur - 1 |>
               | MRight => cur <| v_col := N.min (sat_add u16_max (v_col cur) 1) (cs - 1) |>
               | MUp => cur <| v_row := v_row cur - 1 |>
               | MDown => cur <| v_row := N.min (sat_add u16_max (v_row cur) 1) (rs - 1) |>
               | MLineStart => cur <| v_col := 0 |>
               | MLineEnd => cur <| v_col := cs - 1 |>
               end in
    m <| copy_cursor := cur |>.

Definition toggle_anchor (m : CopyMode) : CopyMode :=
  if negb (copy_active m) then m
  else match copy_anchor m with
       | Some _ => m <| copy_anchor := None |>
       | None => m <| copy_anchor := Some (copy_cursor m) |>
       end.

Definition toggle_kind (m : CopyMode) : CopyMode :=
  if negb (copy_active m) then m
  else m <| copy_kind := match copy_kind m with Linear => Rectangular | Rectangular => Linear end |>.

Definition copy_selection (m : CopyMode) : option (VisualPos * VisualPos * SelectionKind) :=
  if negb (copy_active m) then None
  else start ← copy_anchor m; Some (start, copy_cursor m, copy_kind m).

Definition skip_continuation (r : CellRole) (moving_right : bool) (c cs : N) : N :=
  if negb (bool_decide (r = Continuation)) then c
  else if moving_right then N.min (sat_add u16_max c 1) (cs - 1)
  else c - 1.

(** * Correctness *)

(** ** Copy mode *)

Definition pos_in (cs rs : N) (p : VisualPos) : Prop := v_col p < cs ∧ v_row p < rs.

(** The cursor is in the grid, and so is the anchor. *)
Definition copy_in (cs rs : N) (m : CopyMode) : Prop :=
  pos_in cs rs (copy_cursor m) ∧ ∀ a, copy_anchor m = Some a → pos_in cs rs a.

(** Motions and toggles keep cursor and anchor in the grid; so the selection they make is in it. *)
Lemma copy_mode_in_grid cs rs m :
  copy_in cs rs m →
  (∀ motion, copy_in cs rs (apply_motion motion cs rs m)) ∧ copy_in cs rs (toggle_anchor m) ∧ copy_in cs rs (toggle_kind m) ∧
  ∀ a b k, copy_selection m = Some (a, b, k) → pos_in cs rs a ∧ pos_in cs rs b.
Proof.
  intros [Hc Ha]. split; [|split; [|split]].
  - intros motion. unfold apply_motion, sat_add. destruct (_ || _); [by split|]. split; [|by destruct motion].
    unfold pos_in in *. destruct motion; cbn; lia.
  - unfold toggle_anchor. destruct (negb _); [by split|]. destruct (copy_anchor m) eqn:Hm; (split; [exact Hc|]); [done|].
    by intros a [= <-].
  - unfold toggle_kind. by destruct (negb _).
  - unfold copy_selection. destruct (negb _); [done|]. destruct (copy_anchor m) as [x|]; [|done]. intros a b k [= <- <- <-].
    split; [by apply Ha|exact Hc].
Qed.

(** ** Highlighting *)

(** Reading order, as a proposition. *)
Definition reads_before (a b : VisualPos) : Prop :=
  v_row a < v_row b ∨ (v_row a = v_row b ∧ v_col a ≤ v_col b).

(** The cells a selection between two corners should cover. *)
Definition covered (k : SelectionKind) (a b p : VisualPos) : Prop :=
  match k with
  | Linear => (reads_before a p ∧ reads_before p b) ∨ (reads_before b p ∧ reads_before p a)
  | Rectangular =>
    N.min (v_row a) (v_row b) ≤ v_row p ≤ N.max (v_row a) (v_row b) ∧
    N.min (v_col a) (v_col b) ≤ v_col p ≤ N.max (v_col a) (v_col b)
  end.

Lemma pos_le_spec a b : pos_le a b = true ↔ reads_before a b.
Proof. unfold pos_le, reads_before. lia. Qed.

(** C14. Highlighting agrees with the selection: a cell of the grid is highlighted exactly
    when it lies, in reading order, between the two corners of a linear selection (in
    whichever order they were given), or inside the box of a rectangular one; a selection
    with a missing corner highlights nothing. *)
Theorem contains_cell_covers (s : SelectionSession) (c r cs : N) :
  c < cs →
  match sel_start s, sel_end s with
  | Some a, Some b =>
    v_col a < cs → v_col b < cs →
    contains_cell s c r cs = true ↔ covered (sel_kind s) a b (mkPos c r)
  | _, _ => contains_cell s c r cs = false
  end.
Proof.
  intros Hc. unfold contains_cell, ordered_corners.
  destruct (sel_start s) as [a|]; [|done]. destruct (sel_end s) as [b|]; [|done].
  simpl. intros Ha Hb. unfold order_visual. pose proof (pos_le_spec a b) as Hab.
  destruct (pos_le a b) eqn:E; cbn [fst snd]; [rewrite E|].
  2: assert (pos_le b a = true) as -> by (unfold pos_le in *; lia).
  all: unfold pos_le, covered, reads_before in *; destruct (sel_kind s);
    rewrite ?bool_decide_true, ?bool_decide_false by done; simpl; repeat case_match; simplify_eq; lia.
Qed.

Lemma contains_cell_covers_witness :
  contains_cell (set_linear (mkPos 2 0) (mkPos 1 2) None None) 3 1 4 = true ↔
  covered Linear (mkPos 2 0) (mkPos 1 2) (mkPos 3 1).
Proof.
  apply (contains_cell_covers (set_linear (mkPos 2 0) (mkPos 1 2) None None) 3 1 4); simpl; lia.
Defined.

(** ** Copy text *)

(** The text of the units, a newline where two neighbours belong to different source lines
    separated by a hard break. *)
Fixpoint copy_text (units : list HistoryUnitView) : list N :=
  match units with
  | [] => []
  | u :: rest =>
    uv_text u ++
    match rest with
    | [] => []
    | n :: _ =>
      if decide (a_line_id (uv_anchor n) ≠ a_line_id (uv_anchor u) ∧ uv_break_after u = HardBreak)
      then [10] else []
    end ++ copy_text rest
  end.

Lemma push_bounded_spec out text :
  push_bounded out text =
    if MAX_COPY_BYTES <? vlen (out ++ text) then Err Unrepresentable else Ok (out ++ text).
Proof.
  unfold push_bounded, sat_add.
  assert ((MAX_COPY_BYTES <? N.min (vlen out + vlen text) u64_max)
          = (MAX_COPY_BYTES <? vlen (out ++ text))) as ->; [|done].
  rewrite length_app. unfold MAX_COPY_BYTES, u64_max. lia.
Qed.

Lemma format_loop_spec out units :
  vlen out ≤ MAX_COPY_BYTES →
  format_loop out units =
    if MAX_COPY_BYTES <? vlen (out ++ copy_text units) then Err Unrepresentable
    else Ok (out ++ copy_text units).
Proof.
  assert (∀ l k : list N, vlen l ≤ vlen (l ++ k)) as Hmono by (intros; rewrite length_app; lia).
  revert out. induction units as [|u units IH]; intros out Hout; cbn [format_loop copy_text].
  { rewrite app_nil_r. destruct (_ <? _) eqn:?; to_prop; [lia|done]. }
  rewrite push_bounded_spec. destruct (_ <? vlen (out ++ uv_text u)) eqn:H1; to_prop.
  { rewrite (assoc_L (++)). destruct (_ <? _) eqn:H2; to_prop; [done|].
    rewrite (length_app (out ++ uv_text u)) in H2. lia. }
  destruct units as [|n units]. { rewrite !app_nil_r. destruct (_ <? _) eqn:?; to_prop; [lia|done]. }
  match goal with |- (if ?b then _ else _) = _ => destruct b eqn:Hb end.
  - apply andb_true_iff in Hb as [Hb1%negb_true_iff%N.eqb_neq Hb2%bool_decide_eq_true].
    rewrite decide_True by done. rewrite push_bounded_spec.
    rewrite !(assoc_L (++)). destruct (_ <? vlen ((out ++ uv_text u) ++ [10])) eqn:H2; to_prop.
    + destruct (_ <? vlen (_ ++ copy_text _)) eqn:H3; to_prop; [done|].
      specialize (Hmono ((out ++ uv_text u) ++ [10]) (copy_text (n :: units))). lia.
    + by rewrite IH.
  - rewrite decide_False.
    2:{ intros [H2%N.eqb_neq%negb_true_iff H3]. by rewrite H2, (bool_decide_true _ H3) in Hb. }
    rewrite app_nil_l, !(assoc_L (++)). by rewrite IH.
Qed.

(** C15. Copying is exact and bounded: the copied text is the text of the selected units
    with a newline exactly where the selection crosses a hard break (soft wraps add
    nothing), and the copy is refused exactly when that text exceeds [MAX_COPY_BYTES]. *)
Theorem format_history_copy_exact (units : list HistoryUnitView) :
  format_history_copy units =
    if MAX_COPY_BYTES <? vlen (copy_text units) then Err Unrepresentable else Ok (copy_text units).
Proof. unfold format_history_copy. by rewrite format_loop_spec by done. Qed.

(** ** Search *)

(** [k] steps in one direction. *)
Fixpoint search_steps {X} (k : nat) (s : SearchSession) (matches : list X) (forward : bool)
    : SearchSession :=
  match k with
  | O => s
  | S k => search_steps k (search_step s matches forward).2 matches forward
  end.

Lemma search_step_index {X} (s : SearchSession) (matches : list X) i forward :
  search_index s = Some i → i < vlen matches →
  search_index (search_step s matches forward).2 =
    Some (if forward then (i + 1) mod vlen matches else (i + vlen matches - 1) mod vlen matches).
Proof.
  intros Hi Hlt. unfold search_step. rewrite bool_decide_false by (intros ->; simpl in Hlt; lia).
  rewrite Hi. simpl. f_equal. destruct forward; [done|].
  destruct (i =? 0) eqn:E; to_prop.
  - subst. rewrite N.add_0_l, N.mod_small by lia. done.
  - replace (i + vlen matches - 1) with (i - 1 + 1 * vlen matches) by lia.
    rewrite N.Div0.mod_add, N.mod_small by lia. done.
Qed.

(** C16. Stepping through search results is a rotation: from a valid position, [k] steps
    forward land on position [i + k] modulo the number of matches, a step back undoes a
    step forward, and each step returns a match of the list. *)
Theorem search_rotates {X} (s : SearchSession) (matches : list X) (i : N) (k : nat) :
  search_index s = Some i → i < vlen matches →
  search_index (search_steps k s matches true) = Some ((i + N.of_nat k) mod vlen matches) ∧
  search_index (search_step (search_step s matches true).2 matches false).2 = Some i ∧
  ∀ forward, is_Some (search_step s matches forward).1.
Proof.
  intros Hi Hlt. assert (vlen matches ≠ 0) as Hn by lia. split_and!.
  - revert s i Hi Hlt. induction k as [|k IH]; intros s i Hi Hlt; cbn [search_steps].
    { by rewrite Hi, N.add_0_r, N.mod_small. }
    rewrite (IH _ ((i + 1) mod vlen matches)); [|by rewrite (search_step_index s matches i)|by apply N.mod_lt].
    f_equal. rewrite N.Div0.add_mod_idemp_l. f_equal. lia.
  - rewrite (search_step_index _ matches ((i + 1) mod vlen matches));
      [|by rewrite (search_step_index s matches i)|by apply N.mod_lt].
    f_equal. destruct (decide (i + 1 = vlen matches)) as [Heq|].
    + rewrite Heq, N.Div0.mod_same, N.add_0_l, N.mod_small by lia. lia.
    + rewrite (N.mod_small (i + 1)) by lia.
      replace (i + 1 + vlen matches - 1) with (i + 1 * vlen matches) by lia.
      by rewrite N.Div0.mod_add, N.mod_small.
  - intros forward. pose proof (search_step_index s matches i forward Hi Hlt) as Hs.
    unfold search_step in *. rewrite bool_decide_false in * by (intros ->; simpl in Hlt; lia).
    rewrite Hi in *. simpl in *. injection Hs as ->.
    apply lookup_lt_is_Some_2. destruct forward;
      match goal with |- context [?x mod ?y] => pose proof (N.mod_lt x y) end; lia.
Qed.

Lemma search_rotates_witness :
  search_index (search_steps 7 (mkSearch [97] (Some 2)) [10; 20; 30] true) = Some 0 ∧
  search_index (search_step (search_step (mkSearch [97] (Some 2)) [10; 20; 30] true).2
                  [10; 20; 30] false).2 = Some 2 ∧
  ∀ forward, is_Some (search_step (mkSearch [97] (Some 2)) [10; 20; 30] forward).1.
Proof. apply (search_rotates (mkSearch [97] (Some 2)) [10; 20; 30] 2 7); [reflexivity|simpl; lia]. Defined.

(** ** Paste *)

Lemma sanitize_sublist skip bytes : sanitize_bytes skip bytes `sublist_of` bytes.
Proof.
  revert skip. induction bytes as [|b bytes IH]; intros skip; [constructor|]. cbn [sanitize_bytes].
  repeat case_match; constructor; apply IH.
Qed.

Lemma sanitize_no_nul skip bytes : 0 ∉ sanitize_bytes skip bytes.
Proof.
  revert skip. induction bytes as [|b bytes IH]; intros skip; [set_solver|]. cbn [sanitize_bytes].
  repeat case_match; try apply IH. rewrite not_elem_of_cons. split; [|apply IH]. to_prop. congruence.
Qed.

(** Without an escape byte only NUL is removed. *)
Lemma sanitize_no_escape bytes :
  27 ∉ bytes → sanitize_bytes 0 bytes = filter (λ b, b ≠ 0) bytes.
Proof.
  induction bytes as [|b bytes IH]; [done|]. rewrite not_elem_of_cons. intros [Hb Hbs].
  cbn [sanitize_bytes]. rewrite filter_cons. specialize (IH Hbs).
  destruct (b =? 0) eqn:E; to_prop; [by rewrite decide_False by naive_solver|].
  rewrite decide_True by done.
  assert (bracket_paste_marker_len (b :: bytes) = None) as ->; [|by f_equal].
  unfold bracket_paste_marker_len, BRACKET_PASTE_START, BRACKET_PASTE_END. cbn [starts_with].
  by rewrite (proj2 (N.eqb_neq 27 b)).
Qed.

(** The second size check of [encode_paste] cannot fail. *)
Lemma wrapped_fits (n : N) :
  n ≤ MAX_PASTE_BYTES →
  (sat_add u64_max MAX_PASTE_BYTES (vlen BRACKET_PASTE_START + vlen BRACKET_PASTE_END)
   <? sat_add u64_max (sat_add u64_max (vlen BRACKET_PASTE_START) n) (vlen BRACKET_PASTE_END)) = false.
Proof.
  change (vlen BRACKET_PASTE_START) with 6. change (vlen BRACKET_PASTE_END) with 6.
  intros Hn. apply N.ltb_ge. unfold sat_add. generalize MAX_PASTE_BYTES u64_max n Hn. lia.
Qed.

(** What a paste keeps, read from the front: NUL bytes and whole markers are passed over,
    every other byte stays.  Only bytes of the input are looked at, so a marker that comes
    together by the removal of another one stays. *)
Inductive pasted : list N → list N → Prop :=
  | pasted_nil : pasted [] []
  | pasted_nul bytes out : pasted bytes out → pasted (0 :: bytes) out
  | pasted_marker marker bytes out :
      marker = BRACKET_PASTE_START ∨ marker = BRACKET_PASTE_END → pasted bytes out → pasted (marker ++ bytes) out
  | pasted_keep b bytes out :
      b ≠ 0 → ¬ BRACKET_PASTE_START `prefix_of` (b :: bytes) → ¬ BRACKET_PASTE_END `prefix_of` (b :: bytes) →
      pasted bytes out → pasted (b :: bytes) (b :: out).

Lemma starts_with_prefix m l : starts_with m l = true ↔ m `prefix_of` l.
Proof.
  revert l. induction m as [|x m IH]; intros l; cbn [starts_with].
  { split; [intros _; apply prefix_nil|done]. }
  destruct l as [|y l]; [split; [done|by intros ?%prefix_nil_not]|].
  rewrite andb_true_iff, N.eqb_eq, IH. split; [intros [-> ?]; by apply prefix_cons|].
  intros Hp. split; [by eapply prefix_cons_inv_1|by eapply prefix_cons_inv_2].
Qed.

Lemma marker_len_spec bytes :
  match bracket_paste_marker_len bytes with
  | Some n => n = 6%nat ∧ ∃ marker rest, (marker = BRACKET_PASTE_START ∨ marker = BRACKET_PASTE_END) ∧ bytes = marker ++ rest
  | None => ¬ BRACKET_PASTE_START `prefix_of` bytes ∧ ¬ BRACKET_PASTE_END `prefix_of` bytes
  end.
Proof.
  unfold bracket_paste_marker_len. pose proof (starts_with_prefix BRACKET_PASTE_START bytes) as H1.
  pose proof (starts_with_prefix BRACKET_PASTE_END bytes) as H2.
  destruct (starts_with BRACKET_PASTE_START bytes).
  { destruct (proj1 H1 eq_refl) as [rest ->]. split; [done|]. exists BRACKET_PASTE_START, rest. auto. }
  destruct (starts_with BRACKET_PASTE_END bytes).
  { destruct (proj1 H2 eq_refl) as [rest ->]. split; [done|]. exists BRACKET_PASTE_END, rest. auto. }
  split; naive_solver.
Qed.

Lemma sanitize_skip k bytes : sanitize_bytes k bytes = sanitize_bytes 0 (drop k bytes).
Proof. revert k. induction bytes as [|b bytes IH]; intros [|k]; try done. cbn [sanitize_bytes drop]. apply IH. Qed.

(** The loop computes the specification, and the specification has one result. *)
Lemma sanitize_pasted bytes : pasted bytes (sanitize_bytes 0 bytes).
Proof.
  remember (length bytes) as n eqn:Hn. revert bytes Hn.
  induction (lt_wf n) as [n _ IH]. intros [|b bytes] ->; [constructor|]. cbn [sanitize_bytes].
  destruct (N.eqb_spec b 0) as [->|Hb]; [apply pasted_nul; eapply IH; [|done]; cbn; lia|].
  pose proof (marker_len_spec (b :: bytes)) as Hm. destruct (bracket_paste_marker_len (b :: bytes)).
  - destruct Hm as (-> & marker & rest & Hmk & Heq). rewrite Heq, sanitize_skip.
    assert (drop (6 - 1) bytes = rest) as ->.
    { change (drop 6 (b :: bytes) = rest). rewrite Heq. by destruct Hmk as [-> | ->]. }
    apply pasted_marker; [done|]. eapply IH; [|done]. rewrite Heq, length_app. destruct Hmk as [-> | ->]; cbn; lia.
  - destruct Hm. apply pasted_keep; [done..|]. eapply IH; [|done]. cbn. lia.
Qed.

Lemma pasted_sanitize bytes out : pasted bytes out → out = sanitize_bytes 0 bytes.
Proof.
  induction 1 as [|bytes out _ ->|marker bytes out Hm _ ->|b bytes out Hb H1 H2 _ ->]; [done|done| |].
  - by destruct Hm as [-> | ->].
  - cbn [sanitize_bytes]. apply N.eqb_neq in Hb as ->. pose proof (marker_len_spec (b :: bytes)) as Hm.
    destruct (bracket_paste_marker_len (b :: bytes)); [|done].
    destruct Hm as (_ & marker & rest & [-> | ->] & Heq); [destruct H1|destruct H2]; by exists rest.
Qed.

(** The checks of [sanitize_paste]: the one on the result never fails. *)
Lemma sanitize_paste_cases bytes :
  sanitize_paste bytes =
  if MAX_PASTE_BYTES <? vlen bytes then Err PasteTooLarge
  else if bool_decide (sanitize_bytes 0 bytes = []) then Err PasteEmpty else Ok (sanitize_bytes 0 bytes).
Proof.
  unfold sanitize_paste. cbv zeta. pose proof (sublist_length _ _ (sanitize_sublist 0 bytes)).
  case_bool_decide as He; [by subst bytes|]. destruct (N.ltb_spec MAX_PASTE_BYTES (vlen bytes)); [done|].
  case_bool_decide; [done|]. destruct (N.ltb_spec MAX_PASTE_BYTES (vlen (sanitize_bytes 0 bytes))); [lia|done].
Qed.

(** C17. What sanitising a paste does.  The specification [pasted] reads the input once and
    determines the bytes that stay: all but NUL and whole bracketed-paste markers, in order.
    The paste is refused as too large exactly when the input exceeds the limit, as empty
    exactly when it does not and nothing stays, and otherwise the bytes that stay are the
    result; they are the input minus NUL when it has no escape byte.  Encoding puts the two
    markers around the result exactly when the paste is bracketed, and refuses nothing
    more. *)
Theorem sanitize_paste_sound (bytes : list N) :
  ∃ out, pasted bytes out ∧ (∀ out', pasted bytes out' → out' = out) ∧
    (out `sublist_of` bytes) ∧ (0 ∉ out) ∧ (27 ∉ bytes → out = filter (λ b, b ≠ 0) bytes) ∧
    (sanitize_paste bytes = Err PasteTooLarge ↔ MAX_PASTE_BYTES < vlen bytes) ∧
    (sanitize_paste bytes = Err PasteEmpty ↔ vlen bytes ≤ MAX_PASTE_BYTES ∧ out = []) ∧
    (∀ kept, sanitize_paste bytes = Ok kept ↔ vlen bytes ≤ MAX_PASTE_BYTES ∧ out ≠ [] ∧ kept = out) ∧
    ∀ bracketed, encode_paste bytes bracketed =
      match sanitize_paste bytes with
      | Ok kept => Ok (if bracketed : bool then BRACKET_PASTE_START ++ kept ++ BRACKET_PASTE_END else kept)
      | Err e => Err e
      end.
Proof.
  exists (sanitize_bytes 0 bytes).
  split_and!; [apply sanitize_pasted|apply pasted_sanitize|apply sanitize_sublist|apply sanitize_no_nul
              |apply sanitize_no_escape|..].
  all: unfold encode_paste; rewrite sanitize_paste_cases.
  all: destruct (N.ltb_spec MAX_PASTE_BYTES (vlen bytes)); [naive_solver lia|].
  all: case_bool_decide; try naive_solver lia.
  pose proof (sublist_length _ _ (sanitize_sublist 0 bytes)).
  intros [|]; [|done]. cbn [negb]. rewrite wrapped_fits; [done|lia].
Qed.

(** Removing a marker can join the bytes around it into another one: the sanitised text of
    this paste is the end marker itself, so bracketed encoding closes the paste early. *)
Example sanitize_paste_splices :
  sanitize_paste ([27; 91; 50; 48] ++ BRACKET_PASTE_END ++ [49; 126]) = Ok BRACKET_PASTE_END.
Proof. vm_compute. reflexivity. Qed.
