(* ===== verification/HistoryQuery.v ===== *)
(** Asking the retained history: anchors, ranges, search and selection of
    [crates/seyal-terminal/src/history/query.rs].

    Every query is a loop over the retained lines with early exits; the theorems state what
    it returns in terms of the units of the history with their addresses. *)

From stdpp Require Import sorting.
From S2P Require Import Prelude Utf8 Types Grapheme HistoryTypes Memory Wrap WrapIndex Eviction HistoryStore HistoryRetain HistoryTruncate Selection.

Implicit Types (l : HistoryLine) (h : HistoryStore).

Definition HISTORY_SELECTION_UNIT_CAP : N := 65536.

Inductive HistoryAnchorResolution :=
  | Resolved (text : list N) (width : N) (style : Style)
  | Unavailable
  | Invalid.

Record HistoryMatch := mkMatch { m_start : HistoryAnchor; m_end : HistoryAnchor }.

(** * The queries *)

Definition holds_anchor (a : HistoryAnchor) l : bool :=
  (line_id l =? a_line_id a) && (start_offset l <=? unit_offset a)
  && (unit_offset a - start_offset l <? as_u32 (vlen (units l))).

Definition resolve_anchor (a : HistoryAnchor) h : option HistoryAnchorResolution :=
  ls ← entries h;
  Some match List.find (holds_anchor a) ls with
  | None => if line_was_evicted (a_line_id a) (evicted h) then Unavailable else Invalid
  | Some l =>
    match checked_sub (unit_offset a) (start_offset l) ≫= (λ relative, units l !! N.to_nat relative) with
    | None => Invalid
    | Some u => match from_utf8 (u_utf8 u) with None => Unavailable | Some _ => Resolved (u_utf8 u) (u_width u) (u_style u) end
    end
  end.

(** The view of a unit, the [index]-th of its line. *)
Definition unit_view l (index : nat) (u : HistoryUnit) : HistoryUnitView :=
  mkView (mkAnchor (line_id l) (sat_add u32_max (start_offset l) (as_u32 (N.of_nat index))))
    (utf8_lossy (u_utf8 u)) (u_width u) (u_style u) (break_after l).

Definition line_views l : list HistoryUnitView := imap (unit_view l) (units l).

(** Pushes views until the limit; [true] when it was reached. *)
Fixpoint push_views (max_units : N) (vs acc : list HistoryUnitView) : list HistoryUnitView * bool :=
  match vs with
  | [] => (acc, false)
  | v :: vs => let acc := acc ++ [v] in if max_units <=? vlen acc then (acc, true) else push_views max_units vs acc
  end.

Fixpoint source_loop (start end_ : LineId) (max_units : N) (ls : list HistoryLine) (acc : list HistoryUnitView)
    : list HistoryUnitView :=
  match ls with
  | [] => acc
  | l :: ls =>
    if line_id l <? start then source_loop start end_ max_units ls acc
    else if end_ <? line_id l then acc
    else
      let '(acc, full) := push_views max_units (line_views l) acc in
      if full : bool then acc else source_loop start end_ max_units ls acc
  end.

Definition source_units (start end_ : LineId) (max_units : N) h : option (list HistoryUnitView) :=
  ls ← entries h;
  Some (if (max_units =? 0) || (end_ <? start) then [] else source_loop start end_ max_units ls []).

(** The search window after one more unit: at most [n] units, oldest first. *)
Definition slide (n : N) (window : list HistoryUnitView) (v : HistoryUnitView) : list HistoryUnitView :=
  let window := window ++ [v] in drop (length window - N.to_nat n) window.

Definition window_text (window : list HistoryUnitView) : list N := window ≫= uv_text.

(** The match a window stands for; both indexings would panic on an empty window. *)
Definition window_match (window : list HistoryUnitView) : option HistoryMatch :=
  first ← vget window 0; last ← (checked_sub (vlen window) 1 ≫= vget window);
  Some (mkMatch (uv_anchor first) (uv_anchor last)).

(** Over the units of one line: the window, the matches, and whether the limit was reached. *)
Fixpoint search_units (needle : list N) (n max_matches : N) (vs window : list HistoryUnitView)
    (matches : list HistoryMatch) : option (list HistoryUnitView * list HistoryMatch * bool) :=
  match vs with
  | [] => Some (window, matches, false)
  | v :: vs =>
    let window := slide n window v in
    if bool_decide (window_text window = needle) then
      m ← window_match window;
      let matches := matches ++ [m] in
      if max_matches <=? vlen matches then Some (window, matches, true)
      else search_units needle n max_matches vs window matches
    else search_units needle n max_matches vs window matches
  end.

Fixpoint search_lines (needle : list N) (n max_matches : N) (ls : list HistoryLine) (window : list HistoryUnitView)
    (matches : list HistoryMatch) : option (list HistoryMatch) :=
  match ls with
  | [] => Some matches
  | l :: ls =>
    '(window, matches, full) ← search_units needle n max_matches (line_views l) window matches;
    if full : bool then Some matches
    else
      let window := match break_after l with HardBreak => [] | SoftWrap => window end in
      search_lines needle n max_matches ls window matches
  end.

Definition search `{UnicodeTables} (needle : list N) (max_matches : N) h : option (list HistoryMatch) :=
  ls ← entries h;
  if bool_decide (needle = []) || (max_matches =? 0) then Some []
  else search_lines (utf8_bytes needle) (grapheme_count needle) max_matches ls [] [].

(** Over the units of one line; [None] when the selection grows past its cap. *)
Fixpoint select_units (start end_ : HistoryAnchor) (vs selected : list HistoryUnitView) : option (list HistoryUnitView) :=
  match vs with
  | [] => Some selected
  | v :: vs =>
    if anchor_le start (uv_anchor v) && anchor_le (uv_anchor v) end_ then
      if HISTORY_SELECTION_UNIT_CAP <=? vlen selected then None
      else select_units start end_ vs (selected ++ [v])
    else select_units start end_ vs selected
  end.

Fixpoint select_lines (start end_ : HistoryAnchor) (ls : list HistoryLine) (selected : list HistoryUnitView)
    : option (list HistoryUnitView) :=
  match ls with
  | [] => Some selected
  | l :: ls =>
    if line_id l <? a_line_id start then select_lines start end_ ls selected
    else if a_line_id end_ <? line_id l then Some selected
    else selected ← select_units start end_ (line_views l) selected; select_lines start end_ ls selected
  end.

Definition selection (start end_ : HistoryAnchor) h : option (result HistoryRangeError (list HistoryUnitView)) :=
  if negb (anchor_le start end_) then Some (Err Unrepresentable)
  else
    stale ← range_intersects_evicted (a_line_id start) (a_line_id end_) (evicted h);
    if stale : bool then Some (Err Stale)
    else
      ls ← entries h;
      Some match select_lines start end_ ls [] with
      | None => Err Unrepresentable
      | Some [] => Err Stale
      | Some selected => Ok selected
      end.

(** * Anchors *)

Lemma find_app {A} (f : A → bool) (xs ys : list A) :
  List.find f (xs ++ ys) = match List.find f xs with Some x => Some x | None => List.find f ys end.
Proof. induction xs as [|x xs IH]; [done|]. cbn [List.find app]. by destruct (f x). Qed.

Lemma find_none_iff {A} (f : A → bool) (xs : list A) : List.find f xs = None ↔ Forall (λ x, f x = false) xs.
Proof.
  induction xs as [|x xs IH]; [by split|]. cbn [List.find]. rewrite Forall_cons. destruct (f x) eqn:Hx; [|naive_solver].
  split; [done|intros [? _]; done].
Qed.

Definition at_anchor (a : HistoryAnchor) (x : HistoryAnchor * HistoryUnit) : bool := bool_decide (x.1 = a).

(** A line holds an anchor exactly when one of its units has that address. *)
Lemma find_located a l :
  line_fits l →
  List.find (at_anchor a) (located l) =
  if holds_anchor a l then (λ u, (a, u)) <$> units l !! N.to_nat (unit_offset a - start_offset l) else None.
Proof.
  intros [_ _ Ho]. assert (as_u32 (vlen (units l)) = vlen (units l)) as Hlen.
  { unfold as_u32. apply N.mod_small. unfold u32_max in Ho. lia. }
  destruct (holds_anchor a l) eqn:Hh.
  - unfold holds_anchor in Hh. rewrite Hlen in Hh. apply andb_true_iff in Hh as [Hh H3%N.ltb_lt].
    apply andb_true_iff in Hh as [H1%N.eqb_eq H2%N.leb_le]. set (k := N.to_nat _).
    assert (k < length (units l))%nat as Hk by lia. destruct (lookup_lt_is_Some_2 _ _ Hk) as [u Hu]. rewrite Hu.
    cbn [fmap option_fmap option_map].
    assert (located l !! k = Some (a, u)) as Hl.
    { unfold located. rewrite list_lookup_imap, Hu. cbn. do 2 f_equal. destruct a. cbn in *. f_equal; [done|]. subst k. lia. }
    rewrite <-(take_drop_middle _ _ _ Hl), find_app. cbn [List.find]. unfold at_anchor at 2.
    cbn [fst]. rewrite bool_decide_true by done.
    assert (List.find (at_anchor a) (take k (located l)) = None) as ->; [|done].
    apply find_none_iff, Forall_lookup_2. intros i x Hx. apply lookup_take_Some in Hx as [Hx Hi].
    apply located_lookup in Hx as (_ & Hx & _). apply bool_decide_eq_false. intros Heq. rewrite Heq in Hx. subst k. lia.
  - apply find_none_iff, Forall_lookup_2. intros i x (H1 & H2 & H3)%located_lookup.
    apply bool_decide_eq_false. intros Heq. rewrite Heq in H1, H2. unfold holds_anchor in Hh. rewrite Hlen, H1, H2, N.eqb_refl in Hh.
    apply andb_false_iff in Hh as [Hh|Hh%N.ltb_ge]; [apply andb_false_iff in Hh as [Hh|Hh%N.leb_gt]; [done|lia]|lia].
Qed.

Definition resolution (x : option (HistoryAnchor * HistoryUnit)) (was_evicted : bool) : HistoryAnchorResolution :=
  match x with
  | Some (_, u) => match from_utf8 (u_utf8 u) with Some _ => Resolved (u_utf8 u) (u_width u) (u_style u) | None => Unavailable end
  | None => if was_evicted then Unavailable else Invalid
  end.

Lemma resolve_ok a h ls :
  entries h = Some ls → Forall line_fits ls →
  resolve_anchor a h =
  Some (resolution (List.find (at_anchor a) (ls ≫= located)) (line_was_evicted (a_line_id a) (evicted h))).
Proof.
  intros He Hf. unfold resolve_anchor. rewrite He. cbn [mbind option_bind]. f_equal. clear He.
  induction Hf as [|l ls Hl _ IH]; [done|]. cbn [List.find mbind list_bind]. rewrite find_app, find_located by done.
  destruct (holds_anchor a l) eqn:Hh; [|exact IH]. clear IH. unfold holds_anchor in Hh.
  apply andb_true_iff in Hh as [Hh H3%N.ltb_lt]. apply andb_true_iff in Hh as [_ H2%N.leb_le]. unfold checked_sub.
  apply N.leb_le in H2 as H2'. rewrite H2'. cbn [mbind option_bind].
  assert (N.to_nat (unit_offset a - start_offset l) < length (units l))%nat as Hk.
  { unfold as_u32 in H3. pose proof (N.Div0.mod_le (vlen (units l)) 4294967296). lia. }
  destruct (lookup_lt_is_Some_2 _ _ Hk) as [u ->]. cbn. by destruct (from_utf8 (u_utf8 u)).
Qed.

(** C30. An anchor is resolved by the unit that has its address: in a readable history the
    answer is that unit's text, width and style, or [Unavailable] when its bytes are not
    UTF-8; without such a unit it is [Unavailable] for an evicted line and [Invalid]
    otherwise.  It never panics. *)
Theorem resolve_anchor_exact (h : HistoryStore) (ls : list HistoryLine) (a : HistoryAnchor) :
  entries h = Some ls → Forall line_fits ls →
  resolve_anchor a h =
  Some (resolution (List.find (at_anchor a) (ls ≫= located)) (line_was_evicted (a_line_id a) (evicted h))).
Proof. apply resolve_ok. Qed.

(** * Ranges *)

Definition views (ls : list HistoryLine) : list HistoryUnitView := ls ≫= line_views.

Definition id_between (start end_ : LineId) (v : HistoryUnitView) : bool :=
  (start <=? a_line_id (uv_anchor v)) && (a_line_id (uv_anchor v) <=? end_).

Definition anchor_between (start end_ : HistoryAnchor) (v : HistoryUnitView) : bool :=
  anchor_le start (uv_anchor v) && anchor_le (uv_anchor v) end_.

Lemma line_views_id l : Forall (λ v, a_line_id (uv_anchor v) = line_id l) (line_views l).
Proof.
  apply Forall_lookup_2. intros i v. unfold line_views. rewrite list_lookup_imap. intros (u & _ & ->)%fmap_Some. done.
Qed.

Lemma filter_views_all l (f : HistoryUnitView → bool) b :
  (∀ v, a_line_id (uv_anchor v) = line_id l → f v = b) → List.filter f (line_views l) = if b then line_views l else [].
Proof.
  intros Hf. destruct b; [apply filter_all|apply filter_none]; eapply Forall_impl; try apply line_views_id; auto.
Qed.

Lemma filter_views_none ls (f : HistoryUnitView → bool) :
  (∀ l v, l ∈ ls → a_line_id (uv_anchor v) = line_id l → f v = false) → List.filter f (views ls) = [].
Proof.
  intros Hf. unfold views. induction ls as [|l ls IH]; [done|]. cbn [mbind list_bind]. rewrite List.filter_app.
  rewrite (filter_views_all l f false) by (intros v Hv; eapply Hf; [apply elem_of_cons; by left|exact Hv]).
  apply IH. intros l' v Hl'. apply Hf, elem_of_cons. by right.
Qed.

Lemma push_views_ok max_units vs acc :
  vlen acc < max_units →
  push_views max_units vs acc = (take (N.to_nat max_units) (acc ++ vs), max_units <=? vlen acc + vlen vs).
Proof.
  revert acc. induction vs as [|v vs IH]; intros acc Ha; cbn [push_views].
  { rewrite app_nil_r, take_ge by lia. cbn [length]. f_equal. symmetry. apply N.leb_gt. lia. }
  rewrite length_app. cbn [length]. destruct (N.leb_spec max_units (N.of_nat (length acc + 1))).
  - replace (max_units <=? vlen acc + N.of_nat (S (length vs))) with true by (symmetry; apply N.leb_le; lia).
    f_equal. replace (acc ++ v :: vs) with ((acc ++ [v]) ++ vs) by (by rewrite <-app_assoc).
    rewrite take_app_length'; [done|]. rewrite length_app. cbn. lia.
  - rewrite IH by (rewrite length_app; cbn; lia). rewrite <-app_assoc. cbn [app]. f_equal.
    rewrite length_app. cbn [length]. f_equal. lia.
Qed.

(** The lines a range query looks at: those before the first one behind the range. *)
Fixpoint lines_until (end_ : LineId) (ls : list HistoryLine) : list HistoryLine :=
  match ls with
  | [] => []
  | l :: ls => if end_ <? line_id l then [] else l :: lines_until end_ ls
  end.

(** In order, these are all the lines of the range. *)
Lemma lines_until_ordered end_ ls (f : HistoryUnitView → bool) :
  StronglySorted N.le (line_id <$> ls) → (∀ v, end_ < a_line_id (uv_anchor v) → f v = false) →
  List.filter f (views (lines_until end_ ls)) = List.filter f (views ls).
Proof.
  intros Hs Hf. induction ls as [|l ls IH]; [done|]. cbn [fmap list_fmap lines_until] in *. apply StronglySorted_cons in Hs as [Hl Hs].
  destruct (N.ltb_spec end_ (line_id l)) as [Hlt|Hge].
  - symmetry. apply (filter_views_none (l :: ls)). intros l' v Hin Hv. apply Hf. rewrite Hv.
    apply elem_of_cons in Hin as [->|Hin]; [done|]. rewrite Forall_fmap, Forall_forall in Hl. specialize (Hl l' Hin). cbn in Hl. lia.
  - unfold views. cbn [mbind list_bind]. rewrite !List.filter_app. f_equal. by apply IH.
Qed.

Lemma source_loop_ok start end_ max_units ls acc :
  start ≤ end_ → vlen acc < max_units →
  source_loop start end_ max_units ls acc =
  take (N.to_nat max_units) (acc ++ List.filter (id_between start end_) (views (lines_until end_ ls))).
Proof.
  intros Hse. revert acc. induction ls as [|l ls IH]; intros acc Ha; cbn [source_loop lines_until].
  { cbn. rewrite app_nil_r, take_ge by lia. done. }
  destruct (N.ltb_spec (line_id l) start) as [Hlt|Hge].
  { replace (end_ <? line_id l) with false by (symmetry; apply N.ltb_ge; lia). unfold views. cbn [mbind list_bind].
    rewrite List.filter_app, (filter_views_all l _ false); [by apply IH|]. intros v Hv. unfold id_between. rewrite Hv.
    apply andb_false_iff. left. by apply N.leb_gt. }
  destruct (N.ltb_spec end_ (line_id l)); [cbn; by rewrite app_nil_r, take_ge by lia|].
  unfold views. cbn [mbind list_bind]. rewrite List.filter_app. change (list_bind _ _ line_views ?x) with (views x).
  rewrite (filter_views_all l _ true).
  2: { intros v Hv. unfold id_between. rewrite Hv. apply andb_true_iff. split; by apply N.leb_le. }
  rewrite push_views_ok by done. rewrite app_assoc.
  destruct (N.leb_spec max_units (vlen acc + vlen (line_views l))) as [Hm|Hm].
  - symmetry. apply take_app_le. rewrite length_app. lia.
  - rewrite take_ge by (rewrite length_app; lia). apply IH. rewrite length_app. lia.
Qed.

Definition capped (vs : list HistoryUnitView) : option (list HistoryUnitView) :=
  if vlen vs <=? HISTORY_SELECTION_UNIT_CAP then Some vs else None.

Lemma select_units_ok start end_ vs selected :
  vlen selected ≤ HISTORY_SELECTION_UNIT_CAP →
  select_units start end_ vs selected = capped (selected ++ List.filter (anchor_between start end_) vs).
Proof.
  unfold capped. revert selected. induction vs as [|v vs IH]; intros selected Hs; cbn [select_units List.filter].
  { rewrite app_nil_r. by apply N.leb_le in Hs as ->. }
  fold (anchor_between start end_ v). destruct (anchor_between start end_ v); [|by apply IH].
  destruct (N.leb_spec HISTORY_SELECTION_UNIT_CAP (vlen selected)) as [Hge|Hlt].
  - rewrite length_app. cbn [length].
    destruct (N.leb_spec (N.of_nat (length selected + S (length (List.filter (anchor_between start end_) vs)))) HISTORY_SELECTION_UNIT_CAP);
      [lia|done].
  - rewrite IH by (rewrite length_app; cbn [length]; lia). by rewrite <-app_assoc.
Qed.

Lemma capped_app vs vs' : capped vs = None → capped (vs ++ vs') = None.
Proof.
  unfold capped. rewrite length_app. destruct (N.leb_spec (vlen vs) HISTORY_SELECTION_UNIT_CAP); [done|]. intros _.
  destruct (N.leb_spec (N.of_nat (length vs + length vs')) HISTORY_SELECTION_UNIT_CAP); [lia|done].
Qed.

Lemma anchor_le_ids a b : anchor_le a b = true → a_line_id a ≤ a_line_id b.
Proof.
  unfold anchor_le. intros Hab.
  repeat match type of Hab with
  | context [N.ltb ?x ?y] => destruct (N.ltb_spec x y)
  | context [N.eqb ?x ?y] => destruct (N.eqb_spec x y)
  | context [N.leb ?x ?y] => destruct (N.leb_spec x y)
  end; cbn in Hab; try done; lia.
Qed.

Lemma anchor_between_ids start end_ v :
  anchor_between start end_ v = true →
  a_line_id start ≤ a_line_id (uv_anchor v) ∧ a_line_id (uv_anchor v) ≤ a_line_id end_.
Proof. intros [H1%anchor_le_ids H2%anchor_le_ids]%andb_true_iff. done. Qed.

Lemma select_lines_ok start end_ ls selected :
  a_line_id start ≤ a_line_id end_ → vlen selected ≤ HISTORY_SELECTION_UNIT_CAP →
  select_lines start end_ ls selected =
  capped (selected ++ List.filter (anchor_between start end_) (views (lines_until (a_line_id end_) ls))).
Proof.
  intros Hse. revert selected. induction ls as [|l ls IH]; intros selected Hc; cbn [select_lines lines_until].
  { cbn. rewrite app_nil_r. unfold capped. by apply N.leb_le in Hc as ->. }
  destruct (N.ltb_spec (line_id l) (a_line_id start)) as [Hlt|Hge].
  { replace (a_line_id end_ <? line_id l) with false by (symmetry; apply N.ltb_ge; lia). unfold views. cbn [mbind list_bind].
    rewrite List.filter_app, (filter_views_all l _ false); [by apply IH|]. intros v Hv. apply not_true_iff_false.
    intros [H1 _]%anchor_between_ids. lia. }
  destruct (N.ltb_spec (a_line_id end_) (line_id l)).
  { cbn. rewrite app_nil_r. unfold capped. by apply N.leb_le in Hc as ->. }
  unfold views. cbn [mbind list_bind]. rewrite List.filter_app. change (list_bind _ _ line_views ?x) with (views x).
  rewrite select_units_ok by done. rewrite app_assoc. destruct (capped (selected ++ _)) as [vs|] eqn:Hcap; cbn [mbind option_bind].
  - unfold capped in Hcap. destruct (N.leb_spec (vlen (selected ++ List.filter (anchor_between start end_) (line_views l)))
      HISTORY_SELECTION_UNIT_CAP) as [Hle|]; [|done]. injection Hcap as <-. by apply IH.
  - symmetry. by apply capped_app.
Qed.

(** What [selection] answers for the units it finds. *)
Definition selection_result (stale : bool) (selected : list HistoryUnitView) : result HistoryRangeError (list HistoryUnitView) :=
  if stale then Err Stale
  else if HISTORY_SELECTION_UNIT_CAP <? vlen selected then Err Unrepresentable
  else if bool_decide (selected = []) then Err Stale else Ok selected.

(** C31. Range queries, on every history reached by appends, cuts, replacements, evictions and
    cache drops.  [source_units] returns the first units whose line lies in the range, and
    [selection] the units between the two anchors, among the lines before the first one whose
    identity is behind the end of the range; when identities are in order these are all the
    units in range, so that nothing is missed.  A selection is refused as unrepresentable
    exactly when its ends are swapped, or it is not stale and finds more units than the cap; as
    stale exactly when its ends are in order and the range contains an identity reported as
    evicted, or nothing is found.  No query panics. *)
Theorem history_ranges_exact `{Memory} (h : HistoryStore) (ls : list HistoryLine) :
  reached h → entries h = Some ls →
  (∀ start end_ max_units,
     source_units start end_ max_units h =
     Some (take (N.to_nat max_units) (List.filter (id_between start end_) (views (lines_until end_ ls))))) ∧
  (∀ start end_, anchor_le start end_ = false → selection start end_ h = Some (Err Unrepresentable)) ∧
  (∀ start end_, anchor_le start end_ = true →
     ∃ stale, (stale = true ↔ ∃ id, a_line_id start ≤ id ∧ id ≤ a_line_id end_ ∧ line_was_evicted id (evicted h) = true) ∧
       selection start end_ h =
       Some (selection_result stale (List.filter (anchor_between start end_) (views (lines_until (a_line_id end_) ls))))) ∧
  (StronglySorted N.le (line_id <$> ls) →
     (∀ start end_, List.filter (id_between start end_) (views (lines_until end_ ls))
                    = List.filter (id_between start end_) (views ls)) ∧
     (∀ start end_, List.filter (anchor_between start end_) (views (lines_until (a_line_id end_) ls))
                    = List.filter (anchor_between start end_) (views ls))).
Proof.
  intros (ls0 & _ & _ & ids & Hev & _)%reached_sound He. split_and!.
  - intros start end_ m. unfold source_units. rewrite He. cbn [mbind option_bind]. f_equal.
    destruct (N.eqb_spec m 0) as [->|Hm]; [done|]. cbn [orb]. destruct (N.ltb_spec end_ start).
    + rewrite filter_views_none; [by rewrite take_nil|]. intros l v _ Hv. unfold id_between.
      apply andb_false_iff. rewrite !N.leb_gt. lia.
    + rewrite source_loop_ok; [done|done|cbn; lia].
  - intros start end_ Hle. unfold selection. by rewrite Hle.
  - intros start end_ Hle. pose proof (anchor_le_ids _ _ Hle) as Hids.
    destruct (range_intersects_ok (a_line_id start) (a_line_id end_) (evicted h) Hev Hids) as (stale & Hr & Hiff).
    exists stale. split; [done|]. unfold selection, selection_result. rewrite Hle, Hr. cbn [negb mbind option_bind].
    destruct stale; [done|]. rewrite He. cbn [mbind option_bind]. f_equal.
    rewrite select_lines_ok; [|done|cbn; unfold HISTORY_SELECTION_UNIT_CAP; lia]. cbn [app]. unfold capped.
    set (sel := List.filter _ _). destruct (N.leb_spec (vlen sel) HISTORY_SELECTION_UNIT_CAP) as [Hc|Hc].
    + apply N.ltb_ge in Hc as ->. destruct sel; [by rewrite bool_decide_true|by rewrite bool_decide_false].
    + by apply N.ltb_lt in Hc as ->.
  - intros Hord. split; intros start end_; (apply lines_until_ordered; [done|]); intros v Hv.
    + apply andb_false_iff. right. by apply N.leb_gt.
    + apply not_true_iff_false. intros [_ ?]%anchor_between_ids. lia.
Qed.

(** * Search *)

(** The match that ends with a paragraph's last unit: its last [n] units spell the needle. *)
Definition last_units (n : N) (p : list HistoryUnitView) : list HistoryUnitView := drop (length p - N.to_nat n) p.

Definition match_at_end (needle : list N) (n : N) (p : list HistoryUnitView) : option HistoryMatch :=
  let w := last_units n p in
  if bool_decide (window_text w = needle) then
    first ← head w; last ← last w; Some (mkMatch (uv_anchor first) (uv_anchor last))
  else None.

(** All matches of a paragraph that end in [vs], after the units [p]. *)
Fixpoint matches_in (needle : list N) (n : N) (p vs : list HistoryUnitView) : list HistoryMatch :=
  match vs with
  | [] => []
  | v :: vs =>
    let p := p ++ [v] in
    match match_at_end needle n p with Some m => [m] | None => [] end ++ matches_in needle n p vs
  end.

Fixpoint view_paragraphs (joined : list HistoryUnitView) (ls : list HistoryLine) : list (list HistoryUnitView) :=
  match ls with
  | [] => [joined]
  | l :: ls =>
    match break_after l with
    | SoftWrap => view_paragraphs (joined ++ line_views l) ls
    | HardBreak => (joined ++ line_views l) :: view_paragraphs [] ls
    end
  end.

Lemma utf8_bytes_nonempty text : text ≠ [] → utf8_bytes text ≠ [].
Proof.
  destruct text as [|c text]; [done|]. intros _. cbn [utf8_bytes mbind list_bind]. unfold encode_utf8.
  repeat case_match; done.
Qed.

Lemma slide_last n p v : slide n (last_units n p) v = last_units n (p ++ [v]).
Proof.
  unfold slide, last_units. set (k := (length p - N.to_nat n)%nat).
  rewrite !length_app, length_drop. cbn [length].
  destruct (decide (N.to_nat n ≤ length p)%nat) as [Hle|Hgt].
  - replace (length p - k + 1 - N.to_nat n)%nat with 1%nat by (subst k; lia).
    replace (length p + 1 - N.to_nat n)%nat with (k + 1)%nat by (subst k; lia).
    rewrite <-drop_drop. f_equal. symmetry. apply drop_app_le. subst k. lia.
  - replace k with 0%nat by (subst k; lia). rewrite drop_0. f_equal. lia.
Qed.

Lemma window_match_ends w : window_match w = (first ← head w; last ← last w; Some (mkMatch (uv_anchor first) (uv_anchor last))).
Proof.
  unfold window_match, vget, checked_sub. destruct w as [|v w]; [done|]. cbn [lookup list_lookup N.to_nat head mbind option_bind].
  replace (1 <=? vlen (v :: w)) with true by (symmetry; apply N.leb_le; cbn [length]; lia). cbn [mbind option_bind].
  rewrite last_lookup. replace (N.to_nat (vlen (v :: w) - 1)) with (Nat.pred (length (v :: w))) by (cbn [length]; lia). done.
Qed.

Section search.
Variables (needle : list N) (n max_matches : N).
Hypothesis (Hneedle : needle ≠ []).

Lemma matched_window w : window_text w = needle → ∃ m, window_match w = Some m.
Proof.
  intros Hw. rewrite window_match_ends. destruct w as [|v w]; [by destruct Hneedle|].
  destruct (exists_last (l := v :: w) ltac:(done)) as (xs & y & Hxy). cbn [head mbind option_bind]. rewrite Hxy, last_snoc. by eexists.
Qed.

Lemma search_units_ok vs p matches :
  vlen matches < max_matches →
  let found := matches ++ matches_in needle n p vs in
  ∃ w, search_units needle n max_matches vs (last_units n p) matches =
       Some (w, take (N.to_nat max_matches) found, max_matches <=? vlen found) ∧
       (vlen found < max_matches → w = last_units n (p ++ vs)).
Proof.
  revert p matches. induction vs as [|v vs IH]; intros p matches Hm found; subst found; cbn [search_units matches_in].
  { rewrite !app_nil_r, take_ge by lia. apply N.leb_gt in Hm as ->. by eexists. }
  rewrite slide_last. unfold match_at_end. rewrite <-!window_match_ends. case_bool_decide as Hw.
  2: { destruct (IH (p ++ [v]) matches Hm) as (w & -> & Hend). exists w. rewrite <-(app_assoc p) in Hend. done. }
  destruct (matched_window _ Hw) as [m Hwm]. rewrite Hwm. cbn [mbind option_bind app].
  replace (matches ++ m :: matches_in needle n (p ++ [v]) vs) with ((matches ++ [m]) ++ matches_in needle n (p ++ [v]) vs)
    by (by rewrite <-app_assoc).
  destruct (N.leb_spec max_matches (vlen (matches ++ [m]))) as [Hge|Hlt].
  - rewrite length_app in Hge. cbn [length] in Hge. eexists. split.
    + rewrite take_app_length' by (rewrite length_app; cbn [length]; lia). do 2 f_equal. symmetry. apply N.leb_le.
      rewrite !length_app. cbn [length]. lia.
    + rewrite !length_app. cbn [length]. lia.
  - destruct (IH (p ++ [v]) (matches ++ [m]) Hlt) as (w & -> & Hend). exists w. rewrite <-(app_assoc p) in Hend. done.
Qed.

Lemma matches_in_app p vs vs' : matches_in needle n p (vs ++ vs') = matches_in needle n p vs ++ matches_in needle n (p ++ vs) vs'.
Proof.
  revert p. induction vs as [|v vs IH]; intros p; [by rewrite app_nil_r|]. cbn [matches_in app].
  rewrite IH, <-(app_assoc p). by rewrite app_assoc.
Qed.

Lemma search_lines_ok ls p matches :
  vlen matches < max_matches →
  search_lines needle n max_matches ls (last_units n p) matches =
  Some (take (N.to_nat max_matches) (matches ++
    match view_paragraphs [] ls with
    | [] => []
    | q :: qs => matches_in needle n p q ++ (qs ≫= matches_in needle n [])
    end)).
Proof.
  revert p matches. induction ls as [|l ls IH]; intros p matches Hm; cbn [search_lines view_paragraphs].
  { cbn. rewrite !app_nil_r, take_ge by lia. done. }
  destruct (search_units_ok (line_views l) p matches Hm) as (w & -> & Hend). cbn [mbind option_bind].
  set (found := matches ++ matches_in needle n p (line_views l)) in *.
  assert (∀ more, max_matches ≤ vlen found → take (N.to_nat max_matches) found = take (N.to_nat max_matches) (found ++ more)) as Hfull.
  { intros more Hge. rewrite take_app_le; [done|lia]. }
  assert (∀ j ls, ∃ q qs, view_paragraphs j ls = (j ++ q) :: qs ∧ view_paragraphs [] ls = q :: qs) as Hsplit.
  { clear. intros j ls. revert j. induction ls as [|l ls IH]; intros j; cbn [view_paragraphs].
    - exists [], []. by rewrite app_nil_r.
    - destruct (break_after l); [by exists (line_views l), (view_paragraphs [] ls)|].
      destruct (IH (j ++ line_views l)) as (q & qs & H1 & H2). destruct (IH (line_views l)) as (q' & qs' & H1' & H2').
      rewrite H2 in H2'. injection H2' as <- <-. exists (line_views l ++ q), qs. rewrite H1. change ([] ++ line_views l) with (line_views l). rewrite H1'. by rewrite <-app_assoc. }
  destruct (N.leb_spec max_matches (vlen found)) as [Hge|Hlt].
  - f_equal. destruct (break_after l).
    + cbn [app]. rewrite app_assoc. by apply Hfull.
    + destruct (Hsplit ([] ++ line_views l) ls) as (q & qs & -> & _). cbn [app]. rewrite matches_in_app, !app_assoc. fold found.
      rewrite <-app_assoc. by apply Hfull.
  - rewrite take_ge by lia. rewrite (Hend Hlt). destruct (break_after l).
    + change [] with (last_units n []) at 1. rewrite IH by done. do 2 f_equal. cbn [app]. subst found. rewrite <-!app_assoc. do 2 f_equal.
      by destruct (view_paragraphs [] ls).
    + rewrite IH by done. destruct (Hsplit ([] ++ line_views l) ls) as (q & qs & -> & ->). cbn [app].
      do 2 f_equal. subst found. rewrite matches_in_app, <-!app_assoc. done.
Qed.
End search.

(** C32. Search is exact.  It returns, in order and up to the limit, one match for every unit
    of a paragraph that ends an occurrence of the needle: where the last units of the
    paragraph up to there, as many as the needle has graphemes, spell it.  Occurrences cross
    soft wraps and never hard breaks, and the search never panics. *)
Theorem search_exact `{UnicodeTables} (needle : list N) (max_matches : N) (h : HistoryStore) (ls : list HistoryLine) :
  entries h = Some ls → needle ≠ [] →
  search needle max_matches h =
  Some (take (N.to_nat max_matches)
    (view_paragraphs [] ls ≫= matches_in (utf8_bytes needle) (grapheme_count needle) [])).
Proof.
  intros He Hn. unfold search. rewrite He. cbn [mbind option_bind]. rewrite bool_decide_false by done. cbn [orb].
  destruct (N.eqb_spec max_matches 0) as [->|Hm]; [done|].
  change [] with (last_units (grapheme_count needle) []) at 1. rewrite search_lines_ok; [|by apply utf8_bytes_nonempty|cbn; lia].
  do 2 f_equal. cbn [app]. by destruct (view_paragraphs [] ls).
Qed.

(** * From append to query *)

Lemma cut_into_located id brk offset us fs :
  cut_into id brk offset us fs → fs ≫= located = located (mkLine id us brk offset).
Proof.
  induction 1 as [offset us|offset us us' fs _ _ IH]; [apply app_nil_r|]. cbn [mbind list_bind].
  change (list_bind _ _ located fs) with (fs ≫= located). rewrite IH. unfold located. cbn [line_id units start_offset].
  rewrite imap_app. f_equal. apply imap_ext. intros i u _. cbn. do 2 f_equal. lia.
Qed.

Lemma pieces_located ls fss : Forall2 pieces_of ls fss → mjoin fss ≫= located = ls ≫= located.
Proof.
  induction 1 as [|l fs ls fss Hp _ IH]; [done|]. cbn [mjoin list_join]. rewrite bind_app. cbn [mbind list_bind].
  rewrite (cut_into_located _ _ _ _ _ Hp : fs ≫= located = _). destruct l. f_equal. exact IH.
Qed.

(** In source order no two units share an address. *)
Lemma located_unique ls x y :
  source_ordered ls → x ∈ ls ≫= located → y ∈ ls ≫= located → x.1 = y.1 → x = y.
Proof.
  intros Hs. induction ls as [|l ls IH]; [by intros ?%not_elem_of_nil|]. apply StronglySorted_cons in Hs as [Hl Hs].
  assert (∀ x y, x ∈ located l → y ∈ ls ≫= located → x.1 ≠ y.1) as Hdiff.
  { intros x0 y0 Hx (l' & Hy & Hl')%list_elem_of_bind Heq. rewrite Forall_forall in Hl. specialize (Hl l' Hl').
    apply list_elem_of_lookup_1 in Hx as [i Hx]. apply list_elem_of_lookup_1 in Hy as [j Hy].
    apply located_lookup in Hx as (H1 & H2 & H3). apply located_lookup in Hy as (H4 & H5 & _).
    rewrite Heq in H1, H2. destruct Hl as [Hl|[Hl1 Hl2]]; [rewrite <-H1, <-H4 in Hl; lia|]. lia. }
  cbn [mbind list_bind]. intros [Hx|Hx]%elem_of_app [Hy|Hy]%elem_of_app Heq.
  - apply list_elem_of_lookup_1 in Hx as [i Hx]. apply list_elem_of_lookup_1 in Hy as [j Hy].
    assert (i = j) as ->; [|congruence]. apply located_lookup in Hx as (_ & H2 & _). apply located_lookup in Hy as (_ & H5 & _).
    rewrite Heq in H2. lia.
  - by destruct (Hdiff x y Hx Hy).
  - by destruct (Hdiff y x Hy Hx).
  - by apply IH.
Qed.

Lemma ordered_ids ls : source_ordered ls → StronglySorted N.le (line_id <$> ls).
Proof.
  induction 1 as [|l ls _ IH Hl]; [constructor|]. cbn [fmap list_fmap]. apply StronglySorted_cons. split; [|done].
  apply Forall_fmap. eapply Forall_impl; [exact Hl|]. intros l' [|[-> _]]; cbn; lia.
Qed.

Lemma find_unique a u (xs : list (HistoryAnchor * HistoryUnit)) :
  (a, u) ∈ xs → (∀ y, y ∈ xs → y.1 = a → y = (a, u)) → List.find (at_anchor a) xs = Some (a, u).
Proof.
  intros Hin Hu. destruct (List.find (at_anchor a) xs) as [y|] eqn:Hf.
  - apply find_some in Hf as [Hy%list_elem_of_In Ha%bool_decide_eq_true]. f_equal. by apply Hu.
  - rewrite find_none_iff, Forall_forall in Hf. specialize (Hf _ Hin). apply bool_decide_eq_false in Hf. by destruct Hf.
Qed.

(** C33. No appended unit is ever lost silently.  After appending lines in source order to an
    empty history, the address of every unit of every line resolves to exactly that unit, or
    is reported unavailable because the eviction index holds its line; and as long as the
    index is not saturated, an address on a line that was never appended is invalid.  This
    composes storage, sealing, fragmenting, eviction, the eviction index and resolution. *)
Theorem appended_units_resolve `{Memory} (ls : list HistoryLine) :
  Forall line_sound ls → source_ordered ls → Forall (λ l, line_id l ≤ u64_max) ls →
  ∃ h, append_lines ls store_default = Some h ∧
    (∀ a u, (a, u) ∈ ls ≫= located → is_Some (from_utf8 (u_utf8 u)) →
       resolve_anchor a h = Some (Resolved (u_utf8 u) (u_width u) (u_style u)) ∨
       resolve_anchor a h = Some Unavailable ∧ line_was_evicted (a_line_id a) (evicted h) = true) ∧
    (evicted_index_saturated (evicted h) = false →
     ∀ a, a_line_id a ∉ line_id <$> ls → resolve_anchor a h = Some Invalid).
Proof.
  intros Hls Hord Hm. destruct (append_lines_ok ls store_default [] Hls) as (h & fss & ds & kept & Ha & Hf & Heq & Hok & Ht & _).
  { exists [], []. split_and!; [done|apply store_default_ok|apply index_takes_nil|by right]. }
  cbn [app] in Heq. pose proof (pieces_located ls fss Hf) as Hloc. rewrite Heq, bind_app in Hloc.
  destruct (fragments_sorted ls fss Hf (ordered_ids ls Hord)) as [Hs Hin]. rewrite Heq, fmap_app in Hs, Hin.
  assert (Forall (λ id, id ≤ u64_max) (line_id <$> ds)) as Hmax.
  { apply Forall_forall. intros id Hid. destruct (list_elem_of_fmap_1 line_id ls id) as (l & -> & Hl).
    { apply Hin, elem_of_app. by left. } rewrite Forall_forall in Hm. by apply Hm. }
  apply StronglySorted_app in Hs as (_ & Hs & _).
  destruct (Ht [] index_default_holds) as (_ & _ & H1 & H2); [done|].
  cbn [app] in H1, H2. exists h. split_and!; [done| |].
  - intros a u Hau [t Hutf]. rewrite (resolve_ok a h kept) by apply Hok.
    assert (∀ y, y ∈ kept ≫= located → y.1 = a → y = (a, u)) as Huniq.
    { intros y Hy Hya. apply (located_unique ls); [done| |done|done]. rewrite <-Hloc. apply elem_of_app. by right. }
    rewrite <-Hloc in Hau. apply elem_of_app in Hau as [Hau|Hau].
    + assert (line_was_evicted (a_line_id a) (evicted h) = true) as Hev.
      { apply H1, new_maximum_sorted; [done|]. apply list_elem_of_bind in Hau as (l & Hl & Hd). apply list_elem_of_fmap. exists l. split; [|done].
        apply list_elem_of_lookup_1 in Hl as [i Hl]. by apply located_lookup in Hl as (? & _). }
      destruct (List.find (at_anchor a) (kept ≫= located)) as [y|] eqn:Hfind.
      * left. apply find_some in Hfind as [Hy%list_elem_of_In Hya%bool_decide_eq_true].
        rewrite (Huniq y Hy Hya). cbn [resolution]. by rewrite Hutf.
      * right. cbn [resolution]. by rewrite Hev.
    + left. rewrite (find_unique a u) by done. cbn [resolution]. by rewrite Hutf.
  - intros Hns a Hno. rewrite (resolve_ok a h kept) by apply Hok.
    assert (∀ (xs : list HistoryLine) l y, l ∈ xs → y ∈ located l → y.1 = a → (∀ id, id ∈ line_id <$> xs → id ∈ line_id <$> ls) → False) as Habs.
    { intros xs l y Hl Hy Hya Hsub. apply Hno, Hsub. apply list_elem_of_fmap. exists l. split; [|done].
      apply list_elem_of_lookup_1 in Hy as [i Hy]. apply located_lookup in Hy as (Hy & _). by rewrite <-Hy, Hya. }
    assert (List.find (at_anchor a) (kept ≫= located) = None) as ->.
    { apply find_none_iff, Forall_forall. intros y (l & Hy & Hl)%list_elem_of_bind. apply bool_decide_eq_false. intros Hya.
      apply (Habs kept l y Hl Hy Hya). intros id Hid. apply Hin, elem_of_app. by right. }
    cbn [resolution]. destruct (line_was_evicted (a_line_id a) (evicted h)) eqn:Hev; [|done].
    destruct Hno. apply Hin, elem_of_app. left. by apply new_maximum_elem, H2.
Qed.

(** ** The claims on concrete histories *)

Definition demo_query_lines : list HistoryLine :=
  [ mkLine 1 [mkUnit [104] 1 style_default; mkUnit [105] 1 style_default] SoftWrap 0;
    mkLine 2 [mkUnit [195; 169] 1 style_default] HardBreak 0 ].
Definition demo_query_store : HistoryStore :=
  default store_default (@append_lines exact_memory demo_query_lines store_default).

Lemma demo_query_sound : Forall line_sound demo_query_lines.
Proof. repeat constructor; done. Qed.
Lemma demo_query_fits : Forall line_fits demo_query_lines.
Proof. repeat constructor; done. Qed.
Lemma demo_query_ordered : source_ordered demo_query_lines.
Proof. repeat constructor; cbn; lia. Qed.

Lemma resolve_anchor_exact_witness :
  resolve_anchor (mkAnchor 2 0) demo_query_store = Some (Resolved [195; 169] 1 style_default).
Proof.
  rewrite (resolve_anchor_exact demo_query_store demo_query_lines (mkAnchor 2 0)); [|vm_compute; reflexivity|apply demo_query_fits].
  vm_compute. reflexivity.
Defined.

Lemma demo_query_reached : @reached exact_memory demo_query_store.
Proof.
  eapply (reached_append (mkLine 2 [mkUnit [195; 169] 1 style_default] HardBreak 0)).
  - eapply (reached_append (mkLine 1 [mkUnit [104] 1 style_default; mkUnit [105] 1 style_default] SoftWrap 0)).
    + constructor.
    + repeat constructor; done.
    + done.
    + vm_compute. reflexivity.
  - repeat constructor; done.
  - done.
  - vm_compute. reflexivity.
Qed.

Lemma history_ranges_exact_witness :
  source_units 1 1 9 demo_query_store =
    Some (line_views (mkLine 1 [mkUnit [104] 1 style_default; mkUnit [105] 1 style_default] SoftWrap 0)) ∧
  (∃ stale, selection (mkAnchor 1 1) (mkAnchor 2 0) demo_query_store =
    Some (selection_result stale (List.filter (anchor_between (mkAnchor 1 1) (mkAnchor 2 0)) (views demo_query_lines)))).
Proof.
  destruct (@history_ranges_exact exact_memory demo_query_store demo_query_lines) as (Hs & _ & Hsel & Hord);
    [apply demo_query_reached|vm_compute; reflexivity|]. split.
  - rewrite (Hs 1 1 9). vm_compute. reflexivity.
  - destruct (Hsel (mkAnchor 1 1) (mkAnchor 2 0)) as (stale & _ & H2); [reflexivity|]. exists stale. rewrite H2. reflexivity.
Defined.

(** Line 9 stands before line 3, as after a reverse index: the units of line 3 are not found. *)
Example unordered_range_stops :
  source_units 1 5 9 (default store_default (@append_lines exact_memory
    [mkLine 9 [mkUnit [104] 1 style_default] HardBreak 0; mkLine 3 [mkUnit [105] 1 style_default] HardBreak 0] store_default))
  = Some [].
Proof. vm_compute. reflexivity. Qed.

Definition scalar_tables : UnicodeTables :=
  {| grapheme_count text := vlen text; char_width _ := Some 1; char_width_cjk _ := Some 1 |}.

Lemma search_exact_witness :
  @search scalar_tables [105; 233] 5 demo_query_store = Some [mkMatch (mkAnchor 1 1) (mkAnchor 2 0)].
Proof.
  rewrite (@search_exact scalar_tables [105; 233] 5 demo_query_store demo_query_lines); [|vm_compute; reflexivity|done].
  vm_compute. reflexivity.
Defined.

Lemma appended_units_resolve_witness :
  ∃ h, @append_lines exact_memory demo_query_lines store_default = Some h ∧
    (∀ a u, (a, u) ∈ demo_query_lines ≫= located → is_Some (from_utf8 (u_utf8 u)) →
       resolve_anchor a h = Some (Resolved (u_utf8 u) (u_width u) (u_style u)) ∨
       resolve_anchor a h = Some Unavailable ∧ line_was_evicted (a_line_id a) (evicted h) = true) ∧
    (evicted_index_saturated (evicted h) = false →
     ∀ a, a_line_id a ∉ line_id <$> demo_query_lines → resolve_anchor a h = Some Invalid).
Proof.
  apply (@appended_units_resolve exact_memory demo_query_lines);
    [apply demo_query_sound|apply demo_query_ordered|repeat constructor; done].
Defined.
