(* ===== verification/Mouse.v ===== *)
(** Mouse reports and the host override: [crates/seyal-terminal/src/mouse.rs].

    An SGR report is built in a fixed 32-byte buffer with the same digit writer as
    [ProtocolReply.v]; an X10 report is six bytes.  The theorems show that encoding never
    panics, that an SGR report reads back through the parser as the report that was meant,
    and that a gesture the host latched stays with the host until its release. *)

From S2P Require Import Prelude Utf8 Parser ParserSyntax ProtocolReply Types Selection.

Definition MAX_REPORT_BYTES : N := 32.
Definition X10_COORD_MAX : N := 223.

Inductive MouseEventKind := Press | Release | Move | Wheel.
#[global] Instance MouseEventKind_eq_dec : EqDecision MouseEventKind.
Proof. solve_decision. Defined.

Record MouseReport := mkReport {
  mr_kind : MouseEventKind; mr_button : N; mr_shift : bool; mr_alt : bool; mr_control : bool;
  mr_col : N; mr_row : N }.

Definition mouse_event_admitted (kind : MouseEventKind) (button : N) (modes : ModeState) : bool :=
  match mouse_reporting modes with
  | MouseOff => false
  | MouseButton => match kind with Press | Release | Wheel => true | Move => false end
  | MouseButtonDrag => match kind with Press | Release | Wheel => true | Move => button <=? 2 end
  | MouseAny => true
  end.

Definition mouse_takes_host_override (reporting : MouseReporting) (shift : bool)
    (host_anchor : option VisualPos) (kind : MouseEventKind) : bool :=
  let host_latched :=
    match host_anchor, kind with
    | Some _, (Move | Release) => true
    | _, _ => false
    end in
  shift || bool_decide (reporting = MouseOff) || host_latched.

(** The selection to apply and the new latch. *)
Definition apply_host_mouse_gesture (host_anchor : option VisualPos) (kind : MouseEventKind)
    (cell : VisualPos) : option (VisualPos * VisualPos) * option VisualPos :=
  match kind with
  | Press => (Some (cell, cell), Some cell)
  | Move | Release =>
    ((λ anchor, (anchor, cell)) <$> host_anchor,
     if decide (kind = Release) then None else host_anchor)
  | Wheel => (None, host_anchor)
  end.

(** Where the runtime routes an event: the host's selection, or a report to the
    application. *)
Inductive routed := ToHost (selection : option (VisualPos * VisualPos)) | ToApplication.

Record HostMouse := mkHostMouse {
  hm_reporting : MouseReporting; hm_shift : bool; hm_kind : MouseEventKind; hm_cell : VisualPos }.

Definition route_mouse (host_anchor : option VisualPos) (e : HostMouse) : routed * option VisualPos :=
  if mouse_takes_host_override (hm_reporting e) (hm_shift e) host_anchor (hm_kind e) then
    let '(selection, host_anchor) := apply_host_mouse_gesture host_anchor (hm_kind e) (hm_cell e) in
    (ToHost selection, host_anchor)
  else (ToApplication, host_anchor).

Definition add_modifier (on : bool) (bit button : N) : option N :=
  if on then checked_add u8_max button bit else Some button.

Definition report_button (r : MouseReport) : option N :=
  b ← match mr_kind r with
      | Press | Release => if 2 <? mr_button r then None else Some (mr_button r)
      | Move =>
        base ← (if mr_button r <=? 2 then Some (mr_button r)
                else if mr_button r =? 3 then Some 3 else None);
        checked_add u8_max base 32
      | Wheel => if negb (inr 64 67 (mr_button r)) then None else Some (mr_button r)
      end;
  b ← add_modifier (mr_shift r) 4 b;
  b ← add_modifier (mr_alt r) 8 b;
  add_modifier (mr_control r) 16 b.

(** [Some(buf[..len].to_vec())] of what an encoder wrote; outer [None] is a panic. *)
Definition run_report (m : Enc (list N)) : option (option (list N)) :=
  match m (replicate (N.to_nat MAX_REPORT_BYTES) 0, 0) with
  | Ret bytes _ => Some (Some bytes)
  | Fail _ _ => Some None
  | Panic | NoFuel => None
  end.

Definition close_report : Enc (list N) :=
  let! len := gets snd in
  let! buf := gets fst in
  or_panic (vslice buf 0 len).

Definition encode_sgr (button c r : N) (release : bool) : option (option (list N)) := run_report (
  put 27 ;;; put 91 ;;; put 60 ;;;
  write_u16 button ;;;
  put 59 ;;;
  write_u16 c ;;;
  put 59 ;;;
  write_u16 r ;;;
  put (if release then 109 else 77) ;;;
  close_report).

(** The sums are [u8] sums, which panic above 255. *)
Definition encode_x10 (button c r : N) : option (option (list N)) :=
  if (X10_COORD_MAX <? c) || (X10_COORD_MAX <? r) then Some None
  else
    b ← checked_add u8_max 32 button;
    x ← checked_add u8_max 32 (c mod 256);
    y ← checked_add u8_max 32 (r mod 256);
    Some (Some [27; 91; 77; b; x; y]).

Definition encode_mouse_report (r : MouseReport) (modes : ModeState) : option (option (list N)) :=
  if negb (mouse_event_admitted (mr_kind r) (mr_button r) modes) then Some None
  else
    match report_button r, checked_add u16_max (mr_col r) 1, checked_add u16_max (mr_row r) 1 with
    | Some button, Some c, Some rr =>
      if mouse_sgr modes then encode_sgr button c rr (bool_decide (mr_kind r = Release))
      else
        x10 ← (if decide (mr_kind r = Release)
               then checked_add u8_max 3 (button - mr_button r) else Some button);
        encode_x10 x10 c rr
    | _, _, _ => Some None
    end.

(** * Correctness *)

(** A report of the host: a button byte and 16-bit coordinates. *)
Definition report_ok (r : MouseReport) : Prop :=
  mr_button r ≤ u8_max ∧ mr_col r ≤ u16_max ∧ mr_row r ≤ u16_max.

(** The button code of the protocol: the button (32 more for motion) and the modifiers. *)
Definition button_code (r : MouseReport) : N :=
  mr_button r + (if decide (mr_kind r = Move) then 32 else 0) +
  (if mr_shift r then 4 else 0) + (if mr_alt r then 8 else 0) + (if mr_control r then 16 else 0).

(** The buttons each kind of event can have. *)
Definition button_valid (r : MouseReport) : bool :=
  match mr_kind r with
  | Press | Release => mr_button r <=? 2
  | Move => mr_button r <=? 3
  | Wheel => inr 64 67 (mr_button r)
  end.

Lemma report_button_spec r :
  report_button r = if button_valid r then Some (button_code r) else None.
Proof.
  unfold report_button, button_valid, button_code, add_modifier, checked_add, inr, u8_max.
  destruct (mr_kind r), (mr_shift r), (mr_alt r), (mr_control r);
    rewrite ?decide_True, ?decide_False by done; simpl;
    repeat (case_match; simplify_option_eq; to_prop; try lia; try done); f_equal; lia.
Qed.

(** A parser that receives [bytes] makes exactly the call [e]. *)
Definition parses_as (bytes : list N) (e : event) : Prop :=
  ∀ p l, idle p → ∃ p', feed bytes (p, l) = Ret tt (p', l ++ [e]) ∧ idle p'.

Lemma wp_close_report bs Q F s :
  wrote MAX_REPORT_BYTES bs s → Q bs s → wp close_report Q F s.
Proof.
  destruct s as [buf len]. intros (Hb & Hl & Ht) HQ. unfold close_report. wp_run.
  simpl in *. assert (vlen bs ≤ MAX_REPORT_BYTES) as Hle.
  { rewrite <-Ht, length_take. lia. }
  apply wp_vslice; [lia..|]. intros data Hd. rewrite vslice_ok in Hd by lia. injection Hd as <-.
  subst len. by rewrite drop_0, N.sub_0_r, Nat2N.id, Ht.
Qed.

Ltac report_bound :=
  rewrite ?length_app, ?length_fmap; cbn [length]; unfold MAX_REPORT_BYTES; lia.

Lemma encode_sgr_parses button c r release :
  button ≤ u8_max → c ≤ u16_max → r ≤ u16_max →
  ∃ bytes, encode_sgr button c r release = Some (Some bytes) ∧
    parses_as bytes (EvCsi [button; c; r] (Some 60) false (if release then 109 else 77)).
Proof.
  intros Hb Hc Hr.
  assert (button ≤ u16_max) as Hb' by (unfold u8_max, u16_max in *; lia).
  set (final := if release then 109 else 77).
  assert (wp (put 27 ;;; put 91 ;;; put 60 ;;; write_u16 button ;;; put 59 ;;; write_u16 c ;;;
      put 59 ;;; write_u16 r ;;; put final ;;; close_report)
    (λ bs _, ∃ ds, Forall2 decimal [button; c; r] ds ∧ bs = csi_bytes (Some 60) ds [] final)
    (λ _ _, False) (replicate (N.to_nat MAX_REPORT_BYTES) 0, 0)) as Hw.
  { pose proof (wrote_nil MAX_REPORT_BYTES) as H0.
    repeat first
      [ apply wp_bind; eapply wp_put; [eassumption|report_bound|]; intros ? ?
      | apply wp_bind; eapply wp_write_u16; [eassumption|report_bound|done|]; intros ? ? ? ? ? ].
    eapply wp_close_report; [eassumption|].
    eexists [_; _; _]. split; [by eauto|]. unfold csi_bytes. cbn [join_params option_list].
    rewrite <-!app_assoc. cbn [app]. by rewrite <-app_assoc. }
  unfold encode_sgr, run_report, wp in *.
  destruct (bind _ _ _) as [bs s| | |]; [|done..]. destruct Hw as (ds & Hds & ->).
  eexists. split; [done|]. intros p l Hi.
  assert (csi_ok (Some 60) ds [] final) as Hok.
  { eapply csi_ok_values; [done|by intros ? [= <-]|constructor|]. unfold final. by destruct release. }
  rewrite feed_drive by (try apply Hi; by apply csi_bytes_ok).
  assert (csi_event (Some 60) ds [] final = EvCsi [button; c; r] (Some 60) false final) as <-.
  { apply (csi_event_values [button; c; r] ds (Some 60) [] final); [done|by repeat constructor|done]. }
  by apply drive_csi.
Qed.

(** The reasons not to report: the modes do not ask for the event, the button does not fit
    its kind, or the position cannot be expressed. *)
Definition unreported (r : MouseReport) (modes : ModeState) : Prop :=
  mouse_event_admitted (mr_kind r) (mr_button r) modes = false ∨ button_valid r = false ∨
  mr_col r = u16_max ∨ mr_row r = u16_max ∨
  (mouse_sgr modes = false ∧ (X10_COORD_MAX ≤ mr_col r ∨ X10_COORD_MAX ≤ mr_row r)).

Definition x10_code (r : MouseReport) : N :=
  if decide (mr_kind r = Release) then 3 + (button_code r - mr_button r) else button_code r.

(** C18. Mouse reporting never panics and says what happened: an SGR report reads back
    through the parser as one sequence carrying the button code with its modifiers and the
    1-based position, with the final byte of a press or of a release; an X10 report is the
    six bytes of the protocol; and no report is sent exactly when the modes do not ask for
    the event, the button is not one its kind can have, or the position does not fit. *)
Theorem mouse_reports_exact (r : MouseReport) (modes : ModeState) :
  report_ok r →
  match encode_mouse_report r modes with
  | None => False
  | Some None => unreported r modes
  | Some (Some bytes) =>
    ¬ unreported r modes ∧
    if mouse_sgr modes then
      parses_as bytes (EvCsi [button_code r; mr_col r + 1; mr_row r + 1] (Some 60) false
                         (if decide (mr_kind r = Release) then 109 else 77))
    else bytes = [27; 91; 77; 32 + x10_code r; 32 + (mr_col r + 1); 32 + (mr_row r + 1)]
  end.
Proof.
  intros (Hb & Hc & Hr). unfold encode_mouse_report, unreported. rewrite report_button_spec.
  destruct (mouse_event_admitted _ _ _) eqn:Ha; cbn [negb]; [|by left].
  destruct (button_valid r) eqn:Hv; [|by right; left].
  unfold checked_add at 1. destruct (_ <=? _) eqn:Hc1; to_prop; [|do 2 right; left; unfold u16_max in *; lia].
  unfold checked_add at 1. destruct (mr_row r + 1 <=? _) eqn:Hr1; to_prop; [|do 3 right; left; unfold u16_max in *; lia].
  assert (button_code r ≤ 95 ∧ button_code r - mr_button r ≤ 60) as [Hcode Hmod].
  { unfold button_valid, button_code, inr in *.
    destruct (mr_kind r); rewrite ?decide_True, ?decide_False by done; repeat case_match; to_prop; lia. }
  destruct (mouse_sgr modes) eqn:Hs.
  - destruct (encode_sgr_parses (button_code r) (mr_col r + 1) (mr_row r + 1)
      (bool_decide (mr_kind r = Release))) as (bytes & -> & Hp); [unfold u8_max; lia|done..|].
    split; [unfold u16_max in *; naive_solver lia|].
    destruct (decide (mr_kind r = Release)); [rewrite bool_decide_true in Hp by done|
      rewrite bool_decide_false in Hp by done]; exact Hp.
  - assert ((if decide (mr_kind r = Release) then checked_add u8_max 3 (button_code r - mr_button r)
             else Some (button_code r)) = Some (x10_code r) ∧ x10_code r ≤ 95) as [-> Hx].
    { unfold x10_code, checked_add, u8_max. case_decide; [|done].
      destruct (_ <=? _) eqn:?; to_prop; [split; [done|lia]|lia]. }
    cbn [mbind option_bind]. unfold encode_x10, X10_COORD_MAX, checked_add, u8_max.
    destruct (_ || _) eqn:Hbig; [do 4 right; lia|].
    rewrite !N.mod_small by lia.
    repeat (destruct (_ <=? _) eqn:?; to_prop; [cbn [mbind option_bind]|lia]).
    split; [|done]. unfold u16_max in *. lia.
Qed.

Lemma mouse_reports_exact_witness :
  parses_as [27; 91; 60; 50; 50; 59; 49; 48; 59; 53; 109]
    (EvCsi [22; 10; 5] (Some 60) false 109).
Proof.
  pose proof (mouse_reports_exact (mkReport Release 2 true false true 9 4)
    (modes_default <| mouse_reporting := MouseButton |> <| mouse_sgr := true |>)) as H.
  assert (encode_mouse_report (mkReport Release 2 true false true 9 4)
    (modes_default <| mouse_reporting := MouseButton |> <| mouse_sgr := true |>)
    = Some (Some [27; 91; 60; 50; 50; 59; 49; 48; 59; 53; 109])) as E by (vm_compute; reflexivity).
  rewrite E in H. apply H. unfold report_ok, u8_max, u16_max. simpl. lia.
Defined.

(** ** Gestures *)

(** Route a sequence of events. *)
Fixpoint route_all (host_anchor : option VisualPos) (es : list HostMouse)
    : list routed * option VisualPos :=
  match es with
  | [] => ([], host_anchor)
  | e :: es =>
    let '(out, host_anchor) := route_mouse host_anchor e in
    let '(outs, host_anchor) := route_all host_anchor es in (out :: outs, host_anchor)
  end.

(** An event the host takes without a gesture: shift is held, or nothing is reported. *)
Definition host_wants (e : HostMouse) : bool := hm_shift e || bool_decide (hm_reporting e = MouseOff).

(** After the events [past] a press that the host took at [p] is still held: the host took no
    press and saw no release since. *)
Definition held (past : list HostMouse) (p : VisualPos) : Prop :=
  ∃ before press after, past = before ++ press :: after ∧
    hm_kind press = Press ∧ host_wants press = true ∧ hm_cell press = p ∧
    Forall (λ e, hm_kind e ≠ Release ∧ (hm_kind e = Press → host_wants e = false)) after.

(** How the latch moves with one event. *)
Definition next_latch (a : option VisualPos) (e : HostMouse) : option VisualPos :=
  match hm_kind e with
  | Press => if host_wants e then Some (hm_cell e) else a
  | Release => None
  | Move | Wheel => a
  end.

Lemma route_latch a e : (route_mouse a e).2 = next_latch a e.
Proof.
  unfold route_mouse, next_latch, mouse_takes_host_override, host_wants, apply_host_mouse_gesture.
  destruct (hm_kind e), (hm_shift e), (bool_decide _), a; done.
Qed.

Lemma route_all_app a es es' :
  route_all a (es ++ es') =
  ((route_all a es).1 ++ (route_all (foldl next_latch a es) es').1, (route_all (foldl next_latch a es) es').2).
Proof.
  revert a. induction es as [|e es IH]; intros a; cbn [app route_all foldl]; [by destruct (route_all a es')|].
  rewrite <-(route_latch a e). destruct (route_mouse a e) as [out a']. cbn [snd]. rewrite IH. by destruct (route_all a' es).
Qed.

Lemma length_route_all a es : length (route_all a es).1 = length es.
Proof.
  revert a. induction es as [|e es IH]; intros a; [done|]. cbn [route_all]. destruct (route_mouse a e) as [out a'].
  specialize (IH a'). destruct (route_all a' es). cbn in *. lia.
Qed.

(** The latch is the cell of the press that is held. *)
Lemma latch_held past p : foldl next_latch None past = Some p ↔ held past p.
Proof.
  induction past as [|e past IH] using rev_ind.
  { split; [done|]. intros ([] & ? & ? & ? & _); done. }
  rewrite foldl_snoc. set (a := foldl next_latch None past) in *.
  assert (held (past ++ [e]) p ↔
    (hm_kind e = Press ∧ host_wants e = true ∧ hm_cell e = p) ∨
    (held past p ∧ hm_kind e ≠ Release ∧ (hm_kind e = Press → host_wants e = false))) as ->.
  { split.
    - intros (before & press & after & Heq & H1 & H2 & H3 & Hall).
      destruct after as [|e' after _] using rev_ind; [apply app_inj_tail in Heq as [-> ->]; by left|].
      rewrite app_comm_cons, app_assoc in Heq. apply app_inj_tail in Heq as [-> ->]. apply Forall_app in Hall as [Hall He].
      apply Forall_cons in He as [He _]. right. split; [|done]. by exists before, press, after.
    - intros [(H1 & H2 & H3)|[(before & press & after & -> & H1 & H2 & H3 & Hall) He]].
      + by exists past, e, [].
      + exists before, press, (after ++ [e]). rewrite <-app_assoc. split_and!; [done..|].
        apply Forall_app. split; [done|]. by apply Forall_singleton. }
  rewrite <-IH. unfold next_latch. destruct (hm_kind e), (host_wants e); naive_solver.
Qed.

(** C19. A gesture the host has taken stays with the host.  In any sequence of mouse events,
    with any presses, wheel turns, changes of the shift key and of the application's reporting
    mode in between: as long as a press that the host took is held, every motion and the
    release extend the host's selection from that press's cell to the event's cell and do not
    reach the application; without such a press a motion or release goes to the host, selecting
    nothing, exactly when shift is held or reporting is off.  A press or a wheel turn is routed
    by shift and reporting alone, also during a gesture: a press the host takes starts a
    selection at its cell, and a wheel turn never selects. *)
Theorem host_gesture_latched (past future : list HostMouse) (e : HostMouse) :
  ∃ outs out outs', (route_all None (past ++ e :: future)).1 = outs ++ out :: outs' ∧ length outs = length past ∧
    match hm_kind e with
    | Press => out = if host_wants e then ToHost (Some (hm_cell e, hm_cell e)) else ToApplication
    | Wheel => out = if host_wants e then ToHost None else ToApplication
    | Move | Release =>
      (∀ p, held past p → out = ToHost (Some (p, hm_cell e))) ∧
      ((∀ p, ¬ held past p) → out = if host_wants e then ToHost None else ToApplication)
    end.
Proof.
  rewrite route_all_app. cbn [route_all fst]. pose proof (latch_held past) as Hheld.
  set (a := foldl next_latch None past) in *. destruct (route_mouse a e) as [out a'] eqn:Hr.
  destruct (route_all a' future) as [outs' a2].
  exists (route_all None past).1, out, outs'. split_and!; [done|apply length_route_all|].
  assert (out = (route_mouse a e).1) as -> by (by rewrite Hr).
  unfold route_mouse, mouse_takes_host_override, host_wants, apply_host_mouse_gesture.
  destruct (hm_kind e), (hm_shift e), (bool_decide _), a as [q|]; cbn; try done.
  all: split; [intros p Hp%Hheld; naive_solver|intros Hn; try done; exfalso; by apply (Hn q), Hheld].
Qed.

(** A second press without shift reaches an application that asked for reports, but its release
    does not: it ends the gesture the host still holds. *)
Example second_press_unreleased :
  (route_all None [mkHostMouse MouseAny true Press (mkPos 1 1); mkHostMouse MouseAny false Press (mkPos 4 1);
                   mkHostMouse MouseAny false Release (mkPos 4 1)]).1 =
  [ToHost (Some (mkPos 1 1, mkPos 1 1)); ToApplication; ToHost (Some (mkPos 1 1, mkPos 4 1))].
Proof. reflexivity. Qed.
