(* ===== verification/Core.v ===== *)
(** The VT performer: [TerminalCore] of [crates/seyal-terminal/src/terminal/vt/mod.rs] with
    its printing ([print.rs]), control ([execute.rs]), CSI and ESC ([csi.rs]) and OSC
    ([osc.rs]) dispatch, the selection and copy-mode state it resets ([selection.rs]), and
    [TerminalState] of [terminal/state.rs] around it.

    [TerminalCore] is an instance of the parser's [Actions]; [feed] is the parser of
    [Parser.v] run on it. *)

From S2P Require Import Parser.
From S2P Require Import Prelude Utf8 Types Damage LineIds GraphemeStore HistoryTypes Screen.
From S2P Require Import Grapheme Osc ProtocolReply Selection.

Definition KEYBOARD_STACK_CAPACITY : N := 16.
Definition KEYBOARD_FLAGS_MASK : N := 3.

Record Diagnostics := mkDiagnostics {
  deferred_sequences : N; unknown_sequences : N; malformed_sequences : N;
  diag_payload_overflow : N; diag_capacity_fallback : N }.

(** The per-screen Kitty keyboard state: current flags, stack array and its length. *)
Record Keyboard := mkKeyboard { kb_flags : N; kb_stack : list N; kb_len : N }.

Definition new_keyboard : Keyboard :=
  mkKeyboard 0 (replicate (N.to_nat KEYBOARD_STACK_CAPACITY) 0) 0.

(** [VecDeque::with_capacity n] reserves room for at least [n] elements; how much exactly is
    the standard library's choice. *)
Class DequeCapacity := {
  deque_capacity : N → N;
  deque_capacity_ge n : n ≤ deque_capacity n;
}.

Record TerminalCore {H : Type} := mkCore {
  primary : Screen H;
  alternate : option (Screen H);
  core_line_ids : LineIdAllocator;
  modes : ModeState;
  damage : DamageTracker;
  diagnostics : Diagnostics;
  fault : option TerminalError;
  shell_events : list ShellIntegrationEvent;
  presentation_events : list HostPresentationEvent;
  protocol_replies : list ProtocolReply;
  primary_keyboard : Keyboard;
  alternate_keyboard : Keyboard;
  grapheme_store : GraphemeStore;
  active_grapheme : option ActiveGrapheme;
  ambiguous_width : AmbiguousWidthPolicy;
  selection : SelectionSession;
  search : SearchSession;
  copy_mode : CopyMode;
  copy_buffer : option (list N) }.
Arguments TerminalCore : clear implicits.
Arguments mkCore {H}.

Section core.
Context {H : Type} `{HistoryLog H} `{UnicodeTables} `{DequeCapacity}.

(** Computations that may return a [TerminalError], and those that do not. *)
Definition RM (A : Type) : Type := M TerminalError (TerminalCore H) A.
Definition CM (A : Type) : Type := M Empty_set (TerminalCore H) A.

Definition catch {A} (m : RM A) (h : TerminalError → CM A) : CM A := λ s,
  match m s with
  | Ret a s => Ret a s
  | Fail e s => h e s
  | Panic => Panic
  | NoFuel => NoFuel
  end.

Definition current (c : TerminalCore H) : Screen H :=
  if alternate_screen (modes c) then default (primary c) (alternate c) else primary c.

Definition put_current (s : Screen H) (c : TerminalCore H) : TerminalCore H :=
  match alternate_screen (modes c), alternate c with
  | true, Some _ => c <| alternate := Some s |>
  | _, _ => c <| primary := s |>
  end.

(** Run a screen operation on the current screen with the core's allocator and store. *)
Definition on_current {A} (m : SM A) : RM A :=
  zoom (λ c, mkWorld (current c) (core_line_ids c) (grapheme_store c))
       (λ w c, (put_current (scr w) c) <| core_line_ids := alloc w |> <| grapheme_store := store w |>) m.

(** Screen operations that return no [Result]. *)
Definition on_current' {A} (m : SM A) : CM A := λ c,
  match on_current m c with
  | Ret a c => Ret a c
  | Fail _ _ | Panic => Panic
  | NoFuel => NoFuel
  end.

Definition on_store {E A} (m : M E GraphemeStore A) : M E (TerminalCore H) A :=
  zoom grapheme_store (λ g c, c <| grapheme_store := g |>) m.

(** * Bookkeeping *)

Section bookkeeping.
Context {E : Type}.

Definition invalidate_active_grapheme : M E (TerminalCore H) unit :=
  modify (λ c, c <| active_grapheme := None |>).

Definition apply_mutation (m : Mutation) : M E (TerminalCore H) unit :=
  modify (λ c, c <| damage := mark m (damage c) |>).

Definition record_fault (e : TerminalError) : M E (TerminalCore H) unit :=
  modify (λ c, match fault c with None => c <| fault := Some e |> | Some _ => c end).

Definition record_deferred : M E (TerminalCore H) unit :=
  modify (λ c, c <| diagnostics := (diagnostics c) <| deferred_sequences :=
                      bump (deferred_sequences (diagnostics c)) |> |>).
Definition record_unknown : M E (TerminalCore H) unit :=
  modify (λ c, c <| diagnostics := (diagnostics c) <| unknown_sequences :=
                      bump (unknown_sequences (diagnostics c)) |> |>).
Definition record_malformed : M E (TerminalCore H) unit :=
  modify (λ c, c <| diagnostics := (diagnostics c) <| malformed_sequences :=
                      bump (malformed_sequences (diagnostics c)) |> |>).
Definition set_modes (f : ModeState → ModeState) : M E (TerminalCore H) unit :=
  modify (λ c, c <| modes := f (modes c) |>).
End bookkeeping.

(** [TerminalCore::new]. *)
Definition new_core (c r : N) : M TerminalError LineIdAllocator (TerminalCore H) :=
  let! primary := new_screen c r true in
  let! ids := gets id in
  ret {| primary := primary; alternate := None; core_line_ids := ids; modes := modes_default;
         damage := commit (mark (mut_full r) new_tracker);
         diagnostics := mkDiagnostics 0 0 0 0 0; fault := None;
         shell_events := []; presentation_events := []; protocol_replies := [];
         primary_keyboard := new_keyboard; alternate_keyboard := new_keyboard;
         grapheme_store := store_default; active_grapheme := None; ambiguous_width := Narrow;
         selection := selection_default; search := mkSearch [] None;
         copy_mode := copy_mode_default; copy_buffer := None |}.

Definition editing_mutation (m : SM Mutation) : CM Mutation :=
  catch (on_current m) (λ e, record_fault e ;;; ret mut_none).

Definition set_cursor_visible (visible : bool) : CM unit :=
  let! now := gets (λ c, cursor_visible (modes c)) in
  if Bool.eqb now visible then ret tt
  else
    set_modes (λ m, m <| cursor_visible := visible |>) ;;;
    let! r := gets (λ c, row (cursor (current c))) in
    apply_mutation (mut_row r).

(** * Keyboard protocol *)

Definition keyboard (c : TerminalCore H) : Keyboard :=
  if alternate_screen (modes c) then alternate_keyboard c else primary_keyboard c.
Definition set_keyboard (k : Keyboard) (c : TerminalCore H) : TerminalCore H :=
  if alternate_screen (modes c) then c <| alternate_keyboard := k |>
  else c <| primary_keyboard := k |>.

Definition sync_keyboard_flags {E} : M E (TerminalCore H) unit :=
  modify (λ c, set_keyboard
    ((keyboard c) <| kb_flags := N.land (keyboard_flags (modes c)) KEYBOARD_FLAGS_MASK |>) c).

(** [x & !y] on bytes is [N.ldiff]. *)
Definition set_keyboard_flags (flags mode : N) : CM bool :=
  let! now := gets (λ c, keyboard_flags (modes c)) in
  let flags := N.land flags KEYBOARD_FLAGS_MASK in
  let next := if mode =? 1 then Some flags
              else if mode =? 2 then Some (N.lor now flags)
              else if mode =? 3 then Some (N.ldiff now flags)
              else None in
  match next with
  | None => ret false
  | Some next =>
    let next := N.land next KEYBOARD_FLAGS_MASK in
    let! k := gets keyboard in
    let! k := (if kb_len k =? 0 then
                 let! st := or_panic (vset (kb_stack k) 0 next) in
                 ret (k <| kb_stack := st |> <| kb_len := 1 |>)
               else
                 let! st := or_panic (vset (kb_stack k) (kb_len k - 1) next) in
                 ret (k <| kb_stack := st |>)) in
    modify (set_keyboard k) ;;;
    set_modes (λ m, m <| keyboard_flags := next |>) ;;;
    sync_keyboard_flags ;;;
    ret true
  end.

Definition push_keyboard_flags (flags : N) : CM unit :=
  let flags := N.land flags KEYBOARD_FLAGS_MASK in
  let! k := gets keyboard in
  let! k := (if kb_len k =? KEYBOARD_STACK_CAPACITY then
               let! st := or_panic (vcopy_within (kb_stack k) 1 (vlen (kb_stack k)) 0) in
               ret (k <| kb_stack := st |> <| kb_len := kb_len k - 1 |>)
             else ret k) in
  let! st := or_panic (vset (kb_stack k) (kb_len k) flags) in
  modify (set_keyboard (k <| kb_stack := st |> <| kb_len := kb_len k + 1 |>)) ;;;
  set_modes (λ m, m <| keyboard_flags := flags |>) ;;;
  sync_keyboard_flags.

Definition pop_keyboard_flags (count : N) : CM unit :=
  let! k := gets keyboard in
  let len := kb_len k - N.min count (kb_len k) in
  let! top := (if len =? 0 then ret 0 else or_panic (vget (kb_stack k) (len - 1))) in
  modify (set_keyboard (k <| kb_len := len |>)) ;;;
  set_modes (λ m, m <| keyboard_flags := top |>) ;;;
  sync_keyboard_flags.

(** * Replies *)

Definition enqueue_protocol_reply (reply : ProtocolReply) : CM unit :=
  let! q := gets protocol_replies in
  if vlen q =? deque_capacity MAX_PROTOCOL_REPLIES then record_deferred
  else modify (λ c, c <| protocol_replies := protocol_replies c ++ [reply] |>).

(** [if let Some(reply) = encode { enqueue } else { record_deferred }]. *)
Definition reply_with (encoded : option (option ProtocolReply)) : CM unit :=
  let! r := or_panic encoded in
  match r with Some reply => enqueue_protocol_reply reply | None => record_deferred end.

Definition reply_kitty_flags : CM unit :=
  let! flags := gets (λ c, keyboard_flags (modes c)) in
  reply_with (encode_kitty_flags flags).

Definition reply_dsr_cpr : CM unit :=
  let! cur := gets (λ c, cursor (current c)) in
  reply_with (encode_dsr_cpr (row cur) (col cur)).

Definition reply_primary_da : CM unit := reply_with encode_primary_da.

(** The mode a DECRQM query asks for, when it is one the terminal knows. *)
Definition mode_set (m : ModeState) (mode : N) : option bool :=
  if mode =? 7 then Some (wraparound m)
  else if mode =? 25 then Some (cursor_visible m)
  else if mode =? 1 then Some (application_cursor m)
  else if mode =? 66 then Some (application_keypad m)
  else if mode =? 1049 then Some (alternate_screen m)
  else if mode =? 2004 then Some (bracketed_paste m)
  else if mode =? 2027 then Some (unicode_core m)
  else if mode =? 1000 then Some (bool_decide (mouse_reporting m = MouseButton))
  else if mode =? 1002 then Some (bool_decide (mouse_reporting m = MouseButtonDrag))
  else if mode =? 1003 then Some (bool_decide (mouse_reporting m = MouseAny))
  else if mode =? 1006 then Some (mouse_sgr m)
  else None.

Definition reply_decrqm (params : list N) : CM unit :=
  for_each params (λ mode,
    let! m := gets modes in
    match mode_set m mode with
    | Some b => reply_with (encode_decrqm_private mode (if b then 1 else 2))
    | None => record_deferred
    end).

Definition set_mouse_reporting (level : MouseReporting) (enabled : bool) : CM unit :=
  set_modes (λ m,
    if enabled then m <| mouse_reporting := level |>
    else if bool_decide (mouse_reporting m = level) then m <| mouse_reporting := MouseOff |>
    else m).

(** * The alternate screen *)

(** Run a screen operation on a screen that is not part of the core. *)
Definition on_detached {A} (s : Screen H) (m : SM A) : RM (A * Screen H) := λ c,
  match m (mkWorld s (core_line_ids c) (grapheme_store c)) with
  | Ret a w => Ret (a, scr w) (c <| core_line_ids := alloc w |> <| grapheme_store := store w |>)
  | Fail e w => Fail e (c <| core_line_ids := alloc w |> <| grapheme_store := store w |>)
  | Panic => Panic
  | NoFuel => NoFuel
  end.

Definition set_alternate_screen (enabled : bool) : RM unit :=
  let! now := gets (λ c, alternate_screen (modes c)) in
  if Bool.eqb enabled now then ret tt
  else
    invalidate_active_grapheme ;;;
    modify (λ c, c <| selection := selection_default |> <| copy_mode := copy_mode_default |>
                   <| copy_buffer := None |>) ;;;
    sync_keyboard_flags ;;;
    if enabled then
      let! p := gets primary in
      let! s := zoom core_line_ids (λ a c, c <| core_line_ids := a |>)
                  (new_screen (cols p) (rows p) false) in
      let! (_, s) := on_detached s (inherit_pen_for_clean_buffer (pen p)) in
      modify (λ c, c <| alternate := Some s |>) ;;;
      set_modes (λ m, m <| alternate_screen := true |>) ;;;
      let! k := gets alternate_keyboard in
      set_modes (λ m, m <| keyboard_flags := kb_flags k |>) ;;;
      apply_mutation (mut_full (rows p))
    else
      let! alt := gets alternate in
      (match alt with
       | Some s =>
         modify (λ c, c <| alternate := None |>) ;;;
         let! _ := on_detached s release_all_payloads in ret tt
       | None => ret tt
       end) ;;;
      set_modes (λ m, m <| alternate_screen := false |>) ;;;
      let! k := gets primary_keyboard in
      set_modes (λ m, m <| keyboard_flags := kb_flags k |>) ;;;
      let! p := gets primary in
      apply_mutation (mut_full (rows p)).

(** * Printing *)

(** The store id of the cell a unit was placed at. *)
Definition store_id_at (c r : N) : RM N :=
  let! s := gets current in
  let! x := or_panic (cell c r s) in
  ret (match x with Some x => store_id x | None => INLINE_STORE_ID end).

Definition set_active (a : ActiveGrapheme) : RM unit :=
  modify (λ c, c <| active_grapheme := Some a |>).

(** A late widening at the final column with autowrap: the unit is cleared and placed
    again on the next row. *)
Definition replace_on_next_row (active : ActiveGrapheme) (w : N) (wrap : bool) : RM Mutation :=
  let! clear_mut := on_current (clear_unit_at (ag_col active) (ag_row active)) in
  on_current (set_pending_wrap true) ;;;
  let! lead := on_store (build_lead_cell (ag_utf8 active) w (ag_style active)
                           (ag_overflow active) (Some (ag_store_id active))) in
  let! (place_mut, _, lead_col, lead_row) := on_current (place_new_unit lead wrap) in
  let! id := store_id_at lead_col lead_row in
  set_active (active <| ag_col := lead_col |> <| ag_row := lead_row |> <| ag_width := w |>
                     <| ag_store_id := id |>) ;;;
  ret (merge clear_mut place_mut).

(** The unit stays where it is and its lead is rewritten. *)
Definition rewrite_active (active : ActiveGrapheme) (w previous_width : N) : RM Mutation :=
  let active := active <| ag_width := w |> in
  let release_first := if ag_store_id active =? INLINE_STORE_ID then None
                       else Some (ag_store_id active) in
  let! lead := on_store (build_lead_cell (ag_utf8 active) (N.max (ag_width active) 1)
                           (ag_style active) (ag_overflow active) release_first) in
  let active := active <| ag_store_id := store_id lead |> <| ag_overflow := overflow lead |> in
  let! m := on_current (replace_active_lead (ag_col active) (ag_row active) lead previous_width) in
  (if previous_width <? w then
     let! cs := gets (λ c, cols (current c)) in
     let next_col := sat_add u16_max (ag_col active) w in
     if cs <=? next_col then
       let! _ := on_current (set_col (cs - 1)) in on_current (set_pending_wrap true)
     else let! _ := on_current (set_col next_col) in ret tt
   else ret tt) ;;;
  set_active active ;;;
  ret m.

Definition append_to_active (ch : N) (wrap : bool) (ambiguous : AmbiguousWidthPolicy) : RM Mutation :=
  let! a := gets active_grapheme in
  match a with
  | None => ret mut_none
  | Some active =>
    modify (λ c, c <| active_grapheme := None |>) ;;;
    let previous_width := ag_width active in
    let! (active, result) := on_store (append_payload active ch ambiguous) in
    let w := ar_width result in
    if ar_width_changed result && (previous_width <? w) then
      let! cs := gets (λ c, cols (current c)) in
      let! decision := or_panic (edge_decision_late_widen (ag_col active) cs w wrap) in
      match decision with
      | RejectExtension | IgnoreUnit =>
        set_active (active <| ag_utf8 := take (length (ag_utf8 active) - 1) (ag_utf8 active) |>) ;;;
        ret mut_none
      | Place =>
        let! next_col := or_panic (checked_add u16_max (ag_col active) 1) in
        if (cs <=? next_col) && wrap then replace_on_next_row active w wrap
        else rewrite_active active w previous_width
      end
    else rewrite_active active w previous_width
  end.

(** A new unit at the cursor. *)
Definition print_new_unit (ch : N) (core wrap : bool) (ambiguous : AmbiguousWidthPolicy)
    (st : Style) : RM Mutation :=
  let w := grapheme_terminal_width [ch] ambiguous in
  let w := if core then w else N.max w 1 in
  if w =? 0 then ret mut_none
  else
    let! s := gets current in
    let! decision := or_panic (edge_decision_new_unit (col (cursor s)) (cols s) w wrap) in
    match decision with
    | IgnoreUnit => ret mut_none
    | RejectExtension | Place =>
      let! lead := on_store (build_lead_cell [ch] w st false None) in
      let! (m, _, lead_col, lead_row) := on_current (place_new_unit lead wrap) in
      let! id := store_id_at lead_col lead_row in
      set_active (mkActive lead_col lead_row [ch] w st id false) ;;;
      ret m
    end.

Definition print_scalar (ch : N) : RM Mutation :=
  let! m := gets modes in
  let! ambiguous := gets ambiguous_width in
  let! st := gets (λ c, pen (current c)) in
  let! active := gets active_grapheme in
  let zero_width := grapheme_terminal_width [ch] ambiguous =? 0 in
  let extends := match active with
                 | Some a => try_append_scalar a ch (unicode_core m)
                             || (negb (unicode_core m) && zero_width)
                 | None => false
                 end in
  if extends then append_to_active ch (wraparound m) ambiguous
  else
    invalidate_active_grapheme ;;;
    if negb (unicode_core m) && zero_width then ret mut_none
    else print_new_unit ch (unicode_core m) (wraparound m) ambiguous st.

Definition execute_current (byte : N) : RM Mutation :=
  (if inr 8 13 byte then invalidate_active_grapheme else ret tt) ;;;
  on_current (execute byte).

(** * Control sequences *)

Definition param_zero (params : list N) (i : nat) : N := default 0 (params !! i).
Definition param_one (params : list N) (i : nat) : N :=
  if param_zero params i =? 0 then 1 else param_zero params i.

(** The private modes other than the alternate screen. *)
Definition set_private_mode (enabled : bool) (mode : N) : CM unit :=
  if mode =? 1 then set_modes (λ m, m <| application_cursor := enabled |>)
  else if mode =? 7 then
    let! now := gets (λ c, wraparound (modes c)) in
    if Bool.eqb now enabled then ret tt
    else set_modes (λ m, m <| wraparound := enabled |>) ;;; invalidate_active_grapheme
  else if mode =? 25 then set_cursor_visible enabled
  else if mode =? 66 then set_modes (λ m, m <| application_keypad := enabled |>)
  else if mode =? 2027 then
    let! now := gets (λ c, unicode_core (modes c)) in
    if Bool.eqb now enabled then ret tt
    else set_modes (λ m, m <| unicode_core := enabled |>) ;;; invalidate_active_grapheme
  else if mode =? 2004 then set_modes (λ m, m <| bracketed_paste := enabled |>)
  else if mode =? 1000 then set_mouse_reporting MouseButton enabled
  else if mode =? 1002 then set_mouse_reporting MouseButtonDrag enabled
  else if mode =? 1003 then set_mouse_reporting MouseAny enabled
  else if mode =? 1006 then set_modes (λ m, m <| mouse_sgr := enabled |>)
  else record_deferred.

(** DECSET and DECRST: a failed screen switch stops the loop. *)
Fixpoint set_private_modes (enabled : bool) (params : list N) : CM unit :=
  match params with
  | [] => ret tt
  | mode :: params =>
    if mode =? 1049 then
      let! ok := catch (set_alternate_screen enabled ;;; ret true)
                       (λ e, record_fault e ;;; ret false) in
      if (ok : bool) then set_private_modes enabled params else ret tt
    else set_private_mode enabled mode ;;; set_private_modes enabled params
  end.

(** [CSI = u], [CSI > u] and [CSI < u]. *)
Definition keyboard_csi (marker : N) (params : list N) : CM unit :=
  if (marker =? 61) && (vlen params <=? 2) then
    let! ok := set_keyboard_flags (default 0 (params !! 0%nat) mod 256)
                                  (default 1 (params !! 1%nat)) in
    if (ok : bool) then ret tt else record_deferred
  else if (marker =? 62) && (vlen params <=? 1) then
    push_keyboard_flags (default 0 (params !! 0%nat) mod 256)
  else if (marker =? 60) && (vlen params <=? 1) then
    pop_keyboard_flags (default 1 (params !! 0%nat))
  else record_deferred.

(** The sequences without a private marker. *)
Definition public_csi (params : list N) (final : N) : CM Mutation :=
  let one := param_one params 0 in
  let zero := param_zero params 0 in
  let moved (m : SM Mutation) := invalidate_active_grapheme ;;; on_current' m in
  let edited (m : SM Mutation) := invalidate_active_grapheme ;;; editing_mutation m in
  if final =? 65 then moved (cursor_up one)
  else if final =? 66 then moved (cursor_down one)
  else if final =? 67 then moved (cursor_forward one)
  else if final =? 68 then moved (cursor_back one)
  else if (final =? 72) || (final =? 102) then
    moved (set_cursor (one - 1) (param_one params 1 - 1))
  else if final =? 71 then moved (set_col (one - 1))
  else if final =? 100 then moved (set_row (one - 1))
  else if final =? 74 then edited (erase_display zero)
  else if final =? 75 then moved (erase_line zero)
  else if final =? 115 then on_current' save_cursor ;;; ret mut_none
  else if final =? 117 then moved restore_cursor
  else if final =? 109 then
    let! deferred := on_current' (apply_sgr params) in
    (if (deferred : bool) then record_deferred else ret tt) ;;; ret mut_none
  else if final =? 110 then
    (if zero =? 6 then reply_dsr_cpr else record_unknown) ;;; ret mut_none
  else if final =? 99 then
    (if zero =? 0 then reply_primary_da else record_unknown) ;;; ret mut_none
  else if final =? 114 then moved (set_scroll_region zero (param_zero params 1))
  else if final =? 64 then edited (insert_characters one)
  else if final =? 80 then edited (delete_characters one)
  else if final =? 88 then edited (erase_characters one)
  else if final =? 76 then edited (insert_lines one)
  else if final =? 77 then edited (delete_lines one)
  else if final =? 83 then edited (scroll_up one HardBreak)
  else if final =? 84 then edited (scroll_down one)
  else if (final =? 104) || (final =? 108) then record_deferred ;;; ret mut_none
  else record_unknown ;;; ret mut_none.

Definition dispatch_csi (params : list N) (private : option N) (ignored : bool) (final : N) : CM unit :=
  let! f := gets fault in
  match f with
  | Some _ => ret tt
  | None =>
    if ignored then
      if bool_decide (private = Some 63) && (final =? 112) then reply_decrqm params
      else record_deferred
    else
      match private with
      | None => let! m := public_csi params final in apply_mutation m
      | Some marker =>
        if (marker =? 63) && (final =? 117) then
          if bool_decide (params = []) then reply_kitty_flags else record_deferred
        else if ((marker =? 61) || (marker =? 62) || (marker =? 60)) && (final =? 117) then
          keyboard_csi marker params
        else if (marker =? 63) && ((final =? 104) || (final =? 108)) then
          set_private_modes (final =? 104) params
        else record_deferred
      end
  end.

Definition dispatch_esc (final : N) (had_intermediate : bool) : CM unit :=
  let! f := gets fault in
  match f with
  | Some _ => ret tt
  | None =>
    if had_intermediate then record_deferred
    else
      let! m :=
        (if final =? 61 then set_modes (λ m, m <| application_keypad := true |>) ;;; ret mut_none
         else if final =? 62 then set_modes (λ m, m <| application_keypad := false |>) ;;; ret mut_none
         else if final =? 55 then on_current' save_cursor ;;; ret mut_none
         else if final =? 56 then on_current' restore_cursor
         else if final =? 68 then invalidate_active_grapheme ;;; editing_mutation index_down
         else if final =? 77 then invalidate_active_grapheme ;;; editing_mutation reverse_index
         else if final =? 69 then invalidate_active_grapheme ;;; editing_mutation next_line
         else record_unknown ;;; ret mut_none) in
      apply_mutation m
  end.

(** * Operating system commands *)

Definition line_at (c : TerminalCore H) (r : N) : LineId := default 1 (screen_line_id r (current c)).

Definition current_line (c : TerminalCore H) : LineId := line_at c (row (cursor (current c))).

Definition completion_line (c : TerminalCore H) : LineId :=
  let cur := cursor (current c) in
  line_at c (if (col cur =? 0) && (0 <? row cur) then row cur - 1 else row cur).

Definition enqueue_presentation (e : HostPresentationEvent) : CM unit :=
  let! q := gets presentation_events in
  if vlen q =? deque_capacity MAX_HOST_PRESENTATION_EVENTS then record_deferred
  else modify (λ c, c <| presentation_events := presentation_events c ++ [e] |>).

Definition dispatch_osc (bytes : list N) (truncated : bool) : CM unit :=
  let! f := gets fault in
  match f with
  | Some _ => ret tt
  | None =>
    if truncated then record_deferred
    else match parse_osc_presentation bytes with
         | Some e => enqueue_presentation e
         | None =>
           let! alt := gets (λ c, alternate_screen (modes c)) in
           if alt then record_deferred
           else
             let! now := gets current_line in
             let! done_ := gets completion_line in
             match parse_shell_marker bytes now done_ with
             | None => record_deferred
             | Some e =>
               let! q := gets shell_events in
               if vlen q =? deque_capacity 16 then record_deferred
               else modify (λ c, c <| shell_events := shell_events c ++ [e] |>)
             end
         end
  end.

(** * The performer *)

(** Unless a fault was recorded, run and mark the damage or record the fault. *)
Definition perform_mutation (m : RM Mutation) : CM unit :=
  let! f := gets fault in
  match f with
  | Some _ => ret tt
  | None => catch (let! m := m in apply_mutation m) record_fault
  end.

Definition when_live (m : CM unit) : CM unit :=
  let! f := gets fault in
  match f with Some _ => ret tt | None => m end.

#[export] Instance core_actions : Parser.Actions (TerminalCore H) := {|
  Parser.act_print ch := perform_mutation (print_scalar ch);
  Parser.act_execute byte := perform_mutation (execute_current byte);
  Parser.act_csi params private ignored final := dispatch_csi params private ignored final;
  Parser.act_esc final had_intermediate := dispatch_esc final had_intermediate;
  Parser.act_osc bytes truncated := dispatch_osc bytes truncated;
  Parser.act_deferred_string := when_live record_deferred;
  Parser.act_malformed := when_live record_malformed;
|}.

(** * [TerminalState] *)

Definition TerminalState : Type := Parser.Parser * TerminalCore H.

Definition new_terminal (c r : N) : M TerminalError LineIdAllocator TerminalState :=
  let! core := new_core c r in ret (Parser.new_parser, core).

(** The common shape of [feed] and [finish_input]: refuse a faulted terminal, run the parser,
    publish the damage, report the fault. *)
Definition with_fault_check (m : M Empty_set TerminalState unit) : M TerminalError TerminalState unit :=
  let! f := gets (λ t, fault t.2) in
  match f with
  | Some e => fail e
  | None =>
    (λ s, match m s with
          | Ret _ s => Ret tt s
          | Fail e _ => match e with end
          | Panic => Panic
          | NoFuel => NoFuel
          end) ;;;
    modify (λ t, (t.1, t.2 <| damage := commit (damage t.2) |>)) ;;;
    let! f := gets (λ t, fault t.2) in
    match f with Some e => fail e | None => ret tt end
  end.

Definition feed (bytes : list N) : M TerminalError TerminalState unit :=
  with_fault_check (Parser.feed bytes).

Definition finish_input : M TerminalError TerminalState unit := with_fault_check Parser.finish.

Definition set_ambiguous_width_policy (policy : AmbiguousWidthPolicy) : M TerminalError TerminalState unit :=
  modify (λ t, if bool_decide (ambiguous_width t.2 = policy) then t
               else (t.1, t.2 <| ambiguous_width := policy |> <| active_grapheme := None |>)).

Definition take_damage_event : M TerminalError TerminalState (option Damage) :=
  let! d := gets (λ t, (take_damage (damage t.2)).1) in
  modify (λ t, (t.1, t.2 <| damage := (take_damage (damage t.2)).2 |>)) ;;; ret d.

(** [pop_front] of the three queues. *)
Definition take_shell_integration_event : M TerminalError TerminalState (option ShellIntegrationEvent) :=
  let! q := gets (λ t, shell_events t.2) in
  modify (λ t, (t.1, t.2 <| shell_events := tail q |>)) ;;; ret (head q).
Definition take_host_presentation_event : M TerminalError TerminalState (option HostPresentationEvent) :=
  let! q := gets (λ t, presentation_events t.2) in
  modify (λ t, (t.1, t.2 <| presentation_events := tail q |>)) ;;; ret (head q).
Definition take_protocol_reply : M TerminalError TerminalState (option ProtocolReply) :=
  let! q := gets (λ t, protocol_replies t.2) in
  modify (λ t, (t.1, t.2 <| protocol_replies := tail q |>)) ;;; ret (head q).

(** Outer [None]: the cell index panics. *)
Definition lead_utf8 (t : TerminalState) (c r : N) : option (option (list N)) :=
  x ← cell c r (current t.2);
  Some (x ← x;
        Some (match role x with
              | Empty | Continuation => []
              | Lead =>
                if overflow x then [239; 191; 189]
                else match get (store_id x) (grapheme_store t.2) with
                     | Some bytes => bytes
                     | None => encode_utf8 (character x)
                     end
              end)).

Definition terminal_diagnostics (t : TerminalState) : Diagnostics :=
  (diagnostics t.2)
    <| diag_payload_overflow := grapheme_payload_overflow_count (grapheme_store t.2) |>
    <| diag_capacity_fallback := grapheme_store_capacity_fallback_count (grapheme_store t.2) |>.
End core.
Arguments TerminalState H : clear implicits.
