(* ===== verification/CoreSafe.v ===== *)
(** Safety of the whole terminal: the invariant of [TerminalCore] and of [TerminalState]
    of [Core.v], and that no input can make [TerminalState::feed] panic, hang or break it.

    [csafe P m Q] lifts the calculus of [ScreenSafe.v] to the core: from a core whose two
    screens have [c] columns and [r] rows, [m] returns a value satisfying [Q] or an error
    satisfying [P], and keeps the invariant. *)

From S2P Require Import Parser ParserSyntax.
From S2P Require Import Prelude Types Utf8 Damage LineIds GraphemeStore HistoryTypes Screen.
From S2P Require Import ScreenSafe Grapheme Osc ProtocolReply Core.

Section core_safe.
Context {H : Type} `{HistoryLaws H} `{UnicodeTables} `{DequeCapacity} (c r : N).
Hypothesis Hc1 : 1 ≤ c.
Hypothesis Hc2 : c ≤ MAX_TERMINAL_COLUMNS.
Hypothesis Hr1 : 1 ≤ r.
Hypothesis Hr2 : r ≤ MAX_TERMINAL_ROWS.

Definition screen_in (s : Screen H) : Prop := screen_wf s ∧ cols s = c ∧ rows s = r.

Definition keyboard_ok (k : Keyboard) : Prop :=
  vlen (kb_stack k) = KEYBOARD_STACK_CAPACITY ∧ kb_len k ≤ KEYBOARD_STACK_CAPACITY.

Definition active_ok (a : ActiveGrapheme) : Prop :=
  ag_col a < c ∧ ag_row a < r ∧ ag_width a ≤ 2 ∧ style_in (ag_style a) ∧ Forall (λ ch, is_scalar ch = true) (ag_utf8 a).

Record core_inv (t : TerminalCore H) : Prop := {
  ci_primary : screen_in (primary t);
  ci_alternate : ∀ s, alternate t = Some s → screen_in s;
  ci_alloc : alloc_wf (core_line_ids t);
  ci_store : store_ok (grapheme_store t);
  ci_keyboards : keyboard_ok (primary_keyboard t) ∧ keyboard_ok (alternate_keyboard t);
  ci_active : ∀ a, active_grapheme t = Some a → active_ok a;
  ci_shell : vlen (shell_events t) ≤ deque_capacity 16;
  ci_presentation : vlen (presentation_events t) ≤ deque_capacity MAX_HOST_PRESENTATION_EVENTS;
  ci_replies : vlen (protocol_replies t) ≤ deque_capacity MAX_PROTOCOL_REPLIES;
  ci_fault : ∀ e, fault t = Some e → e = LineIdentityExhausted;
}.

Definition exhausted (e : TerminalError) : Prop := e = LineIdentityExhausted.

Definition csafe {E A} (P : E → Prop) (m : M E (TerminalCore H) A) (Q : A → Prop) : Prop :=
  ∀ t, core_inv t → wp m (λ a t', core_inv t' ∧ Q a) (λ e t', core_inv t' ∧ P e) t.

Definition never (e : Empty_set) : Prop := False.

(** * Rules *)

Section rules.
Context {E : Type} (P : E → Prop).

Lemma csafe_weaken {A} (m : M E (TerminalCore H) A) (Q Q' : A → Prop) :
  csafe P m Q → (∀ a, Q a → Q' a) → csafe P m Q'.
Proof. intros Hm HQ t Ht. eapply wp_mono; [by apply Hm|naive_solver|done]. Qed.

Lemma csafe_ret {A} (a : A) (Q : A → Prop) : Q a → csafe P (ret a) Q.
Proof. intros HQ t Ht. by apply wp_ret. Qed.

Lemma csafe_bind {A B} (m : M E (TerminalCore H) A) (k : A → M E (TerminalCore H) B) Q R :
  csafe P m Q → (∀ a, Q a → csafe P (k a) R) → csafe P (bind m k) R.
Proof.
  intros Hm Hk t Ht. apply wp_bind. eapply wp_mono; [by apply Hm| |done].
  intros a t' [Ht' HQ]. by apply Hk.
Qed.

Lemma csafe_gets {A} (f : TerminalCore H → A) (Q : A → Prop) :
  (∀ t, core_inv t → Q (f t)) → csafe P (gets f) Q.
Proof. intros HQ t Ht. split; [done|]. by apply HQ. Qed.

Lemma csafe_modify f : (∀ t, core_inv t → core_inv (f t)) → csafe P (modify f) anything.
Proof. intros Hf t Ht. split; [by apply Hf|done]. Qed.

Lemma csafe_or_panic {A} (o : option A) (Q : A → Prop) :
  (∃ a, o = Some a ∧ Q a) → csafe P (or_panic o) Q.
Proof. intros (a & -> & HQ) t Ht. done. Qed.

Lemma csafe_if {A} (b : bool) (m1 m2 : M E (TerminalCore H) A) Q :
  (b = true → csafe P m1 Q) → (b = false → csafe P m2 Q) → csafe P (if b then m1 else m2) Q.
Proof. destruct b; auto. Qed.

Lemma csafe_for_each {X} (xs : list X) (body : X → M E (TerminalCore H) unit) :
  (∀ x, x ∈ xs → csafe P (body x) anything) → csafe P (for_each xs body) anything.
Proof using Type.
  induction xs as [|x xs IH]; intros Hb; [by apply csafe_ret|].
  apply (csafe_bind _ _ anything); [apply Hb, list_elem_of_here|]. intros _ _. apply IH.
  intros y Hy. by apply Hb, list_elem_of_further.
Qed.

Lemma csafe_vset {A} (l : list A) i x :
  i < vlen l → csafe P (or_panic (vset l i x)) (λ l', vlen l' = vlen l).
Proof.
  intros Hi. apply csafe_or_panic. eexists. split; [by apply vset_ok|]. by rewrite length_insert.
Qed.
End rules.

Lemma csafe_catch {A} (m : RM A) (h : TerminalError → CM A) (Q : A → Prop) :
  csafe exhausted m Q → csafe never (h LineIdentityExhausted) Q → csafe never (catch m h) Q.
Proof.
  intros Hm Hh t Ht. specialize (Hm t Ht). unfold wp, catch in *.
  destruct (m t) as [a t'|e t'| |]; try done. destruct Hm as [Ht' ->]. by apply Hh.
Qed.

(** * Lifting screen and store operations *)

Lemma current_in t : core_inv t → screen_in (current t).
Proof.
  intros Ht. unfold current. destruct (alternate_screen _); [|apply Ht].
  destruct (alternate t) eqn:Ha; simpl; [by apply Ht|apply Ht].
Qed.

Lemma core_inv_put t w :
  core_inv t → inv c r w →
  core_inv ((put_current (scr w) t) <| core_line_ids := alloc w |> <| grapheme_store := store w |>).
Proof.
  intros [] []. unfold put_current.
  destruct (alternate_screen _), (alternate t) eqn:?; split; simpl; try done;
    try (intros ? Hs; try injection Hs as <-; naive_solver).
  all: unfold screen_in; naive_solver.
Qed.

Lemma core_inv_world t :
  core_inv t → inv c r (mkWorld (current t) (core_line_ids t) (grapheme_store t)).
Proof.
  intros Ht. destruct (current_in t Ht) as (? & ? & ?). split; simpl; (done || apply Ht).
Qed.

Lemma csafe_on_current {A} (m : SM A) (Q : A → Prop) :
  safe c r True m Q → csafe exhausted (on_current m) Q.
Proof.
  intros Hm t Ht. apply wp_zoom. eapply wp_mono; [by apply Hm, core_inv_world| |].
  - intros a w [Hw HQ]. split; [by apply core_inv_put|done].
  - intros e w (Hw & He & _). split; [by apply core_inv_put|done].
Qed.

Lemma csafe_on_current' {A} (m : SM A) (Q : A → Prop) :
  safe c r False m Q → csafe never (on_current' m) Q.
Proof.
  intros Hm t Ht. specialize (Hm _ (core_inv_world t Ht)).
  unfold wp, on_current', on_current, zoom in *.
  destruct (m _) as [a w|e w| |]; [|naive_solver|done..]. destruct Hm as [Hw HQ].
  split; [by apply core_inv_put|done].
Qed.

Lemma csafe_on_store {E A} (P : E → Prop) (m : M E GraphemeStore A) (Q : A → Prop) :
  (∀ g, store_ok g → wp m (λ a g', store_ok g' ∧ Q a) (λ _ _, False) g) → csafe P (on_store m) Q.
Proof.
  intros Hm t Ht. apply wp_zoom. eapply wp_mono; [apply Hm, Ht| |done].
  intros a g [Hg HQ]. split; [|done]. destruct Ht. by split.
Qed.

(** * Automation *)

Ltac core_side :=
  intros ? []; split; simpl; try done; unfold keyboard_ok in *; simpl in *; try naive_solver.

Create HintDb csafe_ops.

Lemma csafe_invalidate {E} (P : E → Prop) : csafe P invalidate_active_grapheme anything.
Proof. apply csafe_modify. core_side. Qed.
Lemma csafe_apply {E} (P : E → Prop) m : csafe P (apply_mutation m) anything.
Proof. apply csafe_modify. core_side. Qed.
Lemma csafe_deferred {E} (P : E → Prop) : csafe P record_deferred anything.
Proof. apply csafe_modify. core_side. Qed.
Lemma csafe_unknown {E} (P : E → Prop) : csafe P record_unknown anything.
Proof. apply csafe_modify. core_side. Qed.
Lemma csafe_malformed {E} (P : E → Prop) : csafe P record_malformed anything.
Proof. apply csafe_modify. core_side. Qed.
Lemma csafe_set_modes {E} (P : E → Prop) f : csafe P (set_modes f) anything.
Proof. apply csafe_modify. core_side. Qed.
Lemma csafe_fault {E} (P : E → Prop) : csafe P (record_fault LineIdentityExhausted) anything.
Proof. apply csafe_modify. intros t []. destruct (fault t) eqn:?; split; simpl; naive_solver. Qed.
Lemma csafe_set_active {P : TerminalError → Prop} a : active_ok a → csafe P (set_active a) anything.
Proof. intros. apply csafe_modify. core_side. Qed.
#[local] Hint Resolve csafe_invalidate csafe_apply csafe_deferred csafe_unknown csafe_malformed
  csafe_set_modes csafe_fault : csafe_ops.

(** Symbolic execution, as [safe_run]: what is read gets the trivial condition. *)
Ltac csafe_step :=
  lazymatch goal with
  | |- csafe _ (bind (gets _) _) _ => eapply csafe_bind; [by apply (csafe_gets _ _ anything)|]
  | |- csafe _ (bind _ _) _ => eapply (csafe_bind _ _ _ anything)
  | |- csafe _ (for_each _ _) _ => apply csafe_for_each
  | |- csafe _ (ret _) _ => apply csafe_ret
  | |- csafe _ (if ?b then _ else _) _ => first [apply csafe_if | destruct b]
  | |- csafe _ (match ?x with _ => _ end) _ => destruct x eqn:?
  | |- csafe _ _ _ => solve [eauto with csafe_ops]
  end.
Ltac csafe_run := repeat (intros; cbv zeta; csafe_step); try done.

Lemma csafe_editing m : safe c r True m anything → csafe never (editing_mutation m) anything.
Proof. intros Hm. apply csafe_catch; [by apply csafe_on_current|csafe_run]. Qed.

Lemma csafe_set_cursor_visible b : csafe never (set_cursor_visible b) anything.
Proof. unfold set_cursor_visible. csafe_run. Qed.
#[local] Hint Resolve csafe_editing csafe_set_cursor_visible : csafe_ops.

(** * Keyboard protocol and replies *)

Lemma csafe_keyboard {E} (P : E → Prop) : csafe P (gets keyboard) keyboard_ok.
Proof. apply csafe_gets. intros t []. unfold keyboard. case_match; naive_solver. Qed.

Lemma csafe_put_keyboard {E} (P : E → Prop) k :
  keyboard_ok k → csafe P (modify (set_keyboard k)) anything.
Proof.
  intros. apply csafe_modify. intros t []. unfold set_keyboard.
  case_match; split; simpl; naive_solver.
Qed.

Lemma csafe_sync {E} (P : E → Prop) : csafe P sync_keyboard_flags anything.
Proof.
  apply csafe_modify. intros t []. unfold set_keyboard, keyboard.
  destruct (alternate_screen _); split; simpl; try done;
    unfold keyboard_ok in *; simpl; naive_solver.
Qed.
#[local] Hint Resolve csafe_put_keyboard csafe_sync : csafe_ops.

Lemma csafe_set_keyboard_flags f m : csafe never (set_keyboard_flags f m) anything.
Proof.
  unfold set_keyboard_flags. csafe_step. intros now _. cbv zeta. case_match; [|csafe_run].
  eapply csafe_bind; [apply csafe_keyboard|]. intros k [Hk1 Hk2].
  apply (csafe_bind _ _ _ keyboard_ok); [|intros; csafe_run].
  unfold KEYBOARD_STACK_CAPACITY in *. apply csafe_if; intros ?; to_prop;
    (eapply csafe_bind; [apply csafe_vset; lia|]); intros st Hst; apply csafe_ret;
    unfold keyboard_ok, KEYBOARD_STACK_CAPACITY; simpl in *; lia.
Qed.

Lemma csafe_push f : csafe never (push_keyboard_flags f) anything.
Proof.
  unfold push_keyboard_flags. cbv zeta. eapply csafe_bind; [apply csafe_keyboard|].
  intros k [Hk1 Hk2]. unfold KEYBOARD_STACK_CAPACITY in *.
  apply (csafe_bind _ _ _ (λ k, vlen (kb_stack k) = 16 ∧ kb_len k < 16)).
  - apply csafe_if; intros ?; to_prop; [|apply csafe_ret; lia].
    destruct (vcopy_within_ok (kb_stack k) 1 (vlen (kb_stack k)) 0) as [st Hst]; [lia..|].
    eapply (csafe_bind _ _ _ (λ x, x = st)); [apply csafe_or_panic; eauto|].
    intros ? ->. apply csafe_ret. simpl. vlens. lia.
  - intros k' [Hl Hn]. eapply csafe_bind; [apply csafe_vset; lia|].
    intros st Hst. apply (csafe_bind _ _ _ anything); [|csafe_run].
    apply csafe_put_keyboard. unfold keyboard_ok, KEYBOARD_STACK_CAPACITY. simpl in *. lia.
Qed.

Lemma csafe_pop n : csafe never (pop_keyboard_flags n) anything.
Proof.
  unfold pop_keyboard_flags. eapply csafe_bind; [apply csafe_keyboard|].
  intros k [Hk1 Hk2]. cbv zeta. apply (csafe_bind _ _ _ anything).
  - apply csafe_if; intros ?; [by apply csafe_ret|]. to_prop. apply csafe_or_panic.
    destruct (vget_Some (kb_stack k) (kb_len k - N.min n (kb_len k) - 1)) as [x Hx]; [lia|].
    by exists x.
  - intros top _. apply (csafe_bind _ _ _ anything); [|csafe_run].
    apply csafe_put_keyboard. split; simpl; [done|lia].
Qed.

Lemma csafe_enqueue_reply x : csafe never (enqueue_protocol_reply x) anything.
Proof.
  intros t Ht. unfold enqueue_protocol_reply. wp_run; [by apply csafe_deferred|]. to_prop.
  split; [|done]. destruct Ht. split; simpl; try done. rewrite length_app. simpl. lia.
Qed.
#[local] Hint Resolve csafe_set_keyboard_flags csafe_push csafe_pop csafe_enqueue_reply : csafe_ops.

Lemma csafe_reply_with o e : ProtocolReply.reads_back o e → csafe never (reply_with o) anything.
Proof.
  intros (reply & bs & -> & _). unfold reply_with.
  eapply (csafe_bind _ _ _ (λ x, x = Some reply)); [by apply csafe_or_panic; eauto|].
  intros ? ->. csafe_run.
Qed.

Lemma csafe_reply_dsr : csafe never reply_dsr_cpr anything.
Proof.
  unfold reply_dsr_cpr. eapply csafe_bind.
  - apply (csafe_gets _ _ (λ x, row x ≤ u16_max ∧ col x ≤ u16_max)). intros t Ht.
    destruct (current_in t Ht) as ([] & ? & ?). unfold MAX_TERMINAL_ROWS, MAX_TERMINAL_COLUMNS in *.
    unfold u16_max. lia.
  - intros x [??]. eapply csafe_reply_with, encode_dsr_cpr_reads_back; done.
Qed.

Lemma csafe_reply_da : csafe never reply_primary_da anything.
Proof. eapply csafe_reply_with, encode_primary_da_reads_back. Qed.

Lemma csafe_reply_kitty : csafe never reply_kitty_flags anything.
Proof. unfold reply_kitty_flags. csafe_step. intros f _. eapply csafe_reply_with, encode_kitty_flags_reads_back. Qed.

Lemma csafe_reply_decrqm ps :
  Forall (λ v, v ≤ u16_max) ps → csafe never (reply_decrqm ps) anything.
Proof.
  intros Hps. unfold reply_decrqm. apply csafe_for_each. intros mode Hm.
  csafe_step. intros m _. case_match; [|csafe_run].
  eapply csafe_reply_with, encode_decrqm_private_reads_back.
  - rewrite Forall_forall in Hps. by apply Hps.
  - unfold u16_max. case_match; lia.
Qed.
#[local] Hint Resolve csafe_reply_dsr csafe_reply_da csafe_reply_kitty csafe_reply_decrqm : csafe_ops.

(** * The alternate screen *)

Lemma csafe_on_detached {A} s (m : SM A) (Q : A → Prop) :
  screen_in s → safe c r True m Q →
  csafe exhausted (on_detached s m) (λ p, screen_in p.2 ∧ Q p.1).
Proof.
  intros (? & ? & ?) Hm t Ht. assert (inv c r (mkWorld s (core_line_ids t) (grapheme_store t))) as Hi.
  { split; simpl; (done || apply Ht). }
  specialize (Hm _ Hi). unfold wp, on_detached in *.
  destruct (m _) as [a w|e w| |]; try done.
  - destruct Hm as [[] HQ]. split; [|done]. destruct Ht. by split.
  - destruct Hm as ([] & He & _). split; [|done]. destruct Ht. by split.
Qed.

Lemma csafe_new_screen retain :
  csafe exhausted (zoom core_line_ids (λ a t, t <| core_line_ids := a |>) (new_screen c r retain))
    screen_in.
Proof.
  intros t Ht. apply wp_zoom.
  eapply wp_mono; [apply (new_screen_wf c r retain), Ht| |].
  - intros s a (? & ? & ? & ?). split; [|done]. destruct Ht. by split.
  - intros e a [? [->|[_ ?]]]; [|lia]. split; [|done]. destruct Ht. by split.
Qed.

Lemma csafe_drop_alternate {E} (P : E → Prop) :
  csafe P (modify (λ t, t <| alternate := None |>)) anything.
Proof. apply csafe_modify. core_side. Qed.

Lemma csafe_set_alternate {E} (P : E → Prop) s :
  screen_in s → csafe P (modify (λ t, t <| alternate := Some s |>)) anything.
Proof. intros. apply csafe_modify. core_side. Qed.
#[local] Hint Resolve csafe_drop_alternate csafe_set_alternate : csafe_ops.

Lemma csafe_set_alternate_screen b : csafe exhausted (set_alternate_screen b) anything.
Proof.
  unfold set_alternate_screen. csafe_step. intros now _. apply csafe_if; intros _; [csafe_run|].
  csafe_step; [csafe_run|intros _ _]. csafe_step; [apply csafe_modify; core_side|intros _ _].
  csafe_step; [csafe_run|intros _ _]. apply csafe_if; intros _.
  - eapply csafe_bind; [apply (csafe_gets _ _ screen_in); by intros t []|].
    intros p (Hp & -> & ->). eapply csafe_bind; [apply csafe_new_screen|]. intros s Hs.
    eapply csafe_bind; [apply csafe_on_detached; [done|by apply safe_inherit_pen, (w_pen p Hp)]|]. intros [[] s'] [Hs' _].
    csafe_run.
  - eapply csafe_bind.
    { apply (csafe_gets _ _ (λ o, ∀ s, o = Some s → screen_in s)). by intros t []. }
    intros alt Halt. csafe_step; [|intros; csafe_run]. destruct alt as [s|]; [|csafe_run].
    csafe_step; [csafe_run|intros _ _].
    eapply csafe_bind; [by apply csafe_on_detached, safe_release_all_payloads; [apply Halt|..]|].
    intros. csafe_run.
Qed.

(** * Printing *)

Lemma grapheme_terminal_width_le text amb : grapheme_terminal_width text amb ≤ 2.
Proof. unfold grapheme_terminal_width. repeat case_match; lia. Qed.

Lemma lead_from_admit_ok ch w st adm :
  is_scalar ch = true → style_in st → 1 ≤ w → w ≤ 2 → cell_ok (lead_from_admit ch w st adm).
Proof. intros. by destruct adm. Qed.

(** Inserting text keeps a store of text. *)
Lemma insert_text_ok {E} p rel g :
  store_ok g → (p ≠ [] → is_text p) →
  wp (E := E) (insert_replacing p rel) (λ _ g', store_ok g') (λ _ _, False) g.
Proof.
  intros [Hg Ht] Hp. assert (∀ j q, get j (released rel g) = Some q → is_text q) as Hr.
  { intros j q. destruct rel as [id|]; [|apply Ht]. cbn. rewrite get_release. destruct (_ =? _); [done|apply Ht]. }
  eapply wp_mono; [by apply insert_replacing_spec with (F := λ _ _, False)| |done].
  intros adm g' [Hg' Hadm]. split; [done|]. intros j q Hq. destruct adm as [|id|].
  - destruct Hadm as [_ Hsame]. rewrite Hsame in Hq. eauto.
  - destruct Hadm as (_ & _ & Hid & Hother). destruct (decide (j = id)) as [->|Hne].
    + rewrite Hid in Hq. injection Hq as <-. apply Hp. intros ->.
      assert (sw : store_wf g') by done. unfold get in Hid. destruct (_ =? _); [done|].
      destruct (entries g' !! N.to_nat id) as [[x|]|] eqn:Hx; cbn in Hid; simplify_eq. by destruct (sw_payload g' sw _ _ Hx).
    + rewrite Hother in Hq by done. eauto.
  - destruct Hadm as [Hsame _]. rewrite Hsame in Hq. eauto.
Qed.

Lemma build_lead_cell_ok {E} text w st ov rel g :
  w ≤ 2 → style_in st → Forall (λ ch, is_scalar ch = true) text → store_ok g →
  wp (E := E) (build_lead_cell text w st ov rel) (λ x g', store_ok g' ∧ cell_ok x) (λ _ _, False) g.
Proof.
  intros Hw Hst Htext Hg. assert (is_scalar (default 65533 (head text)) = true) as Hch by (by destruct Htext).
  assert (∀ ch adm, is_scalar ch = true → cell_ok (lead_from_admit ch (N.max w 1) st adm)) as Hok.
  { intros. apply lead_from_admit_ok; [done..|lia|lia]. }
  unfold build_lead_cell. destruct ov; [by apply wp_ret; auto|]. cbv zeta.
  destruct (negb _); apply wp_bind; (eapply wp_mono; [apply insert_text_ok; [done|]| |done]); try done.
  - intros adm g' Hg'. apply wp_ret. split; [done|]. by apply (Hok _ Inline).
  - destruct text as [|ch chars]; [done|]. by exists ch, chars.
  - intros adm g' Hg'. apply wp_ret. auto.
Qed.

Lemma csafe_build_lead {E} (P : E → Prop) text w st ov rel :
  w ≤ 2 → style_in st → Forall (λ ch, is_scalar ch = true) text →
  csafe P (on_store (build_lead_cell text w st ov rel)) cell_ok.
Proof. intros. apply csafe_on_store. intros g Hg. by apply build_lead_cell_ok. Qed.

Lemma csafe_append_payload {E} (P : E → Prop) a ch amb :
  is_scalar ch = true → active_ok a →
  csafe P (on_store (append_payload a ch amb)) (λ p, active_ok p.1 ∧ ar_width p.2 ≤ 2).
Proof.
  intros Hch Ha. pose proof Ha as (? & ? & Hw & ? & Ht). apply csafe_on_store. intros g Hg. unfold append_payload.
  destruct (ag_overflow a). { by apply wp_ret. }
  destruct (_ <? _).
  - apply wp_bind, wp_modify. cbv zeta. apply wp_bind.
    assert (store_ok (g <| grapheme_payload_overflow_count := bump (grapheme_payload_overflow_count g) |>)) as Hg'.
    { split; [by apply (store_wf_counters g _ 0), Hg|]. apply Hg. }
    destruct (negb _); [apply wp_bind, wp_modify|]; repeat apply wp_ret; simpl; (split; [|done]); [by apply store_ok_release|done].
  - apply wp_ret. split; [done|]. split; [|apply grapheme_terminal_width_le]. unfold active_ok. simpl.
    split_and!; try done. apply Forall_app. by repeat constructor.
Qed.

Lemma csafe_store_id_at cc rr : csafe exhausted (store_id_at cc rr) anything.
Proof.
  unfold store_id_at. eapply csafe_bind; [apply csafe_gets, current_in|].
  intros s (Hs & Hcs & Hrs). csafe_step; [|intros; csafe_run]. apply csafe_or_panic.
  unfold cell. destruct (_ || _) eqn:Hb; to_prop; [by eexists|].
  destruct (vget_Some (cells s) (index_of s cc rr)) as [x Hx].
  { rewrite (proj1 (w_cells s Hs)). unfold index_of. rewrite Hcs, Hrs in *. by apply grid_index. }
  rewrite Hx. by eexists.
Qed.
#[local] Hint Resolve csafe_store_id_at csafe_set_active : csafe_ops.

Lemma csafe_current_cols {E} (P : E → Prop) : csafe P (gets (λ t, cols (current t))) (λ x, x = c).
Proof. apply csafe_gets. intros t Ht. apply (current_in t Ht). Qed.

Lemma csafe_place lead wrap :
  cell_ok lead → csafe exhausted (on_current (place_new_unit lead wrap)) (λ p, p.1.2 < c ∧ p.2 < r).
Proof. intros. by apply csafe_on_current, safe_place_new_unit. Qed.

Lemma csafe_replace_on_next_row a w wrap :
  active_ok a → w ≤ 2 → csafe exhausted (replace_on_next_row a w wrap) anything.
Proof.
  intros Ha Hw. pose proof Ha as (_ & _ & _ & Hst & Ht). unfold replace_on_next_row.
  eapply csafe_bind; [by apply csafe_on_current, safe_clear_unit_at|]. intros m _.
  eapply csafe_bind; [by apply csafe_on_current, safe_set_pending_wrap|]. intros _ _.
  eapply csafe_bind; [by apply csafe_build_lead|]. intros lead Hlead.
  eapply csafe_bind; [by apply csafe_place|]. intros [[[m' soft] cc] rr] [Hcc Hrr].
  eapply csafe_bind; [apply csafe_store_id_at|]. intros id _.
  csafe_step; [|intros; csafe_run]. by apply csafe_set_active.
Qed.

Lemma csafe_rewrite_active a w pw :
  active_ok a → w ≤ 2 → csafe exhausted (rewrite_active a w pw) anything.
Proof.
  intros (Hcc & Hrr & Hpw & Hst & Ht) Hw. unfold rewrite_active. cbv zeta.
  eapply csafe_bind; [apply csafe_build_lead; simpl; done || lia|]. intros lead Hlead.
  eapply csafe_bind; [by apply csafe_on_current, safe_replace_active_lead|]. intros m _.
  csafe_step.
  - apply csafe_if; intros _; [|csafe_run].
    eapply csafe_bind; [apply csafe_current_cols|]. intros ? ->. apply csafe_if; intros _.
    + csafe_step; [by apply csafe_on_current, safe_set_col|intros].
      by apply csafe_on_current, safe_set_pending_wrap.
    + csafe_step; [by apply csafe_on_current, safe_set_col|intros; csafe_run].
  - intros _ _. csafe_step; [|intros; csafe_run]. by apply csafe_set_active.
Qed.

Lemma edge_decision_late_widen_ok cc w wrap :
  cc < c → ∃ d, edge_decision_late_widen cc c w wrap = Some d.
Proof.
  intros. unfold edge_decision_late_widen, checked_add, checked_sub, u16_max, MAX_TERMINAL_COLUMNS in *.
  repeat (case_match; simplify_option_eq; eauto; try lia).
Qed.

Lemma edge_decision_new_unit_ok cc w wrap :
  cc < c → ∃ d, edge_decision_new_unit cc c w wrap = Some d.
Proof.
  intros. unfold edge_decision_new_unit, checked_add, u16_max, MAX_TERMINAL_COLUMNS in *.
  repeat (case_match; simplify_option_eq; eauto; try lia).
Qed.

Lemma csafe_append_to_active ch wrap amb : is_scalar ch = true → csafe exhausted (append_to_active ch wrap amb) anything.
Proof.
  intros Hch. unfold append_to_active. eapply csafe_bind.
  { apply (csafe_gets _ _ (λ o, ∀ a, o = Some a → active_ok a)). by intros t []. }
  intros [a|] Ha; [|csafe_run]. specialize (Ha a eq_refl).
  csafe_step; [apply csafe_invalidate|intros _ _]. cbv zeta.
  eapply csafe_bind; [by apply csafe_append_payload|]. intros [a' res] [Ha' Hres]. simpl in *.
  apply csafe_if; intros _; [|by apply csafe_rewrite_active].
  eapply csafe_bind; [apply csafe_current_cols|]. intros ? ->.
  eapply (csafe_bind _ _ _ anything).
  { apply csafe_or_panic. destruct (edge_decision_late_widen_ok (ag_col a') (ar_width res) wrap)
      as [d Hd]; [apply Ha'|]. by exists d. }
  intros d _.
  assert (∀ k, csafe exhausted (set_active (a' <| ag_utf8 := take k (ag_utf8 a') |>) ;;; ret mut_none) anything) as Hrej.
  { intros k. csafe_step; [apply csafe_set_active|intros; csafe_run].
    destruct Ha' as (? & ? & ? & ? & ?). unfold active_ok. simpl. split_and!; try done. by apply Forall_take. }
  destruct d; try apply Hrej. eapply (csafe_bind _ _ _ anything).
  { apply csafe_or_panic. unfold checked_add, u16_max, MAX_TERMINAL_COLUMNS in *. destruct Ha' as [? _].
    destruct (_ <=? _) eqn:?; to_prop; [by eexists|lia]. }
  intros next _. apply csafe_if; intros _; [by apply csafe_replace_on_next_row|by apply csafe_rewrite_active].
Qed.

Lemma csafe_print_new_unit ch core wrap amb st :
  is_scalar ch = true → style_in st → csafe exhausted (print_new_unit ch core wrap amb st) anything.
Proof.
  intros Hch Hst. assert (Forall (λ ch, is_scalar ch = true) [ch]) as Htext by by repeat constructor.
  unfold print_new_unit. cbv zeta. set (w := if core then _ else _).
  assert (w ≤ 2) as Hw.
  { pose proof (grapheme_terminal_width_le [ch] amb). unfold w. case_match; lia. }
  apply csafe_if; intros _; [csafe_run|].
  eapply csafe_bind; [apply csafe_gets, current_in|]. intros s (Hs & Hcs & Hrs). rewrite Hcs.
  eapply (csafe_bind _ _ _ anything).
  { apply csafe_or_panic. destruct (edge_decision_new_unit_ok (col (cursor s)) w wrap) as [d Hd].
    { rewrite <-Hcs. apply Hs. } by exists d. }
  intros d _.
  assert (csafe exhausted
    (let! lead := on_store (build_lead_cell [ch] w st false None) in
     let! (m, _, lead_col, lead_row) := on_current (place_new_unit lead wrap) in
     let! id := store_id_at lead_col lead_row in
     set_active (mkActive lead_col lead_row [ch] w st id false) ;;; ret m) anything) as Hplace.
  { eapply csafe_bind; [by apply csafe_build_lead|]. intros lead Hlead.
    eapply csafe_bind; [by apply csafe_place|]. intros [[[m soft] cc] rr] [Hcc Hrr].
    eapply csafe_bind; [apply csafe_store_id_at|]. intros id _.
    csafe_step; [|intros; csafe_run]. by apply csafe_set_active. }
  destruct d; [exact Hplace|csafe_run|exact Hplace].
Qed.
#[local] Hint Resolve csafe_append_to_active csafe_print_new_unit : csafe_ops.

Lemma csafe_pen {E} (P : E → Prop) : csafe P (gets (λ t, pen (current t))) style_in.
Proof. apply csafe_gets. intros t Ht. destruct (current_in t Ht) as [Hs _]. apply (w_pen _ Hs). Qed.

Lemma csafe_print_scalar ch : is_scalar ch = true → csafe exhausted (print_scalar ch) anything.
Proof.
  intros Hch. unfold print_scalar. do 2 (csafe_step; intros ? _).
  eapply csafe_bind; [apply csafe_pen|]. intros st Hst. csafe_run.
Qed.

Lemma csafe_execute_current byte : csafe exhausted (execute_current byte) anything.
Proof.
  unfold execute_current. csafe_step; [csafe_run|intros _ _].
  by apply csafe_on_current, safe_execute.
Qed.

Lemma csafe_perform m : csafe exhausted m anything → csafe never (perform_mutation m) anything.
Proof.
  intros Hm. unfold perform_mutation. csafe_step. intros f _. destruct f; [csafe_run|].
  apply csafe_catch; [|csafe_run]. csafe_step; [exact Hm|intros; csafe_run].
Qed.

(** * Dispatch *)

Lemma csafe_set_private_modes b ps : csafe never (set_private_modes b ps) anything.
Proof.
  induction ps as [|mode ps IH]; cbn [set_private_modes]; [csafe_run|].
  apply csafe_if; intros _.
  - csafe_step.
    + apply csafe_catch; [csafe_step; [apply csafe_set_alternate_screen|intros; csafe_run]|csafe_run].
    + intros ok _. destruct ok; [exact IH|csafe_run].
  - csafe_step; [|intros; exact IH]. unfold set_private_mode, set_mouse_reporting. csafe_run.
Qed.

Lemma csafe_keyboard_csi marker ps : csafe never (keyboard_csi marker ps) anything.
Proof. unfold keyboard_csi. csafe_run. Qed.
#[local] Hint Resolve csafe_set_private_modes csafe_keyboard_csi : csafe_ops.

Lemma csafe_moved (m : SM Mutation) :
  safe c r False m anything →
  csafe never (invalidate_active_grapheme ;;; on_current' m) anything.
Proof. intros. csafe_step; [csafe_run|intros; by apply csafe_on_current']. Qed.

Lemma csafe_edited (m : SM Mutation) :
  safe c r True m anything →
  csafe never (invalidate_active_grapheme ;;; editing_mutation m) anything.
Proof. intros. csafe_step; csafe_run. Qed.

Lemma csafe_public_csi ps final : csafe never (public_csi ps final) anything.
Proof.
  unfold public_csi. cbv zeta. repeat (apply csafe_if; intros _).
  all: lazymatch goal with
  | |- csafe _ (_ ;;; on_current' _) _ => apply csafe_moved
  | |- csafe _ (_ ;;; editing_mutation _) _ => apply csafe_edited
  | _ => idtac
  end.
  all: lazymatch goal with
  | |- safe _ _ _ (cursor_up _) _ => by apply safe_cursor_up
  | |- safe _ _ _ (cursor_down _) _ => by apply safe_cursor_down
  | |- safe _ _ _ (cursor_forward _) _ => by apply safe_cursor_forward
  | |- safe _ _ _ (cursor_back _) _ => by apply safe_cursor_back
  | |- safe _ _ _ (set_cursor _ _) _ => by apply safe_set_cursor
  | |- safe _ _ _ (set_col _) _ => by apply safe_set_col
  | |- safe _ _ _ (set_row _) _ => by apply safe_set_row
  | |- safe _ _ _ restore_cursor _ => by apply safe_restore_cursor
  | |- safe _ _ _ (set_scroll_region _ _) _ => by apply safe_set_scroll_region
  | |- safe _ _ _ (erase_display _) _ => by apply safe_erase_display
  | |- safe _ _ _ (erase_line _) _ => by apply safe_erase_line
  | |- safe _ _ _ (insert_characters _) _ => by apply safe_insert_characters
  | |- safe _ _ _ (delete_characters _) _ => by apply safe_delete_characters
  | |- safe _ _ _ (erase_characters _) _ => by apply safe_erase_characters
  | |- safe _ _ _ (insert_lines _) _ => by apply safe_insert_lines
  | |- safe _ _ _ (delete_lines _) _ => by apply safe_delete_lines
  | |- safe _ _ _ (scroll_up _ _) _ => by apply safe_scroll_up
  | |- safe _ _ _ (scroll_down _) _ => by apply safe_scroll_down
  | |- csafe _ (on_current' save_cursor ;;; _) _ =>
    csafe_step; [by apply csafe_on_current', safe_save_cursor|intros; csafe_run]
  | |- csafe _ (bind (on_current' _) _) _ =>
    csafe_step; [by apply csafe_on_current', safe_apply_sgr|intros; csafe_run]
  | _ => csafe_run
  end.
Qed.
#[local] Hint Resolve csafe_public_csi : csafe_ops.

Lemma csafe_dispatch_csi ps priv ignored final :
  Forall (λ v, v ≤ u16_max) ps → csafe never (dispatch_csi ps priv ignored final) anything.
Proof. intros. unfold dispatch_csi. csafe_run. Qed.

Lemma csafe_dispatch_esc final inter : csafe never (dispatch_esc final inter) anything.
Proof.
  unfold dispatch_esc. csafe_step. intros f _. destruct f; [csafe_run|].
  apply csafe_if; intros _; [csafe_run|]. csafe_step; [|intros; csafe_run].
  repeat (apply csafe_if; intros _).
  - csafe_run.
  - csafe_run.
  - csafe_step; [by apply csafe_on_current', safe_save_cursor|intros; csafe_run].
  - by apply csafe_on_current', safe_restore_cursor.
  - by apply csafe_edited, safe_line_feed.
  - by apply csafe_edited, safe_reverse_index.
  - by apply csafe_edited, safe_next_line.
  - csafe_run.
Qed.

Lemma csafe_enqueue_presentation e : csafe never (enqueue_presentation e) anything.
Proof.
  intros t Ht. unfold enqueue_presentation. wp_run; [by apply csafe_deferred|]. to_prop.
  split; [|done]. destruct Ht. split; simpl; try done. rewrite length_app. simpl. lia.
Qed.
#[local] Hint Resolve csafe_enqueue_presentation : csafe_ops.

Lemma csafe_dispatch_osc bs tr : csafe never (dispatch_osc bs tr) anything.
Proof.
  unfold dispatch_osc. csafe_step. intros f _. destruct f; [csafe_run|].
  apply csafe_if; intros _; [csafe_run|]. case_match; [csafe_run|].
  csafe_step. intros alt _. apply csafe_if; intros _; [csafe_run|].
  csafe_step. intros now _. csafe_step. intros d _. case_match; [|csafe_run].
  intros t Ht. wp_run; [by apply csafe_deferred|]. to_prop.
  split; [|done]. destruct Ht. split; simpl; try done. rewrite length_app. simpl. lia.
Qed.

Lemma csafe_perform_event e :
  Parser.event_ok e → csafe never (Parser.perform e) anything.
Proof.
  intros He. destruct e; simpl in *.
  - by apply csafe_perform, csafe_print_scalar.
  - apply csafe_perform, csafe_execute_current.
  - apply csafe_dispatch_csi, He.
  - apply csafe_dispatch_esc.
  - apply csafe_dispatch_osc.
  - unfold when_live. csafe_run.
  - unfold when_live. csafe_run.
Qed.

Lemma csafe_replay es :
  Forall Parser.event_ok es → csafe never (Parser.replay es) anything.
Proof.
  intros Hes. apply csafe_for_each. intros e He. apply csafe_perform_event.
  rewrite Forall_forall in Hes. by apply Hes.
Qed.
End core_safe.

(** * The terminal *)

Section terminal.
Context {H : Type} `{HistoryLaws H} `{UnicodeTables} `{DequeCapacity}.

(** The sizes a terminal can have. *)
Definition size_ok (c r : N) : Prop :=
  1 ≤ c ∧ c ≤ MAX_TERMINAL_COLUMNS ∧ 1 ≤ r ∧ r ≤ MAX_TERMINAL_ROWS.

Definition terminal_wf (c r : N) (t : TerminalState H) : Prop :=
  size_ok c r ∧ Parser.quiescent t.1 ∧ core_inv c r t.2.

Lemma core_inv_commit c r (t : TerminalCore H) :
  core_inv c r t → core_inv c r (t <| damage := commit (damage t) |>).
Proof. by intros []; split. Qed.

(** Any parser program whose effect on the core is the replay of well-formed calls. *)
Lemma with_fault_check_wf c r m (t : TerminalState H) :
  terminal_wf c r t →
  (∃ p' es, Parser.quiescent p' ∧ Forall Parser.event_ok es ∧ m t = Parser.after es tt p' t.2) →
  wp (with_fault_check m) (λ _ t', terminal_wf c r t' ∧ fault t'.2 = None)
    (λ e t', terminal_wf c r t' ∧ e = LineIdentityExhausted ∧ fault t'.2 = Some e) t.
Proof.
  intros Hwf (p' & es & Hq & Hes & Hm). pose proof Hwf as (Hsz & Hqp & Ht).
  unfold with_fault_check. apply wp_bind, wp_gets.
  destruct (fault t.2) as [e|] eqn:Hf.
  { apply wp_fail. split_and!; [done| |done]. by eapply ci_fault. }
  pose proof Hsz as (? & ? & ? & ?).
  pose proof (csafe_replay c r) as Hrep. do 4 (specialize (Hrep ltac:(done))).
  specialize (Hrep es Hes t.2 Ht). apply wp_bind. unfold wp in *. rewrite Hm. unfold Parser.after.
  destruct (Parser.replay es t.2) as [[] a|[]| |]; try done. destruct Hrep as [Ha _].
  unfold bind, gets, modify. cbn [fst snd]. apply core_inv_commit in Ha.
  match goal with |- context [fault ?x] => set (a' := x) in * end.
  destruct (fault a') as [e|] eqn:Hf'; simpl; split_and!; try done. by eapply ci_fault.
Qed.

Lemma feed_wf c r bytes (t : TerminalState H) :
  terminal_wf c r t → Parser.bytes_ok bytes →
  wp (feed bytes) (λ _ t', terminal_wf c r t' ∧ fault t'.2 = None)
    (λ e t', terminal_wf c r t' ∧ e = LineIdentityExhausted ∧ fault t'.2 = Some e) t.
Proof.
  intros Ht Hb. apply with_fault_check_wf; [done|]. destruct t as [p core].
  destruct (Parser.feed_log p bytes [] (proj1 (proj2 Ht)) Hb) as (p' & es & Hf & Hq & Hes).
  exists p', es. split_and!; [done..|]. by apply (Parser.feed_natural _ _ _ _ [] Hf).
Qed.

Lemma finish_input_wf c r (t : TerminalState H) :
  terminal_wf c r t →
  wp finish_input (λ _ t', terminal_wf c r t' ∧ fault t'.2 = None)
    (λ e t', terminal_wf c r t' ∧ e = LineIdentityExhausted ∧ fault t'.2 = Some e) t.
Proof.
  intros Ht. apply with_fault_check_wf; [done|]. destruct t as [p core].
  destruct (Parser.finish_log p [] (proj1 (proj2 Ht))) as (p' & es & Hf & Hq & Hes).
  exists p', es. split_and!; [done..|]. by apply (Parser.finish_natural _ _ _ [] Hf).
Qed.

(** ** The host's input and output calls *)

(** The calls that change a terminal of a fixed size through its byte stream and its queues.  Not
    among them: [resize], the eviction of history and the selection, search and copy-mode calls. *)
Inductive host_call :=
| HFeed (bytes : list N)
| HFinishInput
| HSetAmbiguousWidth (policy : AmbiguousWidthPolicy)
| HTakeDamage
| HTakeShellEvent
| HTakePresentationEvent
| HTakeReply.

Definition host_call_ok (k : host_call) : Prop :=
  match k with HFeed bytes => Parser.bytes_ok bytes | _ => True end.

(** A host keeps calling after an [Err]. *)
Definition attempt {A} (m : M TerminalError (TerminalState H) A) : M Empty_set (TerminalState H) unit := λ t,
  match m t with
  | Ret _ t | Fail _ t => Ret tt t
  | Panic => Panic
  | NoFuel => NoFuel
  end.

Definition run_host_call (k : host_call) : M Empty_set (TerminalState H) unit :=
  match k with
  | HFeed bytes => attempt (feed bytes)
  | HFinishInput => attempt finish_input
  | HSetAmbiguousWidth policy => attempt (set_ambiguous_width_policy policy)
  | HTakeDamage => attempt take_damage_event
  | HTakeShellEvent => attempt take_shell_integration_event
  | HTakePresentationEvent => attempt take_host_presentation_event
  | HTakeReply => attempt take_protocol_reply
  end.

Lemma wp_attempt {A} (m : M TerminalError (TerminalState H) A) I t :
  wp m (λ _, I) (λ _, I) t → wp (attempt m) (λ _, I) (λ _ _, False) t.
Proof. unfold wp, attempt. by destruct (m t). Qed.

Lemma vlen_tail {A} (l : list A) n : vlen l ≤ n → vlen (tail l) ≤ n.
Proof. destruct l; simpl; lia. Qed.

Lemma run_host_call_wf c r k (t : TerminalState H) :
  terminal_wf c r t → host_call_ok k →
  wp (run_host_call k) (λ _, terminal_wf c r) (λ _ _, False) t.
Proof.
  intros Ht Hk. destruct k; simpl in *; apply wp_attempt.
  - eapply wp_mono; [by apply feed_wf|naive_solver..].
  - eapply wp_mono; [by apply finish_input_wf|naive_solver..].
  - apply wp_modify. case_bool_decide; [done|]. destruct Ht as (? & ? & []).
    split; [done|]. split; [done|]. by split.
  - apply wp_bind, wp_gets, wp_bind, wp_modify, wp_ret.
    destruct Ht as (? & ? & []).
    split; [done|]. split; [done|]. by split.
  - apply wp_bind, wp_gets, wp_bind, wp_modify, wp_ret.
    destruct Ht as (? & ? & []).
    split; [done|]. split; [done|]. split; simpl; try done; by apply vlen_tail.
  - apply wp_bind, wp_gets, wp_bind, wp_modify, wp_ret.
    destruct Ht as (? & ? & []).
    split; [done|]. split; [done|]. split; simpl; try done; by apply vlen_tail.
  - apply wp_bind, wp_gets, wp_bind, wp_modify, wp_ret.
    destruct Ht as (? & ? & []).
    split; [done|]. split; [done|]. split; simpl; try done; by apply vlen_tail.
Qed.

Lemma new_terminal_wf c r :
  size_ok c r →
  ∃ t a, new_terminal (H := H) c r new_allocator = Ret t a ∧ terminal_wf c r t ∧ fault t.2 = None.
Proof.
  intros Hsz. pose proof Hsz as (? & ? & ? & ?).
  assert (alloc_wf new_allocator) as Ha by by intros n [= <-].
  pose proof (new_screen_wf (H := H) c r true _ Ha) as Hn.
  assert (can_allocate r new_allocator = true) as Hcan.
  { unfold MAX_TERMINAL_ROWS in *. unfold can_allocate, new_allocator, checked_add, u64_max. simpl.
    destruct (_ =? 0); [done|]. destruct (_ <=? _) eqn:?; to_prop; [done|lia]. }
  unfold new_terminal, new_core, bind, wp in *.
  destruct (new_screen c r true new_allocator) as [s a|e a| |] eqn:Hrun; try done.
  - eexists _, _. split; [done|]. destruct Hn as (? & ? & ? & ?). split; [|done].
    split_and!; [apply Hsz..|apply Parser.new_parser_quiescent|].
    split; simpl; try done; try (pose proof deque_capacity_ge; lia).
    apply store_ok_default.
  - destruct Hn as [_ [->|[_ ?]]]; [|lia]. exfalso. unfold new_screen in Hrun.
    assert ((c =? 0) || (r =? 0) = false) as E1 by lia.
    assert ((MAX_TERMINAL_COLUMNS <? c) || (MAX_TERMINAL_ROWS <? r) = false) as E2 by lia.
    rewrite E1, E2 in Hrun. unfold bind, gets in Hrun. rewrite Hcan in Hrun. simpl in Hrun.
    destruct (allocate_n_ok (N.to_nat r) new_allocator) as (ids & a' & Hall & _);
      [done|by rewrite N2Nat.id|]. by rewrite Hall in Hrun.
Qed.

(** C10. The terminal's input and output calls are total.  A terminal of any supported size can
    be created, and no sequence of calls that feed bytes (any bytes in any pieces), end the
    input, change the width policy or drain damage, events and replies, also going on after an
    error, ever panics or fails to return; at the end the whole invariant holds at the size
    the terminal was created with: both screens well formed and of that size, identity
    allocator and grapheme store consistent, keyboard stacks and queues within their capacity,
    the active grapheme inside the grid, and no fault but the exhausted allocator.  Resizing,
    eviction and the selection, search and copy-mode calls are not among these calls. *)
Theorem terminal_total (c r : N) (calls : list host_call) :
  size_ok c r → Forall host_call_ok calls →
  ∃ t a t', new_terminal (H := H) c r new_allocator = Ret t a ∧
    for_each calls run_host_call t = Ret tt t' ∧ terminal_wf c r t'.
Proof.
  intros Hsz Hcalls. destruct (new_terminal_wf c r Hsz) as (t & a & Hnew & Ht & _).
  assert (wp (for_each calls run_host_call) (λ _, terminal_wf c r) (λ _ _, False) t) as Hw.
  { clear Hnew. revert t Ht. induction Hcalls as [|k calls Hk _ IH]; intros t Ht; [done|].
    apply wp_bind. eapply wp_mono; [by apply run_host_call_wf| |done]. auto. }
  unfold wp in Hw. destruct (for_each calls run_host_call t) as [[] t'| | |] eqn:?; try done.
  by exists t, a, t'.
Qed.
End terminal.

(** ** A concrete terminal *)

(** Tables that know the combining diacritics and the CJK ideographs, and a deque that
    reserves exactly what it is asked for. *)
Definition demo_tables : UnicodeTables := {|
  grapheme_count text := vlen (filter (λ ch, inr 768 879 ch = false) text);
  char_width ch := if inr 768 879 ch then Some 0 else if inr 19968 40959 ch then Some 2 else Some 1;
  char_width_cjk ch := if inr 768 879 ch then Some 0 else if inr 19968 40959 ch then Some 2 else Some 1;
|}.
Definition exact_capacity : DequeCapacity := {| deque_capacity n := n; deque_capacity_ge := N.le_refl |}.

(** [A], a combining accent, a wide character, a scroll by line feeds, an alternate-screen
    round trip, a status report and a truncated UTF-8 sequence. *)
Definition demo_input : list N :=
  [65; 204; 129; 228; 184; 150; 10; 10; 10; 27; 91; 63; 49; 48; 52; 57; 104; 66; 27; 91; 63; 49;
   48; 52; 57; 108; 27; 91; 54; 110; 228; 184].

Lemma terminal_total_witness :
  ∃ t a t', new_terminal (H := list HistoryLine) 4 2 new_allocator = Ret t a ∧
    for_each [HFeed demo_input; HTakeReply; HTakeDamage; HSetAmbiguousWidth Wide; HFinishInput]
      (@run_host_call (list HistoryLine) _ demo_tables exact_capacity) t = Ret tt t' ∧
    @terminal_wf (list HistoryLine) _ _ exact_capacity 4 2 t'.
Proof.
  apply (@terminal_total (list HistoryLine) _ _ demo_tables exact_capacity 4 2
    [HFeed demo_input; HTakeReply; HTakeDamage; HSetAmbiguousWidth Wide; HFinishInput]).
  - unfold size_ok, MAX_TERMINAL_COLUMNS, MAX_TERMINAL_ROWS. lia.
  - repeat constructor; simpl; lia.
Defined.
