(* ===== verification/CoreChunks.v ===== *)
(** How the input is cut into [feed] calls does not matter.

    The only part of the core a [feed] call itself touches is the damage tracker, which it
    commits when it returns.  [same] is equality of cores up to that tracker; every
    operation of the core respects it, so the commits between two pieces of the input are
    not observable in anything else. *)

From S2P Require Import Parser.
From S2P Require Import Prelude Types Utf8 Damage LineIds GraphemeStore HistoryTypes Screen.
From S2P Require Import ScreenSafe Grapheme Osc ProtocolReply Core CoreSafe.

#[local] Existing Instance Parser.log_actions.

Section chunks.
Context {H : Type} `{HistoryLog H} `{UnicodeTables} `{DequeCapacity}.
Implicit Types (t : TerminalCore H) (d : DamageTracker).

(** Equal up to the damage tracker. *)
Definition same (t t' : TerminalCore H) : Prop := t <| damage := damage t' |> = t'.

Lemma same_intro t d : same t (t <| damage := d |>).
Proof. by destruct t. Qed.

Lemma same_elim t t' : same t t' → ∃ d, t' = t <| damage := d |>.
Proof. unfold same. eauto. Qed.

#[global] Instance same_equivalence : Equivalence same.
Proof.
  split.
  - by intros [].
  - by intros t t' [d ->]%same_elim; destruct t.
  - by intros t t' t'' [d ->]%same_elim [d' ->]%same_elim; destruct t.
Qed.

(** Outcomes with the same result and states related by [same]. *)
Inductive same_outcome {E A} : relation (outcome E (TerminalCore H) A) :=
| same_Ret a t t' : same t t' → same_outcome (Ret a t) (Ret a t')
| same_Fail e t t' : same t t' → same_outcome (Fail e t) (Fail e t')
| same_Panic : same_outcome Panic Panic
| same_NoFuel : same_outcome NoFuel NoFuel.

(** The operation neither reads nor reports the damage tracker. *)
Definition blind {E A} (m : M E (TerminalCore H) A) : Prop := Proper (same ==> same_outcome) m.

Section rules.
Context {E : Type}.

Lemma blind_ret {A} (a : A) : blind (E := E) (ret a).
Proof. intros t t' Ht. by constructor. Qed.

Lemma blind_fail {A} (e : E) : blind (A := A) (fail e).
Proof. intros t t' Ht. by constructor. Qed.

Lemma blind_or_panic {A} (o : option A) : blind (E := E) (or_panic o).
Proof. intros t t' Ht. destruct o; by constructor. Qed.

Lemma blind_bind {A B} (m : M E (TerminalCore H) A) (k : A → M E (TerminalCore H) B) :
  blind m → (∀ a, blind (k a)) → blind (bind m k).
Proof.
  intros Hm Hk t t' Ht. unfold bind. destruct (Hm t t' Ht) as [a u u' Hu| | |]; try by constructor.
  by apply Hk.
Qed.

Lemma blind_gets {A} (f : TerminalCore H → A) :
  (∀ t d, f (t <| damage := d |>) = f t) → blind (E := E) (gets f).
Proof. intros Hf t t' [d ->]%same_elim. unfold gets. rewrite Hf. constructor. apply same_intro. Qed.

Lemma blind_modify f :
  (∀ t d, same (f t) (f (t <| damage := d |>))) → blind (E := E) (modify f).
Proof. intros Hf t t' [d ->]%same_elim. constructor. apply Hf. Qed.

Lemma blind_for_each {X} (xs : list X) (body : X → M E (TerminalCore H) unit) :
  (∀ x, blind (body x)) → blind (for_each xs body).
Proof. intros Hb. induction xs as [|x xs IH]; [apply blind_ret|]. by apply blind_bind. Qed.

(** Part of the core other than the tracker. *)
Lemma blind_zoom {T A} (get : TerminalCore H → T) (put : T → TerminalCore H → TerminalCore H)
    (m : M E T A) :
  (∀ t d, get (t <| damage := d |>) = get t) →
  (∀ x t d, same (put x t) (put x (t <| damage := d |>))) → blind (zoom get put m).
Proof.
  intros Hg Hp t t' [d ->]%same_elim. unfold zoom. rewrite Hg.
  destruct (m (get t)); constructor; apply Hp.
Qed.
End rules.

Lemma blind_catch {A} (m : RM A) (h : TerminalError → CM A) :
  blind m → (∀ e, blind (h e)) → blind (catch m h).
Proof.
  intros Hm Hh t t' Ht. unfold catch. destruct (Hm t t' Ht) as [|e u u' Hu| |]; try by constructor.
  by apply Hh.
Qed.

(** Closes [same (f t) (f (t <| damage := d |>))] by cases on what [f] inspects. *)
Ltac same_cases :=
  intros; unfold same, set_keyboard, keyboard;
  repeat match goal with t : TerminalCore _ |- _ => destruct t end;
  cbn; repeat case_match; reflexivity.

Lemma blind_on_current {A} (m : SM A) : blind (on_current m).
Proof. apply blind_zoom; [reflexivity|]. unfold put_current. same_cases. Qed.

Lemma blind_on_current' {A} (m : SM A) : blind (on_current' m).
Proof.
  intros t t' Ht. unfold on_current'.
  destruct (blind_on_current m t t' Ht) as [a u u' Hu|e u u' Hu| |]; by constructor.
Qed.

Lemma blind_on_store {E A} (m : M E GraphemeStore A) : blind (on_store m).
Proof. by apply blind_zoom. Qed.

Lemma blind_on_detached {A} s (m : SM A) : blind (on_detached s m).
Proof.
  intros t t' [d ->]%same_elim. unfold on_detached. simpl.
  destruct (m _); constructor; reflexivity.
Qed.

(** Descend through the syntax of an operation, opening the definitions it is built from. *)
Ltac blind_tac :=
  repeat (intros; cbv zeta; lazymatch goal with
    | |- blind (bind _ _) => apply blind_bind
    | |- blind (ret _) => apply blind_ret
    | |- blind (or_panic _) => apply blind_or_panic
    | |- blind (gets _) => apply blind_gets; reflexivity
    | |- blind (modify _) => apply blind_modify; same_cases
    | |- blind (for_each _ _) => apply blind_for_each
    | |- blind (catch _ _) => apply blind_catch
    | |- blind (on_current _) => apply blind_on_current
    | |- blind (on_current' _) => apply blind_on_current'
    | |- blind (on_store _) => apply blind_on_store
    | |- blind (on_detached _ _) => apply blind_on_detached
    | |- blind (zoom _ _ _) => apply blind_zoom; same_cases
    | |- blind (if ?b then _ else _) => destruct b
    | |- blind (match ?x with _ => _ end) => destruct x
    | |- blind _ => progress unfold invalidate_active_grapheme, apply_mutation, record_fault,
        record_deferred, record_unknown, record_malformed, set_modes, editing_mutation,
        set_cursor_visible, set_private_mode, sync_keyboard_flags, set_keyboard_flags, push_keyboard_flags,
        pop_keyboard_flags, enqueue_protocol_reply, reply_with, reply_kitty_flags, reply_dsr_cpr,
        reply_primary_da, reply_decrqm, set_mouse_reporting, set_alternate_screen, store_id_at,
        set_active, replace_on_next_row, rewrite_active, append_to_active, print_new_unit,
        print_scalar, execute_current, keyboard_csi, public_csi, dispatch_csi, dispatch_esc,
        enqueue_presentation, dispatch_osc, perform_mutation, when_live
    end).

Lemma blind_set_alternate_screen b : blind (set_alternate_screen b).
Proof. blind_tac. Qed.

Lemma blind_set_private_modes b ps : blind (set_private_modes b ps).
Proof.
  induction ps as [|mode ps IH]; cbn [set_private_modes]; [blind_tac|].
  destruct (mode =? 1049).
  - apply blind_bind.
    + apply blind_catch; [apply blind_bind; [apply blind_set_alternate_screen|]|]; blind_tac.
    + intros []; [exact IH|apply blind_ret].
  - apply blind_bind; [|intros; exact IH]. blind_tac.
Qed.

Lemma blind_perform e : blind (Parser.perform e).
Proof.
  destruct e; cbn [Parser.perform Parser.act_print Parser.act_execute Parser.act_csi Parser.act_esc
    Parser.act_osc Parser.act_deferred_string Parser.act_malformed core_actions].
  - blind_tac.
  - blind_tac.
  - blind_tac. apply blind_set_private_modes.
  - blind_tac.
  - blind_tac.
  - blind_tac.
  - blind_tac.
Qed.

Lemma blind_replay es : blind (Parser.replay es).
Proof. apply blind_for_each, blind_perform. Qed.

(** A faulted core ignores every call. *)
Lemma perform_faulted e t err : fault t = Some err → Parser.perform e t = Ret tt t.
Proof.
  intros Hf. destruct e; simpl; unfold perform_mutation, dispatch_csi, dispatch_esc, dispatch_osc,
    when_live, bind, gets; by rewrite Hf.
Qed.

Lemma replay_faulted es t err : fault t = Some err → Parser.replay es t = Ret tt t.
Proof.
  intros Hf. unfold Parser.replay. induction es as [|e es IH]; [done|]. simpl. unfold bind.
  by rewrite (perform_faulted _ _ _ Hf).
Qed.

(** Terminals that differ only in what damage they have published. *)
Definition same_terminal (t t' : TerminalState H) : Prop := t.1 = t'.1 ∧ same t.2 t'.2.

Definition same_feed (o o' : outcome TerminalError (TerminalState H) unit) : Prop :=
  match o, o' with
  | Ret _ t, Ret _ t' => same_terminal t t'
  | Fail e t, Fail e' t' => e = e' ∧ same t.2 t'.2
  | _, _ => False
  end.

(** What [feed] does to a terminal without fault, given the calls the parser makes. *)
Lemma feed_after bytes p p' es (t : TerminalCore H) :
  fault t = None →
  Parser.feed bytes (p, [] : list Parser.event) = Ret tt (p', es) →
  feed bytes (p, t) =
    match Parser.replay es t with
    | Ret _ a => match fault a with
                 | Some e => Fail e (p', a <| damage := commit (damage a) |>)
                 | None => Ret tt (p', a <| damage := commit (damage a) |>)
                 end
    | Fail e _ => match e with end
    | Panic => Panic
    | NoFuel => NoFuel
    end.
Proof.
  intros Hf Hlog. unfold feed, with_fault_check, bind, gets, modify. cbn [snd]. rewrite Hf.
  rewrite (Parser.feed_natural p bytes p' es [] Hlog). unfold Parser.after.
  destruct (Parser.replay es t) as [[] a|[]| |]; [|done..]. simpl.
  destruct (fault a); done.
Qed.

Lemma feed_faulted bytes (t : TerminalState H) e : fault t.2 = Some e → feed bytes t = Fail e t.
Proof. intros Hf. unfold feed, with_fault_check, bind, gets. by rewrite Hf. Qed.
End chunks.

Section feed_chunks.
Context {H : Type} `{HistoryLaws H} `{UnicodeTables} `{DequeCapacity}.

(** C11. The terminal does not depend on how its input is cut: feeding [xs] and then [ys]
    ends with the same result as feeding [xs ++ ys] at once.  On success the parser and
    every field of the core agree except the damage tracker, in which each call publishes;
    on a fault both report the same error with the same core. *)
Theorem feed_chunks (c r : N) (t : TerminalState H) (xs ys : list N) :
  terminal_wf c r t → Parser.bytes_ok xs → Parser.bytes_ok ys →
  same_feed (feed (xs ++ ys) t) ((feed xs ;;; feed ys) t).
Proof.
  intros Ht Hx Hy. destruct (fault t.2) as [e|] eqn:Hf.
  { unfold bind. rewrite !(feed_faulted _ _ _ Hf). done. }
  pose proof (feed_wf c r (xs ++ ys) t Ht) as Hsafe. destruct t as [p core]. cbn [fst snd] in *.
  destruct (Parser.feed_log p xs [] (proj1 (proj2 Ht)) Hx) as (p1 & es1 & Hf1 & Hq1 & _).
  destruct (Parser.feed_log p1 ys [] Hq1 Hy) as (p2 & es2 & Hf2 & _).
  assert (Parser.feed (xs ++ ys) (p, [] : list Parser.event) = Ret tt (p2, es1 ++ es2)) as Hf12.
  { rewrite Parser.feed_app_log by (done || apply Ht). unfold bind. rewrite Hf1.
    rewrite (Parser.feed_natural _ _ _ _ [] Hf2). unfold Parser.after.
    by rewrite Parser.replay_log. }
  specialize (Hsafe ltac:(by apply Forall_app)). unfold bind, wp in *.
  rewrite (feed_after _ _ _ _ _ Hf Hf12) in *. rewrite (feed_after _ _ _ _ _ Hf Hf1).
  rewrite Parser.replay_app in *. unfold bind in *. cbn [app] in *.
  destruct (Parser.replay es1 core) as [[] a|[]| |]; [|done..].
  destruct (fault a) as [e|] eqn:Ha.
  { rewrite (replay_faulted _ _ _ Ha), Ha. split; [done|reflexivity]. }
  cbv beta match.
  match goal with |- same_feed _ (feed _ (_, ?a')) => rewrite (feed_after ys p1 p2 es2 a' Ha Hf2) end.
  destruct (blind_replay es2 a _ (same_intro a (commit (damage a)))) as [[] u u' Hu|[]| |]; [|done..].
  apply same_elim in Hu as [d ->]. cbn. destruct (fault u); done.
Qed.
End feed_chunks.

(** The same input cut inside a UTF-8 sequence. *)
Lemma feed_chunks_witness :
  ∃ t a, new_terminal (H := list HistoryLine) 4 2 new_allocator = Ret t a ∧
    same_feed (@feed (list HistoryLine) _ demo_tables exact_capacity ([65; 204] ++ [129; 10]) t)
      ((@feed (list HistoryLine) _ demo_tables exact_capacity [65; 204] ;;;
        @feed (list HistoryLine) _ demo_tables exact_capacity [129; 10]) t).
Proof.
  destruct (@new_terminal_wf (list HistoryLine) _ _ exact_capacity 4 2) as (t & a & Hnew & Ht & _).
  { unfold size_ok, MAX_TERMINAL_COLUMNS, MAX_TERMINAL_ROWS. lia. }
  exists t, a. split; [exact Hnew|].
  apply (@feed_chunks (list HistoryLine) _ _ demo_tables exact_capacity 4 2 t [65; 204] [129; 10] Ht);
    repeat constructor; lia.
Defined.
