(* ===== verification/KeyboardSpec.v ===== *)
(** The Kitty keyboard protocol: the 16-entry array of [Core.v] (of
    [crates/seyal-terminal/src/terminal/vt/csi.rs]) implements a bounded stack.

    The specification is a stack as a plain list whose oldest entry is dropped when it is
    full, and the flags in force; the refinement covers every sequence of set, push and
    pop requests. *)

From S2P Require Import Prelude Types Damage LineIds GraphemeStore HistoryTypes Screen.
From S2P Require Import ScreenSafe Grapheme Osc ProtocolReply Core CoreSafe.

(** * The specification *)

Record kb_spec := mkSpec { sp_stack : list N; sp_flags : N }.

Inductive kb_op :=
| KSet (flags mode : N)
| KPush (flags : N)
| KPop (count : N).

(** Replace the top of the stack, or start it. *)
Definition replace_top (l : list N) (x : N) : list N := take (length l - 1) l ++ [x].

(** Drop the oldest entry of a full stack, then push. *)
Definition push_bounded (l : list N) (x : N) : list N :=
  (if (length l =? 16)%nat then tail l else l) ++ [x].

Definition set_flags (now flags mode : N) : option N :=
  if mode =? 1 then Some flags
  else if mode =? 2 then Some (N.lor now flags)
  else if mode =? 3 then Some (N.ldiff now flags)
  else None.

Definition spec_step (s : kb_spec) (o : kb_op) : kb_spec :=
  match o with
  | KSet flags mode =>
    match set_flags (sp_flags s) (N.land flags KEYBOARD_FLAGS_MASK) mode with
    | None => s
    | Some f => let f := N.land f KEYBOARD_FLAGS_MASK in mkSpec (replace_top (sp_stack s) f) f
    end
  | KPush flags =>
    let f := N.land flags KEYBOARD_FLAGS_MASK in mkSpec (push_bounded (sp_stack s) f) f
  | KPop count =>
    let l := take (length (sp_stack s) - N.to_nat count) (sp_stack s) in
    mkSpec l (default 0 (last l))
  end.

(** * The implementation *)

Section refinement.
Context {H : Type}.
Implicit Types (t : TerminalCore H) (k : Keyboard).

Definition run_kb_op (o : kb_op) : CM (H := H) unit :=
  match o with
  | KSet flags mode => let! _ := set_keyboard_flags flags mode in ret tt
  | KPush flags => push_keyboard_flags flags
  | KPop count => pop_keyboard_flags count
  end.

Definition entries_of k : list N := take (N.to_nat (kb_len k)) (kb_stack k).

Definition abstracts t (s : kb_spec) : Prop :=
  keyboard_ok (keyboard t) ∧ entries_of (keyboard t) = sp_stack s ∧
  keyboard_flags (modes t) = sp_flags s.

(** What an operation leaves alone: everything but the modes' flags and the keyboard of
    the current screen. *)
Definition only_keyboard t t' : Prop :=
  ∃ k f, t' = set_keyboard k (t <| modes := (modes t) <| keyboard_flags := f |> |>).

Lemma keyboard_set k t : keyboard (set_keyboard k t) = k.
Proof. unfold keyboard, set_keyboard. destruct (alternate_screen (modes t)) eqn:E; simpl; by rewrite E. Qed.

Lemma length_entries k : keyboard_ok k → length (entries_of k) = N.to_nat (kb_len k).
Proof. intros [??]. unfold entries_of. rewrite length_take. lia. Qed.

Lemma entries_replace_top k x :
  keyboard_ok k → kb_len k ≠ 0 →
  entries_of (k <| kb_stack := <[N.to_nat (kb_len k - 1) := x]> (kb_stack k) |>)
  = replace_top (entries_of k) x.
Proof.
  intros Hk Hn. pose proof Hk as [Hl Hle]. unfold replace_top. rewrite length_entries by done.
  unfold entries_of. simpl. rewrite take_take.
  replace (N.to_nat (kb_len k - 1)) with (N.to_nat (kb_len k) - 1)%nat by lia.
  replace (N.to_nat (kb_len k)) with (N.to_nat (kb_len k) - 1 + 1)%nat at 1 by lia.
  rewrite take_S_insert by (unfold KEYBOARD_STACK_CAPACITY in *; lia). do 2 f_equal. lia.
Qed.

Lemma entries_start k x :
  keyboard_ok k → kb_len k = 0 →
  entries_of (k <| kb_stack := <[N.to_nat 0 := x]> (kb_stack k) |> <| kb_len := 1 |>)
  = replace_top (entries_of k) x.
Proof.
  intros [Hl Hle] Hn. unfold replace_top, entries_of, KEYBOARD_STACK_CAPACITY in *. rewrite Hn. simpl.
  destruct (kb_stack k) as [|y l]; [simpl in Hl; lia|]. simpl. done.
Qed.

Lemma entries_push k st x :
  vlen st = KEYBOARD_STACK_CAPACITY → kb_len k < KEYBOARD_STACK_CAPACITY →
  entries_of (k <| kb_stack := <[N.to_nat (kb_len k) := x]> st |> <| kb_len := kb_len k + 1 |>)
  = take (N.to_nat (kb_len k)) st ++ [x].
Proof.
  intros Hl Hn. unfold entries_of. simpl.
  replace (N.to_nat (kb_len k + 1)) with (N.to_nat (kb_len k) + 1)%nat by lia.
  apply take_S_insert. lia.
Qed.

Lemma shift_stack (l l' : list N) :
  vlen l = 16 → vcopy_within l 1 (vlen l) 0 = Some l' → take 15 l' = tail l.
Proof.
  intros Hl Hc. destruct l as [|x l]; [done|]. unfold vcopy_within in Hc.
  case_match; [|done]. injection Hc as <-. cbn [length] in Hl |- *.
  replace (N.to_nat (N.of_nat (S (length l)) - 1)) with 15%nat by lia. simpl.
  rewrite drop_0. by rewrite take_app_le, take_take, take_ge by (rewrite ?length_take; lia).
Qed.

(** The common tail of the three operations. *)
Definition install (k : Keyboard) (f : N) : CM (H := H) unit :=
  modify (set_keyboard k) ;;; set_modes (λ m, m <| keyboard_flags := f |>) ;;; sync_keyboard_flags.

Lemma install_eq k f t :
  install k f t = Ret tt (set_keyboard (k <| kb_flags := N.land f KEYBOARD_FLAGS_MASK |>)
                           (t <| modes := (modes t) <| keyboard_flags := f |> |>)).
Proof.
  unfold install, set_modes, sync_keyboard_flags, bind, modify, keyboard, set_keyboard.
  destruct (alternate_screen (modes t)) eqn:E; simpl; rewrite ?E; simpl; rewrite ?E; reflexivity.
Qed.

Lemma modes_set_keyboard k t : modes (set_keyboard k t) = modes t.
Proof. unfold set_keyboard. by case_match. Qed.

Lemma install_spec k f t :
  keyboard_ok k →
  wp (install k f) (λ _ t', keyboard_ok (keyboard t') ∧ entries_of (keyboard t') = entries_of k ∧
    keyboard_flags (modes t') = f ∧ only_keyboard t t') (λ _ _, False) t.
Proof.
  intros Hk. unfold wp. rewrite install_eq, keyboard_set, modes_set_keyboard.
  split_and!; [done..|]. by eexists _, _.
Qed.

Lemma set_keyboard_id t : set_keyboard (keyboard t) t = t.
Proof. destruct t as []. unfold set_keyboard, keyboard. simpl. by destruct (alternate_screen modes). Qed.

Lemma only_keyboard_refl t : only_keyboard t t.
Proof.
  exists (keyboard t), (keyboard_flags (modes t)).
  transitivity (set_keyboard (keyboard t) t); [by rewrite set_keyboard_id|].
  f_equal. destruct t as [??? [] ???????????????]. done.
Qed.

Lemma only_keyboard_trans t1 t2 t3 : only_keyboard t1 t2 → only_keyboard t2 t3 → only_keyboard t1 t3.
Proof.
  intros (k1 & f1 & ->) (k2 & f2 & ->). exists k2, f2. unfold set_keyboard.
  destruct (alternate_screen (modes t1)) eqn:E; simpl; rewrite ?E; simpl; rewrite ?E; reflexivity.
Qed.

Definition simulates (o : kb_op) : Prop := ∀ t s, abstracts t s →
  wp (run_kb_op o) (λ _ t', abstracts t' (spec_step s o) ∧ only_keyboard t t') (λ _ _, False) t.

Lemma simulates_pop count : simulates (KPop count).
Proof.
  intros t s (Hk & He & Hf). cbn [run_kb_op]. unfold pop_keyboard_flags. wp_step. wp_step. cbv zeta.
  set (k := keyboard t) in *. set (n := kb_len k - N.min count (kb_len k)).
  assert (take (length (sp_stack s) - N.to_nat count) (sp_stack s)
          = entries_of (k <| kb_len := n |>)) as Hs.
  { rewrite <-He, length_entries by done. unfold entries_of, n. simpl. rewrite take_take. f_equal. lia. }
  assert (keyboard_ok (k <| kb_len := n |>)) as Hk' by (destruct Hk; split; simpl; [done|lia]).
  apply wp_bind.
  assert (∀ top, top = default 0 (last (entries_of (k <| kb_len := n |>))) →
    wp (install (k <| kb_len := n |>) top)
      (λ _ t', abstracts t' (spec_step s (KPop count)) ∧ only_keyboard t t') (λ _ _, False) t) as Hin.
  { intros top ->. eapply wp_mono; [by apply install_spec| |done].
    intros _ t' (? & Het & Hft & ?). split; [|done]. unfold abstracts, spec_step. cbn [sp_stack sp_flags].
    by rewrite Het, Hft, Hs. }
  destruct (n =? 0) eqn:Hn; to_prop.
  - apply wp_ret, Hin. unfold entries_of. simpl. by rewrite Hn.
  - destruct Hk as [Hl Hle]. apply wp_vget; [lia|]. intros top Htop. apply Hin.
    unfold entries_of, vget in *. simpl. rewrite last_lookup, length_take, lookup_take_lt by lia.
    replace (pred (N.to_nat n `min` length (kb_stack k)))%nat with (N.to_nat (n - 1)) by lia.
    by rewrite Htop.
Qed.

Lemma simulates_push flags : simulates (KPush flags).
Proof.
  intros t s (Hk & He & Hf). cbn [run_kb_op]. unfold push_keyboard_flags. cbv zeta. wp_step. wp_step.
  set (k := keyboard t) in *. pose proof Hk as [Hl Hle]. pose proof (length_entries k Hk) as Hlen.
  rewrite He in Hlen. unfold KEYBOARD_STACK_CAPACITY in *. apply wp_bind.
  assert (∀ k', vlen (kb_stack k') = 16 → kb_len k' < 16 →
    entries_of k' = (if (length (sp_stack s) =? 16)%nat then tail (sp_stack s) else sp_stack s) →
    wp (let! st := or_panic (vset (kb_stack k') (kb_len k') (N.land flags KEYBOARD_FLAGS_MASK)) in
        install (k' <| kb_stack := st |> <| kb_len := kb_len k' + 1 |>) (N.land flags KEYBOARD_FLAGS_MASK))
      (λ _ t', abstracts t' (spec_step s (KPush flags)) ∧ only_keyboard t t') (λ _ _, False) t) as Hin.
  { intros k' Hl' Hn' He'. apply wp_bind. eapply wp_or_panic; [apply vset_ok; lia|].
    eapply wp_mono; [apply install_spec| |done].
    - split; simpl; [rewrite length_insert; done|unfold KEYBOARD_STACK_CAPACITY; lia].
    - intros _ t' (? & Het & Hft & ?). split; [|done]. unfold abstracts, spec_step, push_bounded.
      cbn [sp_stack sp_flags]. by rewrite Het, Hft, entries_push, <-He'. }
  destruct (kb_len k =? 16) eqn:Hn; to_prop.
  - apply wp_bind, wp_vcopy_within; [lia..|]. intros st Hst. apply wp_ret, Hin; simpl; [vlens; lia|lia|].
    rewrite Hlen, <-He. unfold entries_of. simpl. rewrite Hn. simpl.
    rewrite (take_ge (kb_stack k)) by lia. by apply shift_stack.
  - apply wp_ret, Hin; [done|lia|]. rewrite Hlen.
    by rewrite (proj2 (Nat.eqb_neq (N.to_nat (kb_len k)) 16)) by lia.
Qed.

Lemma simulates_set flags mode : simulates (KSet flags mode).
Proof.
  intros t s (Hk & He & Hf). cbn [run_kb_op]. unfold set_keyboard_flags. wp_step. wp_step. wp_step.
  cbv zeta. change (if mode =? 1 then _ else _) with
    (set_flags (keyboard_flags (modes t)) (N.land flags KEYBOARD_FLAGS_MASK) mode).
  rewrite Hf. destruct (set_flags _ _ _) as [f|] eqn:Hset.
  2:{ repeat wp_step. split; [|apply only_keyboard_refl].
      split_and!; [done|..]; unfold spec_step; by rewrite Hset. }
  set (f' := N.land f KEYBOARD_FLAGS_MASK). set (k := keyboard t) in *.
  assert (∀ k', keyboard_ok k' → entries_of k' = replace_top (entries_of k) f' →
    wp (install k' f' ;;; ret true)
      (λ _, wp (E := Empty_set) (ret tt) (λ _ t', abstracts t' (spec_step s (KSet flags mode)) ∧ only_keyboard t t')
              (λ _ _, False)) (λ _ _, False) t) as Hin.
  { intros k' Hk' He'. apply wp_bind. eapply wp_mono; [by apply install_spec| |done].
    intros _ t' (? & Het & Hft & ?). apply wp_ret, wp_ret. split; [|done].
    unfold abstracts, spec_step. rewrite Hset. cbn [sp_stack sp_flags].
    by rewrite Het, Hft, He', He. }
  pose proof Hk as [Hl Hle]. unfold KEYBOARD_STACK_CAPACITY in *.
  wp_step. wp_step. fold k. apply wp_bind.
  destruct (kb_len k =? 0) eqn:Hn; to_prop; apply wp_bind;
    (eapply wp_or_panic; [apply vset_ok; lia|]); apply wp_ret.
  - apply (Hin (k <| kb_stack := _ |> <| kb_len := 1 |>)); [|by apply entries_start].
    split; simpl; [by rewrite length_insert|unfold KEYBOARD_STACK_CAPACITY; lia].
  - apply (Hin (k <| kb_stack := _ |>)); [|by apply entries_replace_top].
    split; simpl; [by rewrite length_insert|done].
Qed.

Lemma simulates_op o : simulates o.
Proof. destruct o; [apply simulates_set|apply simulates_push|apply simulates_pop]. Qed.

(** C12. The fixed keyboard arrays implement a bounded stack: for every sequence of
    [CSI = u] (set), [CSI > u] (push) and [CSI < u] (pop) requests, the flags in force and
    the stack of the current screen are those of the list specification, where a push on a
    full stack drops the oldest entry and a pop leaves the flags of the new top or none;
    nothing else of the core changes. *)
Theorem keyboard_refines (ops : list kb_op) (t : TerminalCore H) (s : kb_spec) :
  abstracts t s →
  wp (for_each ops run_kb_op)
    (λ _ t', abstracts t' (foldl spec_step s ops) ∧ only_keyboard t t') (λ _ _, False) t.
Proof.
  intros Ht. enough (∀ t1 s1, abstracts t1 s1 → only_keyboard t t1 →
    wp (for_each ops run_kb_op) (λ _ t', abstracts t' (foldl spec_step s1 ops) ∧ only_keyboard t t')
      (λ _ _, False) t1) as Hgen by (by apply Hgen, only_keyboard_refl).
  clear Ht. induction ops as [|o ops IH]; intros t1 s1 Ht1 Ho; [done|].
  apply wp_bind. eapply wp_mono; [by apply simulates_op| |done].
  intros [] t2 [Ht2 Ho2]. apply IH; [done|]. by eapply only_keyboard_trans.
Qed.
End refinement.

Lemma keyboard_refines_witness :
  ∃ t a, new_core (H := list HistoryLine) 4 2 new_allocator = Ret t a ∧
    wp (for_each [KPush 1; KPush 7; KSet 2 3; KPop 1] run_kb_op)
      (λ _ t', abstracts t' (mkSpec [1] 1) ∧ only_keyboard t t') (λ _ _, False) t.
Proof.
  eexists _, _. split; [reflexivity|].
  apply (keyboard_refines [KPush 1; KPush 7; KSet 2 3; KPop 1] _ (mkSpec [] 0)).
  split_and!; [|reflexivity..]. split; [reflexivity|]. apply N.le_0_l.
Defined.
