(* ===== verification/AltScreen.v ===== *)
(** The alternate screen isolates the primary one.

    While the alternate screen of [Core.v] ([TerminalCore::set_alternate_screen] of
    [crates/seyal-terminal/src/terminal/vt/mod.rs]) is active, no call of the parser can
    reach the primary screen, its history or its keyboard state; leaving it brings them
    back as they were. *)

From S2P Require Import Parser.
From S2P Require Import Prelude Types Utf8 Damage LineIds GraphemeStore HistoryTypes Screen.
From S2P Require Import Grapheme Osc ProtocolReply Core CoreSafe.

Section alternate.
Context {H : Type} `{HistoryLog H} `{UnicodeTables} `{DequeCapacity}.
Implicit Types (t : TerminalCore H).

Definition in_alternate t : Prop :=
  alternate_screen (modes t) = true ∧ is_Some (alternate t).

(** The primary screen and keyboard are the given ones and cannot be reached. *)
Definition isolated (P : Screen H) (K : Keyboard) t : Prop :=
  primary t = P ∧ primary_keyboard t = K ∧ in_alternate t.

(** They are the given ones and in force again. *)
Definition restored (P : Screen H) (K : Keyboard) t : Prop :=
  primary t = P ∧ primary_keyboard t = K ∧ alternate_screen (modes t) = false ∧
  keyboard_flags (modes t) = kb_flags K.

Section isolated.
Context (P : Screen H) (K : Keyboard).

Lemma keeps_catch {A} I (m : RM (H := H) A) (h : TerminalError → CM (H := H) A) :
  keeps I m → (∀ e, keeps I (h e)) → keeps I (catch m h).
Proof.
  intros Hm Hh t Ht. specialize (Hm t Ht). unfold catch. destruct (m t); try done. by apply Hh.
Qed.

Lemma keeps_on_current {A} (m : SM A) : keeps (isolated P K) (on_current m).
Proof.
  apply keeps_zoom. intros t w (<- & <- & Ha & s & Hs). unfold put_current, isolated, in_alternate.
  rewrite Ha, Hs. by split_and!; simpl.
Qed.

Lemma keeps_on_current' {A} (m : SM A) : keeps (isolated P K) (on_current' m).
Proof.
  intros t Ht. pose proof (keeps_on_current m t Ht) as Hk. unfold on_current'.
  by destruct (on_current m t).
Qed.

(** Closes the side condition of a [modify]. *)
Ltac isolated_side :=
  intros;
  match goal with
  | Ht : isolated _ _ _ |- _ =>
    let Ha := fresh in let s := fresh in let Hs := fresh in
    destruct Ht as (<- & <- & Ha & s & Hs);
    unfold isolated, in_alternate, set_keyboard, keyboard; rewrite ?Ha;
    repeat case_match; simpl; eauto
  end.

Ltac isolated_tac :=
  repeat (intros; cbv zeta; lazymatch goal with
    | |- keeps _ (bind _ _) => apply keeps_bind
    | |- keeps _ (ret _) => apply keeps_ret
    | |- keeps _ (or_panic _) => apply keeps_or_panic
    | |- keeps _ (gets _) => apply keeps_gets
    | |- keeps _ (modify _) => apply keeps_modify; isolated_side
    | |- keeps _ (for_each _ _) => apply keeps_for_each
    | |- keeps _ (catch _ _) => apply keeps_catch
    | |- keeps _ (on_current _) => apply keeps_on_current
    | |- keeps _ (on_current' _) => apply keeps_on_current'
    | |- keeps _ (on_store _) => apply keeps_zoom; isolated_side
    | |- keeps _ (if ?b then _ else _) => destruct b
    | |- keeps _ (match ?x with _ => _ end) => destruct x
    | |- keeps _ _ => progress unfold invalidate_active_grapheme, apply_mutation, record_fault,
        record_deferred, record_unknown, record_malformed, editing_mutation,
        sync_keyboard_flags, enqueue_protocol_reply, reply_with, reply_kitty_flags, reply_dsr_cpr,
        reply_primary_da, reply_decrqm, store_id_at, set_active,
        replace_on_next_row, rewrite_active, append_to_active, print_new_unit,
        print_scalar, execute_current, public_csi, dispatch_esc, enqueue_presentation,
        dispatch_osc, perform_mutation, when_live
    end).

Lemma keeps_set_modes {E} f :
  (∀ m, alternate_screen (f m) = alternate_screen m) → keeps (E := E) (isolated P K) (set_modes f).
Proof.
  intros Hf. apply keeps_modify. intros t (<- & <- & Ha & s & Hs). split_and!; [done..|].
  split; simpl; [by rewrite Hf|eauto].
Qed.

Lemma keeps_put_keyboard {E} k : keeps (E := E) (isolated P K) (modify (set_keyboard k)).
Proof. apply keeps_modify. isolated_side. Qed.

Lemma keeps_set_keyboard_flags f m : keeps (isolated P K) (set_keyboard_flags f m).
Proof.
  unfold set_keyboard_flags. isolated_tac; by first [apply keeps_put_keyboard | apply keeps_set_modes].
Qed.

Lemma keeps_push_keyboard_flags f : keeps (isolated P K) (push_keyboard_flags f).
Proof.
  unfold push_keyboard_flags. isolated_tac; by first [apply keeps_put_keyboard | apply keeps_set_modes].
Qed.

Lemma keeps_pop_keyboard_flags n : keeps (isolated P K) (pop_keyboard_flags n).
Proof.
  unfold pop_keyboard_flags. isolated_tac; by first [apply keeps_put_keyboard | apply keeps_set_modes].
Qed.

Lemma keeps_set_cursor_visible b : keeps (isolated P K) (set_cursor_visible b).
Proof. unfold set_cursor_visible. isolated_tac. by apply keeps_set_modes. Qed.

Lemma keeps_keyboard_csi marker ps : keeps (isolated P K) (keyboard_csi marker ps).
Proof.
  unfold keyboard_csi. isolated_tac; first [apply keeps_set_keyboard_flags
    | apply keeps_push_keyboard_flags | apply keeps_pop_keyboard_flags].
Qed.

Lemma keeps_public_csi ps final : keeps (isolated P K) (public_csi ps final).
Proof. isolated_tac. Qed.

Lemma keeps_print ch : keeps (isolated P K) (perform_mutation (print_scalar ch)).
Proof. isolated_tac. Qed.

Lemma keeps_execute byte : keeps (isolated P K) (perform_mutation (execute_current byte)).
Proof. isolated_tac. Qed.

Lemma keeps_esc final inter : keeps (isolated P K) (dispatch_esc final inter).
Proof. isolated_tac; by apply keeps_set_modes. Qed.

Lemma keeps_osc bytes tr : keeps (isolated P K) (dispatch_osc bytes tr).
Proof. isolated_tac. Qed.

Lemma keeps_set_private_mode b mode : keeps (isolated P K) (set_private_mode b mode).
Proof.
  unfold set_private_mode, set_mouse_reporting. isolated_tac;
    first [apply keeps_set_cursor_visible | apply keeps_set_modes; intros];
    repeat case_match; done.
Qed.

Lemma keeps_set_private_modes_on ps : keeps (isolated P K) (set_private_modes true ps).
Proof.
  induction ps as [|mode ps IH]; cbn [set_private_modes]; [apply keeps_ret|].
  destruct (mode =? 1049); [|by apply keeps_bind; [apply keeps_set_private_mode|]].
  intros t Ht. pose proof Ht as (_ & _ & Ha & _).
  assert (set_alternate_screen true t = Ret tt t) as Hs.
  { unfold set_alternate_screen, bind, gets. by rewrite Ha. }
  unfold bind, catch. rewrite Hs. by apply IH.
Qed.

(** Once restored, the remaining modes of the request leave it so. *)
Lemma restored_set_modes {E} f :
  (∀ m, alternate_screen (f m) = alternate_screen m ∧ keyboard_flags (f m) = keyboard_flags m) →
  keeps (E := E) (restored P K) (set_modes f).
Proof.
  intros Hf. apply keeps_modify. intros t (<- & <- & Ha & Hk).
  destruct (Hf (modes t)) as [Hf1 Hf2]. by split_and!; simpl; rewrite ?Hf1, ?Hf2.
Qed.

Lemma restored_set_private_mode b mode : keeps (restored P K) (set_private_mode b mode).
Proof.
  assert (∀ E f, (∀ t, primary (f t) = primary t ∧ primary_keyboard (f t) = primary_keyboard t ∧
                       modes (f t) = modes t) → keeps (E := E) (restored P K) (modify f)) as Hmod.
  { intros E f Hf. apply keeps_modify. intros t Ht. destruct (Hf t) as (Hp & Hk & Hm).
    unfold restored. by rewrite Hp, Hk, Hm. }
  unfold set_private_mode, set_mouse_reporting, set_cursor_visible.
  repeat (intros; lazymatch goal with
    | |- keeps _ (bind _ _) => apply keeps_bind
    | |- keeps _ (ret _) => apply keeps_ret
    | |- keeps _ (gets _) => apply keeps_gets
    | |- keeps _ (set_modes _) => apply restored_set_modes; intros; repeat case_match; done
    | |- keeps _ (if ?b then _ else _) => destruct b
    | |- keeps _ _ => by apply Hmod
    end).
Qed.

Lemma restored_set_private_modes_off ps : keeps (restored P K) (set_private_modes false ps).
Proof.
  induction ps as [|mode ps IH]; cbn [set_private_modes]; [apply keeps_ret|].
  destruct (mode =? 1049); [|by apply keeps_bind; [apply restored_set_private_mode|]].
  intros t Ht. pose proof Ht as (_ & _ & Ha & _).
  assert (set_alternate_screen false t = Ret tt t) as Hs.
  { unfold set_alternate_screen, bind, gets. by rewrite Ha. }
  unfold bind, catch. rewrite Hs. by apply IH.
Qed.

Lemma release_all_returns (w : World H) : ∃ w', release_all_payloads w = Ret tt w'.
Proof.
  unfold release_all_payloads, release_cells, gscr, bind, gets. generalize (cells (scr w)). intros l.
  revert w. induction l as [|x l IH]; intros w; [by eexists|]. simpl. unfold bind at 1, release_cell.
  case_decide; [|apply IH]. unfold with_store, zoom, modify. apply IH.
Qed.

(** Leaving the alternate screen. *)
Lemma leave_alternate t :
  isolated P K t → ∃ t', set_alternate_screen false t = Ret tt t' ∧ restored P K t'.
Proof.
  intros (<- & <- & Ha & s & Hs). unfold set_alternate_screen, sync_keyboard_flags, set_keyboard,
    keyboard, invalidate_active_grapheme, set_modes, apply_mutation, bind, gets, modify.
  rewrite Ha. cbn. rewrite Ha. cbn. rewrite Hs. unfold on_detached. simpl.
  match goal with |- context [release_all_payloads ?w] =>
    destruct (release_all_returns w) as [w' ->] end.
  eexists. split; [reflexivity|]. by split_and!.
Qed.

(** What follows a call made on the alternate screen: it is still active, or the primary
    screen is back. *)
Definition after_call t : Prop := isolated P K t ∨ restored P K t.

Lemma set_private_modes_off ps t :
  isolated P K t →
  match set_private_modes false ps t with Ret _ t' => after_call t' | _ => True end.
Proof.
  revert t. induction ps as [|mode ps IH]; intros t Ht; cbn [set_private_modes]; [by left|].
  destruct (mode =? 1049).
  - destruct (leave_alternate t Ht) as (t1 & Hl & Hr). unfold catch, bind. rewrite Hl.
    cbv beta iota delta [ret].
    pose proof (restored_set_private_modes_off ps t1 Hr) as Hps.
    destruct (set_private_modes false ps t1) as [| [] | |]; [|done..]. by right.
  - pose proof (keeps_set_private_mode false mode t Ht) as Hm.
    unfold bind. destruct (set_private_mode false mode t) as [[] t1|[]| |]; [|done..]. by apply IH.
Qed.

Lemma perform_isolated e t :
  isolated P K t → match Parser.perform e t with Ret _ t' => after_call t' | _ => True end.
Proof.
  assert (∀ m : CM unit, keeps (isolated P K) m → isolated P K t →
    match m t with Ret _ t' => after_call t' | _ => True end) as Hk.
  { intros m Hm Ht. specialize (Hm t Ht). destruct (m t); try done. by left. }
  destruct e as [ch|b|ps priv ign final|final inter|bs tr| |]; simpl.
  - apply Hk, keeps_print.
  - apply Hk, keeps_execute.
  - intros Ht. unfold dispatch_csi, bind at 1, gets. destruct (fault t); [by left|].
    destruct ign; [apply Hk; [isolated_tac|done]|].
    destruct priv as [marker|].
    + destruct ((marker =? 63) && (final =? 117)); [apply Hk; [isolated_tac|done]|].
      destruct (_ && (final =? 117)); [apply Hk; [apply keeps_keyboard_csi|done]|].
      destruct (_ && _); [|apply Hk; [isolated_tac|done]]. destruct (final =? 104).
      * apply Hk; [apply keeps_set_private_modes_on|done].
      * by apply set_private_modes_off.
    + apply Hk; [apply keeps_bind; [apply keeps_public_csi|isolated_tac]|done].
  - apply Hk, keeps_esc.
  - apply Hk, keeps_osc.
  - apply Hk. isolated_tac.
  - apply Hk. isolated_tac.
Qed.
End isolated.

(** A run of calls, each made while the alternate screen is active; the last one may leave
    it. *)
Inductive alternate_run : TerminalCore H → list Parser.event → TerminalCore H → Prop :=
| run_nil t : alternate_run t [] t
| run_cons t e t1 es t' :
  alternate_screen (modes t) = true → Parser.perform e t = Ret tt t1 →
  alternate_run t1 es t' → alternate_run t (e :: es) t'.

Lemma alternate_run_isolated P K t es t' :
  alternate_run t es t' → after_call P K t → after_call P K t'.
Proof.
  induction 1 as [|t e t1 es t' Ha He _ IH]; [done|]. intros Ht. apply IH.
  destruct Ht as [Ht|(_ & _ & Ha' & _)]; [|congruence].
  pose proof (perform_isolated P K e t Ht) as Hp. by rewrite He in Hp.
Qed.

(** Entering: the flags in force are saved with the primary screen. *)
Lemma enter_alternate t t1 :
  alternate_screen (modes t) = false → set_alternate_screen true t = Ret tt t1 →
  isolated (primary t)
    ((primary_keyboard t) <| kb_flags := N.land (keyboard_flags (modes t)) KEYBOARD_FLAGS_MASK |>) t1.
Proof.
  intros Ha. unfold set_alternate_screen, sync_keyboard_flags, set_keyboard, keyboard,
    invalidate_active_grapheme, set_modes, apply_mutation, bind, gets, modify. rewrite Ha. cbn.
  rewrite Ha. cbn. unfold zoom. destruct (new_screen _ _ _ _) as [s a| | |]; try done. cbn.
  unfold on_detached. destruct (inherit_pen_for_clean_buffer _ _) as [[] w| | |]; try done. cbn.
  intros [= <-]. split_and!; [done..|]. by split; [|eexists].
Qed.

(** C13. The alternate screen is a round trip: from a terminal on its primary screen,
    entering the alternate screen, then any calls of the parser while it is active, the
    last of which may leave it, never changes the primary screen (grid, cursor, pen,
    margins, identities and history); once it is left, the primary screen is the current
    one again and the keyboard flags in force are those it was left with. *)
Theorem alternate_round_trip (t t1 t' : TerminalCore H) (es : list Parser.event) :
  alternate_screen (modes t) = false → set_alternate_screen true t = Ret tt t1 →
  alternate_run t1 es t' →
  primary t' = primary t ∧
  (alternate_screen (modes t') = false → current t' = primary t ∧
     keyboard_flags (modes t') = N.land (keyboard_flags (modes t)) KEYBOARD_FLAGS_MASK).
Proof.
  intros Ha He Hrun. pose proof (enter_alternate t t1 Ha He) as Hi.
  destruct (alternate_run_isolated _ _ _ _ _ Hrun (or_introl Hi)) as [(Hp & _ & Hin & _)|Hr].
  - split; [done|]. congruence.
  - destruct Hr as (Hp & _ & Hf & Hk). split; [done|]. intros _. unfold current. by rewrite Hf.
Qed.
End alternate.

(** Print on the alternate screen, scroll it, erase it and leave it. *)
Definition demo_events : list Parser.event :=
  [Parser.EvPrint 65; Parser.EvExecute 10; Parser.EvCsi [2] None false 74;
   Parser.EvCsi [1049] (Some 63) false 108].

Definition demo_new := Eval vm_compute in new_core (H := list HistoryLine) 4 2 new_allocator.
Definition demo_core := Eval cbn in returned_value demo_new I.
Definition demo_enter := Eval vm_compute in set_alternate_screen true demo_core.
Definition demo_alternate := Eval cbn in returned_state demo_enter I.
Definition demo_replay := Eval vm_compute in
  @Parser.replay _ (@core_actions _ _ CoreSafe.demo_tables CoreSafe.exact_capacity) demo_events demo_alternate.
Definition demo_back := Eval cbn in returned_state demo_replay I.

Lemma demo_run :
  @alternate_run (list HistoryLine) _ CoreSafe.demo_tables CoreSafe.exact_capacity demo_alternate demo_events demo_back.
Proof.
  repeat (eapply run_cons; [reflexivity|vm_compute; reflexivity|]). apply run_nil.
Qed.

Lemma alternate_round_trip_witness :
  set_alternate_screen true demo_core = Ret tt demo_alternate ∧
  primary demo_back = primary demo_core ∧ current demo_back = primary demo_core.
Proof.
  assert (set_alternate_screen true demo_core = Ret tt demo_alternate) as Henter
    by (vm_compute; reflexivity).
  destruct (@alternate_round_trip (list HistoryLine) _ CoreSafe.demo_tables CoreSafe.exact_capacity demo_core
    demo_alternate demo_back demo_events eq_refl Henter demo_run) as [Hp Hc].
  split_and!; [exact Henter|exact Hp|]. by apply Hc.
Defined.
