(* ===== verification/Wire.v ===== *)
(** The binary envelope of the local protocol, [crates/seyal-protocol/src/framing/envelope.rs]:
    little-endian integers on byte strings, the frame header, the errors of the
    decoders, and the interface [WireFormat] every payload of the protocol implements.

    A byte is an [N] below 256 and a byte string a [list N].  A decoder returns
    [None] where the Rust code would panic (an index or slice out of range), else
    the [Result] of the Rust code.  A [&str] is its UTF-8 bytes. *)

From S2P Require Import Prelude Utf8.

(** * Little-endian integers *)

(** [v.to_le_bytes()] at a width of [w] bytes; a wider [v] is truncated first, as
    [v as u16] truncates. *)
Fixpoint to_le (w : nat) (v : N) : list N :=
  match w with O => [] | S w => v mod 256 :: to_le w (v / 256) end.

(** [from_le_bytes]. *)
Fixpoint from_le (bytes : list N) : N :=
  match bytes with [] => 0 | b :: bytes => b + 256 * from_le bytes end.

(** [uN::from_le_bytes(bytes[lo..hi].try_into().unwrap())]. *)
Definition le_at (bytes : list N) (lo hi : N) : option N :=
  s ← vslice bytes lo hi; Some (from_le s).

(** [&bytes[lo..]]. *)
Definition vfrom (bytes : list N) (lo : N) : option (list N) := vslice bytes lo (vlen bytes).

Definition octets (bytes : list N) : Prop := Forall (λ b, b < 256) bytes.

(** An unsigned integer of [w] bytes. *)
Definition fits (w : nat) (v : N) : Prop := v < 256 ^ N.of_nat w.

(** [i32::to_le_bytes] and [i32::from_le_bytes], through the 32-bit pattern. *)
Definition i32_bits (z : Z) : N := Z.to_N (z mod 2 ^ 32).
Definition bits_i32 (n : N) : Z :=
  if n <? 2 ^ 31 then Z.of_N n else (Z.of_N n - 2 ^ 32)%Z.

(** * Results *)

Inductive FramingError :=
| TruncatedHeader | InvalidMagic | NonzeroReserved | OversizedPayload | LengthOverflow
| UnsupportedMajorVersion | UnsupportedMinorVersion | UnknownMessageType
| TruncatedPayload | ExactLengthMismatch | MalformedPayload.

#[global] Instance FramingError_eq : EqDecision FramingError.
Proof. solve_decision. Defined.

Definition is_fatal (e : FramingError) : bool := negb (bool_decide (e = UnknownMessageType)).

(** What a decoder does: panic, or return its [Result]. *)
Abbreviation W A := (option (result FramingError A)).
Definition ok {E A} (a : A) : option (result E A) := Some (Ok a).
Definition err {E A} (e : E) : option (result E A) := Some (Err e).

(** The [?] operator. *)
Definition try_ {E A B} (m : option (result E A)) (k : A → option (result E B)) : option (result E B) :=
  match m with Some (Ok a) => k a | Some (Err e) => Some (Err e) | None => None end.
Notation "'let?' x := m 'in' k" := (try_ m (λ x, k))
  (at level 10, x name, m at level 100, k at level 200).

Lemma try_assoc {E A B C} (m : option (result E A)) (f : A → option (result E B))
    (g : B → option (result E C)) : try_ (try_ m f) g = try_ m (λ a, try_ (f a) g).
Proof. by destruct m as [[]|]. Qed.

(** [option.ok_or(e)?]. *)
Definition ok_or {E A} (e : E) (o : option A) : option (result E A) :=
  match o with Some a => ok a | None => err e end.

(** [map_err]. *)
Definition map_err {E F A} (f : E → F) (m : option (result E A)) : option (result F A) :=
  match m with Some (Ok a) => ok a | Some (Err e) => err (f e) | None => None end.

Definition exact_len (bytes : list N) (expected : N) : W unit :=
  if negb (vlen bytes =? expected) then err ExactLengthMismatch else ok tt.

(** * The error codes carried by result messages *)

Inductive ErrorCode :=
| EC_UnsupportedVersion | EC_UnknownMessage | EC_InvalidState | EC_InvalidExecution
| EC_InvalidAttachment | EC_StaleIdentity | EC_PermissionDenied | EC_ControllerBusy
| EC_CapacityExceeded | EC_Backpressure | EC_InvalidGeometry | EC_DisplayUnavailable
| EC_MalformedPayload | EC_InternalFailure | EC_InvalidWorkspace
| EC_UnsupportedLaunchProfile | EC_LaunchPolicyRejected.

(** [self as u16]. *)
Definition ErrorCode_tag (e : ErrorCode) : N :=
  match e with
  | EC_UnsupportedVersion => 1 | EC_UnknownMessage => 2 | EC_InvalidState => 3
  | EC_InvalidExecution => 4 | EC_InvalidAttachment => 5 | EC_StaleIdentity => 6
  | EC_PermissionDenied => 7 | EC_ControllerBusy => 8 | EC_CapacityExceeded => 9
  | EC_Backpressure => 10 | EC_InvalidGeometry => 11 | EC_DisplayUnavailable => 12
  | EC_MalformedPayload => 13 | EC_InternalFailure => 14 | EC_InvalidWorkspace => 15
  | EC_UnsupportedLaunchProfile => 16 | EC_LaunchPolicyRejected => 17
  end.

Definition ErrorCode_from_u16 (value : N) : option ErrorCode :=
  match value with
  | 1 => Some EC_UnsupportedVersion | 2 => Some EC_UnknownMessage | 3 => Some EC_InvalidState
  | 4 => Some EC_InvalidExecution | 5 => Some EC_InvalidAttachment | 6 => Some EC_StaleIdentity
  | 7 => Some EC_PermissionDenied | 8 => Some EC_ControllerBusy | 9 => Some EC_CapacityExceeded
  | 10 => Some EC_Backpressure | 11 => Some EC_InvalidGeometry | 12 => Some EC_DisplayUnavailable
  | 13 => Some EC_MalformedPayload | 14 => Some EC_InternalFailure | 15 => Some EC_InvalidWorkspace
  | 16 => Some EC_UnsupportedLaunchProfile | 17 => Some EC_LaunchPolicyRejected
  | _ => None
  end.

(** * The frame header *)

Definition MAGIC : list N := [83; 69; 89; 65; 76; 73; 80; 67].
Definition HEADER_LEN : N := 24.
Definition MAJOR : N := 1.
Definition MINOR : N := 0.
Definition MAX_FRAME_PAYLOAD : N := 262144.
Definition MAX_INPUT_BYTES : N := 65536.
Definition MAX_EXECUTION_LIST_ENTRIES : N := 512.
Definition usize_max : N := u64_max.

Record FrameHeader := mkHeader { message_type : N; flags : N; payload_len : N }.

Definition FrameHeader_new (mt len : N) : FrameHeader := mkHeader mt 0 len.

Definition FrameHeader_encode (h : FrameHeader) : list N :=
  MAGIC ++ to_le 2 MAJOR ++ to_le 2 MINOR ++ to_le 2 (message_type h) ++ to_le 2 (flags h)
  ++ to_le 4 (payload_len h) ++ to_le 4 0.

Definition FrameHeader_decode (bytes : list N) : W FrameHeader :=
  if vlen bytes <? HEADER_LEN then err TruncatedHeader else
  magic ← vslice bytes 0 8;
  if negb (bool_decide (magic = MAGIC)) then err InvalidMagic else
  major ← le_at bytes 8 10;
  minor ← le_at bytes 10 12;
  mt ← le_at bytes 12 14;
  fl ← le_at bytes 14 16;
  len ← le_at bytes 16 20;
  reserved ← le_at bytes 20 24;
  if negb (reserved =? 0) then err NonzeroReserved else
  if negb (major =? MAJOR) then err UnsupportedMajorVersion else
  if negb (minor =? MINOR) then err UnsupportedMinorVersion else
  if negb (fl =? 0) then err MalformedPayload else
  if MAX_FRAME_PAYLOAD <? len then err OversizedPayload else
  let? _ := ok_or LengthOverflow (checked_add usize_max HEADER_LEN len) in
  ok (mkHeader mt fl len).

(** * Identities *)

(** [AttachmentId::to_bytes] and its like, and the readers [attachment_id_from] and
    [execution_id_from]: an identity is the [u128] it wraps. *)
Definition id_to_bytes (id : N) : list N := to_le 16 id.
Definition read_u128 (bytes : list N) : option N := le_at bytes 0 16.
Definition execution_id_from (bytes : list N) : option N :=
  raw ← read_u128 bytes; Some (from_le (to_le 16 raw)).
Definition attachment_id_from (bytes : list N) : option N :=
  raw ← read_u128 bytes; Some (from_le (to_le 16 raw)).

(** * The interface of a payload *)

(** How a payload is written and read, and which values a sender may write: every
    field in the range of its type and the checks of the type's own [validate]. *)
Class WireFormat (A : Type) := {
  encode : A → list N;
  decode : list N → W A;
  wire_ok : A → Prop;
}.

(** What a receiver relies on: a payload that was written is read back, and reading
    any byte string returns without a panic, a value that a sender could have
    written. *)
Class WireLaws (A : Type) `{WireFormat A} := {
  encode_bytes a : wire_ok a → octets (encode a);
  decode_encode a : wire_ok a → decode (encode a) = ok a;
  decode_total p : octets p → ∃ r, decode p = Some r ∧ ∀ a, r = Ok a → wire_ok a;
}.

(** No two byte strings are read as the same value. *)
Class WireCanonical (A : Type) `{WireFormat A} := {
  encode_decode p a : octets p → decode p = ok a → encode a = p;
}.

(** * Integers and bytes *)

Lemma length_to_le w v : length (to_le w v) = w.
Proof. revert v. induction w as [|w IH]; intros v; simpl; [done|by rewrite IH]. Qed.

Lemma to_le_bytes w v : octets (to_le w v).
Proof.
  revert v. induction w as [|w IH]; intros v; simpl; constructor; [|apply IH].
  by apply N.mod_lt.
Qed.

Lemma from_le_to_le w v : fits w v → from_le (to_le w v) = v.
Proof.
  unfold fits. revert v. induction w as [|w IH]; intros v Hv.
  { simpl in *. lia. }
  cbn [to_le from_le]. rewrite IH.
  - pose proof (N.div_mod v 256). lia.
  - rewrite Nat2N.inj_succ, N.pow_succ_r' in Hv. by apply N.Div0.div_lt_upper_bound.
Qed.

Lemma from_le_bound s : octets s → from_le s < 256 ^ vlen s.
Proof.
  induction 1 as [|b s Hb Hs IH]; [done|]. cbn [from_le length].
  rewrite Nat2N.inj_succ, N.pow_succ_r'. lia.
Qed.

Lemma from_le_fits w s : octets s → length s = w → fits w (from_le s).
Proof. intros Hs <-. by apply from_le_bound. Qed.

Lemma to_le_from_le w s : octets s → length s = w → to_le w (from_le s) = s.
Proof.
  intros Hs <-. induction Hs as [|b s Hb Hs IH]; [done|]. cbn [from_le to_le length].
  assert ((b + 256 * from_le s) mod 256 = b) as ->.
  { rewrite N.mul_comm, N.Div0.mod_add. by apply N.mod_small. }
  assert ((b + 256 * from_le s) / 256 = from_le s) as ->; [|by rewrite IH].
  rewrite N.mul_comm, N.div_add by done. by rewrite N.div_small.
Qed.

Lemma from_le_replicate n : from_le (replicate n 0) = 0.
Proof. induction n as [|n IH]; [done|]. simpl. by rewrite IH. Qed.

Lemma to_le_0 w : to_le w 0 = replicate w 0.
Proof. induction w as [|w IH]; [done|]. cbn [to_le replicate]. by rewrite <-IH. Qed.

Lemma from_le_0 s : octets s → from_le s = 0 → s = replicate (length s) 0.
Proof. intros Hs H. by rewrite <-(to_le_from_le _ s Hs eq_refl) at 1; rewrite H, to_le_0. Qed.

(** The all-zero test on an identity, [bytes[..16] == [0; 16]]. *)
Lemma to_le_nonzero w v :
  fits w v → v ≠ 0 → bool_decide (to_le w v = replicate w 0) = false.
Proof.
  intros Hv Hn. apply bool_decide_eq_false_2. intros H. apply Hn.
  by rewrite <-(from_le_to_le w v Hv), H, from_le_replicate.
Qed.

Lemma from_le_nonzero n s : octets s → length s = n → s ≠ replicate n 0 → from_le s ≠ 0.
Proof. intros Hs <- Hn H. by apply Hn, from_le_0. Qed.

(** The high half of a field. *)
Lemma from_le_drop n s : octets s → from_le (drop n s) = from_le s / 256 ^ N.of_nat n.
Proof.
  intros Hs. revert n. induction Hs as [|b s Hb Hs IH]; intros [|n].
  - by rewrite N.div_1_r.
  - cbn [drop from_le]. by rewrite N.Div0.div_0_l.
  - rewrite drop_0. change (256 ^ N.of_nat 0) with 1. by rewrite N.div_1_r.
  - cbn [drop from_le]. rewrite IH, Nat2N.inj_succ, N.pow_succ_r', <-N.Div0.div_div. f_equal.
    rewrite (N.mul_comm 256), N.div_add, (N.div_small b) by done. done.
Qed.

Lemma i32_bits_fits z : fits 4 (i32_bits z).
Proof. unfold fits, i32_bits. change (256 ^ N.of_nat 4) with (2 ^ 32). lia. Qed.

Lemma bits_i32_bits z : (- 2 ^ 31 ≤ z < 2 ^ 31)%Z → bits_i32 (i32_bits z) = z.
Proof.
  intros Hz. unfold bits_i32, i32_bits. change (2 ^ 31)%N with 2147483648.
  change (2 ^ 31)%Z with 2147483648%Z in *. change (2 ^ 32)%Z with 4294967296%Z.
  destruct (N.ltb_spec (Z.to_N (z mod 4294967296)) 2147483648); lia.
Qed.

Lemma i32_bits_i32 n : fits 4 n → i32_bits (bits_i32 n) = n.
Proof.
  unfold fits. change (256 ^ N.of_nat 4) with 4294967296. intros Hn. unfold bits_i32, i32_bits.
  change (2 ^ 31)%N with 2147483648. change (2 ^ 32)%Z with 4294967296%Z.
  destruct (N.ltb_spec n 2147483648); lia.
Qed.

Lemma bits_i32_range n : fits 4 n → (- 2 ^ 31 ≤ bits_i32 n < 2 ^ 31)%Z.
Proof.
  unfold fits. change (256 ^ N.of_nat 4) with 4294967296. intros Hn. unfold bits_i32.
  change (2 ^ 31)%N with 2147483648. change (2 ^ 31)%Z with 2147483648%Z.
  change (2 ^ 32)%Z with 4294967296%Z. destruct (N.ltb_spec n 2147483648); lia.
Qed.

Lemma octets_app a b : octets (a ++ b) ↔ octets a ∧ octets b.
Proof. apply Forall_app. Qed.

Lemma octets_zeros n : octets (replicate n 0).
Proof. apply Forall_replicate. done. Qed.

(** * Reading a concatenation of fields *)

Section read.
Context {A : Type}.
Implicit Types (x y s : list A) (n : nat).

Lemma vslice_skip x y lo hi n :
  length x = n → (N.of_nat n <=? lo) = true → (lo <=? hi) = true →
  vslice (x ++ y) lo hi = vslice y (lo - N.of_nat n) (hi - N.of_nat n).
Proof.
  intros <- Hlo Hhi. to_prop. unfold vslice. rewrite length_app.
  assert ((lo <=? hi) = (lo - vlen x <=? hi - vlen x)) as -> by (apply eq_true_iff_eq; rewrite !N.leb_le; lia).
  assert ((hi <=? N.of_nat (length x + length y)) = (hi - vlen x <=? vlen y)) as ->
    by (apply eq_true_iff_eq; rewrite !N.leb_le; lia).
  destruct (_ && _); [|done]. f_equal.
  rewrite drop_app, drop_ge by lia. cbn [app].
  replace (hi - vlen x - (lo - vlen x)) with (hi - lo) by lia.
  do 2 f_equal. lia.
Qed.

Lemma vslice_head x y hi n : length x = n → hi = N.of_nat n → vslice (x ++ y) 0 hi = Some x.
Proof.
  intros <- ->. unfold vslice. rewrite length_app.
  assert ((vlen x <=? N.of_nat (length x + length y)) = true) as -> by (apply N.leb_le; lia).
  cbn [andb N.leb N.compare]. rewrite drop_0, N.sub_0_r, Nat2N.id, take_app_length. by destruct x.
Qed.

Lemma vslice_all x hi n : length x = n → hi = N.of_nat n → vslice x 0 hi = Some x.
Proof. intros Hn Hhi. rewrite <-(app_nil_r x) at 1. by eapply vslice_head. Qed.

Lemma vget_skip x y i n :
  length x = n → (N.of_nat n <=? i) = true → vget (x ++ y) i = vget y (i - N.of_nat n).
Proof.
  intros <- Hi. to_prop. unfold vget. rewrite lookup_app_r by lia. f_equal. lia.
Qed.

Lemma vget_head (b : A) y : vget (b :: y) 0 = Some b.
Proof. done. Qed.

Lemma vslice_shift x y (n lo hi : N) :
  n = vlen x → vslice (x ++ y) (n + lo) (n + hi) = vslice y lo hi.
Proof.
  intros ->. unfold vslice. rewrite length_app.
  assert ((vlen x + lo <=? vlen x + hi) = (lo <=? hi)) as ->
    by (apply eq_true_iff_eq; rewrite !N.leb_le; lia).
  assert ((vlen x + hi <=? N.of_nat (length x + length y)) = (hi <=? vlen y)) as ->
    by (apply eq_true_iff_eq; rewrite !N.leb_le; lia).
  destruct (_ && _); [|done]. f_equal.
  rewrite drop_app, drop_ge by lia. cbn [app].
  replace (vlen x + hi - (vlen x + lo)) with (hi - lo) by lia. do 2 f_equal. lia.
Qed.

Lemma vslice_shift0 x y (n hi : N) : n = vlen x → vslice (x ++ y) n (n + hi) = vslice y 0 hi.
Proof. intros Hn. rewrite <-(N.add_0_r n) at 1. by apply vslice_shift. Qed.

Lemma vget_shift x y (n i : N) : n = vlen x → vget (x ++ y) (n + i) = vget y i.
Proof. intros ->. unfold vget. rewrite lookup_app_r by lia. f_equal. lia. Qed.

Lemma cut_field_ge s n : (n ≤ length s)%nat → ∃ x y, s = x ++ y ∧ length x = n.
Proof. intros Hs. exists (take n s), (drop n s). rewrite take_drop, length_take. split; [done|lia]. Qed.

(** Cut a byte string of known length into fields. *)
Lemma cut_field s n m :
  length s = (n + m)%nat → ∃ x y, s = x ++ y ∧ length x = n ∧ length y = m.
Proof.
  intros Hs. exists (take n s), (drop n s). rewrite take_drop, length_take, length_drop. split_and!; [done|lia..].
Qed.
End read.

Lemma vfrom_all s : vfrom s 0 = Some s.
Proof. unfold vfrom. eapply vslice_all; [done|]. lia. Qed.

Lemma vfrom_skip x y lo n :
  length x = n → (N.of_nat n <=? lo) = true → lo ≤ vlen (x ++ y) →
  vfrom (x ++ y) lo = vfrom y (lo - N.of_nat n).
Proof.
  intros Hn Hlo Hle. unfold vfrom. rewrite (vslice_skip x y lo _ n Hn Hlo).
  - rewrite length_app, Hn. f_equal. lia.
  - by apply N.leb_le.
Qed.

Lemma le_at_shift x y n lo hi : n = vlen x → le_at (x ++ y) (n + lo) (n + hi) = le_at y lo hi.
Proof. intros Hn. unfold le_at. by rewrite vslice_shift. Qed.

Lemma le_at_shift0 x y n hi : n = vlen x → le_at (x ++ y) n (n + hi) = le_at y 0 hi.
Proof. intros Hn. unfold le_at. by rewrite vslice_shift0. Qed.

Lemma le_at_to_le bytes lo hi w v : vslice bytes lo hi = Some (to_le w v) → fits w v → le_at bytes lo hi = Some v.
Proof. unfold le_at. intros -> Hv. cbn. by rewrite from_le_to_le. Qed.

(** The laws of a payload from what its decoder does with any input. *)
Section laws.
Context {A : Type} `{WireFormat A}.

Definition decoder_exact : Prop :=
  ∀ p, octets p → ∃ r, decode p = Some r ∧ ∀ a, r = Ok a → wire_ok a ∧ encode a = p.

Lemma exact_laws :
  (∀ a, wire_ok a → octets (encode a)) → (∀ a, wire_ok a → decode (encode a) = ok a) →
  decoder_exact → WireLaws A.
Proof.
  intros He Hr Hd. split; [done..|]. intros p Hp. destruct (Hd p Hp) as (r & Hr' & Ha).
  exists r. split; [done|]. intros a Hra. by apply Ha.
Qed.

Lemma total_laws :
  (∀ a, wire_ok a → octets (encode a)) → (∀ a, wire_ok a → decode (encode a) = ok a) →
  (∀ p, octets p → ∃ r, decode p = Some r ∧ ∀ a, r = Ok a → wire_ok a ∧ True) → WireLaws A.
Proof.
  intros He Hr Hd. split; [done..|]. intros p Hp. destruct (Hd p Hp) as (r & Hr' & Ha).
  exists r. split; [done|]. intros a Hra. by apply Ha.
Qed.

Lemma exact_canonical : decoder_exact → WireCanonical A.
Proof.
  intros Hd. split. intros p a Hp Ha. destruct (Hd p Hp) as (r & Hr & Hok).
  rewrite Ha in Hr. injection Hr as <-. by destruct (Hok a eq_refl).
Qed.
End laws.
Arguments decoder_exact A {_}.

(** * Sequences of records *)

(** [for _ in 0..count { let (record, next) = read(offset)?; records.push(record);
    offset = next; }]. *)
Fixpoint read_n {E A} (read : N → option (result E (A * N))) (count : nat) (offset : N)
    : option (result E (list A * N)) :=
  match count with
  | O => ok ([], offset)
  | S count =>
    let? rec := read offset in
    let? rest := read_n read count rec.2 in
    ok (rec.1 :: rest.1, rest.2)
  end.

Section records.
Context {E A : Type} (read : list N → N → option (result E (A * N))).
Context (enc : A → list N) (good : A → Prop) (need : N) (P : list N → Prop).

(** The reader reads back a record, wherever it is in an input that satisfies [P]. *)
Definition reads_back : Prop := ∀ pre a rest,
  good a → P (pre ++ enc a ++ rest) → read (pre ++ enc a ++ rest) (vlen pre) = ok (a, vlen pre + vlen (enc a)).

(** The reader does not panic where [need] bytes are left, and what it returns was
    written there. *)
Definition reads_exactly : Prop := ∀ pre body, octets body → P (pre ++ body) → need ≤ vlen body →
  ∃ r, read (pre ++ body) (vlen pre) = Some r ∧ ∀ a off, r = Ok (a, off) →
    good a ∧ ∃ rest, body = enc a ++ rest ∧ off = vlen pre + vlen (enc a).

Definition enc_all (l : list A) : list N := l ≫= enc.

Lemma read_n_back (l : list A) pre rest :
  reads_back → Forall good l → P (pre ++ enc_all l ++ rest) →
  read_n (read (pre ++ enc_all l ++ rest)) (length l) (vlen pre)
  = ok (l, vlen pre + vlen (enc_all l)).
Proof.
  intros Hr Hl. revert pre. induction Hl as [|a l Ha Hl IH]; intros pre HP.
  { cbn. unfold ok. do 3 f_equal. lia. }
  change (enc_all (a :: l)) with (enc a ++ enc_all l) in *. cbn [read_n length].
  rewrite <-!(assoc_L (++)) in *. rewrite (Hr pre a (enc_all l ++ rest) Ha HP). cbn [try_ ok fst snd].
  specialize (IH (pre ++ enc a)). rewrite <-!(assoc_L (++)), length_app, Nat2N.inj_add in IH.
  rewrite IH by done. cbn [try_ ok fst snd]. rewrite !length_app. unfold ok. do 3 f_equal. lia.
Qed.

Lemma read_n_all (l : list A) pre n :
  reads_back → Forall good l → P (pre ++ enc_all l) → n = vlen pre →
  read_n (read (pre ++ enc_all l)) (length l) n = ok (l, n + vlen (enc_all l)).
Proof.
  intros Hr Hl HP ->. rewrite <-(app_nil_r (enc_all l)) at 1. apply read_n_back; [done..|].
  by rewrite app_nil_r.
Qed.

Lemma read_n_exact count pre body :
  reads_exactly → need = 0 ∨ (∀ a, good a → vlen (enc a) = need) →
  octets body → P (pre ++ body) → need * N.of_nat count ≤ vlen body →
  ∃ r, read_n (read (pre ++ body)) count (vlen pre) = Some r ∧ ∀ l off, r = Ok (l, off) →
    length l = count ∧ Forall good l ∧
    ∃ rest, body = enc_all l ++ rest ∧ off = vlen pre + vlen (enc_all l).
Proof.
  intros Hr Hn. revert pre body. induction count as [|count IH]; intros pre body Hb HP Hlen.
  { eexists. split; [done|]. intros l off [= <- <-]. split_and!; [done|constructor|].
    exists body. cbn. split; [done|lia]. }
  destruct (Hr pre body Hb HP) as (r & Hr1 & Hr2); [nia|]. cbn [read_n]. rewrite Hr1.
  destruct r as [[a off]|e]; cbn [try_]; [|eexists; split; [done|intros ? ? [=]]].
  destruct (Hr2 a off eq_refl) as (Ha & rest & -> & ->). apply Forall_app in Hb as [Hba Hb].
  destruct (IH (pre ++ enc a) rest Hb) as (r & Hr3 & Hr4); [by rewrite <-(assoc_L (++))|..].
  { rewrite length_app in Hlen. destruct Hn as [->|Hn]; [lia|]. specialize (Hn a Ha). lia. }
  rewrite <-(assoc_L (++)), length_app, Nat2N.inj_add in Hr3. cbn [snd]. rewrite Hr3.
  destruct r as [[l off]|e]; cbn [try_ fst snd ok]; [|eexists; split; [done|intros ? ? [=]]].
  destruct (Hr4 l off eq_refl) as (Hl & Hg & rest' & -> & ->).
  eexists. split; [done|]. intros l' off' [= <- <-]. split_and!; [by rewrite <-Hl|by constructor|].
  exists rest'. change (enc_all (a :: l)) with (enc a ++ enc_all l).
  rewrite !length_app, <-(assoc_L (++)). split; [done|lia].
Qed.
End records.
Arguments enc_all {A} enc l.

(** * Proof automation for payloads *)

Lemma exact_len_ok bytes n : vlen bytes = n → exact_len bytes n = ok tt.
Proof. intros <-. unfold exact_len. by rewrite N.eqb_refl. Qed.

Lemma exact_len_cases bytes n :
  (exact_len bytes n = err ExactLengthMismatch ∧ vlen bytes ≠ n)
  ∨ (exact_len bytes n = ok tt ∧ length bytes = N.to_nat n).
Proof.
  unfold exact_len. destruct (N.eqb_spec (vlen bytes) n) as [<-|H]; [right|left]; [|done].
  by rewrite Nat2N.id.
Qed.

(** A reader of an enumeration and the tags it reads: it accepts exactly the tags. *)
Class TagReader {A} (read : N → W A) (tag : A → N) := {
  read_tag a : read (tag a) = ok a;
  read_cases n : (∃ a, read n = ok a ∧ n = tag a) ∨ read n = err MalformedPayload;
  tag_byte a : tag a < 256;
}.

(** Discharge a reader that matches on numeral patterns. *)
Ltac solve_tag_reader :=
  split;
  [ intros []; reflexivity
  | intros n; destruct n as [|n]; first [right; reflexivity | left; eexists; split; reflexivity
    | repeat (destruct n as [n|n|]; first [right; reflexivity | left; eexists; split; reflexivity | idtac])]
  | intros []; reflexivity ].

(** Discharge the reader of a result code: 0, or the tag of an [ErrorCode]. *)
Ltac solve_code_reader :=
  split;
  [ intros [|[]]; reflexivity
  | intros n; destruct n as [|n]; first [right; reflexivity | left; eexists; split; reflexivity
    | repeat (destruct n as [n|n|]; first [right; reflexivity | left; eexists; split; reflexivity | idtac])]
  | intros [|[]]; reflexivity ].

Definition bool_tag (b : bool) : N := if b then 1 else 0.
Definition bool_from_u8 (value : N) : W bool :=
  match value with 0 => ok false | 1 => ok true | _ => err MalformedPayload end.
#[global] Instance bool_reader : TagReader bool_from_u8 bool_tag.
Proof. solve_tag_reader. Qed.

Create HintDb wire.
#[export] Hint Resolve to_le_bytes octets_zeros from_le_fits from_le_nonzero : wire.
#[export] Hint Extern 1 (fits _ _) => reflexivity : wire.
#[export] Hint Extern 1 (_ < 256) => reflexivity : wire.
#[export] Hint Extern 2 (?t ?a < 256) => exact (tag_byte (tag := t) a) : wire.

Lemma fits_0 w : fits w 0.
Proof. unfold fits. apply N.neq_0_lt_0, N.pow_nonzero. done. Qed.
#[export] Hint Resolve fits_0 : wire.

Lemma octets_one b : b < 256 → octets [b].
Proof. by repeat constructor. Qed.
#[export] Hint Resolve octets_one : wire.

Lemma fits_byte w b : b < 256 → fits (S w) b.
Proof.
  unfold fits. rewrite Nat2N.inj_succ, N.pow_succ_r'. pose proof (fits_0 w) as Hw. unfold fits in Hw. nia.
Qed.
#[export] Hint Resolve fits_byte : wire.

Ltac field_len x :=
  lazymatch x with
  | to_le ?w _ => w
  | [_] => constr:(1%nat)
  | replicate ?n _ => n
  | MAGIC => constr:(8%nat)
  | _ => match goal with H : length x = ?n |- _ => n end
  end.
Ltac solve_len :=
  first [apply length_to_le | reflexivity | apply length_replicate | eassumption].

Ltac norm_sub :=
  repeat match goal with
  | |- context [N.sub ?a (N.of_nat ?n)] =>
    let v := eval vm_compute in (N.sub a (N.of_nat n)) in
    change (N.sub a (N.of_nat n)) with v
  end.

(** Read every field of a concatenation: the slices and bytes of the goal become
    the fields they cover. *)
Ltac wire_read :=
  unfold le_at, attachment_id_from, execution_id_from, read_u128, le_at, id_to_bytes;
  repeat match goal with
  | |- context [vslice (?x ++ ?y) 0 ?hi] =>
    let n := field_len x in rewrite (vslice_head x y hi n) by first [solve_len | reflexivity]
  | |- context [vslice (?x ++ ?y) ?lo ?hi] =>
    let n := field_len x in
    rewrite (vslice_skip x y lo hi n) by first [solve_len | reflexivity]; norm_sub
  | |- context [vslice ?x 0 ?hi] =>
    let n := field_len x in rewrite (vslice_all x hi n) by first [solve_len | reflexivity]
  | |- context [vget (?x ++ ?y) ?i] =>
    let n := field_len x in
    rewrite (vget_skip x y i n) by first [solve_len | reflexivity]; norm_sub
  | |- context [vget ([?b] ++ ?y) 0] => change (vget ([b] ++ y) 0) with (Some b)
  | |- context [vfrom (?x ++ ?y) ?lo] =>
    let n := field_len x in
    rewrite (vfrom_skip x y lo n) by first [solve_len | reflexivity | rewrite ?length_app, ?length_to_le, ?length_replicate; cbn [length]; lia];
    norm_sub
  | |- context [vfrom _ 0] => rewrite vfrom_all
  | |- context [mbind _ (Some _)] => progress cbn [mbind option_bind]
  end.

Create Rewrite HintDb wire.
#[export] Hint Rewrite from_le_replicate : wire.
#[export] Hint Rewrite to_le_nonzero using assumption : wire.

(** Evaluate a decoder on the fields an encoder wrote. *)
Ltac wire_eval :=
  wire_read;
  repeat first
  [ rewrite from_le_to_le by (eauto with wire)
  | rewrite read_tag
  | rewrite N.eqb_refl
  | progress autorewrite with wire using (eauto with wire)
  | progress cbn [try_ ok ok_or negb orb N.eqb]
  | match goal with |- context [bool_decide (?x = ?x)] => rewrite (bool_decide_eq_true_2 (x = x) eq_refl) end ].

(** [vlen] of a concatenation of fields. *)
Ltac wire_len :=
  unfold id_to_bytes; rewrite ?length_app, ?length_to_le, ?length_replicate; try reflexivity.

Ltac wire_bytes := unfold id_to_bytes; rewrite ?octets_app; split_and?; eauto with wire.

Lemma cut_byte (s : list N) m :
  length s = S m → ∃ b y, s = [b] ++ y ∧ length y = m.
Proof. destruct s as [|b y]; intros [=]. by exists b, y. Qed.

Lemma octets_byte b p : octets ([b] ++ p) → b < 256 ∧ octets p.
Proof. intros [H Hp]%octets_app. by inversion H. Qed.

(** Cut the input at the widths [ws] in a goal [length p = _ → octets p → _]; a field
    of width 1 is named as a byte. *)
Ltac wire_cut ws :=
  lazymatch ws with
  | [1%nat] =>
    let Hl := fresh "Hl" in let Hp := fresh "Hp" in let b := fresh "b" in let q := fresh "q" in
    let Hb := fresh "Hb" in let Hr := fresh "Hr" in
    intros Hl Hp; apply cut_byte in Hl as (b & q & -> & Hr);
    apply octets_byte in Hp as [Hb Hp]; apply nil_length_inv in Hr; subst q
  | [_] =>
    let Hl := fresh "Hl" in let Hp := fresh "Hp" in let z := fresh "z" in
    intros Hl Hp; match type of Hl with length ?q = _ => rename q into z end
  | 1%nat :: ?ws =>
    let Hl := fresh "Hl" in let Hp := fresh "Hp" in let b := fresh "b" in let q := fresh "q" in
    let Hb := fresh "Hb" in let Hr := fresh "Hr" in
    intros Hl Hp; apply cut_byte in Hl as (b & q & -> & Hr);
    apply octets_byte in Hp as [Hb Hp]; revert Hr Hp; wire_cut ws
  | ?n :: ?ws =>
    let Hl := fresh "Hl" in let Hp := fresh "Hp" in let s := fresh "s" in let q := fresh "q" in
    let Hb := fresh "Hb" in let Hr := fresh "Hr" in let Hs := fresh "Hs" in
    let m := eval vm_compute in (foldr plus O ws) in
    intros Hl Hp; apply (cut_field _ n m) in Hl as (s & q & -> & Hs & Hr);
    apply octets_app in Hp as [Hb Hp]; revert Hr Hp; wire_cut ws
  end.

(** The next test of a decoder. *)
Ltac wire_case :=
  lazymatch goal with
  | |- ∃ r, (if ?c then _ else _) = Some r ∧ _ => destruct c eqn:?
  | |- ∃ r, try_ (Some ?x) _ = Some r ∧ _ =>
    destruct x as [[]|?] eqn:?; cbn [try_ ok err]
  | |- ∃ r, match ?x with Ok _ => _ | Err _ => _ end = Some r ∧ _ => destruct x as [[]|?] eqn:?
  | |- ∃ r, try_ (if ?c then _ else _) _ = Some r ∧ _ => destruct c eqn:?; cbn [try_ ok err]
  | |- ∃ r, try_ (?f ?x) _ = Some r ∧ _ =>
    let a := fresh "tag" in
    first [ destruct (read_cases (read := f) x) as [(a & -> & ?)| ->]; cbn [try_ ok err]
          | unfold f | progress autorewrite with wire ]
  | |- ∃ r, Some (Err _) = Some r ∧ _ => eexists; split; [reflexivity|intros ? [=]]
  | |- ∃ r, err _ = Some r ∧ _ => eexists; split; [reflexivity|intros ? [=]]
  | |- ∃ r, ok _ = Some r ∧ _ => eexists; split; [reflexivity|intros ? [= <-]]
  end.

#[global] Arguments to_le : simpl never.
#[global] Arguments from_le : simpl never.
#[global] Arguments from_utf8 : simpl never.

(** The fields that were tested, as the fields the encoder writes. *)
Ltac wire_fields :=
  to_prop;
  repeat match goal with
  | H : bool_decide _ = true |- _ => apply bool_decide_eq_true_1 in H
  | H : bool_decide _ = false |- _ => apply bool_decide_eq_false_1 in H
  | H : from_le ?s = ?c, Hb : octets ?s, Hs : length ?s = ?n |- _ =>
    let E := fresh in
    assert (s = to_le n c) as E by (rewrite <-H; symmetry; by apply to_le_from_le);
    clear H; subst s
  | _ => progress subst
  end.

(** The decoded value is well formed and its encoding is the input. *)
Ltac wire_finish :=
  wire_fields; cbn in *;
  rewrite ?to_le_from_le by (eauto with wire); split_and?; eauto with wire; try done.

(** A whole decoder of the payload [bytes] whose fields have the widths [ws]. *)
Ltac wire_decode ws :=
  match goal with |- context [exact_len ?p ?n] =>
    let Hl := fresh "Hl" in
    destruct (exact_len_cases p n) as [[-> _]|[-> Hl]]; cbn [try_ ok err]; [intros _; wire_case|];
    revert Hl
  end;
  wire_cut ws; wire_read; rewrite ?from_le_to_le by (eauto with wire);
  repeat wire_case; wire_finish.

(** A whole encoder read back. *)
Ltac wire_encode :=
  cbn -[app replicate] in *; rewrite ?exact_len_ok by wire_len; cbn [try_ ok];
  wire_eval;
  repeat match goal with
  | H : ?v = Ok tt |- context [?v] => rewrite H; cbn [try_]
  | H : ?x = 0 |- context [?x =? 0] => rewrite H; cbn [N.eqb negb orb]
  | H : ?x ≠ 0 |- context [?x =? 0] => rewrite (proj2 (N.eqb_neq x 0) H); cbn [N.eqb negb orb]
  | H : ?c = false |- context [if ?c then _ else _] => rewrite H
  | H : ?c = true |- context [negb ?c] => rewrite H; cbn [negb]
  end; try done.

(** The laws of the payload with encoder [enc], decoder [dec] and valid values [okp]. *)
Ltac wire_laws_by laws enc dec okp lem :=
  apply laws;
  [ let m := fresh "m" in intros m; change (okp m → octets (enc m)); destruct m;
    unfold okp, enc; intros; destruct_and?; cbn -[app replicate] in *; wire_bytes
  | let m := fresh "m" in intros m; change (okp m → dec (enc m) = ok m); destruct m;
    unfold okp, dec, enc; intros; destruct_and?; wire_encode
  | exact lem ].
Ltac wire_laws enc dec okp lem := wire_laws_by @exact_laws enc dec okp lem.
Ltac wire_laws_total enc dec okp lem := wire_laws_by @total_laws enc dec okp lem.
