(* ===== verification/WirePane.v ===== *)
(** The fixed-size payloads of a Pane, [crates/seyal-protocol/src/pass7/]: semantic
    keys, correlated resize, the composer, session bootstrap and history requests.
    The [debug_assert!]s of the encoders are the [validate] conjuncts of the [_ok]
    predicates. *)

From S2P Require Import Prelude Utf8 Wire.

(** Display bounds, [display/mod.rs]. *)
Definition MAX_DISPLAY_ROWS : N := 256.
Definition MAX_DISPLAY_COLUMNS : N := 512.

(** * Semantic keys, [terminal_key.rs] *)

Inductive TerminalKeyKind :=
  | TK_Enter | TK_Tab | TK_Backspace | TK_Escape | TK_ArrowUp | TK_ArrowDown | TK_ArrowRight |
  TK_ArrowLeft | TK_ControlAscii.
Definition TerminalKeyKind_tag (x : TerminalKeyKind) : N :=
  match x with
  | TK_Enter => 1 | TK_Tab => 2 | TK_Backspace => 3 | TK_Escape => 4 | TK_ArrowUp => 5 |
  TK_ArrowDown => 6 | TK_ArrowRight => 7 | TK_ArrowLeft => 8 | TK_ControlAscii => 9 end.
Definition TerminalKeyKind_from_u16 (value : N) : W TerminalKeyKind :=
  match value with
  | 1 => ok TK_Enter | 2 => ok TK_Tab | 3 => ok TK_Backspace | 4 => ok TK_Escape | 5 => ok
  TK_ArrowUp | 6 => ok TK_ArrowDown | 7 => ok TK_ArrowRight | 8 => ok TK_ArrowLeft | 9 => ok
  TK_ControlAscii | _ => err MalformedPayload end.
#[global] Instance TerminalKeyKind_reader : TagReader TerminalKeyKind_from_u16 TerminalKeyKind_tag.
Proof. solve_tag_reader. Qed.

(** [TerminalKeyModifiers]: only [NONE] and [CONTROL] can be built. *)
Inductive TerminalKeyModifiers := TKM_NONE | TKM_CONTROL.
Definition TerminalKeyModifiers_bits (m : TerminalKeyModifiers) : N :=
  match m with TKM_NONE => 0 | TKM_CONTROL => 1 end.
Definition TerminalKeyModifiers_from_bits (bits : N) : W TerminalKeyModifiers :=
  match bits with 0 => ok TKM_NONE | 1 => ok TKM_CONTROL | _ => err MalformedPayload end.
#[global] Instance TerminalKeyModifiers_reader :
  TagReader TerminalKeyModifiers_from_bits TerminalKeyModifiers_bits.
Proof. solve_tag_reader. Qed.

Definition valid_control_ascii_scalar (scalar : N) : bool :=
  (scalar =? 32) || (scalar =? 63) || (scalar =? 64) || inr 65 95 scalar.

Record TerminalKey := mkTerminalKey {
  tk_attachment_id : N; tk_kind : TerminalKeyKind; tk_modifiers : TerminalKeyModifiers; tk_scalar : N }.

Definition TerminalKey_validate (k : TerminalKey) : result FramingError unit :=
  match tk_kind k with
  | TK_ControlAscii =>
    match tk_modifiers k with
    | TKM_CONTROL => if valid_control_ascii_scalar (tk_scalar k) then Ok tt else Err MalformedPayload
    | TKM_NONE => Err MalformedPayload
    end
  | _ =>
    match tk_modifiers k with
    | TKM_NONE => if negb (tk_scalar k =? 0) then Err MalformedPayload else Ok tt
    | TKM_CONTROL => Err MalformedPayload
    end
  end.
#[global] Arguments TerminalKey_validate : simpl never.

Definition TerminalKey_encode (k : TerminalKey) : list N :=
  to_le 16 (tk_attachment_id k) ++ to_le 2 (TerminalKeyKind_tag (tk_kind k))
  ++ to_le 2 (TerminalKeyModifiers_bits (tk_modifiers k)) ++ to_le 4 (tk_scalar k).

Definition TerminalKey_decode (bytes : list N) : W TerminalKey :=
  let? _ := exact_len bytes 24 in
  id ← vslice bytes 0 16;
  attachment_id ← attachment_id_from id;
  kind ← le_at bytes 16 18;
  let? kind := TerminalKeyKind_from_u16 kind in
  modifiers ← le_at bytes 18 20;
  let? modifiers := TerminalKeyModifiers_from_bits modifiers in
  scalar ← le_at bytes 20 24;
  let value := mkTerminalKey attachment_id kind modifiers scalar in
  let? _ := Some (TerminalKey_validate value) in
  ok value.

Definition TerminalKey_ok (k : TerminalKey) : Prop :=
  fits 16 (tk_attachment_id k) ∧ fits 4 (tk_scalar k) ∧ TerminalKey_validate k = Ok tt.

#[global] Instance TerminalKey_format : WireFormat TerminalKey := {|
  encode := TerminalKey_encode; decode := TerminalKey_decode; wire_ok := TerminalKey_ok |}.
Lemma TerminalKey_exact : decoder_exact TerminalKey.
Proof.
  intros p. cbn [decode encode wire_ok TerminalKey_format].
  unfold TerminalKey_decode, TerminalKey_ok, TerminalKey_encode. wire_decode [16; 2; 2; 4]%nat.
Qed.
#[global] Instance TerminalKey_laws : WireLaws TerminalKey.
Proof. wire_laws TerminalKey_encode TerminalKey_decode TerminalKey_ok TerminalKey_exact. Qed.
#[global] Instance TerminalKey_canonical : WireCanonical TerminalKey.
Proof. exact (exact_canonical TerminalKey_exact). Qed.

Inductive TerminalKeyV2Kind :=
  | K2_Enter | K2_Tab | K2_Backspace | K2_Escape | K2_ArrowUp | K2_ArrowDown | K2_ArrowRight |
  K2_ArrowLeft | K2_Home | K2_End | K2_Insert | K2_Delete | K2_PageUp | K2_PageDown |
  K2_Function | K2_Keypad | K2_Ascii.
Definition TerminalKeyV2Kind_tag (x : TerminalKeyV2Kind) : N :=
  match x with
  | K2_Enter => 1 | K2_Tab => 2 | K2_Backspace => 3 | K2_Escape => 4 | K2_ArrowUp => 5 |
  K2_ArrowDown => 6 | K2_ArrowRight => 7 | K2_ArrowLeft => 8 | K2_Home => 9 | K2_End => 10 |
  K2_Insert => 11 | K2_Delete => 12 | K2_PageUp => 13 | K2_PageDown => 14 | K2_Function => 15 |
  K2_Keypad => 16 | K2_Ascii => 17 end.
Definition TerminalKeyV2Kind_from_u16 (value : N) : W TerminalKeyV2Kind :=
  match value with
  | 1 => ok K2_Enter | 2 => ok K2_Tab | 3 => ok K2_Backspace | 4 => ok K2_Escape | 5 => ok
  K2_ArrowUp | 6 => ok K2_ArrowDown | 7 => ok K2_ArrowRight | 8 => ok K2_ArrowLeft | 9 => ok
  K2_Home | 10 => ok K2_End | 11 => ok K2_Insert | 12 => ok K2_Delete | 13 => ok K2_PageUp | 14
  => ok K2_PageDown | 15 => ok K2_Function | 16 => ok K2_Keypad | 17 => ok K2_Ascii | _ => err
  MalformedPayload end.
#[global] Instance TerminalKeyV2Kind_reader : TagReader TerminalKeyV2Kind_from_u16 TerminalKeyV2Kind_tag.
Proof. solve_tag_reader. Qed.

(** [TerminalKeyV2Modifiers(u16)]: any of shift (1), alt (2) and control (4); [!0b111]
    is 65528 at 16 bits. *)
Record TerminalKeyV2Modifiers := mkModifiers { mod_bits : N }.
Definition MOD_SHIFT : N := 1.
Definition MOD_ALT : N := 2.
Definition MOD_CONTROL : N := 4.
Definition from_bits_for_ffi (bits : N) : option TerminalKeyV2Modifiers :=
  if negb (N.land bits 65528 =? 0) then None else Some (mkModifiers bits).
Definition TerminalKeyV2Modifiers_from_bits (bits : N) : W TerminalKeyV2Modifiers :=
  if negb (N.land bits 65528 =? 0) then err MalformedPayload else ok (mkModifiers bits).

Lemma from_bits_back m :
  N.land (mod_bits m) 65528 = 0 → TerminalKeyV2Modifiers_from_bits (mod_bits m) = ok m.
Proof. intros H. unfold TerminalKeyV2Modifiers_from_bits. rewrite H. by destruct m. Qed.
Lemma from_bits_for_ffi_ok_or bits :
  ok_or MalformedPayload (from_bits_for_ffi bits) = TerminalKeyV2Modifiers_from_bits bits.
Proof. unfold from_bits_for_ffi, TerminalKeyV2Modifiers_from_bits. by destruct (_ =? _). Qed.
#[export] Hint Rewrite from_bits_for_ffi_ok_or : wire.
#[export] Hint Rewrite from_bits_back using assumption : wire.

Inductive TerminalKeyV2Event :=
  | K2E_Press | K2E_Repeat | K2E_Release.
Definition TerminalKeyV2Event_tag (x : TerminalKeyV2Event) : N :=
  match x with
  | K2E_Press => 1 | K2E_Repeat => 2 | K2E_Release => 3 end.
Definition TerminalKeyV2Event_from_u8 (value : N) : W TerminalKeyV2Event :=
  match value with
  | 1 => ok K2E_Press | 2 => ok K2E_Repeat | 3 => ok K2E_Release | _ => err MalformedPayload end.
#[global] Instance TerminalKeyV2Event_reader : TagReader TerminalKeyV2Event_from_u8 TerminalKeyV2Event_tag.
Proof. solve_tag_reader. Qed.

Record TerminalKeyV2 := mkTerminalKeyV2 {
  k2_attachment_id : N; k2_kind : TerminalKeyV2Kind; k2_modifiers : TerminalKeyV2Modifiers;
  k2_value : N; k2_event : TerminalKeyV2Event; k2_shifted_ascii : N; k2_action_id : N }.

Definition TerminalKeyV2_VERSION : N := 2.

Definition TerminalKeyV2_validate (k : TerminalKeyV2) : result FramingError unit :=
  if k2_action_id k =? 0 then Err MalformedPayload else
  let modifiers := mod_bits (k2_modifiers k) in
  match k2_kind k with
  | K2_Function =>
    if negb (inr 1 12 (k2_value k)) || negb (k2_shifted_ascii k =? 0)
    then Err MalformedPayload else Ok tt
  | K2_Keypad =>
    if negb (k2_value k <=? 16) || negb (k2_shifted_ascii k =? 0)
    then Err MalformedPayload else Ok tt
  | K2_Ascii =>
    if negb (inr 32 126 (k2_value k)) || inr 65 90 (k2_value k)
       || (N.land modifiers (N.lor MOD_ALT MOD_CONTROL) =? 0)
    then Err MalformedPayload
    else if negb (N.land modifiers MOD_SHIFT =? 0) then
      if negb (inr 32 126 (k2_shifted_ascii k)) then Err MalformedPayload else Ok tt
    else if negb (k2_shifted_ascii k =? 0) then Err MalformedPayload else Ok tt
  | _ =>
    if negb (k2_value k =? 0) || negb (k2_shifted_ascii k =? 0)
    then Err MalformedPayload else Ok tt
  end.
#[global] Arguments TerminalKeyV2_validate : simpl never.

Definition TerminalKeyV2_encode (k : TerminalKeyV2) : list N :=
  to_le 16 (k2_attachment_id k) ++ to_le 2 (TerminalKeyV2Kind_tag (k2_kind k))
  ++ to_le 2 (mod_bits (k2_modifiers k)) ++ to_le 4 (k2_value k)
  ++ [TerminalKeyV2Event_tag (k2_event k)] ++ [0] ++ to_le 2 TerminalKeyV2_VERSION
  ++ to_le 4 (k2_shifted_ascii k) ++ to_le 4 (k2_action_id k) ++ to_le 4 0.

Definition TerminalKeyV2_decode (bytes : list N) : W TerminalKeyV2 :=
  let? _ := exact_len bytes 40 in
  pad ← vget bytes 25;
  version ← le_at bytes 26 28;
  reserved ← le_at bytes 36 40;
  if negb (pad =? 0) || negb (version =? TerminalKeyV2_VERSION) || negb (reserved =? 0)
  then err MalformedPayload else
  id ← vslice bytes 0 16;
  attachment_id ← attachment_id_from id;
  kind ← le_at bytes 16 18;
  let? kind := TerminalKeyV2Kind_from_u16 kind in
  modifiers ← le_at bytes 18 20;
  let? modifiers := TerminalKeyV2Modifiers_from_bits modifiers in
  value ← le_at bytes 20 24;
  event ← vget bytes 24;
  let? event := TerminalKeyV2Event_from_u8 event in
  shifted_ascii ← le_at bytes 28 32;
  action_id ← le_at bytes 32 36;
  let value := mkTerminalKeyV2 attachment_id kind modifiers value event shifted_ascii action_id in
  let? _ := Some (TerminalKeyV2_validate value) in
  ok value.

Definition TerminalKeyV2_ok (k : TerminalKeyV2) : Prop :=
  fits 16 (k2_attachment_id k) ∧ fits 2 (mod_bits (k2_modifiers k))
  ∧ N.land (mod_bits (k2_modifiers k)) 65528 = 0 ∧ fits 4 (k2_value k)
  ∧ fits 4 (k2_shifted_ascii k) ∧ fits 4 (k2_action_id k) ∧ TerminalKeyV2_validate k = Ok tt.

#[global] Instance TerminalKeyV2_format : WireFormat TerminalKeyV2 := {|
  encode := TerminalKeyV2_encode; decode := TerminalKeyV2_decode; wire_ok := TerminalKeyV2_ok |}.
Lemma TerminalKeyV2_exact : decoder_exact TerminalKeyV2.
Proof.
  intros p. cbn [decode encode wire_ok TerminalKeyV2_format].
  unfold TerminalKeyV2_decode, TerminalKeyV2_ok, TerminalKeyV2_encode. wire_decode [16; 2; 2; 4; 1; 1; 2; 4; 4; 4]%nat.
Qed.
#[global] Instance TerminalKeyV2_laws : WireLaws TerminalKeyV2.
Proof. wire_laws TerminalKeyV2_encode TerminalKeyV2_decode TerminalKeyV2_ok TerminalKeyV2_exact. Qed.
#[global] Instance TerminalKeyV2_canonical : WireCanonical TerminalKeyV2.
Proof. exact (exact_canonical TerminalKeyV2_exact). Qed.

(** * Correlated resize, [resize.rs] *)

Record ResizeRequest := mkResizeRequest {
  rq_attachment_id : N; rq_request_id : N; rq_rows : N; rq_columns : N }.

Definition ResizeRequest_validate (m : ResizeRequest) : result FramingError unit :=
  if (rq_request_id m =? 0) || (rq_rows m =? 0) || (rq_columns m =? 0)
     || (MAX_DISPLAY_ROWS <? rq_rows m) || (MAX_DISPLAY_COLUMNS <? rq_columns m)
  then Err MalformedPayload else Ok tt.
#[global] Arguments ResizeRequest_validate : simpl never.

Definition ResizeRequest_encode (m : ResizeRequest) : list N :=
  to_le 16 (rq_attachment_id m) ++ to_le 8 (rq_request_id m) ++ to_le 2 (rq_rows m)
  ++ to_le 2 (rq_columns m) ++ to_le 4 0.

Definition ResizeRequest_decode (bytes : list N) : W ResizeRequest :=
  let? _ := exact_len bytes 32 in
  reserved ← le_at bytes 28 32;
  if negb (reserved =? 0) then err MalformedPayload else
  id ← vslice bytes 0 16;
  attachment_id ← attachment_id_from id;
  request_id ← le_at bytes 16 24;
  rows ← le_at bytes 24 26;
  columns ← le_at bytes 26 28;
  let value := mkResizeRequest attachment_id request_id rows columns in
  let? _ := Some (ResizeRequest_validate value) in
  ok value.

Definition ResizeRequest_ok (m : ResizeRequest) : Prop :=
  fits 16 (rq_attachment_id m) ∧ fits 8 (rq_request_id m) ∧ fits 2 (rq_rows m)
  ∧ fits 2 (rq_columns m) ∧ ResizeRequest_validate m = Ok tt.

#[global] Instance ResizeRequest_format : WireFormat ResizeRequest := {|
  encode := ResizeRequest_encode; decode := ResizeRequest_decode; wire_ok := ResizeRequest_ok |}.
Lemma ResizeRequest_exact : decoder_exact ResizeRequest.
Proof.
  intros p. cbn [decode encode wire_ok ResizeRequest_format].
  unfold ResizeRequest_decode, ResizeRequest_ok, ResizeRequest_encode. wire_decode [16; 8; 2; 2; 4]%nat.
Qed.
#[global] Instance ResizeRequest_laws : WireLaws ResizeRequest.
Proof. wire_laws ResizeRequest_encode ResizeRequest_decode ResizeRequest_ok ResizeRequest_exact. Qed.
#[global] Instance ResizeRequest_canonical : WireCanonical ResizeRequest.
Proof. exact (exact_canonical ResizeRequest_exact). Qed.

Inductive ResizeResultCode := RR_Applied | RR_Error (e : ErrorCode).
Definition ResizeResultCode_wire_value (c : ResizeResultCode) : N :=
  match c with RR_Applied => 0 | RR_Error e => ErrorCode_tag e end.
Definition ResizeResultCode_from_u16 (value : N) : W ResizeResultCode :=
  if value =? 0 then ok RR_Applied
  else match ErrorCode_from_u16 value with
       | Some e => ok (RR_Error e) | None => err MalformedPayload end.
#[global] Instance ResizeResultCode_reader :
  TagReader ResizeResultCode_from_u16 ResizeResultCode_wire_value.
Proof. solve_code_reader. Qed.

Record ResizeResult := mkResizeResult {
  rr_attachment_id : N; rr_request_id : N; rr_result_code : ResizeResultCode;
  rr_detail_code : N; rr_applied_generation : N }.

Definition ResizeResult_validate (m : ResizeResult) : result FramingError unit :=
  if (rr_request_id m =? 0) || negb (rr_detail_code m =? 0) then Err MalformedPayload else
  match rr_result_code m with
  | RR_Applied => if negb (rr_applied_generation m =? 0) then Ok tt else Err MalformedPayload
  | RR_Error _ => if rr_applied_generation m =? 0 then Ok tt else Err MalformedPayload
  end.
#[global] Arguments ResizeResult_validate : simpl never.

Definition ResizeResult_encode (m : ResizeResult) : list N :=
  to_le 16 (rr_attachment_id m) ++ to_le 8 (rr_request_id m)
  ++ to_le 2 (ResizeResultCode_wire_value (rr_result_code m)) ++ to_le 2 0
  ++ to_le 4 (rr_detail_code m) ++ to_le 8 (rr_applied_generation m).

Definition ResizeResult_decode (bytes : list N) : W ResizeResult :=
  let? _ := exact_len bytes 40 in
  reserved ← le_at bytes 26 28;
  if negb (reserved =? 0) then err MalformedPayload else
  id ← vslice bytes 0 16;
  attachment_id ← attachment_id_from id;
  request_id ← le_at bytes 16 24;
  code ← le_at bytes 24 26;
  let? result_code := ResizeResultCode_from_u16 code in
  detail_code ← le_at bytes 28 32;
  applied_generation ← le_at bytes 32 40;
  let value := mkResizeResult attachment_id request_id result_code detail_code applied_generation in
  let? _ := Some (ResizeResult_validate value) in
  ok value.

Definition ResizeResult_ok (m : ResizeResult) : Prop :=
  fits 16 (rr_attachment_id m) ∧ fits 8 (rr_request_id m) ∧ fits 4 (rr_detail_code m)
  ∧ fits 8 (rr_applied_generation m) ∧ ResizeResult_validate m = Ok tt.

#[global] Instance ResizeResult_format : WireFormat ResizeResult := {|
  encode := ResizeResult_encode; decode := ResizeResult_decode; wire_ok := ResizeResult_ok |}.
Lemma ResizeResult_exact : decoder_exact ResizeResult.
Proof.
  intros p. cbn [decode encode wire_ok ResizeResult_format].
  unfold ResizeResult_decode, ResizeResult_ok, ResizeResult_encode. wire_decode [16; 8; 2; 2; 4; 8]%nat.
Qed.
#[global] Instance ResizeResult_laws : WireLaws ResizeResult.
Proof. wire_laws ResizeResult_encode ResizeResult_decode ResizeResult_ok ResizeResult_exact. Qed.
#[global] Instance ResizeResult_canonical : WireCanonical ResizeResult.
Proof. exact (exact_canonical ResizeResult_exact). Qed.

(** * The composer, [composer.rs] *)

Inductive ComposerEligibility :=
  | CE_Available | CE_Busy | CE_Unsupported.
Definition ComposerEligibility_tag (x : ComposerEligibility) : N :=
  match x with
  | CE_Available => 0 | CE_Busy => 1 | CE_Unsupported => 2 end.
Definition ComposerEligibility_from_u8 (value : N) : W ComposerEligibility :=
  match value with
  | 0 => ok CE_Available | 1 => ok CE_Busy | 2 => ok CE_Unsupported | _ => err MalformedPayload end.
#[global] Instance ComposerEligibility_reader : TagReader ComposerEligibility_from_u8 ComposerEligibility_tag.
Proof. solve_tag_reader. Qed.

Record ComposerStatus := mkComposerStatus {
  cs_attachment_id : N; cs_eligibility : ComposerEligibility; cs_revision : N }.

Definition ComposerStatus_encode (m : ComposerStatus) : list N :=
  to_le 16 (cs_attachment_id m) ++ [ComposerEligibility_tag (cs_eligibility m)]
  ++ replicate 7 0 ++ to_le 8 (cs_revision m).

Definition ComposerStatus_decode (bytes : list N) : W ComposerStatus :=
  let? _ := exact_len bytes 32 in
  pad ← vslice bytes 17 24;
  if negb (bool_decide (pad = replicate 7 0)) then err MalformedPayload else
  tag ← vget bytes 16;
  let? eligibility := ComposerEligibility_from_u8 tag in
  id ← vslice bytes 0 16;
  attachment_id ← attachment_id_from id;
  revision ← le_at bytes 24 32;
  ok (mkComposerStatus attachment_id eligibility revision).

Definition ComposerStatus_ok (m : ComposerStatus) : Prop :=
  fits 16 (cs_attachment_id m) ∧ fits 8 (cs_revision m).

#[global] Instance ComposerStatus_format : WireFormat ComposerStatus := {|
  encode := ComposerStatus_encode; decode := ComposerStatus_decode; wire_ok := ComposerStatus_ok |}.
Lemma ComposerStatus_exact : decoder_exact ComposerStatus.
Proof.
  intros p. cbn [decode encode wire_ok ComposerStatus_format].
  unfold ComposerStatus_decode, ComposerStatus_ok, ComposerStatus_encode. wire_decode [16; 1; 7; 8]%nat.
Qed.
#[global] Instance ComposerStatus_laws : WireLaws ComposerStatus.
Proof. wire_laws ComposerStatus_encode ComposerStatus_decode ComposerStatus_ok ComposerStatus_exact. Qed.
#[global] Instance ComposerStatus_canonical : WireCanonical ComposerStatus.
Proof. exact (exact_canonical ComposerStatus_exact). Qed.

Inductive ComposerResultCode :=
  | CR_Accepted | CR_Busy | CR_Unsupported | CR_Backpressure | CR_Invalid.
Definition ComposerResultCode_tag (x : ComposerResultCode) : N :=
  match x with
  | CR_Accepted => 0 | CR_Busy => 1 | CR_Unsupported => 2 | CR_Backpressure => 3 | CR_Invalid =>
  4 end.
Definition ComposerResultCode_from_u8 (value : N) : W ComposerResultCode :=
  match value with
  | 0 => ok CR_Accepted | 1 => ok CR_Busy | 2 => ok CR_Unsupported | 3 => ok CR_Backpressure | 4
  => ok CR_Invalid | _ => err MalformedPayload end.
#[global] Instance ComposerResultCode_reader : TagReader ComposerResultCode_from_u8 ComposerResultCode_tag.
Proof. solve_tag_reader. Qed.

Record ComposerResult := mkComposerResult {
  cr_attachment_id : N; cr_code : ComposerResultCode; cr_block_id : N; cr_request_id : N }.

Definition ComposerResult_encode (m : ComposerResult) : list N :=
  to_le 16 (cr_attachment_id m) ++ [ComposerResultCode_tag (cr_code m)] ++ replicate 7 0
  ++ to_le 8 (cr_block_id m) ++ to_le 8 (cr_request_id m).

Definition ComposerResult_decode (bytes : list N) : W ComposerResult :=
  let? _ := exact_len bytes 40 in
  pad ← vslice bytes 17 24;
  if negb (bool_decide (pad = replicate 7 0)) then err MalformedPayload else
  tag ← vget bytes 16;
  let? code := ComposerResultCode_from_u8 tag in
  id ← vslice bytes 0 16;
  attachment_id ← attachment_id_from id;
  block_id ← le_at bytes 24 32;
  request_id ← le_at bytes 32 40;
  ok (mkComposerResult attachment_id code block_id request_id).

Definition ComposerResult_ok (m : ComposerResult) : Prop :=
  fits 16 (cr_attachment_id m) ∧ fits 8 (cr_block_id m) ∧ fits 8 (cr_request_id m).

#[global] Instance ComposerResult_format : WireFormat ComposerResult := {|
  encode := ComposerResult_encode; decode := ComposerResult_decode; wire_ok := ComposerResult_ok |}.
Lemma ComposerResult_exact : decoder_exact ComposerResult.
Proof.
  intros p. cbn [decode encode wire_ok ComposerResult_format].
  unfold ComposerResult_decode, ComposerResult_ok, ComposerResult_encode. wire_decode [16; 1; 7; 8; 8]%nat.
Qed.
#[global] Instance ComposerResult_laws : WireLaws ComposerResult.
Proof. wire_laws ComposerResult_encode ComposerResult_decode ComposerResult_ok ComposerResult_exact. Qed.
#[global] Instance ComposerResult_canonical : WireCanonical ComposerResult.
Proof. exact (exact_canonical ComposerResult_exact). Qed.

(** * Session bootstrap, [session_bootstrap.rs] *)

Inductive BlockScope :=
  | BS_Local | BS_Session.
Definition BlockScope_tag (x : BlockScope) : N :=
  match x with
  | BS_Local => 0 | BS_Session => 1 end.
Definition BlockScope_from_u8 (value : N) : W BlockScope :=
  match value with
  | 0 => ok BS_Local | 1 => ok BS_Session | _ => err MalformedPayload end.
#[global] Instance BlockScope_reader : TagReader BlockScope_from_u8 BlockScope_tag.
Proof. solve_tag_reader. Qed.

Inductive BlockTrust :=
  | BT_LocalTrusted | BT_SessionTrusted | BT_Unverified.
Definition BlockTrust_tag (x : BlockTrust) : N :=
  match x with
  | BT_LocalTrusted => 0 | BT_SessionTrusted => 1 | BT_Unverified => 2 end.
Definition BlockTrust_from_u8 (value : N) : W BlockTrust :=
  match value with
  | 0 => ok BT_LocalTrusted | 1 => ok BT_SessionTrusted | 2 => ok BT_Unverified | _ => err
  MalformedPayload end.
#[global] Instance BlockTrust_reader : TagReader BlockTrust_from_u8 BlockTrust_tag.
Proof. solve_tag_reader. Qed.

Inductive InputTargetClass :=
  | IT_None | IT_TrustedShell | IT_ForegroundProgram.
Definition InputTargetClass_tag (x : InputTargetClass) : N :=
  match x with
  | IT_None => 0 | IT_TrustedShell => 1 | IT_ForegroundProgram => 2 end.
Definition InputTargetClass_from_u8 (value : N) : W InputTargetClass :=
  match value with
  | 0 => ok IT_None | 1 => ok IT_TrustedShell | 2 => ok IT_ForegroundProgram | _ => err
  MalformedPayload end.
#[global] Instance InputTargetClass_reader : TagReader InputTargetClass_from_u8 InputTargetClass_tag.
Proof. solve_tag_reader. Qed.

Inductive ComposerTargetMode :=
  | CM_Unavailable | CM_Submit | CM_Relay.
Definition ComposerTargetMode_tag (x : ComposerTargetMode) : N :=
  match x with
  | CM_Unavailable => 0 | CM_Submit => 1 | CM_Relay => 2 end.
Definition ComposerTargetMode_from_u8 (value : N) : W ComposerTargetMode :=
  match value with
  | 0 => ok CM_Unavailable | 1 => ok CM_Submit | 2 => ok CM_Relay | _ => err MalformedPayload end.
#[global] Instance ComposerTargetMode_reader : TagReader ComposerTargetMode_from_u8 ComposerTargetMode_tag.
Proof. solve_tag_reader. Qed.

Inductive ComposerTargetReason :=
  | CTR_None | CTR_NotAtPrompt | CTR_AlternateScreen | CTR_NotController | CTR_NotFlow |
  CTR_BootstrapHold | CTR_NoKnownBlock | CTR_Terminated | CTR_Unsupported.
Definition ComposerTargetReason_tag (x : ComposerTargetReason) : N :=
  match x with
  | CTR_None => 0 | CTR_NotAtPrompt => 1 | CTR_AlternateScreen => 2 | CTR_NotController => 3 |
  CTR_NotFlow => 4 | CTR_BootstrapHold => 5 | CTR_NoKnownBlock => 6 | CTR_Terminated => 7 |
  CTR_Unsupported => 8 end.
Definition ComposerTargetReason_from_u8 (value : N) : W ComposerTargetReason :=
  match value with
  | 0 => ok CTR_None | 1 => ok CTR_NotAtPrompt | 2 => ok CTR_AlternateScreen | 3 => ok
  CTR_NotController | 4 => ok CTR_NotFlow | 5 => ok CTR_BootstrapHold | 6 => ok CTR_NoKnownBlock
  | 7 => ok CTR_Terminated | 8 => ok CTR_Unsupported | _ => err MalformedPayload end.
#[global] Instance ComposerTargetReason_reader : TagReader ComposerTargetReason_from_u8 ComposerTargetReason_tag.
Proof. solve_tag_reader. Qed.

Inductive SessionOverlayWire :=
  | SO_None | SO_Candidate | SO_Offered | SO_Declined | SO_Armed | SO_Delivering | SO_Trusted |
  SO_Failed | SO_Ended.
Definition SessionOverlayWire_tag (x : SessionOverlayWire) : N :=
  match x with
  | SO_None => 0 | SO_Candidate => 1 | SO_Offered => 2 | SO_Declined => 3 | SO_Armed => 4 |
  SO_Delivering => 5 | SO_Trusted => 6 | SO_Failed => 7 | SO_Ended => 8 end.
Definition SessionOverlayWire_from_u8 (value : N) : W SessionOverlayWire :=
  match value with
  | 0 => ok SO_None | 1 => ok SO_Candidate | 2 => ok SO_Offered | 3 => ok SO_Declined | 4 => ok
  SO_Armed | 5 => ok SO_Delivering | 6 => ok SO_Trusted | 7 => ok SO_Failed | 8 => ok SO_Ended |
  _ => err MalformedPayload end.
#[global] Instance SessionOverlayWire_reader : TagReader SessionOverlayWire_from_u8 SessionOverlayWire_tag.
Proof. solve_tag_reader. Qed.

Inductive SessionConsentDecision :=
  | SC_Decline | SC_Accept | SC_Request.
Definition SessionConsentDecision_tag (x : SessionConsentDecision) : N :=
  match x with
  | SC_Decline => 0 | SC_Accept => 1 | SC_Request => 2 end.
Definition SessionConsentDecision_from_u8 (value : N) : W SessionConsentDecision :=
  match value with
  | 0 => ok SC_Decline | 1 => ok SC_Accept | 2 => ok SC_Request | _ => err MalformedPayload end.
#[global] Instance SessionConsentDecision_reader : TagReader SessionConsentDecision_from_u8 SessionConsentDecision_tag.
Proof. solve_tag_reader. Qed.

Record SessionOffer := mkSessionOffer {
  so_attachment_id : N; so_execution_id : N; so_host_block_id : N; so_offer_generation : N;
  so_presentation_epoch : N }.

Definition SessionOffer_encode (m : SessionOffer) : list N :=
  to_le 16 (so_attachment_id m) ++ to_le 16 (so_execution_id m) ++ to_le 8 (so_host_block_id m)
  ++ to_le 8 (so_offer_generation m) ++ to_le 8 (so_presentation_epoch m) ++ to_le 8 0.

Definition SessionOffer_decode (bytes : list N) : W SessionOffer :=
  let? _ := exact_len bytes 64 in
  reserved ← le_at bytes 56 64;
  attachment ← vslice bytes 0 16;
  execution ← vslice bytes 16 32;
  if negb (reserved =? 0) || bool_decide (attachment = replicate 16 0)
     || bool_decide (execution = replicate 16 0) then err MalformedPayload else
  host_block_id ← le_at bytes 32 40;
  offer_generation ← le_at bytes 40 48;
  if (host_block_id =? 0) || (offer_generation =? 0) then err MalformedPayload else
  attachment_id ← attachment_id_from attachment;
  execution_id ← execution_id_from execution;
  presentation_epoch ← le_at bytes 48 56;
  ok (mkSessionOffer attachment_id execution_id host_block_id offer_generation presentation_epoch).

Definition SessionOffer_ok (m : SessionOffer) : Prop :=
  fits 16 (so_attachment_id m) ∧ fits 16 (so_execution_id m) ∧ fits 8 (so_host_block_id m)
  ∧ fits 8 (so_offer_generation m) ∧ fits 8 (so_presentation_epoch m)
  ∧ so_attachment_id m ≠ 0 ∧ so_execution_id m ≠ 0 ∧ so_host_block_id m ≠ 0
  ∧ so_offer_generation m ≠ 0.

#[global] Instance SessionOffer_format : WireFormat SessionOffer := {|
  encode := SessionOffer_encode; decode := SessionOffer_decode; wire_ok := SessionOffer_ok |}.
Lemma SessionOffer_exact : decoder_exact SessionOffer.
Proof.
  intros p. cbn [decode encode wire_ok SessionOffer_format].
  unfold SessionOffer_decode, SessionOffer_ok, SessionOffer_encode. wire_decode [16; 16; 8; 8; 8; 8]%nat.
Qed.
#[global] Instance SessionOffer_laws : WireLaws SessionOffer.
Proof. wire_laws SessionOffer_encode SessionOffer_decode SessionOffer_ok SessionOffer_exact. Qed.
#[global] Instance SessionOffer_canonical : WireCanonical SessionOffer.
Proof. exact (exact_canonical SessionOffer_exact). Qed.

Record SessionConsent := mkSessionConsent {
  sc_attachment_id : N; sc_execution_id : N; sc_host_block_id : N; sc_offer_generation : N;
  sc_presentation_epoch : N; sc_decision : SessionConsentDecision }.

Definition SessionConsent_encode (m : SessionConsent) : list N :=
  to_le 16 (sc_attachment_id m) ++ to_le 16 (sc_execution_id m) ++ to_le 8 (sc_host_block_id m)
  ++ to_le 8 (sc_offer_generation m) ++ to_le 8 (sc_presentation_epoch m)
  ++ [SessionConsentDecision_tag (sc_decision m)] ++ replicate 7 0.

(** The decoder's match on the decision and the generation. *)
Definition consent_generation_bad (decision : SessionConsentDecision) (offer_generation : N) : bool :=
  match decision with
  | SC_Request => negb (offer_generation =? 0)
  | SC_Accept | SC_Decline => offer_generation =? 0
  end.

Definition SessionConsent_decode (bytes : list N) : W SessionConsent :=
  let? _ := exact_len bytes 64 in
  pad ← vslice bytes 57 64;
  attachment ← vslice bytes 0 16;
  execution ← vslice bytes 16 32;
  if negb (bool_decide (pad = replicate 7 0)) || bool_decide (attachment = replicate 16 0)
     || bool_decide (execution = replicate 16 0) then err MalformedPayload else
  host_block_id ← le_at bytes 32 40;
  offer_generation ← le_at bytes 40 48;
  tag ← vget bytes 56;
  let? decision := SessionConsentDecision_from_u8 tag in
  if host_block_id =? 0 then err MalformedPayload else
  if consent_generation_bad decision offer_generation then err MalformedPayload else
  attachment_id ← attachment_id_from attachment;
  execution_id ← execution_id_from execution;
  presentation_epoch ← le_at bytes 48 56;
  ok (mkSessionConsent attachment_id execution_id host_block_id offer_generation
        presentation_epoch decision).

Definition SessionConsent_ok (m : SessionConsent) : Prop :=
  fits 16 (sc_attachment_id m) ∧ fits 16 (sc_execution_id m) ∧ fits 8 (sc_host_block_id m)
  ∧ fits 8 (sc_offer_generation m) ∧ fits 8 (sc_presentation_epoch m)
  ∧ sc_attachment_id m ≠ 0 ∧ sc_execution_id m ≠ 0 ∧ sc_host_block_id m ≠ 0
  ∧ consent_generation_bad (sc_decision m) (sc_offer_generation m) = false.
#[global] Arguments consent_generation_bad : simpl never.

#[global] Instance SessionConsent_format : WireFormat SessionConsent := {|
  encode := SessionConsent_encode; decode := SessionConsent_decode; wire_ok := SessionConsent_ok |}.
Lemma SessionConsent_exact : decoder_exact SessionConsent.
Proof.
  intros p. cbn [decode encode wire_ok SessionConsent_format].
  unfold SessionConsent_decode, SessionConsent_ok, SessionConsent_encode. wire_decode [16; 16; 8; 8; 8; 1; 7]%nat.
Qed.
#[global] Instance SessionConsent_laws : WireLaws SessionConsent.
Proof. wire_laws SessionConsent_encode SessionConsent_decode SessionConsent_ok SessionConsent_exact. Qed.
#[global] Instance SessionConsent_canonical : WireCanonical SessionConsent.
Proof. exact (exact_canonical SessionConsent_exact). Qed.

Record SessionStatus := mkSessionStatus {
  ss_attachment_id : N; ss_execution_id : N; ss_host_block_id : N;
  ss_overlay : SessionOverlayWire; ss_revision : N }.

Definition SessionStatus_encode (m : SessionStatus) : list N :=
  to_le 16 (ss_attachment_id m) ++ to_le 16 (ss_execution_id m) ++ to_le 8 (ss_host_block_id m)
  ++ [SessionOverlayWire_tag (ss_overlay m)] ++ replicate 7 0 ++ to_le 8 (ss_revision m).

Definition SessionStatus_decode (bytes : list N) : W SessionStatus :=
  let? _ := exact_len bytes 56 in
  pad ← vslice bytes 41 48;
  attachment ← vslice bytes 0 16;
  execution ← vslice bytes 16 32;
  if negb (bool_decide (pad = replicate 7 0)) || bool_decide (attachment = replicate 16 0)
     || bool_decide (execution = replicate 16 0) then err MalformedPayload else
  revision ← le_at bytes 48 56;
  if revision =? 0 then err MalformedPayload else
  attachment_id ← attachment_id_from attachment;
  execution_id ← execution_id_from execution;
  host_block_id ← le_at bytes 32 40;
  tag ← vget bytes 40;
  let? overlay := SessionOverlayWire_from_u8 tag in
  ok (mkSessionStatus attachment_id execution_id host_block_id overlay revision).

Definition SessionStatus_ok (m : SessionStatus) : Prop :=
  fits 16 (ss_attachment_id m) ∧ fits 16 (ss_execution_id m) ∧ fits 8 (ss_host_block_id m)
  ∧ fits 8 (ss_revision m) ∧ ss_attachment_id m ≠ 0 ∧ ss_execution_id m ≠ 0 ∧ ss_revision m ≠ 0.

#[global] Instance SessionStatus_format : WireFormat SessionStatus := {|
  encode := SessionStatus_encode; decode := SessionStatus_decode; wire_ok := SessionStatus_ok |}.
Lemma SessionStatus_exact : decoder_exact SessionStatus.
Proof.
  intros p. cbn [decode encode wire_ok SessionStatus_format].
  unfold SessionStatus_decode, SessionStatus_ok, SessionStatus_encode. wire_decode [16; 16; 8; 1; 7; 8]%nat.
Qed.
#[global] Instance SessionStatus_laws : WireLaws SessionStatus.
Proof. wire_laws SessionStatus_encode SessionStatus_decode SessionStatus_ok SessionStatus_exact. Qed.
#[global] Instance SessionStatus_canonical : WireCanonical SessionStatus.
Proof. exact (exact_canonical SessionStatus_exact). Qed.

Record ComposerTarget := mkComposerTarget {
  ct_attachment_id : N; ct_target : InputTargetClass; ct_scope : BlockScope;
  ct_mode : ComposerTargetMode; ct_reason : ComposerTargetReason; ct_block_id : N;
  ct_target_generation : N; ct_revision : N }.

Definition ComposerTarget_encode (m : ComposerTarget) : list N :=
  to_le 16 (ct_attachment_id m) ++ [InputTargetClass_tag (ct_target m)]
  ++ [BlockScope_tag (ct_scope m)] ++ [ComposerTargetMode_tag (ct_mode m)]
  ++ [ComposerTargetReason_tag (ct_reason m)] ++ replicate 4 0 ++ to_le 8 (ct_block_id m)
  ++ to_le 8 (ct_target_generation m) ++ to_le 8 (ct_revision m).

(** [mode != Unavailable && reason != None]. *)
Definition target_reason_bad (mode : ComposerTargetMode) (reason : ComposerTargetReason) : bool :=
  match mode, reason with CM_Unavailable, _ => false | _, CTR_None => false | _, _ => true end.
#[global] Arguments target_reason_bad : simpl never.

(** Bytes 20 to 24 are not read. *)
Definition ComposerTarget_decode (bytes : list N) : W ComposerTarget :=
  let? _ := exact_len bytes 48 in
  attachment ← vslice bytes 0 16;
  if bool_decide (attachment = replicate 16 0) then err MalformedPayload else
  target_generation ← le_at bytes 32 40;
  revision ← le_at bytes 40 48;
  if (target_generation =? 0) || (revision =? 0) then err MalformedPayload else
  mode ← vget bytes 18;
  let? mode := ComposerTargetMode_from_u8 mode in
  reason ← vget bytes 19;
  let? reason := ComposerTargetReason_from_u8 reason in
  if target_reason_bad mode reason then err MalformedPayload else
  attachment_id ← attachment_id_from attachment;
  target ← vget bytes 16;
  let? target := InputTargetClass_from_u8 target in
  scope ← vget bytes 17;
  let? scope := BlockScope_from_u8 scope in
  block_id ← le_at bytes 24 32;
  ok (mkComposerTarget attachment_id target scope mode reason block_id target_generation revision).

Definition ComposerTarget_ok (m : ComposerTarget) : Prop :=
  fits 16 (ct_attachment_id m) ∧ fits 8 (ct_block_id m) ∧ fits 8 (ct_target_generation m)
  ∧ fits 8 (ct_revision m) ∧ ct_attachment_id m ≠ 0 ∧ ct_target_generation m ≠ 0
  ∧ ct_revision m ≠ 0 ∧ target_reason_bad (ct_mode m) (ct_reason m) = false.

#[global] Instance ComposerTarget_format : WireFormat ComposerTarget := {|
  encode := ComposerTarget_encode; decode := ComposerTarget_decode; wire_ok := ComposerTarget_ok |}.
Lemma ComposerTarget_total p :
  octets p → ∃ r, ComposerTarget_decode p = Some r ∧ ∀ a, r = Ok a → ComposerTarget_ok a ∧ True.
Proof.
  unfold ComposerTarget_decode, ComposerTarget_ok.
  wire_decode [16; 1; 1; 1; 1; 4; 8; 8; 8]%nat.
Qed.
#[global] Instance ComposerTarget_laws : WireLaws ComposerTarget.
Proof.
  wire_laws_total ComposerTarget_encode ComposerTarget_decode ComposerTarget_ok ComposerTarget_total.
Qed.

(** * History requests, [history.rs] *)

Definition MAX_HISTORY_RANGE_LINES : N := 512.
Definition MAX_HISTORY_RANGE_CELLS : N := 131072.

Record HistoryRangeRequest := mkHistoryRangeRequest {
  hq_attachment_id : N; hq_request_id : N; hq_block_id : N; hq_start_line : N; hq_end_line : N;
  hq_max_lines : N; hq_max_cells : N; hq_start_unit : N }.

Definition HistoryRangeRequest_encode (m : HistoryRangeRequest) : list N :=
  to_le 16 (hq_attachment_id m) ++ to_le 8 (hq_request_id m) ++ to_le 8 (hq_block_id m)
  ++ to_le 8 (hq_start_line m) ++ to_le 8 (hq_end_line m) ++ to_le 2 (hq_max_lines m)
  ++ replicate 2 0 ++ to_le 4 (hq_max_cells m) ++ to_le 4 (hq_start_unit m) ++ replicate 4 0.

Definition range_bad (request_id block_id start_line end_line : N) : bool :=
  (request_id =? 0) || (block_id =? 0) || (start_line =? 0) || (end_line <? start_line).
Definition range_bounds_bad (max_lines max_cells : N) : bool :=
  (max_lines =? 0) || (MAX_HISTORY_RANGE_LINES <? max_lines) || (max_cells =? 0)
  || (MAX_HISTORY_RANGE_CELLS <? max_cells).
#[global] Arguments range_bad : simpl never.
#[global] Arguments range_bounds_bad : simpl never.

Definition HistoryRangeRequest_decode (bytes : list N) : W HistoryRangeRequest :=
  let? _ := exact_len bytes 64 in
  request_id ← le_at bytes 16 24;
  block_id ← le_at bytes 24 32;
  start_line ← le_at bytes 32 40;
  end_line ← le_at bytes 40 48;
  pad1 ← vslice bytes 50 52;
  pad2 ← vslice bytes 60 64;
  if negb (bool_decide (pad1 = replicate 2 0)) || negb (bool_decide (pad2 = replicate 4 0))
     || range_bad request_id block_id start_line end_line then err MalformedPayload else
  max_lines ← le_at bytes 48 50;
  max_cells ← le_at bytes 52 56;
  start_unit ← le_at bytes 56 60;
  if range_bounds_bad max_lines max_cells then err MalformedPayload else
  id ← vslice bytes 0 16;
  attachment_id ← attachment_id_from id;
  ok (mkHistoryRangeRequest attachment_id request_id block_id start_line end_line
        max_lines max_cells start_unit).

Definition HistoryRangeRequest_ok (m : HistoryRangeRequest) : Prop :=
  fits 16 (hq_attachment_id m) ∧ fits 8 (hq_request_id m) ∧ fits 8 (hq_block_id m)
  ∧ fits 8 (hq_start_line m) ∧ fits 8 (hq_end_line m) ∧ fits 2 (hq_max_lines m)
  ∧ fits 4 (hq_max_cells m) ∧ fits 4 (hq_start_unit m)
  ∧ range_bad (hq_request_id m) (hq_block_id m) (hq_start_line m) (hq_end_line m) = false
  ∧ range_bounds_bad (hq_max_lines m) (hq_max_cells m) = false.

#[global] Instance HistoryRangeRequest_format : WireFormat HistoryRangeRequest := {|
  encode := HistoryRangeRequest_encode; decode := HistoryRangeRequest_decode; wire_ok := HistoryRangeRequest_ok |}.
Lemma HistoryRangeRequest_exact : decoder_exact HistoryRangeRequest.
Proof.
  intros p. cbn [decode encode wire_ok HistoryRangeRequest_format].
  unfold HistoryRangeRequest_decode, HistoryRangeRequest_ok, HistoryRangeRequest_encode. wire_decode [16; 8; 8; 8; 8; 2; 2; 4; 4; 4]%nat.
Qed.
#[global] Instance HistoryRangeRequest_laws : WireLaws HistoryRangeRequest.
Proof. wire_laws HistoryRangeRequest_encode HistoryRangeRequest_decode HistoryRangeRequest_ok HistoryRangeRequest_exact. Qed.
#[global] Instance HistoryRangeRequest_canonical : WireCanonical HistoryRangeRequest.
Proof. exact (exact_canonical HistoryRangeRequest_exact). Qed.
