(* ===== verification/WireControl.v ===== *)
(** The fixed-size control payloads of the local protocol: hello, attachment and host
    messages of [crates/seyal-protocol/src/framing/payload.rs], execution provisioning
    of [framing/execution.rs] and delivery control of [framing/presentation.rs]. *)

From S2P Require Import Prelude Utf8 Wire WirePane.

(** * [payload.rs] *)

Inductive Role :=
  | Role_Observer | Role_Controller.
Definition Role_tag (x : Role) : N :=
  match x with
  | Role_Observer => 0 | Role_Controller => 1 end.
Definition Role_from_u8 (value : N) : W Role :=
  match value with
  | 0 => ok Role_Observer | 1 => ok Role_Controller | _ => err MalformedPayload end.
#[global] Instance Role_reader : TagReader Role_from_u8 Role_tag.
Proof. solve_tag_reader. Qed.

Inductive Lifecycle :=
  | LC_Running | LC_Terminating | LC_Finalized.
Definition Lifecycle_tag (x : Lifecycle) : N :=
  match x with
  | LC_Running => 0 | LC_Terminating => 1 | LC_Finalized => 2 end.
Definition Lifecycle_from_u8 (value : N) : W Lifecycle :=
  match value with
  | 0 => ok LC_Running | 1 => ok LC_Terminating | 2 => ok LC_Finalized | _ => err
  MalformedPayload end.
#[global] Instance Lifecycle_reader : TagReader Lifecycle_from_u8 Lifecycle_tag.
Proof. solve_tag_reader. Qed.

Record ClientHello := mkClientHello { ch_client_capabilities : N }.

Definition ClientHello_encode (m : ClientHello) : list N :=
  to_le 4 (ch_client_capabilities m) ++ to_le 4 0.

Definition ClientHello_decode (bytes : list N) : W ClientHello :=
  let? _ := exact_len bytes 8 in
  client_capabilities ← le_at bytes 0 4;
  reserved ← le_at bytes 4 8;
  if negb (reserved =? 0) then err MalformedPayload else
  ok (mkClientHello client_capabilities).

Definition ClientHello_ok (m : ClientHello) : Prop := fits 4 (ch_client_capabilities m).

#[global] Instance ClientHello_format : WireFormat ClientHello := {|
  encode := ClientHello_encode; decode := ClientHello_decode; wire_ok := ClientHello_ok |}.
Lemma ClientHello_exact : decoder_exact ClientHello.
Proof.
  intros p. cbn [decode encode wire_ok ClientHello_format].
  unfold ClientHello_decode, ClientHello_ok, ClientHello_encode. wire_decode [4; 4]%nat.
Qed.
#[global] Instance ClientHello_laws : WireLaws ClientHello.
Proof. wire_laws ClientHello_encode ClientHello_decode ClientHello_ok ClientHello_exact. Qed.
#[global] Instance ClientHello_canonical : WireCanonical ClientHello.
Proof. exact (exact_canonical ClientHello_exact). Qed.

Record ServerHello := mkServerHello {
  sh_runtime_id : N; sh_server_capabilities : N; sh_max_frame_payload : N; sh_max_input_payload : N }.

Definition ServerHello_encode (m : ServerHello) : list N :=
  to_le 16 (sh_runtime_id m) ++ to_le 4 (sh_server_capabilities m)
  ++ to_le 4 (sh_max_frame_payload m) ++ to_le 4 (sh_max_input_payload m) ++ to_le 4 0.

Definition ServerHello_decode (bytes : list N) : W ServerHello :=
  let? _ := exact_len bytes 32 in
  reserved ← le_at bytes 28 32;
  if negb (reserved =? 0) then err MalformedPayload else
  id ← vslice bytes 0 16;
  runtime_id ← read_u128 id;
  server_capabilities ← le_at bytes 16 20;
  max_frame_payload ← le_at bytes 20 24;
  max_input_payload ← le_at bytes 24 28;
  ok (mkServerHello runtime_id server_capabilities max_frame_payload max_input_payload).

Definition ServerHello_ok (m : ServerHello) : Prop :=
  fits 16 (sh_runtime_id m) ∧ fits 4 (sh_server_capabilities m) ∧ fits 4 (sh_max_frame_payload m)
  ∧ fits 4 (sh_max_input_payload m).

#[global] Instance ServerHello_format : WireFormat ServerHello := {|
  encode := ServerHello_encode; decode := ServerHello_decode; wire_ok := ServerHello_ok |}.
Lemma ServerHello_exact : decoder_exact ServerHello.
Proof.
  intros p. cbn [decode encode wire_ok ServerHello_format].
  unfold ServerHello_decode, ServerHello_ok, ServerHello_encode. wire_decode [16; 4; 4; 4; 4]%nat.
Qed.
#[global] Instance ServerHello_laws : WireLaws ServerHello.
Proof. wire_laws ServerHello_encode ServerHello_decode ServerHello_ok ServerHello_exact. Qed.
#[global] Instance ServerHello_canonical : WireCanonical ServerHello.
Proof. exact (exact_canonical ServerHello_exact). Qed.

Record Attach := mkAttach { at_execution_id : N; at_requested_role : Role }.

Definition Attach_encode (m : Attach) : list N :=
  to_le 16 (at_execution_id m) ++ [Role_tag (at_requested_role m)] ++ replicate 3 0.

Definition Attach_decode (bytes : list N) : W Attach :=
  let? _ := exact_len bytes 20 in
  pad ← vslice bytes 17 20;
  if negb (bool_decide (pad = replicate 3 0)) then err MalformedPayload else
  id ← vslice bytes 0 16;
  execution_id ← execution_id_from id;
  tag ← vget bytes 16;
  let? requested_role := Role_from_u8 tag in
  ok (mkAttach execution_id requested_role).

Definition Attach_ok (m : Attach) : Prop := fits 16 (at_execution_id m).

#[global] Instance Attach_format : WireFormat Attach := {|
  encode := Attach_encode; decode := Attach_decode; wire_ok := Attach_ok |}.
Lemma Attach_exact : decoder_exact Attach.
Proof.
  intros p. cbn [decode encode wire_ok Attach_format].
  unfold Attach_decode, Attach_ok, Attach_encode. wire_decode [16; 1; 3]%nat.
Qed.
#[global] Instance Attach_laws : WireLaws Attach.
Proof. wire_laws Attach_encode Attach_decode Attach_ok Attach_exact. Qed.
#[global] Instance Attach_canonical : WireCanonical Attach.
Proof. exact (exact_canonical Attach_exact). Qed.

Record Attached := mkAttached {
  ad_execution_id : N; ad_attachment_id : N; ad_granted_role : Role; ad_current_generation : N }.

Definition Attached_encode (m : Attached) : list N :=
  to_le 16 (ad_execution_id m) ++ to_le 16 (ad_attachment_id m) ++ [Role_tag (ad_granted_role m)]
  ++ replicate 7 0 ++ to_le 8 (ad_current_generation m).

Definition Attached_decode (bytes : list N) : W Attached :=
  let? _ := exact_len bytes 48 in
  pad ← vslice bytes 33 40;
  if negb (bool_decide (pad = replicate 7 0)) then err MalformedPayload else
  execution ← vslice bytes 0 16;
  execution_id ← execution_id_from execution;
  attachment ← vslice bytes 16 32;
  attachment_id ← attachment_id_from attachment;
  tag ← vget bytes 32;
  let? granted_role := Role_from_u8 tag in
  current_generation ← le_at bytes 40 48;
  ok (mkAttached execution_id attachment_id granted_role current_generation).

Definition Attached_ok (m : Attached) : Prop :=
  fits 16 (ad_execution_id m) ∧ fits 16 (ad_attachment_id m) ∧ fits 8 (ad_current_generation m).

#[global] Instance Attached_format : WireFormat Attached := {|
  encode := Attached_encode; decode := Attached_decode; wire_ok := Attached_ok |}.
Lemma Attached_exact : decoder_exact Attached.
Proof.
  intros p. cbn [decode encode wire_ok Attached_format].
  unfold Attached_decode, Attached_ok, Attached_encode. wire_decode [16; 16; 1; 7; 8]%nat.
Qed.
#[global] Instance Attached_laws : WireLaws Attached.
Proof. wire_laws Attached_encode Attached_decode Attached_ok Attached_exact. Qed.
#[global] Instance Attached_canonical : WireCanonical Attached.
Proof. exact (exact_canonical Attached_exact). Qed.

(** [impl_attachment_payload!], the body shared by [Detach], [Detached] and [Resync]. *)
Record AttachmentPayload := mkAttachmentPayload { ap_attachment_id : N }.

Definition AttachmentPayload_encode (m : AttachmentPayload) : list N := to_le 16 (ap_attachment_id m).

Definition AttachmentPayload_decode (bytes : list N) : W AttachmentPayload :=
  let? _ := exact_len bytes 16 in
  attachment_id ← attachment_id_from bytes;
  ok (mkAttachmentPayload attachment_id).

Definition AttachmentPayload_ok (m : AttachmentPayload) : Prop := fits 16 (ap_attachment_id m).

#[global] Instance AttachmentPayload_format : WireFormat AttachmentPayload := {|
  encode := AttachmentPayload_encode; decode := AttachmentPayload_decode; wire_ok := AttachmentPayload_ok |}.
Lemma AttachmentPayload_exact : decoder_exact AttachmentPayload.
Proof.
  intros p. cbn [decode encode wire_ok AttachmentPayload_format].
  unfold AttachmentPayload_decode, AttachmentPayload_ok, AttachmentPayload_encode. wire_decode [16]%nat.
Qed.
#[global] Instance AttachmentPayload_laws : WireLaws AttachmentPayload.
Proof. wire_laws AttachmentPayload_encode AttachmentPayload_decode AttachmentPayload_ok AttachmentPayload_exact. Qed.
#[global] Instance AttachmentPayload_canonical : WireCanonical AttachmentPayload.
Proof. exact (exact_canonical AttachmentPayload_exact). Qed.

Record Resize := mkResize { rz_attachment_id : N; rz_rows : N; rz_columns : N }.

Definition Resize_encode (m : Resize) : list N :=
  to_le 16 (rz_attachment_id m) ++ to_le 2 (rz_rows m) ++ to_le 2 (rz_columns m).

Definition Resize_decode (bytes : list N) : W Resize :=
  let? _ := exact_len bytes 20 in
  id ← vslice bytes 0 16;
  attachment_id ← attachment_id_from id;
  rows ← le_at bytes 16 18;
  columns ← le_at bytes 18 20;
  ok (mkResize attachment_id rows columns).

Definition Resize_ok (m : Resize) : Prop :=
  fits 16 (rz_attachment_id m) ∧ fits 2 (rz_rows m) ∧ fits 2 (rz_columns m).

#[global] Instance Resize_format : WireFormat Resize := {|
  encode := Resize_encode; decode := Resize_decode; wire_ok := Resize_ok |}.
Lemma Resize_exact : decoder_exact Resize.
Proof.
  intros p. cbn [decode encode wire_ok Resize_format].
  unfold Resize_decode, Resize_ok, Resize_encode. wire_decode [16; 2; 2]%nat.
Qed.
#[global] Instance Resize_laws : WireLaws Resize.
Proof. wire_laws Resize_encode Resize_decode Resize_ok Resize_exact. Qed.
#[global] Instance Resize_canonical : WireCanonical Resize.
Proof. exact (exact_canonical Resize_exact). Qed.

Inductive HostSelectionAction :=
  | HS_EnterCopyMode | HS_ExitCopyMode | HS_ToggleAnchor | HS_ToggleKind | HS_Yank |
  HS_SetVisual | HS_Clear.
Definition HostSelectionAction_tag (x : HostSelectionAction) : N :=
  match x with
  | HS_EnterCopyMode => 0 | HS_ExitCopyMode => 1 | HS_ToggleAnchor => 2 | HS_ToggleKind => 3 |
  HS_Yank => 4 | HS_SetVisual => 5 | HS_Clear => 6 end.
Definition HostSelectionAction_from_u8 (value : N) : W HostSelectionAction :=
  match value with
  | 0 => ok HS_EnterCopyMode | 1 => ok HS_ExitCopyMode | 2 => ok HS_ToggleAnchor | 3 => ok
  HS_ToggleKind | 4 => ok HS_Yank | 5 => ok HS_SetVisual | 6 => ok HS_Clear | _ => err
  MalformedPayload end.
#[global] Instance HostSelectionAction_reader : TagReader HostSelectionAction_from_u8 HostSelectionAction_tag.
Proof. solve_tag_reader. Qed.

Record HostSelection := mkHostSelection {
  hs_attachment_id : N; hs_action : HostSelectionAction; hs_kind : N; hs_start_col : N;
  hs_start_row : N; hs_end_col : N; hs_end_row : N }.

Definition HostSelection_encode (m : HostSelection) : list N :=
  to_le 16 (hs_attachment_id m) ++ [HostSelectionAction_tag (hs_action m)] ++ [hs_kind m]
  ++ to_le 2 (hs_start_col m) ++ to_le 2 (hs_start_row m) ++ to_le 2 (hs_end_col m)
  ++ to_le 2 (hs_end_row m) ++ replicate 6 0.

Definition HostSelection_decode (bytes : list N) : W HostSelection :=
  let? _ := exact_len bytes 32 in
  pad ← vslice bytes 26 32;
  if negb (bool_decide (pad = replicate 6 0)) then err MalformedPayload else
  id ← vslice bytes 0 16;
  attachment_id ← attachment_id_from id;
  tag ← vget bytes 16;
  let? action := HostSelectionAction_from_u8 tag in
  kind ← vget bytes 17;
  start_col ← le_at bytes 18 20;
  start_row ← le_at bytes 20 22;
  end_col ← le_at bytes 22 24;
  end_row ← le_at bytes 24 26;
  ok (mkHostSelection attachment_id action kind start_col start_row end_col end_row).

Definition HostSelection_ok (m : HostSelection) : Prop :=
  fits 16 (hs_attachment_id m) ∧ hs_kind m < 256 ∧ fits 2 (hs_start_col m)
  ∧ fits 2 (hs_start_row m) ∧ fits 2 (hs_end_col m) ∧ fits 2 (hs_end_row m).

#[global] Instance HostSelection_format : WireFormat HostSelection := {|
  encode := HostSelection_encode; decode := HostSelection_decode; wire_ok := HostSelection_ok |}.
Lemma HostSelection_exact : decoder_exact HostSelection.
Proof.
  intros p. cbn [decode encode wire_ok HostSelection_format].
  unfold HostSelection_decode, HostSelection_ok, HostSelection_encode. wire_decode [16; 1; 1; 2; 2; 2; 2; 6]%nat.
Qed.
#[global] Instance HostSelection_laws : WireLaws HostSelection.
Proof. wire_laws HostSelection_encode HostSelection_decode HostSelection_ok HostSelection_exact. Qed.
#[global] Instance HostSelection_canonical : WireCanonical HostSelection.
Proof. exact (exact_canonical HostSelection_exact). Qed.

Inductive TerminalMouseKind :=
  | TM_Press | TM_Release | TM_Move | TM_Wheel.
Definition TerminalMouseKind_tag (x : TerminalMouseKind) : N :=
  match x with
  | TM_Press => 1 | TM_Release => 2 | TM_Move => 3 | TM_Wheel => 4 end.
Definition TerminalMouseKind_from_u8 (value : N) : W TerminalMouseKind :=
  match value with
  | 1 => ok TM_Press | 2 => ok TM_Release | 3 => ok TM_Move | 4 => ok TM_Wheel | _ => err
  MalformedPayload end.
#[global] Instance TerminalMouseKind_reader : TagReader TerminalMouseKind_from_u8 TerminalMouseKind_tag.
Proof. solve_tag_reader. Qed.

Record TerminalMouse := mkTerminalMouse {
  tm_attachment_id : N; tm_action_id : N; tm_kind : TerminalMouseKind; tm_button : N;
  tm_modifiers : TerminalKeyV2Modifiers; tm_col : N; tm_row : N }.

Definition TerminalMouse_validate (m : TerminalMouse) : result FramingError unit :=
  if (tm_action_id m =? 0) || (512 <=? tm_col m) || (256 <=? tm_row m) then Err MalformedPayload else
  let button_ok :=
    match tm_kind m with
    | TM_Press | TM_Release => tm_button m <=? 2
    | TM_Move => tm_button m <=? 3
    | TM_Wheel => inr 64 67 (tm_button m)
    end in
  if button_ok then Ok tt else Err MalformedPayload.
#[global] Arguments TerminalMouse_validate : simpl never.

Definition TerminalMouse_encode (m : TerminalMouse) : list N :=
  to_le 16 (tm_attachment_id m) ++ to_le 4 (tm_action_id m) ++ [TerminalMouseKind_tag (tm_kind m)]
  ++ [tm_button m] ++ to_le 2 (mod_bits (tm_modifiers m)) ++ to_le 2 (tm_col m)
  ++ to_le 2 (tm_row m) ++ replicate 4 0.

Definition TerminalMouse_decode (bytes : list N) : W TerminalMouse :=
  let? _ := exact_len bytes 32 in
  pad ← vslice bytes 28 32;
  if negb (bool_decide (pad = replicate 4 0)) then err MalformedPayload else
  id ← vslice bytes 0 16;
  attachment_id ← attachment_id_from id;
  action_id ← le_at bytes 16 20;
  tag ← vget bytes 20;
  let? kind := TerminalMouseKind_from_u8 tag in
  button ← vget bytes 21;
  modifiers ← le_at bytes 22 24;
  let? modifiers := ok_or MalformedPayload (from_bits_for_ffi modifiers) in
  col ← le_at bytes 24 26;
  row ← le_at bytes 26 28;
  let value := mkTerminalMouse attachment_id action_id kind button modifiers col row in
  let? _ := Some (TerminalMouse_validate value) in
  ok value.

Definition TerminalMouse_ok (m : TerminalMouse) : Prop :=
  fits 16 (tm_attachment_id m) ∧ fits 4 (tm_action_id m) ∧ tm_button m < 256
  ∧ fits 2 (mod_bits (tm_modifiers m)) ∧ N.land (mod_bits (tm_modifiers m)) 65528 = 0
  ∧ fits 2 (tm_col m) ∧ fits 2 (tm_row m) ∧ TerminalMouse_validate m = Ok tt.

#[global] Instance TerminalMouse_format : WireFormat TerminalMouse := {|
  encode := TerminalMouse_encode; decode := TerminalMouse_decode; wire_ok := TerminalMouse_ok |}.
Lemma TerminalMouse_exact : decoder_exact TerminalMouse.
Proof.
  intros p. cbn [decode encode wire_ok TerminalMouse_format].
  unfold TerminalMouse_decode, TerminalMouse_ok, TerminalMouse_encode. wire_decode [16; 4; 1; 1; 2; 2; 2; 4]%nat.
Qed.
#[global] Instance TerminalMouse_laws : WireLaws TerminalMouse.
Proof. wire_laws TerminalMouse_encode TerminalMouse_decode TerminalMouse_ok TerminalMouse_exact. Qed.
#[global] Instance TerminalMouse_canonical : WireCanonical TerminalMouse.
Proof. exact (exact_canonical TerminalMouse_exact). Qed.

Record LifecycleMessage := mkLifecycleMessage { lm_execution_id : N; lm_lifecycle : Lifecycle }.

Definition LifecycleMessage_encode (m : LifecycleMessage) : list N :=
  to_le 16 (lm_execution_id m) ++ [Lifecycle_tag (lm_lifecycle m)] ++ replicate 7 0.

Definition LifecycleMessage_decode (bytes : list N) : W LifecycleMessage :=
  let? _ := exact_len bytes 24 in
  pad ← vslice bytes 17 24;
  if negb (bool_decide (pad = replicate 7 0)) then err MalformedPayload else
  id ← vslice bytes 0 16;
  execution_id ← execution_id_from id;
  tag ← vget bytes 16;
  let? lifecycle := Lifecycle_from_u8 tag in
  ok (mkLifecycleMessage execution_id lifecycle).

Definition LifecycleMessage_ok (m : LifecycleMessage) : Prop := fits 16 (lm_execution_id m).

#[global] Instance LifecycleMessage_format : WireFormat LifecycleMessage := {|
  encode := LifecycleMessage_encode; decode := LifecycleMessage_decode; wire_ok := LifecycleMessage_ok |}.
Lemma LifecycleMessage_exact : decoder_exact LifecycleMessage.
Proof.
  intros p. cbn [decode encode wire_ok LifecycleMessage_format].
  unfold LifecycleMessage_decode, LifecycleMessage_ok, LifecycleMessage_encode. wire_decode [16; 1; 7]%nat.
Qed.
#[global] Instance LifecycleMessage_laws : WireLaws LifecycleMessage.
Proof. wire_laws LifecycleMessage_encode LifecycleMessage_decode LifecycleMessage_ok LifecycleMessage_exact. Qed.
#[global] Instance LifecycleMessage_canonical : WireCanonical LifecycleMessage.
Proof. exact (exact_canonical LifecycleMessage_exact). Qed.

Record ErrorMessage := mkErrorMessage {
  em_error_code : N; em_offending_message_type : N; em_detail_code : N }.

Definition ErrorMessage_encode (m : ErrorMessage) : list N :=
  to_le 2 (em_error_code m) ++ to_le 2 (em_offending_message_type m) ++ to_le 4 (em_detail_code m)
  ++ to_le 8 0.

Definition ErrorMessage_decode (bytes : list N) : W ErrorMessage :=
  let? _ := exact_len bytes 16 in
  reserved ← le_at bytes 8 16;
  if negb (reserved =? 0) then err MalformedPayload else
  error_code ← le_at bytes 0 2;
  offending_message_type ← le_at bytes 2 4;
  detail_code ← le_at bytes 4 8;
  ok (mkErrorMessage error_code offending_message_type detail_code).

Definition ErrorMessage_ok (m : ErrorMessage) : Prop :=
  fits 2 (em_error_code m) ∧ fits 2 (em_offending_message_type m) ∧ fits 4 (em_detail_code m).

#[global] Instance ErrorMessage_format : WireFormat ErrorMessage := {|
  encode := ErrorMessage_encode; decode := ErrorMessage_decode; wire_ok := ErrorMessage_ok |}.
Lemma ErrorMessage_exact : decoder_exact ErrorMessage.
Proof.
  intros p. cbn [decode encode wire_ok ErrorMessage_format].
  unfold ErrorMessage_decode, ErrorMessage_ok, ErrorMessage_encode. wire_decode [2; 2; 4; 8]%nat.
Qed.
#[global] Instance ErrorMessage_laws : WireLaws ErrorMessage.
Proof. wire_laws ErrorMessage_encode ErrorMessage_decode ErrorMessage_ok ErrorMessage_exact. Qed.
#[global] Instance ErrorMessage_canonical : WireCanonical ErrorMessage.
Proof. exact (exact_canonical ErrorMessage_exact). Qed.

(** * Execution provisioning, [execution.rs] *)

Record CreateExecutionRequest := mkCreateExecutionRequest {
  cx_workspace_id : N; cx_request_id : N; cx_launch_profile : N; cx_rows : N; cx_columns : N }.

Definition CreateExecutionRequest_validate (m : CreateExecutionRequest) : result FramingError unit :=
  if cx_request_id m =? 0 then Err MalformedPayload else Ok tt.
#[global] Arguments CreateExecutionRequest_validate : simpl never.

Definition CreateExecutionRequest_encode (m : CreateExecutionRequest) : list N :=
  to_le 16 (cx_workspace_id m) ++ to_le 8 (cx_request_id m) ++ to_le 2 (cx_launch_profile m)
  ++ to_le 2 (cx_rows m) ++ to_le 2 (cx_columns m) ++ to_le 2 0.

Definition CreateExecutionRequest_decode (bytes : list N) : W CreateExecutionRequest :=
  let? _ := exact_len bytes 32 in
  reserved ← le_at bytes 30 32;
  if negb (reserved =? 0) then err MalformedPayload else
  id ← vslice bytes 0 16;
  workspace_id ← read_u128 id;
  request_id ← le_at bytes 16 24;
  launch_profile ← le_at bytes 24 26;
  rows ← le_at bytes 26 28;
  columns ← le_at bytes 28 30;
  let value := mkCreateExecutionRequest workspace_id request_id launch_profile rows columns in
  let? _ := Some (CreateExecutionRequest_validate value) in
  ok value.

Definition CreateExecutionRequest_ok (m : CreateExecutionRequest) : Prop :=
  fits 16 (cx_workspace_id m) ∧ fits 8 (cx_request_id m) ∧ fits 2 (cx_launch_profile m)
  ∧ fits 2 (cx_rows m) ∧ fits 2 (cx_columns m) ∧ CreateExecutionRequest_validate m = Ok tt.

#[global] Instance CreateExecutionRequest_format : WireFormat CreateExecutionRequest := {|
  encode := CreateExecutionRequest_encode; decode := CreateExecutionRequest_decode; wire_ok := CreateExecutionRequest_ok |}.
Lemma CreateExecutionRequest_exact : decoder_exact CreateExecutionRequest.
Proof.
  intros p. cbn [decode encode wire_ok CreateExecutionRequest_format].
  unfold CreateExecutionRequest_decode, CreateExecutionRequest_ok, CreateExecutionRequest_encode. wire_decode [16; 8; 2; 2; 2; 2]%nat.
Qed.
#[global] Instance CreateExecutionRequest_laws : WireLaws CreateExecutionRequest.
Proof. wire_laws CreateExecutionRequest_encode CreateExecutionRequest_decode CreateExecutionRequest_ok CreateExecutionRequest_exact. Qed.
#[global] Instance CreateExecutionRequest_canonical : WireCanonical CreateExecutionRequest.
Proof. exact (exact_canonical CreateExecutionRequest_exact). Qed.

Inductive CreateExecutionResultCode := CX_Created | CX_Error (e : ErrorCode).
Definition CreateExecutionResultCode_wire_value (c : CreateExecutionResultCode) : N :=
  match c with CX_Created => 0 | CX_Error e => ErrorCode_tag e end.
Definition CreateExecutionResultCode_from_u16 (value : N) : W CreateExecutionResultCode :=
  if value =? 0 then ok CX_Created
  else match ErrorCode_from_u16 value with
       | Some e => ok (CX_Error e) | None => err MalformedPayload end.
#[global] Instance CreateExecutionResultCode_reader :
  TagReader CreateExecutionResultCode_from_u16 CreateExecutionResultCode_wire_value.
Proof. solve_code_reader. Qed.

Record CreateExecutionResult := mkCreateExecutionResult {
  cxr_execution_id : N; cxr_request_id : N; cxr_result_code : CreateExecutionResultCode;
  cxr_detail_code : N }.

Definition CreateExecutionResult_validate (m : CreateExecutionResult) : result FramingError unit :=
  if (cxr_request_id m =? 0) || negb (cxr_detail_code m =? 0) then Err MalformedPayload else
  let zero := bool_decide (id_to_bytes (cxr_execution_id m) = replicate 16 0) in
  match cxr_result_code m with
  | CX_Created => if negb zero then Ok tt else Err MalformedPayload
  | CX_Error _ => if zero then Ok tt else Err MalformedPayload
  end.
#[global] Arguments CreateExecutionResult_validate : simpl never.

Definition CreateExecutionResult_encode (m : CreateExecutionResult) : list N :=
  to_le 16 (cxr_execution_id m) ++ to_le 8 (cxr_request_id m)
  ++ to_le 2 (CreateExecutionResultCode_wire_value (cxr_result_code m)) ++ to_le 2 0
  ++ to_le 4 (cxr_detail_code m).

Definition CreateExecutionResult_decode (bytes : list N) : W CreateExecutionResult :=
  let? _ := exact_len bytes 32 in
  reserved ← le_at bytes 26 28;
  if negb (reserved =? 0) then err MalformedPayload else
  id ← vslice bytes 0 16;
  execution_id ← execution_id_from id;
  request_id ← le_at bytes 16 24;
  code ← le_at bytes 24 26;
  let? result_code := CreateExecutionResultCode_from_u16 code in
  detail_code ← le_at bytes 28 32;
  let value := mkCreateExecutionResult execution_id request_id result_code detail_code in
  let? _ := Some (CreateExecutionResult_validate value) in
  ok value.

Definition CreateExecutionResult_ok (m : CreateExecutionResult) : Prop :=
  fits 16 (cxr_execution_id m) ∧ fits 8 (cxr_request_id m) ∧ fits 4 (cxr_detail_code m)
  ∧ CreateExecutionResult_validate m = Ok tt.

#[global] Instance CreateExecutionResult_format : WireFormat CreateExecutionResult := {|
  encode := CreateExecutionResult_encode; decode := CreateExecutionResult_decode; wire_ok := CreateExecutionResult_ok |}.
Lemma CreateExecutionResult_exact : decoder_exact CreateExecutionResult.
Proof.
  intros p. cbn [decode encode wire_ok CreateExecutionResult_format].
  unfold CreateExecutionResult_decode, CreateExecutionResult_ok, CreateExecutionResult_encode. wire_decode [16; 8; 2; 2; 4]%nat.
Qed.
#[global] Instance CreateExecutionResult_laws : WireLaws CreateExecutionResult.
Proof. wire_laws CreateExecutionResult_encode CreateExecutionResult_decode CreateExecutionResult_ok CreateExecutionResult_exact. Qed.
#[global] Instance CreateExecutionResult_canonical : WireCanonical CreateExecutionResult.
Proof. exact (exact_canonical CreateExecutionResult_exact). Qed.

Record TerminateExecutionRequest := mkTerminateExecutionRequest {
  tx_attachment_id : N; tx_execution_id : N; tx_request_id : N }.

Definition TerminateExecutionRequest_validate (m : TerminateExecutionRequest) : result FramingError unit :=
  if tx_request_id m =? 0 then Err MalformedPayload else Ok tt.
#[global] Arguments TerminateExecutionRequest_validate : simpl never.

Definition TerminateExecutionRequest_encode (m : TerminateExecutionRequest) : list N :=
  to_le 16 (tx_attachment_id m) ++ to_le 16 (tx_execution_id m) ++ to_le 8 (tx_request_id m).

Definition TerminateExecutionRequest_decode (bytes : list N) : W TerminateExecutionRequest :=
  let? _ := exact_len bytes 40 in
  attachment ← vslice bytes 0 16;
  attachment_id ← attachment_id_from attachment;
  execution ← vslice bytes 16 32;
  execution_id ← execution_id_from execution;
  request_id ← le_at bytes 32 40;
  let value := mkTerminateExecutionRequest attachment_id execution_id request_id in
  let? _ := Some (TerminateExecutionRequest_validate value) in
  ok value.

Definition TerminateExecutionRequest_ok (m : TerminateExecutionRequest) : Prop :=
  fits 16 (tx_attachment_id m) ∧ fits 16 (tx_execution_id m) ∧ fits 8 (tx_request_id m)
  ∧ TerminateExecutionRequest_validate m = Ok tt.

#[global] Instance TerminateExecutionRequest_format : WireFormat TerminateExecutionRequest := {|
  encode := TerminateExecutionRequest_encode; decode := TerminateExecutionRequest_decode; wire_ok := TerminateExecutionRequest_ok |}.
Lemma TerminateExecutionRequest_exact : decoder_exact TerminateExecutionRequest.
Proof.
  intros p. cbn [decode encode wire_ok TerminateExecutionRequest_format].
  unfold TerminateExecutionRequest_decode, TerminateExecutionRequest_ok, TerminateExecutionRequest_encode. wire_decode [16; 16; 8]%nat.
Qed.
#[global] Instance TerminateExecutionRequest_laws : WireLaws TerminateExecutionRequest.
Proof. wire_laws TerminateExecutionRequest_encode TerminateExecutionRequest_decode TerminateExecutionRequest_ok TerminateExecutionRequest_exact. Qed.
#[global] Instance TerminateExecutionRequest_canonical : WireCanonical TerminateExecutionRequest.
Proof. exact (exact_canonical TerminateExecutionRequest_exact). Qed.

Inductive TerminateExecutionResultCode := TX_TerminationRequested | TX_Error (e : ErrorCode).
Definition TerminateExecutionResultCode_wire_value (c : TerminateExecutionResultCode) : N :=
  match c with TX_TerminationRequested => 0 | TX_Error e => ErrorCode_tag e end.
Definition TerminateExecutionResultCode_from_u16 (value : N) : W TerminateExecutionResultCode :=
  if value =? 0 then ok TX_TerminationRequested
  else match ErrorCode_from_u16 value with
       | Some e => ok (TX_Error e) | None => err MalformedPayload end.
#[global] Instance TerminateExecutionResultCode_reader :
  TagReader TerminateExecutionResultCode_from_u16 TerminateExecutionResultCode_wire_value.
Proof. solve_code_reader. Qed.

Record TerminateExecutionResult := mkTerminateExecutionResult {
  txr_attachment_id : N; txr_request_id : N; txr_result_code : TerminateExecutionResultCode;
  txr_detail_code : N }.

Definition TerminateExecutionResult_validate (m : TerminateExecutionResult) : result FramingError unit :=
  if (txr_request_id m =? 0) || negb (txr_detail_code m =? 0) then Err MalformedPayload else Ok tt.
#[global] Arguments TerminateExecutionResult_validate : simpl never.

Definition TerminateExecutionResult_encode (m : TerminateExecutionResult) : list N :=
  to_le 16 (txr_attachment_id m) ++ to_le 8 (txr_request_id m)
  ++ to_le 2 (TerminateExecutionResultCode_wire_value (txr_result_code m)) ++ to_le 2 0
  ++ to_le 4 (txr_detail_code m).

Definition TerminateExecutionResult_decode (bytes : list N) : W TerminateExecutionResult :=
  let? _ := exact_len bytes 32 in
  reserved ← le_at bytes 26 28;
  if negb (reserved =? 0) then err MalformedPayload else
  id ← vslice bytes 0 16;
  attachment_id ← attachment_id_from id;
  request_id ← le_at bytes 16 24;
  code ← le_at bytes 24 26;
  let? result_code := TerminateExecutionResultCode_from_u16 code in
  detail_code ← le_at bytes 28 32;
  let value := mkTerminateExecutionResult attachment_id request_id result_code detail_code in
  let? _ := Some (TerminateExecutionResult_validate value) in
  ok value.

Definition TerminateExecutionResult_ok (m : TerminateExecutionResult) : Prop :=
  fits 16 (txr_attachment_id m) ∧ fits 8 (txr_request_id m) ∧ fits 4 (txr_detail_code m)
  ∧ TerminateExecutionResult_validate m = Ok tt.

#[global] Instance TerminateExecutionResult_format : WireFormat TerminateExecutionResult := {|
  encode := TerminateExecutionResult_encode; decode := TerminateExecutionResult_decode; wire_ok := TerminateExecutionResult_ok |}.
Lemma TerminateExecutionResult_exact : decoder_exact TerminateExecutionResult.
Proof.
  intros p. cbn [decode encode wire_ok TerminateExecutionResult_format].
  unfold TerminateExecutionResult_decode, TerminateExecutionResult_ok, TerminateExecutionResult_encode. wire_decode [16; 8; 2; 2; 4]%nat.
Qed.
#[global] Instance TerminateExecutionResult_laws : WireLaws TerminateExecutionResult.
Proof. wire_laws TerminateExecutionResult_encode TerminateExecutionResult_decode TerminateExecutionResult_ok TerminateExecutionResult_exact. Qed.
#[global] Instance TerminateExecutionResult_canonical : WireCanonical TerminateExecutionResult.
Proof. exact (exact_canonical TerminateExecutionResult_exact). Qed.

Record MintWorkspaceRequest := mkMintWorkspaceRequest { mw_request_id : N }.

Definition MintWorkspaceRequest_validate (m : MintWorkspaceRequest) : result FramingError unit :=
  if mw_request_id m =? 0 then Err MalformedPayload else Ok tt.
#[global] Arguments MintWorkspaceRequest_validate : simpl never.

Definition MintWorkspaceRequest_encode (m : MintWorkspaceRequest) : list N :=
  to_le 8 (mw_request_id m) ++ to_le 8 0.

Definition MintWorkspaceRequest_decode (bytes : list N) : W MintWorkspaceRequest :=
  let? _ := exact_len bytes 16 in
  reserved ← le_at bytes 8 16;
  if negb (reserved =? 0) then err MalformedPayload else
  request_id ← le_at bytes 0 8;
  let value := mkMintWorkspaceRequest request_id in
  let? _ := Some (MintWorkspaceRequest_validate value) in
  ok value.

Definition MintWorkspaceRequest_ok (m : MintWorkspaceRequest) : Prop :=
  fits 8 (mw_request_id m) ∧ MintWorkspaceRequest_validate m = Ok tt.

#[global] Instance MintWorkspaceRequest_format : WireFormat MintWorkspaceRequest := {|
  encode := MintWorkspaceRequest_encode; decode := MintWorkspaceRequest_decode; wire_ok := MintWorkspaceRequest_ok |}.
Lemma MintWorkspaceRequest_exact : decoder_exact MintWorkspaceRequest.
Proof.
  intros p. cbn [decode encode wire_ok MintWorkspaceRequest_format].
  unfold MintWorkspaceRequest_decode, MintWorkspaceRequest_ok, MintWorkspaceRequest_encode. wire_decode [8; 8]%nat.
Qed.
#[global] Instance MintWorkspaceRequest_laws : WireLaws MintWorkspaceRequest.
Proof. wire_laws MintWorkspaceRequest_encode MintWorkspaceRequest_decode MintWorkspaceRequest_ok MintWorkspaceRequest_exact. Qed.
#[global] Instance MintWorkspaceRequest_canonical : WireCanonical MintWorkspaceRequest.
Proof. exact (exact_canonical MintWorkspaceRequest_exact). Qed.

Inductive MintWorkspaceResultCode := MW_Minted | MW_Error (e : ErrorCode).
Definition MintWorkspaceResultCode_wire_value (c : MintWorkspaceResultCode) : N :=
  match c with MW_Minted => 0 | MW_Error e => ErrorCode_tag e end.
Definition MintWorkspaceResultCode_from_u16 (value : N) : W MintWorkspaceResultCode :=
  if value =? 0 then ok MW_Minted
  else match ErrorCode_from_u16 value with
       | Some e => ok (MW_Error e) | None => err MalformedPayload end.
#[global] Instance MintWorkspaceResultCode_reader :
  TagReader MintWorkspaceResultCode_from_u16 MintWorkspaceResultCode_wire_value.
Proof. solve_code_reader. Qed.

Record MintWorkspaceResult := mkMintWorkspaceResult {
  mwr_workspace_id : N; mwr_request_id : N; mwr_result_code : MintWorkspaceResultCode }.

Definition MintWorkspaceResult_validate (m : MintWorkspaceResult) : result FramingError unit :=
  if mwr_request_id m =? 0 then Err MalformedPayload else
  let zero := mwr_workspace_id m =? 0 in
  match mwr_result_code m with
  | MW_Minted => if negb zero then Ok tt else Err MalformedPayload
  | MW_Error _ => if zero then Ok tt else Err MalformedPayload
  end.
#[global] Arguments MintWorkspaceResult_validate : simpl never.

Definition MintWorkspaceResult_encode (m : MintWorkspaceResult) : list N :=
  to_le 16 (mwr_workspace_id m) ++ to_le 8 (mwr_request_id m)
  ++ to_le 2 (MintWorkspaceResultCode_wire_value (mwr_result_code m)) ++ to_le 2 0 ++ to_le 4 0.

Definition MintWorkspaceResult_decode (bytes : list N) : W MintWorkspaceResult :=
  let? _ := exact_len bytes 32 in
  reserved1 ← le_at bytes 26 28;
  reserved2 ← le_at bytes 28 32;
  if negb (reserved1 =? 0) || negb (reserved2 =? 0) then err MalformedPayload else
  id ← vslice bytes 0 16;
  workspace_id ← read_u128 id;
  request_id ← le_at bytes 16 24;
  code ← le_at bytes 24 26;
  let? result_code := MintWorkspaceResultCode_from_u16 code in
  let value := mkMintWorkspaceResult workspace_id request_id result_code in
  let? _ := Some (MintWorkspaceResult_validate value) in
  ok value.

Definition MintWorkspaceResult_ok (m : MintWorkspaceResult) : Prop :=
  fits 16 (mwr_workspace_id m) ∧ fits 8 (mwr_request_id m) ∧ MintWorkspaceResult_validate m = Ok tt.

#[global] Instance MintWorkspaceResult_format : WireFormat MintWorkspaceResult := {|
  encode := MintWorkspaceResult_encode; decode := MintWorkspaceResult_decode; wire_ok := MintWorkspaceResult_ok |}.
Lemma MintWorkspaceResult_exact : decoder_exact MintWorkspaceResult.
Proof.
  intros p. cbn [decode encode wire_ok MintWorkspaceResult_format].
  unfold MintWorkspaceResult_decode, MintWorkspaceResult_ok, MintWorkspaceResult_encode. wire_decode [16; 8; 2; 2; 4]%nat.
Qed.
#[global] Instance MintWorkspaceResult_laws : WireLaws MintWorkspaceResult.
Proof. wire_laws MintWorkspaceResult_encode MintWorkspaceResult_decode MintWorkspaceResult_ok MintWorkspaceResult_exact. Qed.
#[global] Instance MintWorkspaceResult_canonical : WireCanonical MintWorkspaceResult.
Proof. exact (exact_canonical MintWorkspaceResult_exact). Qed.

(** * Delivery control, [presentation.rs] *)

Record SuspendDelivery := mkSuspendDelivery { sd_attachment_id : N }.

Definition SuspendDelivery_encode (m : SuspendDelivery) : list N :=
  to_le 16 (sd_attachment_id m) ++ replicate 8 0.

Definition SuspendDelivery_decode (bytes : list N) : W SuspendDelivery :=
  let? _ := exact_len bytes 24 in
  pad ← vslice bytes 16 24;
  if existsb (λ b, negb (b =? 0)) pad then err MalformedPayload else
  id ← vslice bytes 0 16;
  attachment_id ← attachment_id_from id;
  ok (mkSuspendDelivery attachment_id).

Definition SuspendDelivery_ok (m : SuspendDelivery) : Prop := fits 16 (sd_attachment_id m).

(** [bytes.iter().any(|byte| *byte != 0)] on eight bytes is the test against zeros. *)
Lemma existsb_nonzero (s : list N) n :
  length s = n → existsb (λ b, negb (b =? 0)) s = negb (bool_decide (s = replicate n 0)).
Proof.
  intros <-. induction s as [|b s IH]; [done|]. cbn [existsb replicate length]. rewrite IH.
  destruct (N.eqb_spec b 0) as [->|Hb]; cbn [negb orb].
  - f_equal. apply bool_decide_ext. split; [intros H; by f_equal|intros H; by injection H].
  - symmetry. apply negb_true_iff, bool_decide_eq_false_2. intros H. apply Hb. by injection H.
Qed.
#[export] Hint Rewrite existsb_nonzero using (first [eassumption | reflexivity]) : wire.

#[global] Instance SuspendDelivery_format : WireFormat SuspendDelivery := {|
  encode := SuspendDelivery_encode; decode := SuspendDelivery_decode; wire_ok := SuspendDelivery_ok |}.
Lemma SuspendDelivery_exact : decoder_exact SuspendDelivery.
Proof.
  intros p. cbn [decode encode wire_ok SuspendDelivery_format].
  unfold SuspendDelivery_decode, SuspendDelivery_ok, SuspendDelivery_encode.
  destruct (exact_len_cases p 24) as [[-> _]|[-> Hl]]; cbn [try_ ok err]; [intros _; wire_case|].
  revert Hl. wire_cut [16; 8]%nat. wire_read. rewrite (existsb_nonzero _ 8) by done.
  repeat wire_case; rewrite ?from_le_to_le by (eauto with wire); wire_finish.
Qed.
#[global] Instance SuspendDelivery_laws : WireLaws SuspendDelivery.
Proof. wire_laws SuspendDelivery_encode SuspendDelivery_decode SuspendDelivery_ok SuspendDelivery_exact. Qed.
#[global] Instance SuspendDelivery_canonical : WireCanonical SuspendDelivery.
Proof. exact (exact_canonical SuspendDelivery_exact). Qed.

Record ResumeDelivery := mkResumeDelivery { rd_attachment_id : N; rd_resume_sequence : N }.

Definition ResumeDelivery_encode (m : ResumeDelivery) : list N :=
  to_le 16 (rd_attachment_id m) ++ to_le 8 (rd_resume_sequence m).

Definition ResumeDelivery_decode (bytes : list N) : W ResumeDelivery :=
  let? _ := exact_len bytes 24 in
  resume_sequence ← le_at bytes 16 24;
  if resume_sequence =? 0 then err MalformedPayload else
  id ← vslice bytes 0 16;
  attachment_id ← attachment_id_from id;
  ok (mkResumeDelivery attachment_id resume_sequence).

Definition ResumeDelivery_ok (m : ResumeDelivery) : Prop :=
  fits 16 (rd_attachment_id m) ∧ fits 8 (rd_resume_sequence m) ∧ rd_resume_sequence m ≠ 0.

#[global] Instance ResumeDelivery_format : WireFormat ResumeDelivery := {|
  encode := ResumeDelivery_encode; decode := ResumeDelivery_decode; wire_ok := ResumeDelivery_ok |}.
Lemma ResumeDelivery_exact : decoder_exact ResumeDelivery.
Proof.
  intros p. cbn [decode encode wire_ok ResumeDelivery_format].
  unfold ResumeDelivery_decode, ResumeDelivery_ok, ResumeDelivery_encode. wire_decode [16; 8]%nat.
Qed.
#[global] Instance ResumeDelivery_laws : WireLaws ResumeDelivery.
Proof. wire_laws ResumeDelivery_encode ResumeDelivery_decode ResumeDelivery_ok ResumeDelivery_exact. Qed.
#[global] Instance ResumeDelivery_canonical : WireCanonical ResumeDelivery.
Proof. exact (exact_canonical ResumeDelivery_exact). Qed.
