(* ===== verification/WireText.v ===== *)
(** The payloads that carry a byte string or a list of fixed-size entries: terminal
    input, host search, composer commands, the execution list and the viewport line
    identities, of [crates/seyal-protocol/src/framing/payload.rs] and [pass7/]. *)

From S2P Require Import Prelude Utf8 Wire WirePane WireControl.

Implicit Types (bytes body pre rest p q s : list N).

(** * Input, paste and copied text *)

Record InputRef := mkInputRef { in_attachment_id : N; in_bytes : list N }.

Definition InputRef_encode (m : InputRef) : list N :=
  to_le 16 (in_attachment_id m) ++ to_le 4 (vlen (in_bytes m)) ++ in_bytes m.

Definition InputRef_decode (bytes : list N) : W InputRef :=
  if vlen bytes <? 20 then err TruncatedPayload else
  byte_count ← le_at bytes 16 20;
  if MAX_INPUT_BYTES <? byte_count then err OversizedPayload else
  let? expected := ok_or LengthOverflow (checked_add usize_max 20 byte_count) in
  let? _ := exact_len bytes expected in
  id ← vslice bytes 0 16;
  attachment_id ← attachment_id_from id;
  body ← vfrom bytes 20;
  ok (mkInputRef attachment_id body).

Definition InputRef_ok (m : InputRef) : Prop :=
  fits 16 (in_attachment_id m) ∧ octets (in_bytes m) ∧ vlen (in_bytes m) ≤ MAX_INPUT_BYTES.

#[global] Instance InputRef_format : WireFormat InputRef := {|
  encode := InputRef_encode; decode := InputRef_decode; wire_ok := InputRef_ok |}.

(** The input is a header of [n] bytes and a body. *)
Lemma header_cases (bytes : list N) (n : N) :
  (vlen bytes <? n) = true ∨
  (vlen bytes <? n) = false ∧ ∃ h body, bytes = h ++ body ∧ length h = N.to_nat n.
Proof.
  destruct (N.ltb_spec (vlen bytes) n) as [H|H]; [by left|right].
  split; [done|]. apply cut_field_ge. lia.
Qed.

Lemma checked_add_small a b : a + b ≤ usize_max → checked_add usize_max a b = Some (a + b).
Proof. intros H. unfold checked_add. by apply N.leb_le in H as ->. Qed.

(** A 32-bit length field and the bytes it counts. *)
Lemma counted_field q body :
  octets q → length q = 4%nat → from_le q = vlen body → to_le 4 (vlen body) = q.
Proof. intros Hq Hl <-. by apply to_le_from_le. Qed.

Lemma fits_counted body : vlen body ≤ MAX_INPUT_BYTES → fits 4 (N.of_nat (@length N body)).
Proof. unfold fits, MAX_INPUT_BYTES. change (256 ^ N.of_nat 4) with 4294967296. lia. Qed.
#[export] Hint Resolve fits_counted : wire.

Lemma len_app_eqb (x y : list N) a b n :
  length x = N.to_nat a → n = a + b → (vlen (x ++ y) =? n) = (vlen y =? b).
Proof. intros Hx ->. apply eq_true_iff_eq. rewrite !N.eqb_eq, length_app. lia. Qed.

Lemma InputRef_exact : decoder_exact InputRef.
Proof.
  intros p. cbn [decode encode wire_ok InputRef_format]. intros Hp.
  unfold InputRef_decode.
  destruct (header_cases p 20) as [Hlt|[Hlt (h & body & -> & Hh)]]; rewrite Hlt; [wire_case|].
  apply octets_app in Hp as [Hph Hb]. revert Hh Hph. wire_cut [16; 4]%nat. rewrite <-!(assoc_L (++)).
  wire_read. wire_case; [wire_case|]. to_prop. rewrite from_le_to_le by (eauto with wire).
  rewrite checked_add_small by (unfold MAX_INPUT_BYTES, usize_max, u64_max in *; lia).
  cbn [ok_or ok try_]. unfold exact_len. wire_case; [wire_case|]. wire_case.
  to_prop. rewrite !length_app, Hs, Hl in *. unfold InputRef_ok, InputRef_encode. cbn.
  rewrite (counted_field z body), to_le_from_le by (done || lia).
  split_and!; eauto with wire. lia.
Qed.
#[global] Instance InputRef_laws : WireLaws InputRef.
Proof.
  apply exact_laws; [| |exact InputRef_exact]; intros [id body] (Hid & Hb & Hlen); cbn in *.
  { unfold InputRef_encode. cbn. wire_bytes. }
  unfold InputRef_decode, InputRef_encode. cbn [in_attachment_id in_bytes].
  rewrite (proj2 (N.ltb_ge _ _)) by (rewrite !length_app, !length_to_le; lia).
  wire_read. rewrite !from_le_to_le by eauto with wire.
  rewrite (proj2 (N.ltb_ge _ _) Hlen), checked_add_small
    by (unfold MAX_INPUT_BYTES, usize_max, u64_max in *; lia).
  cbn [ok_or ok try_]. rewrite exact_len_ok by (rewrite !length_app, !length_to_le; lia). done.
Qed.
#[global] Instance InputRef_canonical : WireCanonical InputRef.
Proof. exact (exact_canonical InputRef_exact). Qed.

(** * Host search *)

Record HostSearch := mkHostSearch { hr_attachment_id : N; hr_forward : bool; hr_needle : list N }.

Definition HostSearch_encode (m : HostSearch) : list N :=
  to_le 16 (hr_attachment_id m) ++ [bool_tag (hr_forward m)] ++ replicate 3 0
  ++ to_le 4 (vlen (hr_needle m)) ++ hr_needle m.

Definition HostSearch_decode (bytes : list N) : W HostSearch :=
  if vlen bytes <? 24 then err TruncatedPayload else
  pad ← vslice bytes 17 20;
  if negb (bool_decide (pad = replicate 3 0)) then err MalformedPayload else
  tag ← vget bytes 16;
  let? forward := bool_from_u8 tag in
  byte_count ← le_at bytes 20 24;
  if MAX_INPUT_BYTES <? byte_count then err OversizedPayload else
  let? expected := ok_or LengthOverflow (checked_add usize_max 24 byte_count) in
  let? _ := exact_len bytes expected in
  body ← vfrom bytes 24;
  match from_utf8 body with
  | None => err MalformedPayload
  | Some _ =>
    id ← vslice bytes 0 16;
    attachment_id ← attachment_id_from id;
    ok (mkHostSearch attachment_id forward body)
  end.

Definition HostSearch_ok (m : HostSearch) : Prop :=
  fits 16 (hr_attachment_id m) ∧ octets (hr_needle m) ∧ vlen (hr_needle m) ≤ MAX_INPUT_BYTES
  ∧ is_Some (from_utf8 (hr_needle m)).

#[global] Instance HostSearch_format : WireFormat HostSearch := {|
  encode := HostSearch_encode; decode := HostSearch_decode; wire_ok := HostSearch_ok |}.
Lemma HostSearch_exact : decoder_exact HostSearch.
Proof.
  intros p. cbn [decode encode wire_ok HostSearch_format]. intros Hp.
  unfold HostSearch_decode.
  destruct (header_cases p 24) as [Hlt|[Hlt (h & body & -> & Hh)]]; rewrite Hlt; [wire_case|].
  apply octets_app in Hp as [Hph Hb]. revert Hh Hph. wire_cut [16; 1; 3; 4]%nat.
  rewrite <-!(assoc_L (++)). wire_read. do 3 (wire_case; try solve [wire_case]).
  rewrite from_le_to_le by (eauto with wire). wire_fields.
  rewrite checked_add_small by (unfold MAX_INPUT_BYTES, usize_max, u64_max in *; lia).
  cbn [ok_or ok try_]. unfold exact_len. wire_case; [wire_case|]. cbn [try_ ok].
  destruct (from_utf8 body) eqn:Hu; wire_case. to_prop. rewrite !length_app, Hs, Hl in *. cbn in *.
  unfold HostSearch_ok, HostSearch_encode. cbn.
  rewrite (counted_field z body), to_le_from_le by (done || lia).
  split_and!; eauto with wire. lia.
Qed.
#[global] Instance HostSearch_laws : WireLaws HostSearch.
Proof.
  apply exact_laws; [| |exact HostSearch_exact]; intros [id fwd body] (Hid & Hb & Hlen & [t Ht]); cbn in *.
  { unfold HostSearch_encode. cbn -[app replicate]. wire_bytes. }
  unfold HostSearch_decode, HostSearch_encode. cbn [hr_attachment_id hr_forward hr_needle].
  rewrite (proj2 (N.ltb_ge _ _)) by (rewrite !length_app, !length_to_le; cbn; lia).
  wire_eval. rewrite (proj2 (N.ltb_ge _ _) Hlen), checked_add_small
    by (unfold MAX_INPUT_BYTES, usize_max, u64_max in *; lia).
  cbn [ok_or ok try_]. rewrite exact_len_ok by (rewrite !length_app, !length_to_le; cbn; lia).
  cbn [try_ ok]. by rewrite Ht.
Qed.
#[global] Instance HostSearch_canonical : WireCanonical HostSearch.
Proof. exact (exact_canonical HostSearch_exact). Qed.

(** * Composer commands *)

Definition MAX_COMPOSER_COMMAND_BYTES : N := 16384.

Record ComposerCommandRef := mkComposerCommandRef {
  cc_attachment_id : N; cc_request_id : N; cc_command : list N }.

Definition ComposerCommandRef_encode (m : ComposerCommandRef) : list N :=
  to_le 16 (cc_attachment_id m) ++ to_le 8 (cc_request_id m) ++ to_le 4 (vlen (cc_command m))
  ++ to_le 4 0 ++ cc_command m.

Definition ComposerCommandRef_decode (bytes : list N) : W ComposerCommandRef :=
  if vlen bytes <? 32 then err TruncatedPayload else
  request_id ← le_at bytes 16 24;
  declared ← le_at bytes 24 28;
  reserved ← le_at bytes 28 32;
  if (request_id =? 0) || negb (reserved =? 0) || (declared =? 0)
     || (MAX_COMPOSER_COMMAND_BYTES <? declared) || negb (vlen bytes =? 32 + declared)
  then err MalformedPayload else
  command ← vfrom bytes 32;
  match from_utf8 command with
  | None => err MalformedPayload
  | Some _ =>
    id ← vslice bytes 0 16;
    attachment_id ← attachment_id_from id;
    ok (mkComposerCommandRef attachment_id request_id command)
  end.

Definition ComposerCommandRef_ok (m : ComposerCommandRef) : Prop :=
  fits 16 (cc_attachment_id m) ∧ fits 8 (cc_request_id m) ∧ cc_request_id m ≠ 0
  ∧ octets (cc_command m) ∧ 0 < vlen (cc_command m) ≤ MAX_COMPOSER_COMMAND_BYTES
  ∧ is_Some (from_utf8 (cc_command m)).

(** The session-bootstrap schema carries the target generation before the length. *)
Definition encode_fenced (m : ComposerCommandRef) (target_generation : N) : list N :=
  to_le 16 (cc_attachment_id m) ++ to_le 8 (cc_request_id m) ++ to_le 8 target_generation
  ++ to_le 4 (vlen (cc_command m)) ++ to_le 4 0 ++ cc_command m.

Definition decode_fenced (bytes : list N) : W (ComposerCommandRef * N) :=
  if vlen bytes <? 40 then err TruncatedPayload else
  request_id ← le_at bytes 16 24;
  target_generation ← le_at bytes 24 32;
  declared ← le_at bytes 32 36;
  reserved ← le_at bytes 36 40;
  if (request_id =? 0) || (target_generation =? 0) || negb (reserved =? 0) || (declared =? 0)
     || (MAX_COMPOSER_COMMAND_BYTES <? declared) || negb (vlen bytes =? 40 + declared)
  then err MalformedPayload else
  command ← vfrom bytes 40;
  match from_utf8 command with
  | None => err MalformedPayload
  | Some _ =>
    id ← vslice bytes 0 16;
    attachment_id ← attachment_id_from id;
    ok (mkComposerCommandRef attachment_id request_id command, target_generation)
  end.

Definition fenced_ok (m : ComposerCommandRef * N) : Prop :=
  ComposerCommandRef_ok m.1 ∧ fits 8 m.2 ∧ m.2 ≠ 0.

#[global] Instance ComposerCommandRef_format : WireFormat ComposerCommandRef := {|
  encode := ComposerCommandRef_encode; decode := ComposerCommandRef_decode;
  wire_ok := ComposerCommandRef_ok |}.
#[global] Instance fenced_format : WireFormat (ComposerCommandRef * N) := {|
  encode m := encode_fenced m.1 m.2; decode := decode_fenced; wire_ok := fenced_ok |}.

Lemma fits_command body : vlen body ≤ MAX_COMPOSER_COMMAND_BYTES → fits 4 (vlen body).
Proof.
  unfold fits, MAX_COMPOSER_COMMAND_BYTES. change (256 ^ N.of_nat 4) with 4294967296. lia.
Qed.

Lemma ComposerCommandRef_exact : decoder_exact ComposerCommandRef.
Proof.
  intros p. cbn [decode encode wire_ok ComposerCommandRef_format]. intros Hp.
  unfold ComposerCommandRef_decode.
  destruct (header_cases p 32) as [Hlt|[Hlt (h & body & -> & Hh)]]; rewrite Hlt; [wire_case|].
  apply octets_app in Hp as [Hph Hb]. revert Hh Hph. wire_cut [16; 8; 4; 4]%nat.
  rewrite <-!(assoc_L (++)). wire_read. wire_case; [wire_case|].
  rewrite from_le_to_le by (eauto with wire). to_prop.
  rewrite !length_app, Hs, Hs0, Hs1, Hl in *.
  destruct (from_utf8 body) eqn:Hu; wire_case.
  unfold ComposerCommandRef_ok, ComposerCommandRef_encode. cbn -[app].
  rewrite (counted_field s1 body), !to_le_from_le by (done || lia). wire_fields.
  split_and!; eauto with wire; lia.
Qed.
#[global] Instance ComposerCommandRef_laws : WireLaws ComposerCommandRef.
Proof.
  apply exact_laws; [| |exact ComposerCommandRef_exact];
    intros [id req body] (Hid & Hreq & Hnz & Hb & [Hpos Hlen] & [t Ht]); cbn in *.
  { unfold ComposerCommandRef_encode. cbn -[app]. wire_bytes. }
  pose proof (fits_command _ Hlen).
  unfold ComposerCommandRef_decode, ComposerCommandRef_encode. cbn [cc_attachment_id cc_request_id cc_command].
  rewrite (proj2 (N.ltb_ge _ _)) by (rewrite !length_app, !length_to_le; lia).
  wire_eval. rewrite (proj2 (N.eqb_neq _ _) Hnz), (proj2 (N.ltb_ge _ _) Hlen).
  rewrite (proj2 (N.eqb_neq _ _)) by lia. rewrite (proj2 (N.eqb_eq _ _)) by (rewrite !length_app, !length_to_le; lia).
  cbn. by rewrite Ht.
Qed.
#[global] Instance ComposerCommandRef_canonical : WireCanonical ComposerCommandRef.
Proof. exact (exact_canonical ComposerCommandRef_exact). Qed.

Lemma fenced_exact : decoder_exact (ComposerCommandRef * N).
Proof.
  intros p. cbn [decode encode wire_ok fenced_format]. intros Hp.
  unfold decode_fenced.
  destruct (header_cases p 40) as [Hlt|[Hlt (h & body & -> & Hh)]]; rewrite Hlt; [wire_case|].
  apply octets_app in Hp as [Hph Hb]. revert Hh Hph. wire_cut [16; 8; 8; 4; 4]%nat.
  rewrite <-!(assoc_L (++)). wire_read. wire_case; [wire_case|].
  rewrite from_le_to_le by (eauto with wire). to_prop.
  rewrite !length_app, Hs, Hs0, Hs1, Hs2, Hl in *.
  destruct (from_utf8 body) eqn:Hu; wire_case.
  unfold fenced_ok, ComposerCommandRef_ok, encode_fenced. cbn -[app].
  rewrite (counted_field s2 body), !to_le_from_le by (done || lia). wire_fields.
  split_and!; eauto with wire; lia.
Qed.
#[global] Instance fenced_laws : WireLaws (ComposerCommandRef * N).
Proof.
  apply exact_laws; [| |exact fenced_exact];
    intros [[id req body] gen] ((Hid & Hreq & Hnz & Hb & [Hpos Hlen] & [t Ht]) & Hg & Hgz); cbn in *.
  { unfold encode_fenced. cbn -[app]. wire_bytes. }
  pose proof (fits_command _ Hlen).
  unfold decode_fenced, encode_fenced. cbn [cc_attachment_id cc_request_id cc_command].
  rewrite (proj2 (N.ltb_ge _ _)) by (rewrite !length_app, !length_to_le; lia).
  wire_eval. rewrite (proj2 (N.eqb_neq _ _) Hnz), (proj2 (N.eqb_neq _ _) Hgz), (proj2 (N.ltb_ge _ _) Hlen).
  rewrite (proj2 (N.eqb_neq _ _)) by lia. rewrite (proj2 (N.eqb_eq _ _)) by (rewrite !length_app, !length_to_le; lia).
  cbn. by rewrite Ht.
Qed.
#[global] Instance fenced_canonical : WireCanonical (ComposerCommandRef * N).
Proof. exact (exact_canonical fenced_exact). Qed.

(** * The execution list *)

Record ExecutionListEntry := mkEntry {
  xe_execution_id : N; xe_lifecycle : Lifecycle; xe_has_controller : bool; xe_attachment_count : N }.

(** The body of the encoder's and of the decoder's loop. *)
Definition entry_encode (e : ExecutionListEntry) : list N :=
  to_le 16 (xe_execution_id e) ++ [Lifecycle_tag (xe_lifecycle e)] ++ [bool_tag (xe_has_controller e)]
  ++ to_le 2 (xe_attachment_count e).

Definition entry_read (bytes : list N) (offset : N) : W (ExecutionListEntry * N) :=
  tag ← vget bytes (offset + 16);
  let? lifecycle := Lifecycle_from_u8 tag in
  flag ← vget bytes (offset + 17);
  let? has_controller := bool_from_u8 flag in
  id ← vslice bytes offset (offset + 16);
  execution_id ← execution_id_from id;
  attachment_count ← le_at bytes (offset + 18) (offset + 20);
  ok (mkEntry execution_id lifecycle has_controller attachment_count, offset + 20).

Definition ExecutionList_encode (entries : list ExecutionListEntry) : list N :=
  to_le 2 (vlen entries) ++ to_le 2 0 ++ enc_all entry_encode entries.

Definition ExecutionList_decode (bytes : list N) : W (list ExecutionListEntry) :=
  if vlen bytes <? 4 then err TruncatedPayload else
  count ← le_at bytes 0 2;
  reserved ← le_at bytes 2 4;
  if negb (reserved =? 0) || (MAX_EXECUTION_LIST_ENTRIES <? count) then err MalformedPayload else
  let? size := ok_or LengthOverflow (checked_mul usize_max count 20) in
  let? expected := ok_or LengthOverflow (checked_add usize_max 4 size) in
  let? _ := exact_len bytes expected in
  let? res := read_n (entry_read bytes) (N.to_nat count) 4 in
  ok res.1.

Definition entry_ok (e : ExecutionListEntry) : Prop :=
  fits 16 (xe_execution_id e) ∧ fits 2 (xe_attachment_count e).
Definition ExecutionList_ok (entries : list ExecutionListEntry) : Prop :=
  vlen entries ≤ MAX_EXECUTION_LIST_ENTRIES ∧ Forall entry_ok entries.

#[global] Instance ExecutionList_format : WireFormat (list ExecutionListEntry) := {|
  encode := ExecutionList_encode; decode := ExecutionList_decode; wire_ok := ExecutionList_ok |}.

Lemma entry_read_shift pre body :
  entry_read (pre ++ body) (vlen pre)
  = let? res := entry_read body 0 in ok (res.1, vlen pre + res.2).
Proof.
  unfold entry_read. rewrite !vget_shift, vslice_shift0, le_at_shift by done.
  rewrite !N.add_0_l. destruct (vget body 16); [|done]. cbn.
  destruct (Lifecycle_from_u8 _) as [[]|]; [|done..]. cbn.
  destruct (vget body 17); [|done]. cbn. destruct (bool_from_u8 _) as [[]|]; [|done..]. cbn.
  destruct (vslice body 0 16); [|done]. cbn. destruct (execution_id_from _); [|done]. cbn.
  by destruct (le_at body 18 20).
Qed.

Lemma length_entry e : vlen (entry_encode e) = 20.
Proof. unfold entry_encode. by rewrite !length_app, !length_to_le. Qed.

Lemma entry_reads_back : reads_back entry_read entry_encode entry_ok (λ _, True).
Proof.
  intros pre [id lc hc count] rest (Hid & Hc) _. rewrite entry_read_shift, length_entry.
  unfold entry_read, entry_encode. cbn -[app] in *. rewrite <-!(assoc_L (++)). wire_eval. done.
Qed.

Lemma entry_reads_exactly : reads_exactly entry_read entry_encode entry_ok 20 (λ _, True).
Proof.
  intros pre body Hb _ Hlen. rewrite entry_read_shift.
  destruct (cut_field_ge body 20) as (h & rest & -> & Hh); [lia|].
  apply octets_app in Hb as [Hbh _]. clear Hlen. revert Hh Hbh. wire_cut [16; 1; 1; 2]%nat.
  rewrite <-!(assoc_L (++)). unfold entry_read. cbn [N.add Pos.add Pos.succ]. wire_read.
  rewrite from_le_to_le, !try_assoc by eauto with wire.
  do 2 (wire_case; [rewrite ?try_assoc|eexists; split; [done|by intros ? ? [=]]]). cbn.
  eexists. split; [done|]. intros e off [= <- <-]. wire_fields.
  unfold entry_ok, entry_encode. cbn -[app]. rewrite !to_le_from_le by done.
  split; [split; eauto with wire|]. exists rest. split; [by rewrite <-!(assoc_L (++))|].
  rewrite !length_app, Hs, Hl. cbn. lia.
Qed.

Lemma checked_mul_small a b : a * b ≤ usize_max → checked_mul usize_max a b = Some (a * b).
Proof. intros H. unfold checked_mul. by apply N.leb_le in H as ->. Qed.

(** Fixed-size records: the bytes of [l] are as many as the records need. *)
Lemma length_enc_all {A} (enc : A → list N) (n : N) (l : list A) :
  (∀ a, vlen (enc a) = n) → vlen (enc_all enc l) = n * vlen l.
Proof.
  intros Hn. induction l as [|a l IH]; [cbn; lia|].
  change (enc_all enc (a :: l)) with (enc a ++ enc_all enc l). specialize (Hn a).
  rewrite length_app. cbn [length]. lia.
Qed.

Lemma octets_enc_all {A} (enc : A → list N) (good : A → Prop) (l : list A) :
  (∀ a, good a → octets (enc a)) → Forall good l → octets (enc_all enc l).
Proof.
  intros Hg. induction 1 as [|a l Ha _ IH]; [constructor|].
  change (enc_all enc (a :: l)) with (enc a ++ enc_all enc l). apply octets_app. eauto.
Qed.

(** A run of [count] records that fills the body exactly. *)
Lemma read_fixed {E A} (read : list N → N → option (result E (A * N))) enc good n count pre body :
  reads_exactly read enc good n (λ _, True) → (∀ a, vlen (enc a) = n) → 0 < n → octets body →
  vlen body = n * count →
  ∃ r, read_n (read (pre ++ body)) (N.to_nat count) (vlen pre) = Some r ∧ ∀ l off, r = Ok (l, off) →
    vlen l = count ∧ Forall good l ∧ body = enc_all enc l.
Proof.
  intros Hr Hn Hpos Hb Hlen.
  destruct (read_n_exact read enc good n (λ _, True) (N.to_nat count) pre body Hr) as (r & Hr1 & Hr2);
    [|done|done|lia|].
  { right. intros a _. apply Hn. }
  exists r. split; [done|]. intros l off Hl. destruct (Hr2 l off Hl) as (Hc & Hg & rest & -> & _).
  assert (vlen l = count) as Hcount by lia. split_and!; [done..|].
  rewrite length_app, Nat2N.inj_add, (length_enc_all enc n l Hn) in Hlen.
  assert (length rest = O) as ->%nil_length_inv by lia. by rewrite app_nil_r.
Qed.

Lemma entries_bound count : count ≤ MAX_EXECUTION_LIST_ENTRIES → 4 + count * 20 ≤ usize_max.
Proof. unfold MAX_EXECUTION_LIST_ENTRIES, usize_max, u64_max. lia. Qed.

Lemma ExecutionList_exact : decoder_exact (list ExecutionListEntry).
Proof.
  intros p. cbn [decode encode wire_ok ExecutionList_format]. intros Hp.
  unfold ExecutionList_decode.
  destruct (header_cases p 4) as [Hlt|[Hlt (h & body & -> & Hh)]]; rewrite Hlt; [wire_case|].
  apply octets_app in Hp as [Hph Hb]. revert Hh Hph. wire_cut [2; 2]%nat. rewrite <-!(assoc_L (++)).
  wire_read. wire_case; [wire_case|]. to_prop.
  pose proof (entries_bound (from_le s)).
  rewrite checked_mul_small by lia. cbn [ok_or ok try_].
  rewrite checked_add_small by lia. cbn [ok_or ok try_].
  unfold exact_len. wire_case; [wire_case|]. cbn [try_ ok]. to_prop. rewrite !length_app, Hs, Hl in *.
  rewrite (assoc_L (++)).
  destruct (read_fixed entry_read entry_encode entry_ok 20 (from_le s) (s ++ z) body
    entry_reads_exactly length_entry) as (r & Hr1 & Hr2); [done|done|lia|].
  rewrite length_app, Hs, Hl in Hr1. change (N.of_nat (2 + 2)) with 4 in Hr1. rewrite Hr1.
  destruct r as [[l off]|e]; cbn [try_]; wire_case.
  destruct (Hr2 _ _ eq_refl) as (Hcount & Hg & ->). cbn [fst].
  unfold ExecutionList_ok, ExecutionList_encode. rewrite Hcount, to_le_from_le by done.
  wire_fields. split_and!; [lia|done|by rewrite <-(assoc_L (++))].
Qed.

#[global] Instance ExecutionList_laws : WireLaws (list ExecutionListEntry).
Proof.
  apply exact_laws; [| |exact ExecutionList_exact]; intros l [Hlen Hl].
  { cbn [encode ExecutionList_format]. unfold ExecutionList_encode. wire_bytes.
    eapply octets_enc_all; [|done]. intros [] []. unfold entry_encode. cbn -[app] in *. wire_bytes. }
  cbn [encode decode ExecutionList_format]. unfold ExecutionList_decode, ExecutionList_encode.
  assert (fits 2 (vlen l)) as Hf.
  { unfold fits, MAX_EXECUTION_LIST_ENTRIES in *. change (256 ^ N.of_nat 2) with 65536. lia. }
  pose proof (length_enc_all entry_encode 20 l length_entry) as Henc.
  pose proof (entries_bound _ Hlen) as Hbound.
  rewrite (proj2 (N.ltb_ge _ _)) by (rewrite !length_app, !length_to_le; lia).
  wire_eval. rewrite (proj2 (N.ltb_ge _ _) Hlen), checked_mul_small by lia. cbn [orb ok_or ok try_].
  rewrite checked_add_small by lia. cbn [ok_or ok try_].
  rewrite exact_len_ok by (rewrite !length_app, !length_to_le; lia). cbn [try_ ok].
  rewrite Nat2N.id, (assoc_L (++) (to_le 2 _)), (read_n_all entry_read entry_encode entry_ok (λ _, True));
    [done|apply entry_reads_back|done|done|by rewrite length_app, !length_to_le].
Qed.
#[global] Instance ExecutionList_canonical : WireCanonical (list ExecutionListEntry).
Proof. exact (exact_canonical ExecutionList_exact). Qed.

(** * Viewport line identities *)

Record ViewportLineIds := mkViewportLineIds { vl_generation : N; vl_line_ids : list N }.

(** The loop of [validate]: the runs that ended, and the run in progress. *)
Fixpoint viewport_runs (seen_closed : gset N) (run_id : option N) (ids : list N)
    : result FramingError unit :=
  match ids with
  | [] => Ok tt
  | id :: ids =>
    if bool_decide (run_id = Some id) then viewport_runs seen_closed run_id ids else
    let seen_closed := match run_id with Some ended => {[ended]} ∪ seen_closed | None => seen_closed end in
    if bool_decide (id ∈ seen_closed) then Err MalformedPayload
    else viewport_runs seen_closed (Some id) ids
  end.

Definition ViewportLineIds_validate (m : ViewportLineIds) : result FramingError unit :=
  if vl_generation m =? 0 then Err MalformedPayload else
  if (vlen (vl_line_ids m) =? 0) || (MAX_DISPLAY_ROWS <? vlen (vl_line_ids m)) then Err MalformedPayload else
  if bool_decide (0 ∈ vl_line_ids m) then Err MalformedPayload else
  viewport_runs ∅ None (vl_line_ids m).

Definition ViewportLineIds_encode (m : ViewportLineIds) : list N :=
  to_le 8 (vl_generation m) ++ to_le 2 (vlen (vl_line_ids m)) ++ to_le 2 0
  ++ enc_all (to_le 8) (vl_line_ids m).

(** The body of the decoder's loop. *)
Definition line_id_read (bytes : list N) (offset : N) : W (N * N) :=
  id ← le_at bytes offset (offset + 8);
  if id =? 0 then err MalformedPayload else ok (id, offset + 8).

Definition ViewportLineIds_decode (bytes : list N) : W ViewportLineIds :=
  if vlen bytes <? 12 then err TruncatedPayload else
  generation ← le_at bytes 0 8;
  row_count ← le_at bytes 8 10;
  reserved ← le_at bytes 10 12;
  if negb (reserved =? 0) then err MalformedPayload else
  if (row_count =? 0) || (MAX_DISPLAY_ROWS <? row_count) then err MalformedPayload else
  let? size := ok_or LengthOverflow (checked_mul usize_max row_count 8) in
  let? expected := ok_or LengthOverflow (checked_add usize_max 12 size) in
  if negb (vlen bytes =? expected) then err ExactLengthMismatch else
  let? res := read_n (line_id_read bytes) (N.to_nat row_count) 12 in
  let message := mkViewportLineIds generation res.1 in
  let? _ := Some (ViewportLineIds_validate message) in
  ok message.

Definition ViewportLineIds_ok (m : ViewportLineIds) : Prop :=
  fits 8 (vl_generation m) ∧ Forall (fits 8) (vl_line_ids m) ∧ ViewportLineIds_validate m = Ok tt.

#[global] Instance ViewportLineIds_format : WireFormat ViewportLineIds := {|
  encode := ViewportLineIds_encode; decode := ViewportLineIds_decode; wire_ok := ViewportLineIds_ok |}.

Definition line_id_ok (id : N) : Prop := fits 8 id ∧ id ≠ 0.

Lemma length_line_id id : vlen (to_le 8 id) = 8.
Proof. by rewrite length_to_le. Qed.

Lemma line_id_reads_back : reads_back line_id_read (to_le 8) line_id_ok (λ _, True).
Proof.
  intros pre id rest (Hid & Hnz) _. unfold line_id_read, le_at.
  rewrite vslice_shift0 by done. wire_eval. rewrite (proj2 (N.eqb_neq _ _) Hnz), length_to_le. done.
Qed.

Lemma line_id_reads_exactly : reads_exactly line_id_read (to_le 8) line_id_ok 8 (λ _, True).
Proof.
  intros pre body Hb _ Hlen. destruct (cut_field_ge body 8) as (h & rest & -> & Hh); [lia|].
  apply octets_app in Hb as [Hbh _]. unfold line_id_read, le_at.
  rewrite vslice_shift0, (vslice_head h rest 8 8) by done. cbn.
  wire_case; eexists; (split; [done|]); intros ? ? [=]; subst. to_prop.
  split; [split; eauto with wire|]. exists rest. rewrite to_le_from_le, Hh by done. done.
Qed.

Lemma validate_rows m :
  ViewportLineIds_validate m = Ok tt →
  vl_generation m ≠ 0 ∧ 0 < vlen (vl_line_ids m) ≤ MAX_DISPLAY_ROWS ∧ Forall (λ id, id ≠ 0) (vl_line_ids m).
Proof.
  unfold ViewportLineIds_validate. destruct (_ =? 0) eqn:Hg; [done|].
  destruct (_ || _) eqn:Hn; [done|]. case_bool_decide as Hz; [done|]. intros _. to_prop.
  split_and!; [done|lia|done|]. apply Forall_forall. by intros id Hid ->.
Qed.

Lemma rows_bound count : count ≤ MAX_DISPLAY_ROWS → 12 + count * 8 ≤ usize_max.
Proof. unfold MAX_DISPLAY_ROWS, usize_max, u64_max. lia. Qed.
#[global] Arguments ViewportLineIds_validate : simpl never.

Lemma ViewportLineIds_exact : decoder_exact ViewportLineIds.
Proof.
  intros p. cbn [decode encode wire_ok ViewportLineIds_format]. intros Hp.
  unfold ViewportLineIds_decode.
  destruct (header_cases p 12) as [Hlt|[Hlt (h & body & -> & Hh)]]; rewrite Hlt; [wire_case|].
  apply octets_app in Hp as [Hph Hb]. revert Hh Hph. wire_cut [8; 2; 2]%nat. rewrite <-!(assoc_L (++)).
  wire_read. do 2 (wire_case; [wire_case|]). to_prop. pose proof (rows_bound (from_le s0)).
  rewrite checked_mul_small by lia. cbn [ok_or ok try_].
  rewrite checked_add_small by lia. cbn [ok_or ok try_].
  wire_case; [wire_case|]. to_prop. rewrite !length_app, Hs, Hs0, Hl in *.
  rewrite 2!(assoc_L (++)).
  destruct (read_fixed line_id_read (to_le 8) line_id_ok 8 (from_le s0) ((s ++ s0) ++ z) body
    line_id_reads_exactly length_line_id) as (r & Hr1 & Hr2); [done|done|lia|].
  rewrite !length_app, Hs, Hs0, Hl in Hr1. change (N.of_nat (8 + 2 + 2)) with 12 in Hr1. rewrite Hr1.
  destruct r as [[l off]|e]; cbn [try_]; [|wire_case]. cbn [fst].
  destruct (Hr2 _ _ eq_refl) as (Hcount & Hg & ->). wire_case; wire_case.
  unfold ViewportLineIds_ok, ViewportLineIds_encode. cbn [vl_generation vl_line_ids].
  rewrite Hcount, !to_le_from_le by done. wire_fields. split_and!; eauto with wire.
  - eapply Forall_impl; [exact Hg|]. by intros ? [? _].
  - by rewrite <-!(assoc_L (++)).
Qed.

#[global] Instance ViewportLineIds_laws : WireLaws ViewportLineIds.
Proof.
  apply exact_laws; [| |exact ViewportLineIds_exact]; intros [gen l] (Hg & Hl & Hv); cbn in *.
  { unfold ViewportLineIds_encode. cbn [vl_generation vl_line_ids]. wire_bytes.
    eapply octets_enc_all; [|done]. eauto with wire. }
  unfold ViewportLineIds_decode, ViewportLineIds_encode. cbn [vl_generation vl_line_ids].
  destruct (validate_rows _ Hv) as (Hgz & [Hpos Hlen] & Hz). cbn in *.
  assert (fits 2 (vlen l)) as Hf.
  { unfold fits, MAX_DISPLAY_ROWS in *. change (256 ^ N.of_nat 2) with 65536. lia. }
  pose proof (length_enc_all (to_le 8) 8 l length_line_id) as Henc.
  pose proof (rows_bound _ Hlen) as Hbound.
  rewrite (proj2 (N.ltb_ge _ _)) by (rewrite !length_app, !length_to_le; lia).
  wire_eval. rewrite (proj2 (N.ltb_ge _ _) Hlen), (proj2 (N.eqb_neq _ _)), checked_mul_small by lia.
  cbn [orb ok_or ok try_]. rewrite checked_add_small by lia. cbn [ok_or ok try_].
  rewrite (proj2 (N.eqb_eq _ _)) by (rewrite !length_app, !length_to_le; lia). cbn [negb].
  rewrite Nat2N.id, 2!(assoc_L (++)), (read_n_all line_id_read (to_le 8) line_id_ok (λ _, True)).
  - cbn. by rewrite Hv.
  - apply line_id_reads_back.
  - apply Forall_and. done.
  - done.
  - by rewrite !length_app, !length_to_le.
Qed.
#[global] Instance ViewportLineIds_canonical : WireCanonical ViewportLineIds.
Proof. exact (exact_canonical ViewportLineIds_exact). Qed.
