(* ===== verification/WireBlocks.v ===== *)
(** The command-block timeline, [crates/seyal-protocol/src/pass7/command_blocks.rs]: the
    legacy and the session schema of [BlockTimeline].  The source writes the two
    schemas as two copies of the same loops that differ in the schema tag, the
    scope/trust trailer and the records a sender may write; [session] selects the copy. *)

From S2P Require Import Prelude Utf8 Wire WirePane WireControl WireText.

Implicit Types (bytes body pre rest p q s : list N).

Definition MAX_COMMAND_BLOCK_RECORDS : N := 128.
Definition BLOCK_TIMELINE_SCHEMA_SESSION : N := 1.

Inductive CommandBlockState := CBS_Running | CBS_Completed (exit_status : option Z).

Record CommandBlock := mkCommandBlock {
  cb_id : N; cb_command : list N; cb_start_line : N; cb_end_line : option N;
  cb_state : CommandBlockState; cb_flags : N; cb_scope : BlockScope; cb_trust : BlockTrust }.

Record BlockTimeline := mkBlockTimeline { bt_revision : N; bt_records : list CommandBlock }.

(** * Encoding *)

Definition encode_scope_trust (scope : BlockScope) (trust : BlockTrust) : list N :=
  [BlockScope_tag scope; BlockTrust_tag trust; 1; 0].

Definition encoded_state (st : CommandBlockState) : N * Z :=
  match st with
  | CBS_Running => (0, 0%Z)
  | CBS_Completed (Some exit_status) => (1, exit_status)
  | CBS_Completed None => (2, 0%Z)
  end.

Definition record_encode (session : bool) (r : CommandBlock) : list N :=
  to_le 8 (cb_id r) ++ to_le 8 (cb_start_line r) ++ to_le 8 (default 0 (cb_end_line r))
  ++ [(encoded_state (cb_state r)).1] ++ [cb_flags r] ++ replicate 2 0
  ++ to_le 4 (i32_bits (encoded_state (cb_state r)).2) ++ to_le 2 (vlen (cb_command r)) ++ to_le 2 0
  ++ (if session then encode_scope_trust (cb_scope r) (cb_trust r) else []) ++ cb_command r.

(** [record.flags & !COMMAND_BLOCK_FLAG_CANVAS_FLOOR != 0] at 8 bits. *)
Definition flags_bad (fl : N) : bool := negb (N.land fl 254 =? 0).

Definition local_trusted (r : CommandBlock) : bool :=
  match cb_scope r, cb_trust r with BS_Local, BT_LocalTrusted => true | _, _ => false end.

Definition record_refused (session : bool) (r : CommandBlock) : bool :=
  (vlen (cb_command r) =? 0) || (MAX_COMPOSER_COMMAND_BYTES <? vlen (cb_command r))
  || (negb session && negb (local_trusted r)).

Fixpoint encode_records (session : bool) (out : list N) (records : list CommandBlock)
    : result FramingError (list N) :=
  match records with
  | [] => Ok out
  | r :: records =>
    if record_refused session r then Err MalformedPayload else
    if flags_bad (cb_flags r) then Err MalformedPayload else
    let out := out ++ record_encode session r in
    if MAX_FRAME_PAYLOAD <? vlen out then Err OversizedPayload
    else encode_records session out records
  end.

Definition timeline_header (session : bool) (m : BlockTimeline) : list N :=
  to_le 8 (bt_revision m) ++ to_le 2 (vlen (bt_records m))
  ++ to_le 2 (if session then BLOCK_TIMELINE_SCHEMA_SESSION else 0) ++ to_le 4 0.

(** [try_encode] and [try_encode_session]. *)
Definition timeline_try_encode (session : bool) (m : BlockTimeline) : result FramingError (list N) :=
  if MAX_COMMAND_BLOCK_RECORDS <? vlen (bt_records m) then Err OversizedPayload
  else encode_records session (timeline_header session m) (bt_records m).

(** [encode]: [expect] panics on an [Err]. *)
Definition timeline_encode (m : BlockTimeline) : option (list N) :=
  match timeline_try_encode false m with Ok out => Some out | Err _ => None end.

(** * Decoding *)

Definition decode_scope_trust (bytes : list N) : W (BlockScope * BlockTrust) :=
  if negb (vlen bytes =? 4) then err MalformedPayload else
  present ← vget bytes 2;
  pad ← vget bytes 3;
  if negb (present =? 1) || negb (pad =? 0) then err MalformedPayload else
  scope ← vget bytes 0;
  let? scope := BlockScope_from_u8 scope in
  trust ← vget bytes 1;
  let? trust := BlockTrust_from_u8 trust in
  ok (scope, trust).

(** The match on the state tag. *)
Definition decoded_state (state_tag end_raw start_line : N) (exit_status : Z)
    : result FramingError (option N * CommandBlockState) :=
  if (state_tag =? 0) && (end_raw =? 0) && (exit_status =? 0)%Z then Ok (None, CBS_Running)
  else if (state_tag =? 1) && (start_line <=? end_raw)
  then Ok (Some end_raw, CBS_Completed (Some exit_status))
  else if (state_tag =? 2) && (start_line <=? end_raw) && (exit_status =? 0)%Z
  then Ok (Some end_raw, CBS_Completed None)
  else Err MalformedPayload.

Definition record_header_len (session : bool) : N := if session then 40 else 36.

(** One turn of the decoder's loop. *)
Definition record_read (session : bool) (bytes : list N) (offset : N) : W (CommandBlock * N) :=
  let? header_end := ok_or MalformedPayload (checked_add usize_max offset (record_header_len session)) in
  if vlen bytes <? header_end then err TruncatedPayload else
  id ← le_at bytes offset (offset + 8);
  start_line ← le_at bytes (offset + 8) (offset + 16);
  end_raw ← le_at bytes (offset + 16) (offset + 24);
  state_tag ← vget bytes (offset + 24);
  fl ← vget bytes (offset + 25);
  pad ← vslice bytes (offset + 26) (offset + 28);
  reserved ← le_at bytes (offset + 30) (offset + 32);
  if flags_bad fl || negb (bool_decide (pad = replicate 2 0)) || negb (reserved =? 0)
  then err MalformedPayload else
  exit_bits ← le_at bytes (offset + 28) (offset + 32);
  let exit_status := bits_i32 exit_bits in
  command_len ← le_at bytes (offset + 32) (offset + 34);
  reserved ← le_at bytes (offset + 34) (offset + 36);
  if (command_len =? 0) || (MAX_COMPOSER_COMMAND_BYTES <? command_len) || negb (reserved =? 0)
  then err MalformedPayload else
  let? scope_trust :=
    if session then trailer ← vslice bytes (offset + 36) (offset + 40); decode_scope_trust trailer
    else ok (BS_Local, BT_LocalTrusted) in
  let command_start := offset + record_header_len session in
  let? command_end := ok_or MalformedPayload (checked_add usize_max command_start command_len) in
  if vlen bytes <? command_end then err TruncatedPayload else
  command ← vslice bytes command_start command_end;
  match from_utf8 command with
  | None => err MalformedPayload
  | Some _ =>
    let? st := Some (decoded_state state_tag end_raw start_line exit_status) in
    if (id =? 0) || (start_line =? 0) then err MalformedPayload else
    ok (mkCommandBlock id command start_line st.1 st.2 fl scope_trust.1 scope_trust.2, command_end)
  end.

(** [decode] and [decode_session]. *)
Definition timeline_decode (session : bool) (bytes : list N) : W BlockTimeline :=
  if MAX_FRAME_PAYLOAD <? vlen bytes then err OversizedPayload else
  if vlen bytes <? 16 then err TruncatedPayload else
  revision ← le_at bytes 0 8;
  count ← le_at bytes 8 10;
  schema ← le_at bytes 10 12;
  reserved ← le_at bytes 12 16;
  if negb (schema =? if session then BLOCK_TIMELINE_SCHEMA_SESSION else 0)
     || negb (reserved =? 0) || (MAX_COMMAND_BLOCK_RECORDS <? count) then err MalformedPayload else
  let? res := read_n (record_read session bytes) (N.to_nat count) 16 in
  if negb (res.2 =? vlen bytes) then err ExactLengthMismatch else
  ok (mkBlockTimeline revision res.1).

(** * The timelines a sender may hand to the encoder *)

(** The end line and the state agree, and the exit status is an [i32]. *)
Definition state_ok (r : CommandBlock) : Prop :=
  match cb_state r, cb_end_line r with
  | CBS_Running, None => True
  | CBS_Completed (Some z), Some e => cb_start_line r ≤ e ∧ fits 8 e ∧ (- 2 ^ 31 ≤ z < 2 ^ 31)%Z
  | CBS_Completed None, Some e => cb_start_line r ≤ e ∧ fits 8 e
  | _, _ => False
  end.

Record record_sendable (session : bool) (r : CommandBlock) : Prop := {
  rs_id : fits 8 (cb_id r) ∧ cb_id r ≠ 0;
  rs_start : fits 8 (cb_start_line r) ∧ cb_start_line r ≠ 0;
  rs_state : state_ok r;
  rs_flags : cb_flags r < 256 ∧ flags_bad (cb_flags r) = false;
  rs_command : octets (cb_command r) ∧ is_Some (from_utf8 (cb_command r));
  rs_sent : record_refused session r = false;
}.

Record timeline_sendable (session : bool) (m : BlockTimeline) : Prop := {
  ts_revision : fits 8 (bt_revision m);
  ts_count : vlen (bt_records m) ≤ MAX_COMMAND_BLOCK_RECORDS;
  ts_records : Forall (record_sendable session) (bt_records m);
  ts_size : 16 + vlen (enc_all (record_encode session) (bt_records m)) ≤ MAX_FRAME_PAYLOAD;
}.

(** The exit statuses the decoder keeps: it refuses a record whose status has one of
    its upper sixteen bits set. *)
Definition exit_kept (r : CommandBlock) : bool :=
  i32_bits (encoded_state (cb_state r)).2 <? 65536.

Definition timeline_ok (session : bool) (m : BlockTimeline) : Prop :=
  timeline_sendable session m ∧ forallb exit_kept (bt_records m) = true.

(** * Records read back *)

Lemma encoded_exit_range r :
  state_ok r → (- 2 ^ 31 ≤ (encoded_state (cb_state r)).2 < 2 ^ 31)%Z.
Proof. unfold state_ok. destruct (cb_state r) as [|[z|]], (cb_end_line r); cbn; lia. Qed.

Lemma decoded_encoded_state r :
  state_ok r → cb_start_line r ≠ 0 →
  decoded_state (encoded_state (cb_state r)).1 (default 0 (cb_end_line r)) (cb_start_line r)
    (encoded_state (cb_state r)).2 = Ok (cb_end_line r, cb_state r).
Proof.
  unfold state_ok, decoded_state. intros Hs Hz.
  destruct (cb_state r) as [|[z|]], (cb_end_line r) as [e|]; cbn in *; destruct_and?; try done;
    by rewrite (proj2 (N.leb_le _ _)).
Qed.

Lemma length_record session r :
  vlen (record_encode session r) = record_header_len session + vlen (cb_command r).
Proof.
  unfold record_encode, record_header_len, encode_scope_trust.
  rewrite !length_app, !length_to_le, length_replicate. destruct session; cbn [length]; lia.
Qed.

Lemma decode_encode_scope_trust scope trust :
  decode_scope_trust (encode_scope_trust scope trust) = ok (scope, trust).
Proof. by destruct scope, trust. Qed.

Lemma vslice_high e rest : length e = 4%nat → vslice (e ++ rest) 2 4 = Some (drop 2 e).
Proof.
  intros He. rewrite vslice_ok by (rewrite ?length_app; lia). f_equal.
  rewrite drop_app_le by lia. rewrite take_app_le by (rewrite length_drop; lia).
  apply take_ge. rewrite length_drop. lia.
Qed.

Lemma le_at_high e rest :
  octets e → length e = 4%nat → le_at (e ++ rest) 2 4 = Some (from_le e / 65536).
Proof. intros He Hl. unfold le_at. rewrite vslice_high by done. cbn. by rewrite from_le_drop. Qed.

Definition frame_sized bytes : Prop := vlen bytes ≤ MAX_FRAME_PAYLOAD.

(** What one turn of the loop does with the fields of a record that is in the input;
    [tail] starts at the command. *)
Definition record_parse (session : bool) (at_ : N) (f_id f_start f_end : list N) (tag fl : N)
    (pad ex len res trailer tail : list N) : W (CommandBlock * N) :=
  if flags_bad fl || negb (bool_decide (pad = replicate 2 0)) || negb (from_le ex / 65536 =? 0)
  then err MalformedPayload else
  if (from_le len =? 0) || (MAX_COMPOSER_COMMAND_BYTES <? from_le len) || negb (from_le res =? 0)
  then err MalformedPayload else
  let? st := if session then decode_scope_trust trailer else ok (BS_Local, BT_LocalTrusted) in
  if vlen tail <? from_le len then err TruncatedPayload else
  let command := take (N.to_nat (from_le len)) tail in
  match from_utf8 command with
  | None => err MalformedPayload
  | Some _ =>
    let? es := Some (decoded_state tag (from_le f_end) (from_le f_start) (bits_i32 (from_le ex))) in
    if (from_le f_id =? 0) || (from_le f_start =? 0) then err MalformedPayload else
    ok (mkCommandBlock (from_le f_id) command (from_le f_start) es.1 es.2 fl st.1 st.2,
        at_ + record_header_len session + from_le len)
  end.

(** The command of the record: the check against the end of the input and the slice. *)
Lemma command_slice {A} (h tail : list N) (at_ clen : N) (k : list N → N → W A) :
  at_ = vlen h → clen ≤ MAX_COMPOSER_COMMAND_BYTES → frame_sized (h ++ tail) →
  (let? command_end := ok_or MalformedPayload (checked_add usize_max at_ clen) in
   if vlen (h ++ tail) <? command_end then err TruncatedPayload
   else command ← vslice (h ++ tail) at_ command_end; k command command_end)
  = if vlen tail <? clen then err TruncatedPayload
    else k (take (N.to_nat clen) tail) (at_ + clen).
Proof.
  intros -> Hc HP. unfold frame_sized, MAX_FRAME_PAYLOAD, MAX_COMPOSER_COMMAND_BYTES in *.
  rewrite length_app in *.
  rewrite checked_add_small by (unfold usize_max, u64_max; lia). cbn [ok_or ok try_].
  assert ((N.of_nat (length h + length tail) <? vlen h + clen) = (vlen tail <? clen)) as ->.
  { apply eq_true_iff_eq. rewrite !N.ltb_lt. lia. }
  destruct (N.ltb_spec (vlen tail) clen); [done|].
  rewrite vslice_shift0 by done. rewrite vslice_ok by lia. by rewrite N.sub_0_r, drop_0.
Qed.

Lemma record_read_parse session pre f_id f_start f_end tag fl pad ex len res trailer tail :
  length f_id = 8%nat → length f_start = 8%nat → length f_end = 8%nat → length pad = 2%nat →
  octets ex → length ex = 4%nat → length len = 2%nat → length res = 2%nat →
  vlen trailer = record_header_len session - 36 →
  let bytes := pre ++ f_id ++ f_start ++ f_end ++ [tag] ++ [fl] ++ pad ++ ex ++ len ++ res
               ++ trailer ++ tail in
  frame_sized bytes →
  record_read session bytes (vlen pre)
  = record_parse session (vlen pre) f_id f_start f_end tag fl pad ex len res trailer tail.
Proof.
  intros H1 H2 H3 H4 Hex H5 H6 H7 H8 bytes HP.
  assert (36 ≤ record_header_len session) as Hh by (destruct session; done).
  assert (vlen bytes = vlen pre + record_header_len session + vlen tail) as Hlen.
  { subst bytes. rewrite !length_app, H1, H2, H3, H4, H5, H6, H7. cbn [length]. lia. }
  unfold record_read, record_parse.
  rewrite checked_add_small by (unfold frame_sized, MAX_FRAME_PAYLOAD, usize_max, u64_max in *; lia).
  cbn [ok_or ok try_]. rewrite (proj2 (N.ltb_ge _ _)) by lia.
  subst bytes. rewrite le_at_shift0, !vget_shift, !le_at_shift, !vslice_shift by done.
  wire_read. rewrite vslice_high by done. wire_read. rewrite from_le_drop by done.
  change (256 ^ N.of_nat 2) with 65536. destruct (flags_bad fl || _ || _); [done|].
  destruct (_ || (_ <? from_le len) || _) eqn:Hl; [done|]. to_prop.
  set (h := pre ++ f_id ++ f_start ++ f_end ++ [tag] ++ [fl] ++ pad ++ ex ++ len ++ res ++ trailer).
  replace (pre ++ f_id ++ f_start ++ f_end ++ [tag] ++ [fl] ++ pad ++ ex ++ len ++ res ++ trailer ++ tail)
    with (h ++ tail) in * by (subst h; by rewrite <-!(assoc_L (++))).
  assert (vlen pre + record_header_len session = vlen h) as Hat.
  { subst h. rewrite !length_app, H1, H2, H3, H4, H5, H6, H7. cbn [length]. lia. }
  assert (∀ st : BlockScope * BlockTrust, _) as Hcmd by
    exact (λ st, command_slice h tail (vlen pre + record_header_len session) (from_le len)
      (λ command command_end, match from_utf8 command with
        | None => err MalformedPayload
        | Some _ =>
          let? es := Some (decoded_state tag (from_le f_end) (from_le f_start) (bits_i32 (from_le ex))) in
          if (from_le f_id =? 0) || (from_le f_start =? 0) then err MalformedPayload else
          ok (mkCommandBlock (from_le f_id) command (from_le f_start) es.1 es.2 fl st.1 st.2, command_end)
        end) Hat ltac:(done) HP).
  destruct session; cbn [record_header_len] in *.
  - rewrite (vslice_head trailer tail 4 4) by lia. cbn [mbind option_bind].
    destruct (decode_scope_trust trailer) as [[st|]|]; [apply (Hcmd st)|done..].
  - apply (Hcmd (BS_Local, BT_LocalTrusted)).
Qed.

Lemma encoded_end_fits r : state_ok r → fits 8 (default 0 (cb_end_line r)).
Proof.
  unfold state_ok. destruct (cb_state r) as [|[]], (cb_end_line r); cbn; intros; destruct_and?;
    try done; apply fits_0.
Qed.

Lemma div_ltb a b : 0 < b → (a / b =? 0) = (a <? b).
Proof.
  intros Hb. apply eq_true_iff_eq. rewrite N.eqb_eq, N.ltb_lt. apply N.div_small_iff. lia.
Qed.

(** A record that was written is read back if its exit status is kept, else refused. *)
Lemma record_read_back session pre r rest :
  record_sendable session r → frame_sized (pre ++ record_encode session r ++ rest) →
  record_read session (pre ++ record_encode session r ++ rest) (vlen pre)
  = if exit_kept r then ok (r, vlen pre + vlen (record_encode session r)) else err MalformedPayload.
Proof.
  intros [[Hid Hidz] [Hst Hstz] Hstate [Hfl Hflb] [Hcmd [t Ht]] Hsent] HP.
  rewrite length_record. unfold record_encode in *. rewrite <-!(assoc_L (++)) in *.
  unfold record_refused in Hsent. to_prop. unfold MAX_COMPOSER_COMMAND_BYTES in *.
  assert (fits 2 (vlen (cb_command r))) as Hlen.
  { unfold fits. change (256 ^ N.of_nat 2) with 65536. lia. }
  pose proof (encoded_end_fits r Hstate) as Hend.
  rewrite record_read_parse by first [done | apply length_to_le | apply to_le_bytes | by destruct session].
  unfold record_parse. rewrite !from_le_to_le by eauto using i32_bits_fits with wire.
  rewrite Hflb, bool_decide_eq_true_2, div_ltb by done. fold (exit_kept r). cbn [negb orb].
  destruct (exit_kept r); [|done]. cbn [negb]. unfold MAX_COMPOSER_COMMAND_BYTES.
  rewrite (proj2 (N.eqb_neq _ _)), (proj2 (N.ltb_ge _ _)) by lia. cbn [negb orb N.eqb].
  rewrite (proj2 (N.ltb_ge _ _)) by (rewrite length_app; lia).
  rewrite Nat2N.id, take_app_length, Ht, bits_i32_bits, decoded_encoded_state
    by eauto using encoded_exit_range.
  rewrite (proj2 (N.eqb_neq _ _) Hidz), (proj2 (N.eqb_neq _ _) Hstz).
  destruct r as [id cmd st en state fl scope trust]; cbn in *.
  destruct session; cbn [record_header_len try_ ok orb].
  - rewrite decode_encode_scope_trust. cbn. by rewrite <-N.add_assoc.
  - destruct scope, trust; cbn; first [by rewrite <-N.add_assoc | by destruct_or?].
Qed.

Definition record_ok (session : bool) (r : CommandBlock) : Prop :=
  record_sendable session r ∧ exit_kept r = true.

(** All of a timeline's records, or the refusal of the first status that is not kept. *)
Lemma records_read_back session pre rs :
  Forall (record_sendable session) rs → frame_sized (pre ++ enc_all (record_encode session) rs) →
  read_n (record_read session (pre ++ enc_all (record_encode session) rs)) (length rs) (vlen pre)
  = if forallb exit_kept rs then ok (rs, vlen pre + vlen (enc_all (record_encode session) rs))
    else err MalformedPayload.
Proof.
  intros Hrs. revert pre. induction Hrs as [|r rs Hr Hrs IH]; intros pre HP.
  { cbn. unfold ok. do 3 f_equal. lia. }
  change (enc_all (record_encode session) (r :: rs))
    with (record_encode session r ++ enc_all (record_encode session) rs) in *.
  cbn [read_n length forallb]. rewrite record_read_back by done.
  destruct (exit_kept r); [|done]. cbn [try_ ok fst snd andb].
  specialize (IH (pre ++ record_encode session r)).
  rewrite <-!(assoc_L (++)), length_app, Nat2N.inj_add in IH. rewrite IH by done.
  destruct (forallb exit_kept rs); [|done]. cbn [try_ ok fst snd].
  rewrite !length_app. unfold ok. do 3 f_equal. lia.
Qed.

(** The last two bytes of an exit status are zero exactly below 65536. *)
Lemma small_exit ex : octets ex → length ex = 4%nat → from_le ex / 65536 = 0 →
  (- 2 ^ 31 ≤ bits_i32 (from_le ex) < 2 ^ 31)%Z ∧ i32_bits (bits_i32 (from_le ex)) = from_le ex
  ∧ (from_le ex <? 65536) = true.
Proof.
  intros Ho Hl Hd. split; [apply bits_i32_range; eauto with wire|].
  split; [apply i32_bits_i32; eauto with wire|]. by rewrite <-div_ltb, Hd.
Qed.

Lemma decoded_state_inv tag end_raw start exit en st :
  decoded_state tag end_raw start exit = Ok (en, st) →
  encoded_state st = (tag, exit) ∧ default 0 en = end_raw ∧
  match st, en with
  | CBS_Running, None => True
  | CBS_Completed (Some z), Some e => start ≤ e ∧ e = end_raw ∧ z = exit
  | CBS_Completed None, Some e => start ≤ e ∧ e = end_raw
  | _, _ => False
  end.
Proof.
  unfold decoded_state. intros H.
  destruct ((tag =? 0) && _ && _) eqn:E0.
  { simplify_eq. to_prop. subst. apply Z.eqb_eq in H0. by subst. }
  destruct ((tag =? 1) && _) eqn:E1; [simplify_eq; to_prop; by subst|].
  destruct ((tag =? 2) && _ && _) eqn:E2; [|done].
  simplify_eq. to_prop. apply Z.eqb_eq in H0. by subst.
Qed.

Lemma decode_scope_trust_spec s :
  octets s → ∃ r, decode_scope_trust s = Some r ∧ ∀ st, r = Ok st → encode_scope_trust st.1 st.2 = s.
Proof.
  intros Hs. unfold decode_scope_trust. destruct (vlen s =? 4) eqn:Hl; cbn [negb]; [|wire_case].
  apply N.eqb_eq in Hl. destruct s as [|b0 [|b1 [|b2 [|b3 [|]]]]]; cbn [length] in Hl; try lia. clear Hl.
  change [b0; b1; b2; b3] with ([b0] ++ [b1] ++ [b2] ++ [b3] ++ []). wire_read.
  wire_case; [wire_case|]. wire_case; [|wire_case]. wire_case; [|wire_case]. wire_case.
  to_prop. by subst.
Qed.

Section parse.
Context (session : bool) (f_id f_start f_end : list N) (tag fl : N) (pad ex len res trailer tail : list N).
Context (H1 : octets f_id) (H1' : length f_id = 8%nat) (H2 : octets f_start) (H2' : length f_start = 8%nat).
Context (H3 : octets f_end) (H3' : length f_end = 8%nat) (Hfl : fl < 256).
Context (H4 : octets ex) (H4' : length ex = 4%nat) (H5 : octets len) (H5' : length len = 2%nat).
Context (H6 : octets res) (H6' : length res = 2%nat) (H7 : octets trailer) (H8 : octets tail).
Context (H7' : length trailer = N.to_nat (record_header_len session - 36)).

(** The trailer as the session schema writes it; the legacy schema has none. *)
Lemma trailer_cases :
  ∃ r, (if session then decode_scope_trust trailer else ok (BS_Local, BT_LocalTrusted)) = Some r ∧
  ∀ sc tr, r = Ok (sc, tr) → trailer = (if session then encode_scope_trust sc tr else []) ∧
    (session = false → sc = BS_Local ∧ tr = BT_LocalTrusted).
Proof.
  destruct session.
  - destruct (decode_scope_trust_spec trailer H7) as (r & -> & Hr). exists r. split; [done|].
    intros sc tr Hst. split; [|done]. symmetry. apply (Hr (sc, tr) Hst).
  - eexists. split; [done|]. intros sc tr [= <- <-]. split; [|done]. by apply nil_length_inv.
Qed.

Lemma record_parse_spec at_ :
  ∃ r, record_parse session at_ f_id f_start f_end tag fl pad ex len res trailer tail = Some r ∧
  ∀ a off, r = Ok (a, off) → record_ok session a ∧
    (∃ rest, f_id ++ f_start ++ f_end ++ [tag] ++ [fl] ++ pad ++ ex ++ len ++ res ++ trailer ++ tail
             = record_encode session a ++ rest) ∧
    off = at_ + vlen (record_encode session a).
Proof.
  unfold record_parse.
  destruct (flags_bad fl || _ || _) eqn:E1; [by eexists; split; [|intros ? ? [=]]|].
  destruct (_ || (_ <? from_le len) || _) eqn:E2; [by eexists; split; [|intros ? ? [=]]|].
  destruct trailer_cases as (r & -> & Htr).
  destruct r as [[sc tr]|e]; cbn [try_]; [|by eexists; split; [|intros ? ? [=]]].
  destruct (vlen tail <? from_le len) eqn:E3; [by eexists; split; [|intros ? ? [=]]|].
  destruct (from_utf8 _) as [t|] eqn:E4; [|by eexists; split; [|intros ? ? [=]]].
  destruct (decoded_state _ _ _ _) as [[en sta]|e] eqn:E5; cbn [try_]; [|by eexists; split; [|intros ? ? [=]]].
  destruct ((from_le f_id =? 0) || _) eqn:E6; [by eexists; split; [|intros ? ? [=]]|].
  eexists. split; [done|]. intros a off [= <- <-].
  destruct (Htr sc tr eq_refl) as [Htrailer Hloc]. clear Htr.
  apply orb_false_iff in E1 as [[Hfb Hpad%negb_false_iff%bool_decide_eq_true_1]%orb_false_iff E1%negb_false_iff%N.eqb_eq].
  apply orb_false_iff in E2 as [[Hl0%N.eqb_neq Hlm%N.ltb_ge]%orb_false_iff Hres%negb_false_iff%N.eqb_eq].
  apply orb_false_iff in E6 as [Hid%N.eqb_neq Hst0%N.eqb_neq]. apply N.ltb_ge in E3.
  destruct (small_exit ex H4 H4') as (Hex & Hex' & Hkept); [done|].
  destruct (decoded_state_inv _ _ _ _ _ _ E5) as (Henc & Hdef & Hst).
  set (command := take (N.to_nat (from_le len)) tail) in *.
  assert (vlen command = from_le len) as Hclen by (subst command; rewrite length_take; lia).
  split_and!.
  - split; [|by unfold exit_kept; cbn; rewrite Henc; cbn; rewrite Hex'].
    split; cbn; [by eauto with wire| by eauto with wire | | done | |].
    + unfold state_ok. cbn. destruct sta as [|[z|]], en as [e|]; cbn in *; destruct_and?; subst; eauto with wire.
    + split; [|by eexists]. by apply Forall_take.
    + unfold record_refused. cbn. rewrite Hclen. rewrite (proj2 (N.eqb_neq _ _)), (proj2 (N.ltb_ge _ _)) by done.
      destruct session; [done|]. by destruct Hloc as [-> ->].
  - exists (drop (N.to_nat (from_le len)) tail). unfold record_encode. cbn [cb_id cb_start_line cb_end_line cb_state cb_flags cb_scope cb_trust cb_command].
    rewrite Henc, Hdef, Hclen. cbn [fst snd]. rewrite Hex', !to_le_from_le by done.
    rewrite <-!(assoc_L (++)). subst command. rewrite take_drop, <-Htrailer, Hpad.
    do 8 f_equal. rewrite <-(to_le_from_le 2 res) by done. by rewrite Hres.
  - rewrite length_record. cbn [cb_command]. lia.
Qed.
End parse.

Lemma record_reads_exactly session :
  reads_exactly (record_read session) (record_encode session) (record_ok session) 0 frame_sized.
Proof.
  intros pre body Hb HP _. unfold frame_sized in HP.
  destruct (header_cases body (record_header_len session)) as [Hlt|[Hlt (h & tail & -> & Hh)]].
  { unfold record_read. to_prop. rewrite length_app in *.
    rewrite checked_add_small by (unfold MAX_FRAME_PAYLOAD, usize_max, u64_max in *; destruct session; cbn; lia).
    cbn [ok_or ok try_]. rewrite (proj2 (N.ltb_lt _ _)) by lia.
    eexists. split; [done|]. by intros ? ? [=]. }
  apply octets_app in Hb as [Hbh Hbt].
  destruct (cut_field h 36 (N.to_nat (record_header_len session - 36))) as (h' & trailer & -> & Hh' & Htr).
  { rewrite Hh. by destruct session. }
  apply octets_app in Hbh as [Hbh Hbtr]. clear Hh Hlt. revert Hh' Hbh.
  wire_cut [8; 8; 8; 1; 1; 2; 4; 2; 2]%nat. rewrite <-!(assoc_L (++)) in *.
  rewrite record_read_parse by (done || lia).
  destruct (record_parse_spec session s s0 s1 b b0 s2 s3 s4 z trailer tail) with (at_ := vlen pre)
    as (r & Hr1 & Hr2); try done.
  exists r. split; [done|]. intros a off Ha. destruct (Hr2 a off Ha) as (Hok & (rest & Hrest) & Hoff).
  split; [done|]. by exists rest.
Qed.

(** * Encoding succeeds exactly within the limits *)

Lemma encode_records_ok session out rs :
  Forall (record_sendable session) rs →
  vlen out + vlen (enc_all (record_encode session) rs) ≤ MAX_FRAME_PAYLOAD →
  encode_records session out rs = Ok (out ++ enc_all (record_encode session) rs).
Proof.
  intros Hrs. revert out. induction Hrs as [|r rs Hr Hrs IH]; intros out Hlen.
  { cbn. by rewrite app_nil_r. }
  change (enc_all (record_encode session) (r :: rs))
    with (record_encode session r ++ enc_all (record_encode session) rs) in *.
  destruct Hr as [_ _ _ [_ Hfb] _ Hsent]. cbn [encode_records]. rewrite Hsent, Hfb.
  rewrite length_app in Hlen. rewrite (proj2 (N.ltb_ge _ _)) by (rewrite length_app; lia).
  rewrite IH by (rewrite length_app; lia). by rewrite (assoc_L (++)).
Qed.

Lemma timeline_try_encode_ok session m :
  timeline_sendable session m →
  timeline_try_encode session m
  = Ok (timeline_header session m ++ enc_all (record_encode session) (bt_records m)).
Proof.
  intros [Hrev Hc Hrs Hsize]. unfold timeline_try_encode.
  rewrite (proj2 (N.ltb_ge _ _) Hc). apply encode_records_ok; [done|].
  unfold timeline_header. rewrite !length_app, !length_to_le. lia.
Qed.

(** What a receiver makes of a timeline a sender wrote. *)
Lemma timeline_decode_sent session m :
  timeline_sendable session m →
  timeline_decode session (timeline_header session m ++ enc_all (record_encode session) (bt_records m))
  = if forallb exit_kept (bt_records m) then ok m else err MalformedPayload.
Proof.
  intros [Hrev Hc Hrs Hsize]. unfold timeline_decode, timeline_header.
  assert (fits 2 (vlen (bt_records m))) as Hf.
  { unfold fits, MAX_COMMAND_BLOCK_RECORDS in *. change (256 ^ N.of_nat 2) with 65536. lia. }
  rewrite <-!(assoc_L (++)).
  set (bytes := to_le 8 (bt_revision m) ++ _).
  assert (vlen bytes = 16 + vlen (enc_all (record_encode session) (bt_records m))) as Hlen.
  { subst bytes. rewrite !length_app, !length_to_le. lia. }
  rewrite (proj2 (N.ltb_ge _ _)), (proj2 (N.ltb_ge _ _)) by lia.
  assert (bytes = timeline_header session m ++ enc_all (record_encode session) (bt_records m)) as Hb.
  { subst bytes. unfold timeline_header. by rewrite <-!(assoc_L (++)). }
  pose proof (records_read_back session (timeline_header session m) (bt_records m) Hrs) as Hread.
  unfold frame_sized in Hread. rewrite <-Hb, Hlen in Hread. specialize (Hread Hsize).
  replace (vlen (timeline_header session m)) with 16 in Hread
    by (unfold timeline_header; by rewrite !length_app, !length_to_le).
  generalize dependent (read_n (record_read session bytes)). intros rd Hread.
  subst bytes. wire_read. rewrite !from_le_to_le by (destruct session; eauto with wire).
  rewrite N.eqb_refl, (proj2 (N.ltb_ge _ _) Hc), Nat2N.id, Hread. cbn [negb orb N.eqb].
  destruct (forallb _ _); [|done]. cbn [try_ ok fst snd].
  rewrite (proj2 (N.eqb_eq _ _)) by (rewrite !length_app, !length_to_le; lia).
  by destruct m.
Qed.

(** * Decoding any input *)

Lemma timeline_decode_exact session p :
  octets p → ∃ r, timeline_decode session p = Some r ∧
    ∀ m, r = Ok m → timeline_ok session m ∧ timeline_try_encode session m = Ok p.
Proof.
  intros Hp. unfold timeline_decode. destruct (MAX_FRAME_PAYLOAD <? vlen p) eqn:Hmax; [wire_case|].
  destruct (header_cases p 16) as [Hlt|[Hlt (h & body & -> & Hh)]]; rewrite Hlt; [wire_case|].
  apply octets_app in Hp as [Hph Hb]. revert Hh Hph. wire_cut [8; 2; 2; 4]%nat. rewrite <-!(assoc_L (++)) in *.
  wire_read. wire_case; [wire_case|]. to_prop.
  destruct (read_n_exact (record_read session) (record_encode session) (record_ok session) 0 frame_sized
    (N.to_nat (from_le s0)) (s ++ s0 ++ s1 ++ z) body) as (r & Hr1 & Hr2);
    [apply record_reads_exactly|by left|done|by unfold frame_sized; rewrite <-!(assoc_L (++))|lia|].
  rewrite <-!(assoc_L (++)), !length_app, Hs, Hs0, Hs1, Hl in Hr1.
  change (N.of_nat (8 + (2 + (2 + 4)))) with 16 in Hr1. rewrite Hr1.
  destruct r as [[l off]|e]; cbn [try_]; [|wire_case]. cbn [fst snd].
  destruct (Hr2 _ _ eq_refl) as (Hcount & Hg & rest & -> & ->). wire_case; [wire_case|]. wire_case.
  to_prop. rewrite !length_app, Hs, Hs0, Hs1, Hl in *.
  assert (length rest = O) as ->%nil_length_inv by lia. rewrite app_nil_r in *.
  apply Forall_and in Hg as [Hg Hkept]. assert (forallb exit_kept l = true) as Hk.
  { apply forallb_forall. intros x Hx. by eapply (proj1 (Forall_forall _ _) Hkept), list_elem_of_In. }
  assert (timeline_sendable session (mkBlockTimeline (from_le s) l)) as Hsend.
  { split; cbn [bt_revision bt_records]; [by eauto with wire|lia|done|].
    cbn [length] in Hmax. lia. }
  split; [done|]. rewrite timeline_try_encode_ok by done. unfold timeline_header. cbn [bt_revision bt_records].
  replace (vlen l) with (from_le s0) by lia.
  rewrite <-H, <-H1, !to_le_from_le, <-!(assoc_L (++)) by done. done.
Qed.

#[global] Instance BlockTimeline_format : WireFormat BlockTimeline := {|
  encode m := default [] (timeline_encode m); decode := timeline_decode false;
  wire_ok := timeline_ok false |}.

Lemma BlockTimeline_encode_sent m :
  timeline_sendable false m →
  encode m = timeline_header false m ++ enc_all (record_encode false) (bt_records m).
Proof.
  intros Hm. cbn [encode BlockTimeline_format]. unfold timeline_encode.
  by rewrite timeline_try_encode_ok.
Qed.

Lemma BlockTimeline_exact : decoder_exact BlockTimeline.
Proof.
  intros p Hp. destruct (timeline_decode_exact false p Hp) as (r & Hr & Hok).
  exists r. split; [done|]. intros m Hm. destruct (Hok m Hm) as [Hm' He]. split; [done|].
  cbn [encode BlockTimeline_format]. unfold timeline_encode. by rewrite He.
Qed.

Lemma record_octets session r : record_sendable session r → octets (record_encode session r).
Proof.
  intros [_ _ Hs [Hfl _] [Hc _] _]. unfold record_encode, encode_scope_trust. rewrite !octets_app.
  split_and!; eauto with wire.
  - destruct (cb_state r) as [|[]]; by repeat constructor.
  - destruct session; [|constructor]. repeat (constructor; [by eauto with wire|]). constructor.
Qed.

#[global] Instance BlockTimeline_laws : WireLaws BlockTimeline.
Proof.
  apply exact_laws; [| |exact BlockTimeline_exact]; intros m [Hm Hk].
  - rewrite BlockTimeline_encode_sent by done. apply octets_app. split.
    + unfold timeline_header. wire_bytes.
    + destruct Hm. eapply octets_enc_all; [|done]. apply record_octets.
  - rewrite BlockTimeline_encode_sent by done. cbn [decode BlockTimeline_format].
    by rewrite timeline_decode_sent, Hk.
Qed.
#[global] Instance BlockTimeline_canonical : WireCanonical BlockTimeline.
Proof. exact (exact_canonical BlockTimeline_exact). Qed.
