(* ===== verification/WireHistory.v ===== *)
(** History-range snapshots, [crates/seyal-protocol/src/pass7/history.rs]: packing of cells and
    their sidecar, admission under the budgets, encoding and decoding. *)

From S2P Require Import Prelude Utf8 Wire WirePane WireControl WireText.

Implicit Types (bytes body pre rest p q s sidecar : list N).

Definition MAX_HISTORY_RANGE_BYTES : N := 196608.
Definition MAX_HISTORY_SIDECAR_BYTES : N := 65536.
Definition MAX_HISTORY_GRAPHEME_BYTES : N := 8192.
Definition HISTORY_CELL_CONTINUATION_FLAG : N := 8.
Definition HISTORY_CELL_WIDTH_SHIFT : N := 4.
Definition HISTORY_CELL_WIDTH_MASK : N := 48.
Definition HISTORY_CELL_SIDECAR_FLAG : N := 128.

Inductive HistoryRangeStatus :=
  | HRS_Complete | HRS_Truncated | HRS_Stale | HRS_Unsupported.
Definition HistoryRangeStatus_tag (x : HistoryRangeStatus) : N :=
  match x with
  | HRS_Complete => 0 | HRS_Truncated => 1 | HRS_Stale => 2 | HRS_Unsupported => 3 end.
Definition HistoryRangeStatus_from_u8 (value : N) : W HistoryRangeStatus :=
  match value with
  | 0 => ok HRS_Complete | 1 => ok HRS_Truncated | 2 => ok HRS_Stale | 3 => ok HRS_Unsupported |
  _ => err MalformedPayload end.
#[global] Instance HistoryRangeStatus_reader : TagReader HistoryRangeStatus_from_u8 HistoryRangeStatus_tag.
Proof. solve_tag_reader. Qed.

Record HistoryCell := mkHistoryCell {
  hc_scalar : N; hc_foreground : N; hc_background : N; hc_flags : N; hc_reserved : N }.

Record HistoryRow := mkHistoryRow { hw_line_id : N; hw_cells : list HistoryCell }.

Record HistoryRangeSnapshot := mkSnapshot {
  hn_request_id : N; hn_block_id : N; hn_revision : N; hn_status : HistoryRangeStatus;
  hn_rows : list HistoryRow; hn_sidecar : list N }.

Record HistorySourceCell := mkSourceCell {
  sc_text : list N; sc_width : N; sc_continuation : bool; sc_foreground : N; sc_background : N;
  sc_style_flags : N }.

(** * Cells *)

(** [style_flags & !(SIDECAR_FLAG | CONTINUATION_FLAG | WIDTH_MASK)] at 16 bits. *)
Definition style_only (style_flags : N) : N := N.land style_flags 65351.

(** [HistoryCell::from_text]: the cell and the sidecar after the call. *)
Definition from_text (text : list N) (foreground background style_flags : N) (sidecar : list N)
    : result FramingError (HistoryCell * list N) :=
  let style_flags := style_only style_flags in
  match text with
  | [] => Ok (mkHistoryCell 0 foreground background style_flags 0, sidecar)
  | _ =>
    match from_utf8 text with
    | Some (scalar :: scalars) =>
      let multi := negb (bool_decide (scalars = [])) || negb (vlen text =? len_utf8 scalar) in
      if negb multi then Ok (mkHistoryCell scalar foreground background style_flags 0, sidecar) else
      if (MAX_HISTORY_GRAPHEME_BYTES <? vlen text)
         || (MAX_HISTORY_SIDECAR_BYTES <? sat_add usize_max (sat_add usize_max (vlen sidecar) 2) (vlen text))
         || (u16_max <? vlen sidecar)
      then Err OversizedPayload else
      Ok (mkHistoryCell scalar foreground background (N.lor style_flags HISTORY_CELL_SIDECAR_FLAG)
            (vlen sidecar mod 65536),
          sidecar ++ to_le 2 (vlen text) ++ text)
    | _ => Err MalformedPayload
    end
  end.

Definition has_sidecar (c : HistoryCell) : bool :=
  negb (N.land (hc_flags c) HISTORY_CELL_SIDECAR_FLAG =? 0).

Definition sidecar_utf8 (c : HistoryCell) (sidecar : list N) : W (option (list N)) :=
  if negb (has_sidecar c) then
    if negb (hc_reserved c =? 0) then err MalformedPayload else ok None
  else
  let start := hc_reserved c in
  let? len_end := ok_or MalformedPayload (checked_add usize_max start 2) in
  if vlen sidecar <? len_end then err MalformedPayload else
  len ← le_at sidecar start len_end;
  if (len =? 0) || (MAX_HISTORY_GRAPHEME_BYTES <? len) then err MalformedPayload else
  let? end_ := ok_or MalformedPayload (checked_add usize_max len_end len) in
  let? bytes := ok_or MalformedPayload (vslice sidecar len_end end_) in
  match from_utf8 bytes with Some _ => ok (Some bytes) | None => err MalformedPayload end.

(** [flags & !(CONTINUATION_FLAG | WIDTH_MASK)] at 16 bits. *)
Definition with_cell_metrics (c : HistoryCell) (width : N) (continuation : bool) : HistoryCell :=
  let cleared := N.land (hc_flags c) 65479 in
  let fl :=
    if continuation then N.lor cleared HISTORY_CELL_CONTINUATION_FLAG
    else N.lor cleared (N.shiftl (N.max 1 (N.min width 3)) HISTORY_CELL_WIDTH_SHIFT) in
  mkHistoryCell (hc_scalar c) (hc_foreground c) (hc_background c) fl (hc_reserved c).

Definition history_is_continuation (c : HistoryCell) : bool :=
  negb (N.land (hc_flags c) HISTORY_CELL_CONTINUATION_FLAG =? 0).

Definition cell_width (c : HistoryCell) : N :=
  N.shiftr (N.land (hc_flags c) HISTORY_CELL_WIDTH_MASK) HISTORY_CELL_WIDTH_SHIFT.

(** * Packing the rows of a reply *)

(** The wire cell of one source cell; [None] is the [Err] of [from_text]. *)
Definition pack_cell (c : HistorySourceCell) (sidecar : list N) : option (HistoryCell * list N) :=
  if sc_continuation c then
    Some (with_cell_metrics
            (mkHistoryCell 0 (sc_foreground c) (sc_background c) (style_only (sc_style_flags c)) 0)
            (sc_width c) true, sidecar)
  else match from_text (sc_text c) (sc_foreground c) (sc_background c) (sc_style_flags c) sidecar with
       | Ok (packed, sidecar) => Some (with_cell_metrics packed (sc_width c) false, sidecar)
       | Err _ => None
       end.

(** The inner loop: the packed cells, the sidecar, and whether it broke off. *)
Fixpoint pack_cells (cells : list HistorySourceCell) (sidecar : list N)
    : list HistoryCell * list N * bool :=
  match cells with
  | [] => ([], sidecar, false)
  | c :: cells =>
    match pack_cell c sidecar with
    | None => ([], sidecar, true)
    | Some (packed, sidecar) =>
      let '(rest, sidecar, truncated) := pack_cells cells sidecar in (packed :: rest, sidecar, truncated)
    end
  end.

Fixpoint pack_rows (rows : list (N * list HistorySourceCell)) (sidecar : list N)
    : list HistoryRow * list N * bool :=
  match rows with
  | [] => ([], sidecar, false)
  | (line_id, cells) :: rows =>
    let '(wire_cells, sidecar, pack_truncated) := pack_cells cells sidecar in
    let here := if bool_decide (wire_cells = []) then [] else [mkHistoryRow line_id wire_cells] in
    if pack_truncated then (here, sidecar, true)
    else let '(rest, sidecar, truncated) := pack_rows rows sidecar in (here ++ rest, sidecar, truncated)
  end.

Definition pack_source_rows (rows : list (N * list HistorySourceCell))
    : list HistoryRow * list N * bool := pack_rows rows [].

(** * Admission *)

Definition encoded_len (r : HistoryRow) : N :=
  sat_add usize_max 16 (sat_mul usize_max (vlen (hw_cells r)) 16).

(** The loop of [admit_rows]; [out] is how many rows were admitted so far. *)
Fixpoint admit_loop (rows : list HistoryRow) (max_lines out cell_budget used : N)
    : list HistoryRow * bool :=
  match rows with
  | [] => ([], false)
  | row :: rows =>
    if (max_lines =? 0) || (max_lines <=? out) then ([], true) else
    if cell_budget <? vlen (hw_cells row) then ([], true) else
    if N.min MAX_HISTORY_RANGE_BYTES MAX_FRAME_PAYLOAD <? sat_add usize_max used (encoded_len row)
    then ([], true) else
    let '(rest, truncated) :=
      admit_loop rows max_lines (out + 1) (cell_budget - vlen (hw_cells row))
        (sat_add usize_max used (encoded_len row)) in
    (row :: rest, truncated)
  end.

Definition admit_rows (rows : list HistoryRow) (max_lines max_cells sidecar_len : N)
    : list HistoryRow * bool :=
  admit_loop rows max_lines 0 max_cells (sat_add usize_max 32 sidecar_len).

(** [rows.iter().flat_map(|row| &row.cells)]. *)
Definition all_cells (rows : list HistoryRow) : list HistoryCell := rows ≫= hw_cells.

Definition lead_count (rows : list HistoryRow) : N :=
  vlen (List.filter (λ c, negb (history_is_continuation c)) (all_cells rows)).

(** The end of the last sidecar record the cells refer to. *)
Definition sidecar_end (sidecar : list N) (end_ : N) (c : HistoryCell) : N :=
  if negb (has_sidecar c) then end_ else
  let start := hc_reserved c in
  if vlen sidecar <? start + 2 then end_ else
  match le_at sidecar start (start + 2) with
  | Some len => N.max end_ (sat_add usize_max (sat_add usize_max start 2) len)
  | None => end_
  end.

Definition trim_sidecar_to_rows (m : HistoryRangeSnapshot) : HistoryRangeSnapshot :=
  let end_ := foldl (sidecar_end (hn_sidecar m)) 0 (all_cells (hn_rows m)) in
  mkSnapshot (hn_request_id m) (hn_block_id m) (hn_revision m) (hn_status m) (hn_rows m)
    (take (N.to_nat end_) (hn_sidecar m)).

(** * Encoding *)

Definition cell_encode (c : HistoryCell) : list N :=
  to_le 4 (hc_scalar c) ++ to_le 4 (hc_foreground c) ++ to_le 4 (hc_background c)
  ++ to_le 2 (hc_flags c) ++ to_le 2 (hc_reserved c).

Definition row_encode (r : HistoryRow) : list N :=
  to_le 8 (hw_line_id r) ++ to_le 4 (vlen (hw_cells r)) ++ to_le 4 0 ++ enc_all cell_encode (hw_cells r).

(** [for cell in cells { cell.sidecar_utf8(sidecar)?; }]. *)
Fixpoint check_cells (cells : list HistoryCell) (sidecar : list N) : W unit :=
  match cells with
  | [] => ok tt
  | c :: cells => let? _ := sidecar_utf8 c sidecar in check_cells cells sidecar
  end.

Fixpoint encode_rows (out : list N) (rows : list HistoryRow) (sidecar_len : N) : W (list N) :=
  match rows with
  | [] => ok out
  | row :: rows =>
    if (hw_line_id row =? 0) || (u32_max <? vlen (hw_cells row)) then err MalformedPayload else
    let out := out ++ row_encode row in
    if (MAX_FRAME_PAYLOAD <? sat_add usize_max (vlen out) sidecar_len)
       || (MAX_HISTORY_RANGE_BYTES <? sat_add usize_max (vlen out) sidecar_len)
    then err OversizedPayload else encode_rows out rows sidecar_len
  end.

Definition total_cells (rows : list HistoryRow) : N := foldr (λ r acc, vlen (hw_cells r) + acc) 0 rows.

Definition snapshot_header (m : HistoryRangeSnapshot) : list N :=
  to_le 8 (hn_request_id m) ++ to_le 8 (hn_block_id m) ++ to_le 8 (hn_revision m)
  ++ [HistoryRangeStatus_tag (hn_status m)] ++ [0] ++ to_le 2 (vlen (hn_rows m))
  ++ to_le 4 (vlen (hn_sidecar m)).

Definition snapshot_try_encode (m : HistoryRangeSnapshot) : W (list N) :=
  if (MAX_HISTORY_RANGE_LINES <? vlen (hn_rows m)) || (MAX_HISTORY_RANGE_CELLS <? total_cells (hn_rows m))
     || (MAX_HISTORY_SIDECAR_BYTES <? vlen (hn_sidecar m)) then err OversizedPayload else
  let? _ := check_cells (all_cells (hn_rows m)) (hn_sidecar m) in
  let? out := encode_rows (snapshot_header m) (hn_rows m) (vlen (hn_sidecar m)) in
  let out := out ++ hn_sidecar m in
  if (MAX_FRAME_PAYLOAD <? vlen out) || (MAX_HISTORY_RANGE_BYTES <? vlen out) then err OversizedPayload
  else ok out.

(** [while last.cells.last().is_some_and(is_continuation) { pop }], then the pop of the
    lead: the cells kept, and whether a lead was popped. *)
Fixpoint drop_continuations (rev_cells : list HistoryCell) : list HistoryCell :=
  match rev_cells with
  | c :: rev_cells =>
    if history_is_continuation c then drop_continuations rev_cells else c :: rev_cells
  | [] => []
  end.

(** [shrink_for_encode]: [None] is the panic of [try_encode], else whether it shrank
    and the snapshot after it. *)
Definition shrink_for_encode (m : HistoryRangeSnapshot) : option (bool * HistoryRangeSnapshot) :=
  match snapshot_try_encode m with
  | None => None
  | Some (Ok _) => Some (false, m)
  | Some (Err _) =>
    match reverse (hn_rows m) with
    | [] => Some (false, m)
    | last :: before =>
      let before := reverse before in
      let rows :=
        match reverse (hw_cells last) with
        | [] => before
        | rev_cells =>
          match drop_continuations rev_cells with
          | [] | [_] => before
          | _ :: kept => before ++ [mkHistoryRow (hw_line_id last) (reverse kept)]
          end
        end in
      Some (true, trim_sidecar_to_rows
        (mkSnapshot (hn_request_id m) (hn_block_id m) (hn_revision m) HRS_Truncated rows (hn_sidecar m)))
    end
  end.

(** * Decoding *)

Definition cell_of_chunk (chunk : list N) : option HistoryCell :=
  scalar ← le_at chunk 0 4;
  foreground ← le_at chunk 4 8;
  background ← le_at chunk 8 12;
  fl ← le_at chunk 12 14;
  reserved ← le_at chunk 14 16;
  Some (mkHistoryCell scalar foreground background fl reserved).

(** [slice.as_chunks::<16>()]; every chunk takes sixteen of the at most [fuel] bytes. *)
Fixpoint as_chunks (fuel : nat) (s : list N) : list (list N) * list N :=
  match fuel with
  | O => ([], s)
  | S fuel =>
    if vlen s <? 16 then ([], s)
    else let '(chunks, remainder) := as_chunks fuel (drop 16 s) in (take 16 s :: chunks, remainder)
  end.

(** The decoder's loop: [count] rows from [offset], [total] cells read before. *)
Fixpoint read_rows (bytes : list N) (row_bytes_end : N) (count : nat) (offset total : N)
    : W (list HistoryRow * N) :=
  match count with
  | O => ok ([], offset)
  | S count =>
    let? end_ := ok_or MalformedPayload (checked_add usize_max offset 16) in
    if row_bytes_end <? end_ then err TruncatedPayload else
    line_id ← le_at bytes offset (offset + 8);
    cells ← le_at bytes (offset + 8) (offset + 12);
    pad ← vslice bytes (offset + 12) (offset + 16);
    if (line_id =? 0) || negb (bool_decide (pad = replicate 4 0)) then err MalformedPayload else
    let? total := ok_or OversizedPayload (checked_add usize_max total cells) in
    if MAX_HISTORY_RANGE_CELLS <? total then err OversizedPayload else
    let? bytes_len := ok_or OversizedPayload (checked_mul usize_max cells 16) in
    let? cells_end := ok_or OversizedPayload (checked_add usize_max end_ bytes_len) in
    if row_bytes_end <? cells_end then err TruncatedPayload else
    slice ← vslice bytes end_ cells_end;
    let '(chunks, remainder) := as_chunks (length slice) slice in
    if negb (bool_decide (remainder = [])) then err MalformedPayload else
    values ← mapM cell_of_chunk chunks;
    let? rest := read_rows bytes row_bytes_end count cells_end total in
    ok (mkHistoryRow line_id values :: rest.1, rest.2)
  end.

Definition snapshot_decode (bytes : list N) : W HistoryRangeSnapshot :=
  if (MAX_FRAME_PAYLOAD <? vlen bytes) || (MAX_HISTORY_RANGE_BYTES <? vlen bytes) then err OversizedPayload else
  if vlen bytes <? 32 then err MalformedPayload else
  pad ← vget bytes 25;
  if negb (pad =? 0) then err MalformedPayload else
  sidecar_len ← le_at bytes 28 32;
  if MAX_HISTORY_SIDECAR_BYTES <? sidecar_len then err OversizedPayload else
  let? row_bytes_end := ok_or MalformedPayload (checked_sub (vlen bytes) sidecar_len) in
  if row_bytes_end <? 32 then err TruncatedPayload else
  tag ← vget bytes 24;
  let? status := HistoryRangeStatus_from_u8 tag in
  count ← le_at bytes 26 28;
  if MAX_HISTORY_RANGE_LINES <? count then err MalformedPayload else
  let? res := read_rows bytes row_bytes_end (N.to_nat count) 32 0 in
  let? sidecar_end := ok_or MalformedPayload (checked_add usize_max res.2 sidecar_len) in
  if negb (res.2 =? row_bytes_end) || negb (sidecar_end =? vlen bytes) then err ExactLengthMismatch else
  sidecar ← vslice bytes res.2 sidecar_end;
  request_id ← le_at bytes 0 8;
  block_id ← le_at bytes 8 16;
  revision ← le_at bytes 16 24;
  let snapshot := mkSnapshot request_id block_id revision status res.1 sidecar in
  let? _ := check_cells (all_cells res.1) sidecar in
  ok snapshot.

(** * Cells and rows read back *)

Definition cell_ok (c : HistoryCell) : Prop :=
  fits 4 (hc_scalar c) ∧ fits 4 (hc_foreground c) ∧ fits 4 (hc_background c) ∧ fits 2 (hc_flags c)
  ∧ fits 2 (hc_reserved c).

Lemma length_cell c : vlen (cell_encode c) = 16.
Proof. unfold cell_encode. by rewrite !length_app, !length_to_le. Qed.

Lemma cell_of_encode c : cell_ok c → cell_of_chunk (cell_encode c) = Some c.
Proof.
  destruct c. intros (H1 & H2 & H3 & H4 & H5). cbn in *. unfold cell_of_chunk, cell_encode. cbn -[app].
  wire_read. by rewrite !from_le_to_le.
Qed.

Lemma cell_of_chunk_spec chunk :
  octets chunk → length chunk = 16%nat →
  ∃ c, cell_of_chunk chunk = Some c ∧ cell_ok c ∧ cell_encode c = chunk.
Proof.
  intros Ho Hl. revert Hl Ho. wire_cut [4; 4; 4; 2; 2]%nat. unfold cell_of_chunk. wire_read.
  eexists. split; [done|]. unfold cell_ok, cell_encode. cbn -[app].
  rewrite !to_le_from_le by done. split_and!; eauto with wire.
Qed.

Lemma as_chunks_cons fuel x s :
  length x = 16%nat → as_chunks (S fuel) (x ++ s) = let '(c, r) := as_chunks fuel s in (x :: c, r).
Proof.
  intros Hx. cbn [as_chunks]. rewrite (proj2 (N.ltb_ge _ _)) by (rewrite length_app; lia).
  rewrite drop_app_length', take_app_length' by done. done.
Qed.

Lemma as_chunks_nil fuel : as_chunks fuel [] = ([], []).
Proof. by destruct fuel. Qed.

Lemma chunks_of_cells cells fuel :
  Forall cell_ok cells → (length cells ≤ fuel)%nat →
  ∃ chunks, as_chunks fuel (enc_all cell_encode cells) = (chunks, []) ∧ mapM cell_of_chunk chunks = Some cells.
Proof.
  intros Hc. revert fuel. induction Hc as [|c cells Hc Hcs IH]; intros fuel Hf.
  { exists []. by rewrite as_chunks_nil. }
  destruct fuel as [|fuel]; [cbn in Hf; lia|]. destruct (IH fuel) as (chunks & H1 & H2); [cbn in Hf; lia|].
  exists (cell_encode c :: chunks). change (enc_all cell_encode (c :: cells)) with (cell_encode c ++ enc_all cell_encode cells).
  pose proof (length_cell c). rewrite as_chunks_cons by lia. rewrite H1. split; [done|].
  cbn. rewrite cell_of_encode by done. cbn. by rewrite H2.
Qed.

Lemma cells_of_chunks n slice fuel :
  octets slice → length slice = (16 * n)%nat → (n ≤ fuel)%nat →
  ∃ chunks cells, as_chunks fuel slice = (chunks, []) ∧ mapM cell_of_chunk chunks = Some cells ∧
    Forall cell_ok cells ∧ length cells = n ∧ enc_all cell_encode cells = slice.
Proof.
  revert slice fuel. induction n as [|n IH]; intros slice fuel Ho Hl Hf.
  { assert (slice = []) as -> by (apply nil_length_inv; lia). rewrite as_chunks_nil. by exists [], []. }
  destruct fuel as [|fuel]; [lia|].
  destruct (cut_field slice 16 (16 * n)) as (x & y & -> & Hx & Hy); [lia|].
  apply octets_app in Ho as [Hox Hoy]. destruct (IH y fuel Hoy Hy) as (chunks & cells & H1 & H2 & H3 & H4 & H5); [lia|].
  destruct (cell_of_chunk_spec x Hox Hx) as (c & Hc & Hcok & Hce).
  exists (x :: chunks), (c :: cells). rewrite as_chunks_cons, H1 by done.
  split_and!; [done| |by constructor|by cbn; rewrite H4|].
  - cbn. rewrite Hc. cbn. by rewrite H2.
  - change (cell_encode c ++ enc_all cell_encode cells = x ++ y). by rewrite Hce, H5.
Qed.

Definition row_ok (r : HistoryRow) : Prop :=
  fits 8 (hw_line_id r) ∧ hw_line_id r ≠ 0 ∧ Forall cell_ok (hw_cells r).

Lemma length_row r : vlen (row_encode r) = 16 + 16 * vlen (hw_cells r).
Proof.
  unfold row_encode. rewrite !length_app, !length_to_le.
  pose proof (length_enc_all cell_encode 16 (hw_cells r) length_cell). lia.
Qed.

Lemma row_fields r s :
  fits 8 (hw_line_id r) → vlen (hw_cells r) < 2 ^ 32 →
  le_at (row_encode r ++ s) 0 8 = Some (hw_line_id r) ∧
  le_at (row_encode r ++ s) 8 12 = Some (vlen (hw_cells r)) ∧
  vslice (row_encode r ++ s) 12 16 = Some (replicate 4 0).
Proof.
  intros Hid Hn. unfold row_encode. rewrite <-!(assoc_L (++)). wire_read.
  rewrite !from_le_to_le by done. done.
Qed.

Lemma row_cells pre r s :
  vslice (pre ++ row_encode r ++ s) (vlen pre + 16) (vlen pre + 16 + vlen (hw_cells r) * 16)
  = Some (enc_all cell_encode (hw_cells r)).
Proof.
  unfold row_encode. rewrite <-!(assoc_L (++)).
  rewrite (assoc_L (++) pre), (assoc_L (++) (pre ++ _)), (assoc_L (++) ((pre ++ _) ++ _)).
  pose proof (length_enc_all cell_encode 16 (hw_cells r) length_cell) as Hlc.
  rewrite vslice_shift0 by (rewrite !length_app, !length_to_le; lia).
  by eapply vslice_head; [reflexivity|lia].
Qed.

Lemma read_rows_back rows pre rest total :
  Forall row_ok rows → total + total_cells rows ≤ MAX_HISTORY_RANGE_CELLS →
  vlen (pre ++ enc_all row_encode rows ++ rest) ≤ MAX_HISTORY_RANGE_BYTES →
  read_rows (pre ++ enc_all row_encode rows ++ rest) (vlen pre + vlen (enc_all row_encode rows))
    (length rows) (vlen pre) total
  = ok (rows, vlen pre + vlen (enc_all row_encode rows)).
Proof.
  intros Hr. revert pre total. induction Hr as [|r rows (Hid & Hz & Hcs) Hrs IH]; intros pre total Ht Hlen.
  { cbn. unfold ok. do 3 f_equal. lia. }
  change (enc_all row_encode (r :: rows)) with (row_encode r ++ enc_all row_encode rows) in *.
  rewrite <-!(assoc_L (++)) in *. cbn [read_rows length]. cbn [total_cells foldr] in Ht.
  fold (total_cells rows) in Ht. pose proof (length_row r) as Hlr.
  unfold MAX_HISTORY_RANGE_CELLS, MAX_HISTORY_RANGE_BYTES in *.
  rewrite !length_app in *.
  rewrite checked_add_small by (unfold usize_max, u64_max; lia). cbn [ok_or ok try_].
  rewrite (proj2 (N.ltb_ge _ _)) by lia.
  rewrite le_at_shift0, le_at_shift, vslice_shift by done.
  pose proof (length_enc_all cell_encode 16 (hw_cells r) length_cell) as Hlc.
  destruct (row_fields r (enc_all row_encode rows ++ rest)) as (-> & -> & ->); [done|lia|].
  cbn [mbind option_bind]. rewrite (proj2 (N.eqb_neq _ _)) by done. cbn [orb negb].
  rewrite checked_add_small by (unfold usize_max, u64_max; lia). cbn [ok_or ok try_].
  rewrite (proj2 (N.ltb_ge _ _)) by lia.
  rewrite checked_mul_small by (unfold usize_max, u64_max; lia). cbn [ok_or ok try_].
  rewrite checked_add_small by (unfold usize_max, u64_max; lia). cbn [ok_or ok try_].
  rewrite (proj2 (N.ltb_ge _ _)) by lia.
  rewrite bool_decide_eq_true_2 by done. cbn [negb]. rewrite row_cells. cbn [mbind option_bind].
  destruct (chunks_of_cells (hw_cells r) (length (enc_all cell_encode (hw_cells r)))) as (chunks & -> & ->);
    [done|lia|]. cbn [mbind option_bind negb]. rewrite bool_decide_eq_true_2 by done. cbn [negb].
  pose proof (IH (pre ++ row_encode r) (total + vlen (hw_cells r))) as H.
  rewrite <-!(assoc_L (++)), !length_app in H.
  replace (vlen pre + 16 + vlen (hw_cells r) * 16) with (N.of_nat (length pre + length (row_encode r))) by lia.
  replace (vlen pre + N.of_nat (length (row_encode r) + length (enc_all row_encode rows)))
    with (N.of_nat (length pre + length (row_encode r)) + vlen (enc_all row_encode rows)) by lia.
  rewrite H by lia. cbn [try_ ok fst snd]. by destruct r.
Qed.

Lemma row_of_bytes s s0 cb :
  octets s → length s = 8%nat → octets s0 → length s0 = 4%nat → octets cb →
  length cb = (16 * N.to_nat (from_le s0))%nat → from_le s ≠ 0 →
  ∃ r chunks, row_encode r = s ++ s0 ++ replicate 4 0 ++ cb ∧ hw_line_id r = from_le s ∧
    vlen (hw_cells r) = from_le s0 ∧
    as_chunks (length (enc_all cell_encode (hw_cells r))) (enc_all cell_encode (hw_cells r)) = (chunks, []) ∧
    mapM cell_of_chunk chunks = Some (hw_cells r) ∧ row_ok r.
Proof.
  intros Hb Hs Hb0 Hs0 Hoc Hcb Hz.
  destruct (cells_of_chunks _ cb (length cb) Hoc Hcb) as (chunks & cells & Hch & Hmap & Hcells & Hnc & Hcb2); [lia|].
  exists (mkHistoryRow (from_le s) cells), chunks. unfold row_encode, row_ok. cbn [hw_line_id hw_cells].
  rewrite Hnc, N2Nat.id, Hcb2, !to_le_from_le by done. split_and!; try done. by apply from_le_fits.
Qed.

Lemma read_rows_exact count pre body rest total :
  octets body → vlen (pre ++ body ++ rest) ≤ MAX_HISTORY_RANGE_BYTES → total ≤ MAX_HISTORY_RANGE_CELLS →
  ∃ res, read_rows (pre ++ body ++ rest) (vlen pre + vlen body) count (vlen pre) total = Some res ∧
    ∀ x, res = Ok x → ∃ tail,
      body = enc_all row_encode x.1 ++ tail ∧ x.2 = vlen pre + vlen (enc_all row_encode x.1) ∧
      Forall row_ok x.1 ∧ length x.1 = count ∧ total + total_cells x.1 ≤ MAX_HISTORY_RANGE_CELLS.
Proof.
  revert pre body total. induction count as [|count IH]; intros pre body total Ho Hlen Ht.
  { eexists. split; [done|]. intros x [= <-]. exists body. split_and!; try done; cbn; lia. }
  cbn [read_rows]. unfold MAX_HISTORY_RANGE_CELLS, MAX_HISTORY_RANGE_BYTES in *.
  rewrite !length_app in *.
  rewrite checked_add_small by (unfold usize_max, u64_max; lia). cbn [ok_or ok try_].
  wire_case; [wire_case|to_prop].
  destruct (cut_field_ge body 16) as (hd & body' & -> & Hhd); [lia|].
  rewrite <-!(assoc_L (++)), le_at_shift0, le_at_shift, vslice_shift by done.
  apply octets_app in Ho as [Hoh Hob]. rewrite length_app, Hhd in Heqb, Hlen |- *. revert Hhd Hoh.
  wire_cut [8; 4; 4]%nat. rewrite <-!(assoc_L (++)). wire_read. cbn [mbind option_bind].
  pose proof (from_le_fits 4 s0 Hb0 Hs0) as Hn. change (from_le s0 < 4294967296) in Hn.
  wire_case; [wire_case|]. rewrite checked_add_small by (unfold usize_max, u64_max; lia). cbn [ok_or ok try_].
  wire_case; [wire_case|]. rewrite checked_mul_small by (unfold usize_max, u64_max; lia). cbn [ok_or ok try_].
  rewrite checked_add_small by (unfold usize_max, u64_max; lia). cbn [ok_or ok try_].
  wire_case; [wire_case|].
  apply orb_false_iff in Heqb0 as [Hz Hpad]. apply N.eqb_neq in Hz.
  apply negb_false_iff, bool_decide_eq_true_1 in Hpad. subst z. apply N.ltb_ge in Heqb1, Heqb2.
  destruct (cut_field_ge body' (16 * N.to_nat (from_le s0))) as (cb & body & -> & Hcb); [lia|].
  apply octets_app in Hob as [Hoc Hob]. rewrite length_app in *.
  destruct (row_of_bytes s s0 cb) as (r & chunks & Hr & <- & Hn0 & Hch & Hmap & Hrok); [done..|].
  replace (pre ++ s ++ s0 ++ replicate 4 0 ++ (cb ++ body) ++ rest) with (pre ++ row_encode r ++ body ++ rest)
    by (rewrite Hr, <-!(assoc_L (++)); done).
  rewrite <-Hn0, row_cells. cbn [mbind option_bind].
  rewrite Hch, bool_decide_eq_true_2 by done. cbn [negb]. rewrite Hmap. cbn [mbind option_bind].
  pose proof (length_row r) as Hlr.
  destruct (IH (pre ++ row_encode r) body (total + vlen (hw_cells r))) as (res & Hres & Hx);
    [done|rewrite !length_app; lia|lia|].
  rewrite !length_app, <-(assoc_L (++)) in Hres.
  replace (vlen pre + N.of_nat (16 + (length cb + length body)))
    with (N.of_nat (length pre + length (row_encode r)) + vlen body) by lia.
  replace (vlen pre + 16 + vlen (hw_cells r) * 16) with (N.of_nat (length pre + length (row_encode r))) by lia.
  rewrite Hres. destruct res as [[rows off]|e]; cbn [try_ ok]; [|wire_case].
  eexists. split; [done|]. intros x [= <-]. destruct (Hx _ eq_refl) as (tail & Hbody & Hoff & Hrs & Hcount & Htot).
  cbn [fst snd] in *. subst body off count. exists tail. cbn [total_cells foldr]. fold (total_cells rows).
  change (enc_all row_encode (mkHistoryRow (hw_line_id r) (hw_cells r) :: rows))
    with (row_encode (mkHistoryRow (hw_line_id r) (hw_cells r)) ++ enc_all row_encode rows).
  replace (mkHistoryRow (hw_line_id r) (hw_cells r)) with r by by destruct r.
  rewrite Hr, !length_app, <-!(assoc_L (++)) in *. split_and!; [done|lia|by constructor|done|lia].
Qed.

(** * Sidecar records *)

(** [s] holds at [off] the length-prefixed text [b]. *)
Definition record_at s (off : N) (b : list N) : Prop :=
  ∃ pre post, s = pre ++ to_le 2 (vlen b) ++ b ++ post ∧ vlen pre = off ∧
    b ≠ [] ∧ vlen b ≤ MAX_HISTORY_GRAPHEME_BYTES ∧ is_Some (from_utf8 b).

Lemma record_at_app s t off b : record_at s off b → record_at (s ++ t) off b.
Proof.
  intros (pre & post & -> & Hp). exists pre, (post ++ t). by rewrite <-!(assoc_L (++)).
Qed.

Lemma record_at_take s (n : nat) off b :
  record_at s off b → off + 2 + vlen b ≤ N.of_nat n → record_at (take n s) off b.
Proof.
  intros (pre & post & -> & Hp & Hb) Hn. exists pre, (take (n - length pre - 2 - length b) post).
  split; [|done]. rewrite take_app_ge by lia. rewrite take_app_ge by (rewrite length_to_le; lia).
  rewrite length_to_le, take_app_ge by lia. done.
Qed.

Lemma record_len s off b :
  record_at s off b → off + 2 ≤ vlen s ∧ le_at s off (off + 2) = Some (vlen b).
Proof.
  intros (pre & post & -> & Hp & _ & Hb & _). split; [rewrite !length_app, length_to_le; lia|].
  unfold MAX_HISTORY_GRAPHEME_BYTES in Hb. rewrite le_at_shift0 by done.
  unfold le_at. erewrite vslice_head; [|apply length_to_le|done]. cbn.
  rewrite from_le_to_le; [done|]. unfold fits. change (256 ^ N.of_nat 2) with 65536. lia.
Qed.

Lemma sidecar_read c s b :
  has_sidecar c = true → fits 2 (hc_reserved c) → record_at s (hc_reserved c) b →
  sidecar_utf8 c s = ok (Some b).
Proof.
  intros Hc Hf Hr. destruct (record_len _ _ _ Hr) as [Hl Hle]. unfold sidecar_utf8. rewrite Hc. cbn [negb].
  unfold fits in Hf. change (256 ^ N.of_nat 2) with 65536 in Hf.
  rewrite checked_add_small by (unfold usize_max, u64_max; lia). cbn [ok_or ok try_].
  rewrite (proj2 (N.ltb_ge _ _)) by lia. rewrite Hle. cbn [mbind option_bind].
  destruct Hr as (pre & post & -> & Hpre & Hne & Hb & [cs Hcs]). rewrite <-Hpre in *. destruct b as [|x b]; [done|].
  rewrite (proj2 (N.eqb_neq _ _)) by (rewrite length_cons; lia). rewrite (proj2 (N.ltb_ge _ _)) by done. cbn [orb].
  unfold MAX_HISTORY_GRAPHEME_BYTES in Hb.
  rewrite checked_add_small by (unfold usize_max, u64_max; lia). cbn [ok_or ok try_].
  rewrite (assoc_L (++) pre). rewrite vslice_shift0 by (rewrite length_app, length_to_le; lia).
  erewrite vslice_head by done. cbn [ok_or ok try_]. by rewrite Hcs.
Qed.

Lemma sidecar_utf8_total c s : ∃ r, sidecar_utf8 c s = Some r.
Proof.
  unfold sidecar_utf8. destruct (has_sidecar c); cbn [negb]; [|case_match; by eexists].
  unfold checked_add. case_match; [cbn [ok_or err try_]|by eexists]. unfold ok, try_.
  destruct (N.ltb_spec (vlen s) (hc_reserved c + 2)); [by eexists|].
  unfold le_at, vslice. rewrite (proj2 (N.leb_le _ _)), (proj2 (N.leb_le (_ + 2) _)) by lia.
  cbn [andb mbind option_bind]. repeat (case_match; simplify_eq; try by eexists).
Qed.

Lemma check_cells_total cells s : ∃ r, check_cells cells s = Some r.
Proof.
  induction cells as [|c cells IH]; [by eexists|]. cbn [check_cells].
  destruct (sidecar_utf8_total c s) as [[|] ->]; [done|by eexists].
Qed.

(** * Snapshots read back *)

Definition snapshot_bytes (m : HistoryRangeSnapshot) : list N :=
  snapshot_header m ++ enc_all row_encode (hn_rows m) ++ hn_sidecar m.

Record snapshot_ok (m : HistoryRangeSnapshot) : Prop := mkSnapshotOk {
  so_request : fits 8 (hn_request_id m);
  so_block : fits 8 (hn_block_id m);
  so_revision : fits 8 (hn_revision m);
  so_rows : Forall row_ok (hn_rows m);
  so_lines : vlen (hn_rows m) ≤ MAX_HISTORY_RANGE_LINES;
  so_cells : total_cells (hn_rows m) ≤ MAX_HISTORY_RANGE_CELLS;
  so_sidecar : octets (hn_sidecar m);
  so_sidecar_len : vlen (hn_sidecar m) ≤ MAX_HISTORY_SIDECAR_BYTES;
  so_texts : check_cells (all_cells (hn_rows m)) (hn_sidecar m) = ok tt;
  so_len : vlen (snapshot_bytes m) ≤ MAX_HISTORY_RANGE_BYTES }.

Lemma length_snapshot_header m : vlen (snapshot_header m) = 32.
Proof. unfold snapshot_header. by rewrite !length_app, !length_to_le. Qed.

Lemma encode_rows_ok rows out n :
  Forall row_ok rows → vlen (out ++ enc_all row_encode rows) + n ≤ MAX_HISTORY_RANGE_BYTES →
  encode_rows out rows n = ok (out ++ enc_all row_encode rows).
Proof.
  intros Hr. revert out. induction Hr as [|r rows (Hid & Hz & Hcs) Hrs IH]; intros out Hlen.
  { cbn. by rewrite app_nil_r. }
  change (enc_all row_encode (r :: rows)) with (row_encode r ++ enc_all row_encode rows) in *.
  rewrite (assoc_L (++)) in *. cbn [encode_rows]. pose proof (length_row r) as Hlr.
  unfold MAX_HISTORY_RANGE_BYTES, MAX_FRAME_PAYLOAD, sat_add in *. rewrite (length_app _ (enc_all _ _)) in Hlen.
  assert (vlen (hw_cells r) ≤ 196608) by (rewrite length_app in Hlen; lia).
  rewrite (proj2 (N.eqb_neq _ _)) by done. rewrite (proj2 (N.ltb_ge u32_max _)) by (unfold u32_max; lia).
  rewrite N.min_l by (unfold usize_max, u64_max; lia).
  rewrite !(proj2 (N.ltb_ge _ _)) by lia. cbn [orb]. apply IH. rewrite length_app. lia.
Qed.

Lemma snapshot_try_encode_ok m : snapshot_ok m → snapshot_try_encode m = ok (snapshot_bytes m).
Proof.
  intros []. unfold snapshot_try_encode. unfold snapshot_bytes in *.
  rewrite !(proj2 (N.ltb_ge _ _)) by done. cbn [orb]. rewrite so_texts0. cbn [try_ ok].
  rewrite (assoc_L (++)) in *.
  rewrite encode_rows_ok; [|done|rewrite (length_app (_ ++ _)) in so_len0; lia]. cbn [try_ ok].
  rewrite !(proj2 (N.ltb_ge _ _)); [done| |].
  all: unfold MAX_FRAME_PAYLOAD, MAX_HISTORY_RANGE_BYTES in *; lia.
Qed.

Lemma snapshot_fields m s :
  fits 8 (hn_request_id m) → fits 8 (hn_block_id m) → fits 8 (hn_revision m) →
  vlen (hn_rows m) < 65536 → vlen (hn_sidecar m) < 2 ^ 32 →
  let p := snapshot_header m ++ s in
  vget p 25 = Some 0 ∧ le_at p 28 32 = Some (vlen (hn_sidecar m)) ∧
  vget p 24 = Some (HistoryRangeStatus_tag (hn_status m)) ∧ le_at p 26 28 = Some (vlen (hn_rows m)) ∧
  le_at p 0 8 = Some (hn_request_id m) ∧ le_at p 8 16 = Some (hn_block_id m) ∧
  le_at p 16 24 = Some (hn_revision m).
Proof.
  intros H1 H2 H3 H4 H5. cbv zeta. unfold snapshot_header. rewrite <-!(assoc_L (++)). wire_read.
  rewrite !from_le_to_le by done. done.
Qed.

Lemma snapshot_decode_ok m : snapshot_ok m → snapshot_decode (snapshot_bytes m) = ok m.
Proof.
  intros []. unfold snapshot_decode. pose proof (length_snapshot_header m) as Hh.
  assert (vlen (snapshot_bytes m) = 32 + vlen (enc_all row_encode (hn_rows m)) + vlen (hn_sidecar m)) as Hb
    by (unfold snapshot_bytes; rewrite !length_app; lia).
  unfold MAX_FRAME_PAYLOAD, MAX_HISTORY_RANGE_BYTES, MAX_HISTORY_SIDECAR_BYTES, MAX_HISTORY_RANGE_LINES in *.
  rewrite !(proj2 (N.ltb_ge _ (vlen (snapshot_bytes m)))) by lia. cbn [orb].
  rewrite (proj2 (N.ltb_ge _ _)) by lia.
  pose proof (read_rows_back (hn_rows m) (snapshot_header m) (hn_sidecar m) 0) as Hrows.
  fold (snapshot_bytes m) in Hrows. rewrite Hh in Hrows.
  destruct (snapshot_fields m (enc_all row_encode (hn_rows m) ++ hn_sidecar m))
    as (F25 & F28 & F24 & F26 & F0 & F8 & F16); [done..|lia|lia|].
  fold (snapshot_bytes m) in F25, F28, F24, F26, F0, F8, F16.
  rewrite F25. cbn [mbind option_bind N.eqb negb]. rewrite F28. cbn [mbind option_bind].
  rewrite (proj2 (N.ltb_ge _ _)) by lia. unfold checked_sub. rewrite Hb, (proj2 (N.leb_le _ _)) by lia.
  cbn [ok_or ok try_]. rewrite N.add_sub, (proj2 (N.ltb_ge _ _)) by lia.
  rewrite F24. cbn [mbind option_bind]. rewrite read_tag. cbn [ok try_]. rewrite F26. cbn [mbind option_bind].
  rewrite (proj2 (N.ltb_ge _ _)), Nat2N.id by lia.
  unfold MAX_HISTORY_RANGE_CELLS, MAX_HISTORY_RANGE_BYTES in *. rewrite Hrows by (done || lia). cbn [ok try_ fst snd].
  rewrite checked_add_small by (unfold usize_max, u64_max; lia). cbn [ok_or ok try_].
  rewrite !N.eqb_refl. cbn [negb orb]. rewrite F0, F8, F16. unfold snapshot_bytes at 1.
  rewrite (assoc_L (++)), vslice_shift0 by (rewrite length_app; lia).
  erewrite vslice_all by done. cbn [mbind option_bind]. rewrite so_texts0. cbn [ok try_]. by destruct m.
Qed.

Lemma snapshot_header_of hd q :
  length hd = 32%nat → octets hd →
  ∃ rq bl rv st pad count len, let p := hd ++ q in
    (vget p 25 = Some pad ∧ le_at p 28 32 = Some len ∧ vget p 24 = Some st ∧ le_at p 26 28 = Some count ∧
     le_at p 0 8 = Some rq ∧ le_at p 8 16 = Some bl ∧ le_at p 16 24 = Some rv) ∧
    (fits 8 rq ∧ fits 8 bl ∧ fits 8 rv ∧ fits 4 len) ∧
    hd = to_le 8 rq ++ to_le 8 bl ++ to_le 8 rv ++ [st] ++ [pad] ++ to_le 2 count ++ to_le 4 len.
Proof.
  wire_cut [8; 8; 8; 1; 1; 2; 4]%nat. rewrite <-!(assoc_L (++)).
  eexists _, _, _, _, _, _, _. cbv zeta. wire_read. split; [split_and!; reflexivity|].
  rewrite !to_le_from_le by done. split_and!; eauto with wire.
Qed.

Lemma snapshot_decode_exact p :
  octets p → ∃ r, snapshot_decode p = Some r ∧ ∀ m, r = Ok m → snapshot_ok m ∧ snapshot_bytes m = p.
Proof.
  intros Ho. unfold snapshot_decode. wire_case; [wire_case|]. wire_case; [wire_case|].
  apply orb_false_iff in Heqb as [_ Hl]. apply N.ltb_ge in Hl, Heqb0.
  destruct (cut_field_ge p 32) as (hd & q & -> & Hhd); [lia|].
  apply octets_app in Ho as [Hoh Hoq].
  destruct (snapshot_header_of hd q Hhd Hoh)
    as (rq & bl & rv & st & pad & count & len & (-> & -> & -> & -> & -> & -> & ->) & (Hrq & Hbl & Hrv & Hlen) & Hhde).
  cbn [mbind option_bind]. do 2 (wire_case; [wire_case|]). unfold checked_sub. apply N.ltb_ge in Heqb1.
  rewrite length_app, Hhd in *. destruct (N.leb_spec len (N.of_nat (32 + length q))); [|cbn [ok_or err try_]; wire_case].
  cbn [ok_or ok try_]. wire_case; [wire_case|]. apply N.ltb_ge in Heqb2.
  apply negb_false_iff, N.eqb_eq in Heqb. subst pad. cbn [mbind option_bind].
  wire_case; [|wire_case]. wire_case; [wire_case|]. apply N.ltb_ge in Heqb.
  destruct (cut_field_ge q (length q - N.to_nat len)) as (body & side & -> & Hbody); [lia|].
  apply octets_app in Hoq as [Hob Hos]. rewrite length_app in *.
  replace (N.of_nat (32 + (length body + length side)) - len) with (32 + vlen body) by lia.
  destruct (read_rows_exact (N.to_nat count) hd body side 0) as (res & Hres & Hx);
    [done|rewrite !length_app; lia|done|].
  rewrite Hhd in *. change (N.of_nat 32) with 32 in *. rewrite Hres.
  destruct res as [[rows off]|e]; cbn [try_ ok]; [|wire_case].
  destruct (Hx _ eq_refl) as (tail & Htail & Hoff & Hrows & Hcount & Htot). cbn [fst snd] in *.
  clear Hx Hres. assert (len = vlen side) as -> by lia.
  unfold MAX_HISTORY_RANGE_BYTES, MAX_HISTORY_SIDECAR_BYTES in *.
  rewrite checked_add_small by (subst; rewrite length_app in *; unfold usize_max, u64_max; lia). cbn [ok_or ok try_].
  wire_case; [wire_case|]. apply orb_false_iff in Heqb3 as [He _]. apply negb_false_iff, N.eqb_eq in He.
  assert (tail = []) as -> by (apply nil_length_inv; subst; rewrite length_app in *; lia).
  rewrite app_nil_r in Htail. subst body. rewrite (assoc_L (++) hd), vslice_shift0 by (rewrite length_app; lia).
  erewrite vslice_all by done. cbn [mbind option_bind].
  destruct (check_cells_total (all_cells rows) side) as [[[]|] Hcheck]; rewrite Hcheck; cbn [try_ ok]; [|wire_case].
  eexists. split; [done|]. intros m [= <-].
  match goal with |- snapshot_ok ?m ∧ _ = ?p => assert (snapshot_bytes m = p) as Hp end.
  { unfold snapshot_bytes, snapshot_header. cbn [hn_request_id hn_block_id hn_revision hn_status hn_rows hn_sidecar].
    rewrite Hcount, N2Nat.id, <-H0, <-Hhde. by rewrite (assoc_L (++)). }
  split; [|done]. constructor; try done; [cbn [hn_rows]; lia|].
  rewrite Hp, !length_app, Hhd. unfold MAX_HISTORY_RANGE_BYTES. lia.
Qed.

(** [HistoryRangeSnapshot::encode]: [None] is the panic of its [expect]. *)
Definition snapshot_encode (m : HistoryRangeSnapshot) : option (list N) :=
  match snapshot_try_encode m with Some (Ok out) => Some out | _ => None end.

#[global] Instance HistoryRangeSnapshot_format : WireFormat HistoryRangeSnapshot := {|
  encode m := default [] (snapshot_encode m); decode := snapshot_decode; wire_ok := snapshot_ok |}.

Lemma snapshot_encode_sent (m : HistoryRangeSnapshot) : snapshot_ok m → encode m = snapshot_bytes m.
Proof.
  intros Hm. cbn [encode HistoryRangeSnapshot_format]. unfold snapshot_encode.
  by rewrite snapshot_try_encode_ok.
Qed.

Lemma HistoryRangeSnapshot_exact : decoder_exact HistoryRangeSnapshot.
Proof.
  intros p Hp. destruct (snapshot_decode_exact p Hp) as (r & Hr & Hok).
  exists r. split; [done|]. intros m Hm. destruct (Hok m Hm) as [Hs He]. split; [done|].
  by rewrite snapshot_encode_sent.
Qed.

Lemma cell_octets c : octets (cell_encode c).
Proof. unfold cell_encode. wire_bytes. Qed.

Lemma row_octets r : octets (row_encode r).
Proof.
  unfold row_encode. rewrite !octets_app. split_and!; eauto with wire.
  eapply (octets_enc_all _ (λ _, True)); [intros; apply cell_octets|by apply Forall_true].
Qed.

#[global] Instance HistoryRangeSnapshot_laws : WireLaws HistoryRangeSnapshot.
Proof.
  apply exact_laws; [| |exact HistoryRangeSnapshot_exact].
  - intros m Hm. rewrite snapshot_encode_sent by done. unfold snapshot_bytes, snapshot_header.
    rewrite !octets_app. split_and!; eauto with wire; [|by destruct Hm].
    eapply (octets_enc_all _ (λ _, True)); [intros; apply row_octets|by apply Forall_true].
  - intros m Hm. rewrite snapshot_encode_sent by done. by apply snapshot_decode_ok.
Qed.
#[global] Instance HistoryRangeSnapshot_canonical : WireCanonical HistoryRangeSnapshot.
Proof. exact (exact_canonical HistoryRangeSnapshot_exact). Qed.
