(* ===== verification/HistoryReply.v ===== *)
(** The history-range reply of the Runtime, the pure part of [handle_history_range_request]
    of [crates/seyal-runtime/src/runtime/local/history_blocks.rs]: packing, admission and
    encoding compose so that the first encoding succeeds and the client reads back the
    terminal's cells. *)

From S2P Require Import Prelude Utf8 Wire WirePane WireControl WireText WireHistory.

Implicit Types (bytes body pre rest p q s sidecar : list N).

(** * The Runtime's reply *)

(** The snapshot the Runtime sends for the rows the terminal returned, before the
    loop that encodes it; [rows] is what [primary_history_wire_range] gave, already
    mapped to source cells. *)
Definition history_reply (request : HistoryRangeRequest) (revision : N)
    (rows : list (N * list HistorySourceCell)) : HistoryRangeSnapshot :=
  let max_lines := hq_max_lines request in
  let hit_line_cap := (0 <? max_lines) && (vlen rows =? max_lines) in
  let '(packed_rows, sidecar, pack_truncated) := pack_source_rows rows in
  let '(encoded_rows, budget_truncated) :=
    admit_rows packed_rows max_lines (hq_max_cells request) (vlen sidecar) in
  let truncated := budget_truncated || hit_line_cap || pack_truncated in
  trim_sidecar_to_rows
    (mkSnapshot (hq_request_id request) (hq_block_id request) revision
       (if truncated then HRS_Truncated else HRS_Complete) encoded_rows sidecar).

(** The loop of the Runtime: [Some (Some p)] sends the payload [p], [Some None] is the
    [CapacityExceeded] reply, [None] is a panic or the end of the fuel. *)
Fixpoint encode_reply (fuel : nat) (m : HistoryRangeSnapshot) : option (option (list N)) :=
  match fuel with
  | O => None
  | S fuel =>
    match snapshot_try_encode m with
    | None => None
    | Some (Ok payload) => Some (Some payload)
    | Some (Err _) =>
      match shrink_for_encode m with
      | None => None
      | Some (true, m) =>
        if bool_decide (hn_rows m = []) || (lead_count (hn_rows m) =? 0) then Some None
        else encode_reply fuel m
      | Some (false, _) => Some None
      end
    end
  end.


(** * What the client reads *)

Record CellView := mkCellView {
  cv_text : list N; cv_width : N; cv_continuation : bool; cv_foreground : N; cv_background : N;
  cv_style : N }.

(** What a source cell is to look like: the width is kept in two bits, a
    continuation has no text. *)
Definition source_view (c : HistorySourceCell) : CellView :=
  if sc_continuation c
  then mkCellView [] 0 true (sc_foreground c) (sc_background c) (style_only (sc_style_flags c))
  else mkCellView (sc_text c) (N.max 1 (N.min (sc_width c) 3)) false (sc_foreground c) (sc_background c)
         (style_only (sc_style_flags c)).

Definition scalar_text (c : HistoryCell) : list N :=
  if hc_scalar c =? 0 then [] else encode_utf8 (hc_scalar c).

(** A wire cell read with the snapshot's sidecar. *)
Definition wire_view sidecar (c : HistoryCell) : option CellView :=
  match sidecar_utf8 c sidecar with
  | Some (Ok text) =>
    Some (mkCellView (default (scalar_text c) text) (cell_width c) (history_is_continuation c)
            (hc_foreground c) (hc_background c) (style_only (hc_flags c)))
  | _ => None
  end.

Definition flat_source (rows : list (N * list HistorySourceCell)) : list (N * CellView) :=
  rows ≫= λ row, (λ c, (row.1, source_view c)) <$> row.2.

Definition flat_wire (rows : list HistoryRow) : list (N * HistoryCell) :=
  rows ≫= λ row, (λ c, (hw_line_id row, c)) <$> hw_cells row.

(** The cells of a snapshot as its reader sees them. *)
Definition snapshot_views (m : HistoryRangeSnapshot) : option (list (N * CellView)) :=
  mapM (λ x, v ← wire_view (hn_sidecar m) x.2; Some (x.1, v)) (flat_wire (hn_rows m)).

(** The fields of a source cell have the widths of their Rust types, its text is a
    [String]; no cell of a terminal holds U+0000. *)
Record source_ok (c : HistorySourceCell) : Prop := mkSourceOk {
  sk_foreground : fits 4 (sc_foreground c);
  sk_background : fits 4 (sc_background c);
  sk_style : fits 2 (sc_style_flags c);
  sk_text : ∃ text, sc_text c = utf8_bytes text ∧ Forall (λ x, is_scalar x = true) text ∧ 0 ∉ text }.

(** * Flag words *)

Lemma encode_utf8_octets x : is_scalar x = true → octets (encode_utf8 x).
Proof. unfold is_scalar, encode_utf8, inr. intros Hx. repeat case_match; repeat constructor; lia. Qed.

Lemma utf8_bytes_octets text : Forall (λ x, is_scalar x = true) text → octets (utf8_bytes text).
Proof.
  intros Ht. unfold utf8_bytes. apply Forall_bind. eapply Forall_impl; [exact Ht|]. apply encode_utf8_octets.
Qed.

(** The words packed for a cell: the style, the sidecar bit, and the width or the
    continuation bit. *)
Definition packed_flags (style : N) (side : bool) (metrics : N) : N :=
  N.lor (N.land (if side then N.lor (style_only style) 128 else style_only style) 65479) metrics.

Lemma packed_flags_bits style side metrics mask :
  N.land (packed_flags style side metrics) mask =
  N.lor (N.lor (N.land style (N.land 65351 mask)) (if side then N.land 128 mask else 0)) (N.land metrics mask).
Proof.
  unfold packed_flags, style_only. destruct side; rewrite !N.land_lor_distr_l, <-!N.land_assoc,
    (N.land_assoc 65351 65479); [by rewrite (N.land_assoc 128 65479)|by rewrite N.lor_0_r].
Qed.

Lemma land_fits x m : m < 65536 → fits 2 (N.land x m).
Proof. intros Hm. pose proof (N.land_le_r x m). unfold fits. change (256 ^ N.of_nat 2) with 65536. lia. Qed.

Lemma packed_flags_fits style side metrics :
  metrics < 65536 → fits 2 (packed_flags style side metrics).
Proof.
  intros Hm. replace (packed_flags style side metrics) with (N.land (packed_flags style side metrics) 65535).
  { by apply land_fits. }
  rewrite packed_flags_bits. unfold packed_flags, style_only.
  f_equal; [destruct side; rewrite ?N.land_lor_distr_l, <-!N.land_assoc, ?N.lor_0_r; done|].
  change 65535 with (N.ones 16). rewrite N.land_ones. by apply N.mod_small.
Qed.

Definition metrics (width : N) (continuation : bool) : N :=
  if continuation then 8 else N.shiftl (N.max 1 (N.min width 3)) 4.

Lemma metrics_cases width continuation :
  (metrics width continuation < 65536 ∧ N.land (metrics width continuation) 128 = 0 ∧
   N.land (metrics width continuation) 65351 = 0) ∧
  N.shiftr (N.land (metrics width continuation) 48) 4
  = (if continuation then 0 else N.max 1 (N.min width 3)) ∧
  negb (N.land (metrics width continuation) 8 =? 0) = continuation.
Proof.
  unfold metrics. destruct continuation; [done|].
  assert (N.max 1 (N.min width 3) ∈ [1; 2; 3]) as Hw.
  { destruct (decide (width ≤ 1)), (decide (width = 2)); [lia|..].
    - replace (N.max 1 (N.min width 3)) with 1 by lia. set_solver.
    - replace (N.max 1 (N.min width 3)) with 2 by lia. set_solver.
    - replace (N.max 1 (N.min width 3)) with 3 by lia. set_solver. }
  set (w := N.max 1 _) in *. clearbody w.
  rewrite !elem_of_cons, elem_of_nil in Hw. destruct Hw as [->|[->|[->|[]]]]; split_and!; done.
Qed.

(** * Cells as packed *)

Record shows sidecar (w : HistoryCell) (v : CellView) : Prop := mkShows {
  sh_cell : cell_ok w;
  sh_text : if has_sidecar w then record_at sidecar (hc_reserved w) (cv_text v)
            else hc_reserved w = 0 ∧ cv_text v = scalar_text w;
  sh_width : cell_width w = cv_width v;
  sh_continuation : history_is_continuation w = cv_continuation v;
  sh_foreground : hc_foreground w = cv_foreground v;
  sh_background : hc_background w = cv_background v;
  sh_style : style_only (hc_flags w) = cv_style v }.

Lemma shows_app s t w v : shows s w v → shows (s ++ t) w v.
Proof. intros []. constructor; try done. case_match; [by apply record_at_app|done]. Qed.

Lemma shows_read s w v : shows s w v → ∃ t, sidecar_utf8 w s = ok t.
Proof.
  intros [(_ & _ & _ & _ & Hr) Ht _ _ _ _ _]. destruct (has_sidecar w) eqn:Hs.
  - exists (Some (cv_text v)). by apply sidecar_read.
  - destruct Ht as [Hz _]. unfold sidecar_utf8. rewrite Hs, Hz. by eexists.
Qed.

Lemma shows_view s w v : shows s w v → wire_view s w = Some v.
Proof.
  intros [(_ & _ & _ & _ & Hr) Ht Hw Hc Hf Hb Hst]. unfold wire_view. rewrite Hw, Hc, Hf, Hb, Hst.
  destruct (has_sidecar w) eqn:Hs.
  - erewrite sidecar_read by done. by destruct v.
  - destruct Ht as [Hz Ht]. unfold sidecar_utf8. rewrite Hs, Hz. cbn. rewrite <-Ht. by destruct v.
Qed.

Lemma shows_packed s c scalar side off width text :
  fits 4 scalar → fits 4 (sc_foreground c) → fits 4 (sc_background c) → fits 2 off → 
  let w := mkHistoryCell scalar (sc_foreground c) (sc_background c) 
             (packed_flags (sc_style_flags c) side (metrics width (sc_continuation c))) off in
  (if side : bool then record_at s off text else off = 0 ∧ text = scalar_text w) →
  shows s w (mkCellView text (if sc_continuation c then 0 else N.max 1 (N.min width 3)) (sc_continuation c)
    (sc_foreground c) (sc_background c) (style_only (sc_style_flags c))).
Proof.
  intros Hs Hf Hb Ho w Ht. destruct (metrics_cases width (sc_continuation c)) as ((Hm & Hm1 & Hm2) & Hw & Hc).
  assert (has_sidecar w = side) as Hside.
  { unfold has_sidecar, w. cbn [hc_flags]. unfold HISTORY_CELL_SIDECAR_FLAG.
    rewrite packed_flags_bits, Hm1, N.land_0_r. by destruct side. }
  constructor; cbn [cv_text cv_width cv_continuation cv_foreground cv_background cv_style]; try done.
  - unfold cell_ok. cbn. split_and!; try done. by apply packed_flags_fits.
  - rewrite Hside. done.
  - unfold cell_width, w. cbn [hc_flags]. unfold HISTORY_CELL_WIDTH_MASK, HISTORY_CELL_WIDTH_SHIFT.
    rewrite packed_flags_bits, N.land_0_r. rewrite <-Hw. by destruct side.
  - unfold history_is_continuation, w. cbn [hc_flags]. unfold HISTORY_CELL_CONTINUATION_FLAG.
    rewrite packed_flags_bits, N.land_0_r. rewrite <-Hc at 2. by destruct side.
  - unfold style_only at 1, w. cbn [hc_flags]. rewrite packed_flags_bits, Hm2, N.land_diag, N.lor_0_r.
    destruct side; [|by rewrite N.lor_0_r]. change (N.land 128 65351) with 0. by rewrite N.lor_0_r.
Qed.

Lemma with_metrics_packed scalar fg bg style (side : bool) off width continuation :
  with_cell_metrics
    (mkHistoryCell scalar fg bg
       (if side then N.lor (style_only style) HISTORY_CELL_SIDECAR_FLAG else style_only style) off) width continuation
  = mkHistoryCell scalar fg bg (packed_flags style side (metrics width continuation)) off.
Proof. by destruct side, continuation. Qed.

Lemma Ok_inj {E A} (x y : A) : @Ok E A x = Ok y → x = y.
Proof. by intros [=]. Qed.

Lemma sidecar_room n k :
  (MAX_HISTORY_GRAPHEME_BYTES <? k) || (MAX_HISTORY_SIDECAR_BYTES <? sat_add usize_max (sat_add usize_max n 2) k)
  || (u16_max <? n) = false →
  k ≤ MAX_HISTORY_GRAPHEME_BYTES ∧ n + 2 + k ≤ MAX_HISTORY_SIDECAR_BYTES ∧ n mod 65536 = n ∧ fits 2 n.
Proof.
  unfold MAX_HISTORY_GRAPHEME_BYTES, MAX_HISTORY_SIDECAR_BYTES, u16_max, sat_add, usize_max, u64_max, fits.
  change (256 ^ N.of_nat 2) with 65536. intros H. split_and!; try lia.
Qed.

Lemma from_text_cases c text s w s' :
  sc_text c = utf8_bytes text → Forall (λ x, is_scalar x = true) text → 0 ∉ text → vlen s ≤ MAX_HISTORY_SIDECAR_BYTES →
  from_text (sc_text c) (sc_foreground c) (sc_background c) (sc_style_flags c) s = Ok (w, s') →
  ∃ scalar (side : bool) off t, fits 4 scalar ∧ fits 2 off ∧ s' = s ++ t ∧ octets t ∧
    vlen s' ≤ MAX_HISTORY_SIDECAR_BYTES ∧
    w = mkHistoryCell scalar (sc_foreground c) (sc_background c)
          (if side then N.lor (style_only (sc_style_flags c)) HISTORY_CELL_SIDECAR_FLAG
           else style_only (sc_style_flags c)) off ∧
    if side then record_at s' off (sc_text c)
    else off = 0 ∧ sc_text c = if scalar =? 0 then [] else encode_utf8 scalar.
Proof.
  intros Htext Hsc Hnz Hl. unfold from_text. destruct text as [|scalar scalars].
  { rewrite Htext. intros [= <- <-]. exists 0, false, 0, []. rewrite app_nil_r.
    split_and!; try done; constructor. }
  pose proof (from_utf8_bytes _ Hsc) as Hfrom. pose proof (utf8_bytes_octets _ Hsc) as Hol.
  rewrite <-Htext in Hfrom, Hol.
  destruct (sc_text c) as [|x l] eqn:Hx; [discriminate Hfrom|]. rewrite <-Hx in *. clear x l Hx. rewrite Hfrom.
  apply Forall_cons in Hsc as [Hs1 Hsc].
  assert (fits 4 scalar) as Hfs.
  { unfold fits. change (256 ^ N.of_nat 4) with 4294967296. unfold is_scalar, inr in Hs1. lia. }
  destruct (negb (negb _ || _)) eqn:Hm.
  - intros [= <- <-]. exists scalar, false, 0, []. rewrite app_nil_r.
    apply negb_true_iff, orb_false_iff in Hm as [Hn _]. apply negb_false_iff, bool_decide_eq_true_1 in Hn. subst scalars.
    split_and!; try done; [constructor|]. 
    rewrite (proj2 (N.eqb_neq _ _)) by set_solver. rewrite Htext. unfold utf8_bytes. cbn. by rewrite app_nil_r.
  - clear Hm. destruct (_ || _ || _) eqn:Hm; [done|]. intros Heq. apply Ok_inj, pair_eq in Heq as [<- <-].
    apply sidecar_room in Hm as (Hm1 & Hm2 & Hm3 & Hm4). rewrite Hm3.
    exists scalar, true, (vlen s), (to_le 2 (vlen (sc_text c)) ++ sc_text c).
    split; [done|]. split; [done|].
    split; [done|]. split; [apply octets_app; split; [apply to_le_bytes|done]|].
    split; [rewrite !length_app, length_to_le; lia|]. split; [done|].
    exists s, []. rewrite app_nil_r, Hfrom. split; [done|]. split; [done|]. split; [by intros Hn; rewrite Hn in Hfrom|].
    split; [exact Hm1|by eexists].
Qed.

(** What packing one cell adds to the sidecar, and what the packed cell shows. *)
Lemma pack_cell_shows c s w s' :
  source_ok c → octets s → vlen s ≤ MAX_HISTORY_SIDECAR_BYTES → pack_cell c s = Some (w, s') →
  ∃ t, s' = s ++ t ∧ octets t ∧ vlen s' ≤ MAX_HISTORY_SIDECAR_BYTES ∧ shows s' w (source_view c).
Proof.
  intros [Hf Hb Hst (text & Htext & Hsc & Hnz)] Ho Hl. unfold pack_cell, source_view.
  pose proof (shows_packed s' c) as Hp. destruct (sc_continuation c) eqn:Hc.
  { intros [= <- <-]. exists []. rewrite app_nil_r. split_and!; [done|constructor|done|].
    apply (Hp 0 false 0 (sc_width c) []); done. }
  destruct (from_text _ _ _ _ _) as [[w0 s0]|] eqn:Heq; [|done].
  intros Hw. apply (inj Some), pair_eq in Hw as [<- <-].
  destruct (from_text_cases c text s w0 s0 Htext Hsc Hnz Hl Heq)
    as (scalar & side & off & t & Hfs & Hfo & Hs & Hot & Hls & -> & Hside).
  exists t. rewrite with_metrics_packed. split_and!; [done..|]. by apply Hp.
Qed.

Lemma pack_cells_shows cells s ws s' tr :
  Forall source_ok cells → octets s → vlen s ≤ MAX_HISTORY_SIDECAR_BYTES → pack_cells cells s = (ws, s', tr) →
  ∃ t sent left, s' = s ++ t ∧ octets t ∧ vlen s' ≤ MAX_HISTORY_SIDECAR_BYTES ∧
    cells = sent ++ left ∧ (tr = false → left = []) ∧ Forall2 (shows s') ws (source_view <$> sent).
Proof.
  intros Hc. revert s ws. induction Hc as [|c cells Hc Hcs IH]; intros s ws Ho Hl.
  { intros [= <- <- <-]. exists [], [], []. rewrite app_nil_r. split_and!; by try constructor. }
  cbn [pack_cells]. destruct (pack_cell c s) as [[w s1]|] eqn:Hw.
  2: { intros [= <- <- <-]. exists [], [], (c :: cells). rewrite app_nil_r. split_and!; by try constructor. }
  destruct (pack_cells cells s1) as [[ws1 s2] tr1] eqn:Hws. intros [= <- <- <-].
  destruct (pack_cell_shows c s w s1 Hc Ho Hl Hw) as (t1 & -> & Ht1 & Hl1 & Hsh).
  destruct (IH (s ++ t1) ws1) as (t2 & sent & left & -> & Ht2 & Hl2 & -> & Htr & Hsh2); [|done..|].
  { by apply octets_app. }
  exists (t1 ++ t2), (c :: sent), left. rewrite <-(assoc_L (++)) in *. split_and!; try done.
  - by apply octets_app.
  - constructor; [|done]. rewrite (assoc_L (++)). by apply shows_app.
Qed.

(** A line of packed cells against a line of source cells. *)
Definition shows_at s (x : N * HistoryCell) (y : N * CellView) : Prop := x.1 = y.1 ∧ shows s x.2 y.2.

Lemma shows_at_app s t xs ys : Forall2 (shows_at s) xs ys → Forall2 (shows_at (s ++ t)) xs ys.
Proof. intros H. eapply Forall2_impl; [done|]. intros x y []. split; [done|by apply shows_app]. Qed.

Lemma shows_line id s ws cells :
  Forall2 (shows s) ws (source_view <$> cells) →
  Forall2 (shows_at s) (flat_wire (if bool_decide (ws = []) then [] else [mkHistoryRow id ws]))
    ((λ c, (id, source_view c)) <$> cells).
Proof.
  intros H. replace (flat_wire _) with ((λ c, (id, c)) <$> ws).
  - rewrite Forall2_fmap_r in H. apply Forall2_fmap. eapply Forall2_impl; [done|]. by intros.
  - case_bool_decide; [by subst|]. unfold flat_wire. cbn. by rewrite app_nil_r.
Qed.

Lemma pack_rows_shows rows s prs s' tr :
  Forall (λ row, Forall source_ok row.2) rows → octets s → vlen s ≤ MAX_HISTORY_SIDECAR_BYTES →
  pack_rows rows s = (prs, s', tr) →
  ∃ t sent left, s' = s ++ t ∧ octets t ∧ vlen s' ≤ MAX_HISTORY_SIDECAR_BYTES ∧
    flat_source rows = sent ++ left ∧ (tr = false → left = []) ∧ Forall2 (shows_at s') (flat_wire prs) sent ∧
    Forall (λ r, hw_line_id r ∈ rows.*1) prs.
Proof.
  intros Hr. revert s prs. induction Hr as [|[id cells] rows Hc Hcs IH]; intros s prs Ho Hl.
  { intros [= <- <- <-]. exists [], [], []. rewrite app_nil_r. split_and!; by try constructor. }
  cbn [pack_rows]. destruct (pack_cells cells s) as [[ws s1] tr1] eqn:Hws.
  destruct (pack_cells_shows cells s ws s1 tr1 Hc Ho Hl Hws) as (t1 & sent & left & -> & Ht1 & Hl1 & -> & Htr & Hsh).
  apply (shows_line id) in Hsh.
  change (flat_source ((id, sent ++ left) :: rows))
    with (((λ c, (id, source_view c)) <$> (sent ++ left)) ++ flat_source rows).
  assert (Forall (λ r, hw_line_id r ∈ id :: rows.*1) (if bool_decide (ws = []) then [] else [mkHistoryRow id ws])).
  { case_bool_decide; repeat constructor. }
  destruct tr1.
  { intros [= <- <- <-]. rewrite fmap_app, <-(assoc_L (++)). eexists t1, _, _. split_and!; done. }
  rewrite (Htr eq_refl), app_nil_r.
  destruct (pack_rows rows (s ++ t1)) as [[rest s2] tr2] eqn:Hrest. intros [= <- <- <-].
  destruct (IH (s ++ t1) rest) as (t2 & sent2 & left2 & -> & Ht2 & Hl2 & -> & Htr2 & Hsh2 & Hid); [|done..|].
  { by apply octets_app. }
  exists (t1 ++ t2), (((λ c, (id, source_view c)) <$> sent) ++ sent2), left2.
  rewrite <-!(assoc_L (++)) in *. split_and!; try done; [by apply octets_app| |].
  - unfold flat_wire. rewrite bind_app. apply Forall2_app; [|done]. rewrite (assoc_L (++)). by apply shows_at_app.
  - apply Forall_app. split; [done|]. eapply Forall_impl; [done|]. intros r Hin. cbn. apply elem_of_cons. by right.
Qed.

(** * Admission *)

Lemma encoded_len_row r :
  sat_add usize_max 0 (encoded_len r) ≤ MAX_HISTORY_RANGE_BYTES → vlen (row_encode r) = encoded_len r.
Proof.
  rewrite length_row. unfold encoded_len, sat_add, sat_mul, MAX_HISTORY_RANGE_BYTES, usize_max, u64_max. lia.
Qed.

Lemma sat_add_room used k :
  sat_add usize_max used k ≤ MAX_HISTORY_RANGE_BYTES →
  sat_add usize_max used k = used + k ∧ sat_add usize_max 0 k ≤ MAX_HISTORY_RANGE_BYTES.
Proof. unfold sat_add, MAX_HISTORY_RANGE_BYTES, usize_max, u64_max. lia. Qed.

(** The admitted rows are a prefix within every budget. *)
Lemma admit_loop_spec rows max_lines out budget used adm tr :
  admit_loop rows max_lines out budget used = (adm, tr) → 
  used ≤ MAX_HISTORY_RANGE_BYTES → out ≤ max_lines →
  ∃ left, rows = adm ++ left ∧ (tr = false → left = []) ∧ out + vlen adm ≤ max_lines ∧
    total_cells adm ≤ budget ∧ used + vlen (enc_all row_encode adm) ≤ MAX_HISTORY_RANGE_BYTES.
Proof.
  intros Heq Hu Ho. revert out budget used adm Heq Hu Ho.
  induction rows as [|r rows IH]; intros out budget used adm; cbn [admit_loop].
  { intros [= <- <-] Hu Ho. exists []. cbn. split_and!; (done || lia). }
  intros Heq Hu Ho.
  destruct (_ || (max_lines <=? out)) eqn:Hm; [|destruct (N.ltb_spec budget (vlen (hw_cells r)));
    [|destruct (N.ltb_spec (N.min MAX_HISTORY_RANGE_BYTES MAX_FRAME_PAYLOAD)
                  (sat_add usize_max used (encoded_len r))) as [|Hroom]]].
  1-3: injection Heq as <- <-; exists (r :: rows); cbn; split_and!; (done || lia).
  apply orb_false_iff in Hm as [_ Hm]. apply N.leb_gt in Hm.
  destruct (admit_loop rows _ _ _ _) as [rest tr1] eqn:Hrest. injection Heq as <- <-.
  replace (N.min MAX_HISTORY_RANGE_BYTES MAX_FRAME_PAYLOAD) with MAX_HISTORY_RANGE_BYTES in Hroom by done.
  destruct (sat_add_room used (encoded_len r) Hroom) as [Hsum Hrow]. apply encoded_len_row in Hrow.
  destruct (IH _ _ _ _ Hrest Hroom) as (left & -> & Hl & Hn & Hc & Hb); [lia|]. exists left.
  change (enc_all row_encode (r :: rest)) with (row_encode r ++ enc_all row_encode rest).
  cbn [total_cells foldr]. fold (total_cells rest). rewrite length_app, length_cons. 
  split_and!; [done|done|lia|lia|lia].
Qed.

(** * Trimming the sidecar *)

Lemma sidecar_end_ge s cells end_ : end_ ≤ foldl (sidecar_end s) end_ cells.
Proof.
  revert end_. induction cells as [|c cells IH]; intros end_; cbn; [lia|].
  etransitivity; [|apply IH]. unfold sidecar_end. repeat case_match; lia.
Qed.

Lemma sidecar_end_record s c off b end_ :
  has_sidecar c = true → hc_reserved c = off → fits 2 off → record_at s off b →
  off + 2 + vlen b ≤ sidecar_end s end_ c.
Proof.
  intros Hc <- Hf Hr. destruct (record_len _ _ _ Hr) as [Hl Hle]. unfold sidecar_end. rewrite Hc, Hle. cbn [negb].
  rewrite (proj2 (N.ltb_ge _ _)) by done. destruct Hr as (_ & _ & _ & _ & _ & Hb & _).
  unfold sat_add, usize_max, u64_max, fits, MAX_HISTORY_GRAPHEME_BYTES in *.
  change (256 ^ N.of_nat 2) with 65536 in Hf. lia.
Qed.

Lemma shows_trim s cells c v end_ :
  c ∈ cells → shows s c v → shows (take (N.to_nat (foldl (sidecar_end s) end_ cells)) s) c v.
Proof.
  intros Hin Hsh. constructor; try apply Hsh. destruct Hsh as [(_ & _ & _ & _ & Hr) Ht _ _ _ _ _].
  destruct (has_sidecar c) eqn:Hs; [|done]. apply record_at_take; [done|]. rewrite N2Nat.id.
  revert end_. induction Hin as [c cells|c c' cells _ IH]; intros end_; cbn [foldl]; [|by apply IH].
  etransitivity; [|apply sidecar_end_ge]. by eapply sidecar_end_record.
Qed.

Lemma flat_wire_cells rows : (flat_wire rows).*2 = all_cells rows.
Proof.
  unfold flat_wire, all_cells. induction rows as [|r rows IH]; [done|]. cbn. rewrite fmap_app, IH. f_equal.
  rewrite <-list_fmap_compose. apply list_fmap_id.
Qed.

Lemma shows_at_trim s rows ys :
  Forall2 (shows_at s) (flat_wire rows) ys →
  Forall2 (shows_at (take (N.to_nat (foldl (sidecar_end s) 0 (all_cells rows))) s)) (flat_wire rows) ys.
Proof.
  intros H. apply Forall2_same_length_lookup_2; [by eapply Forall2_length|].
  intros i x y Hx Hy. destruct (Forall2_lookup_lr _ _ _ _ _ _ H Hx Hy) as [Hid Hsh]. split; [done|].
  apply shows_trim; [|done]. rewrite <-flat_wire_cells. apply list_elem_of_fmap.
  exists x. split; [done|]. by eapply list_elem_of_lookup_2.
Qed.

(** * Snapshots whose cells show *)

Lemma shown_checks s cells (ys : list (N * CellView)) : Forall2 (λ c y, shows s c y.2) cells ys → check_cells cells s = ok tt.
Proof.
  induction 1 as [|c [id v] cells ys Hsh _ IH]; [done|]. cbn [check_cells].
  destruct (shows_read _ _ _ Hsh) as [t ->]. done.
Qed.

Lemma shown_cells s rows (ys : list (N * CellView)) :
  Forall2 (shows_at s) (flat_wire rows) ys → Forall2 (λ c y, shows s c y.2) (all_cells rows) ys.
Proof.
  intros H. rewrite <-flat_wire_cells. apply Forall2_fmap_l. eapply Forall2_impl; [done|]. by intros ?? [].
Qed.

Lemma shown_rows s rows (ys : list (N * CellView)) :
  Forall2 (shows_at s) (flat_wire rows) ys → Forall (λ r, fits 8 (hw_line_id r) ∧ hw_line_id r ≠ 0) rows →
  Forall row_ok rows.
Proof.
  intros H%shown_cells Hid. assert (Forall cell_ok (all_cells rows)) as Hc.
  { clear -H. induction H as [|c y cs ys [] _ IH]; by constructor. }
  unfold all_cells in Hc. apply Forall_bind in Hc.
  apply Forall_forall. intros r Hr. rewrite Forall_forall in Hid, Hc. destruct (Hid r Hr) as [H1 H2]. split; [done|]. split; [done|]. by apply Hc.
Qed.

Lemma shown_views m ys :
  Forall2 (shows_at (hn_sidecar m)) (flat_wire (hn_rows m)) ys → snapshot_views m = Some ys.
Proof.
  unfold snapshot_views. induction 1 as [|[id c] [id' v] xs ys [Hid Hsh] _ IH]; [done|].
  cbn in *. rewrite (shows_view _ _ _ Hsh). cbn. by rewrite IH, Hid.
Qed.

Lemma flat_wire_app a b : flat_wire (a ++ b) = flat_wire a ++ flat_wire b.
Proof. unfold flat_wire. by rewrite bind_app. Qed.

Lemma length_trimmed s n : vlen (take n s) ≤ vlen s.
Proof. rewrite length_take. lia. Qed.

(** The snapshot of a reply is well formed and shows a prefix of the source cells. *)
Lemma history_reply_shows request revision rows :
  wire_ok request → fits 8 revision →
  Forall (λ row, fits 8 row.1 ∧ row.1 ≠ 0 ∧ Forall source_ok row.2) rows →
  let m := history_reply request revision rows in
  snapshot_ok m ∧
  vlen (hn_rows m) ≤ hq_max_lines request ∧ total_cells (hn_rows m) ≤ hq_max_cells request ∧
  ∃ sent left, flat_source rows = sent ++ left ∧ (hn_status m = HRS_Complete → left = []) ∧
    Forall2 (shows_at (hn_sidecar m)) (flat_wire (hn_rows m)) sent.
Proof.
  intros Hq Hrev Hrows. cbv zeta. unfold history_reply.
  destruct (pack_source_rows rows) as [[packed s] ptr] eqn:Hpack.
  destruct (admit_rows packed _ _ _) as [adm btr] eqn:Hadm.
  destruct (pack_rows_shows rows [] packed s ptr) as (t & sent & left & Hs & Hot & Hls & Hflat & Hptr & Hsh & Hids);
    [by eapply Forall_impl; [done|intros ? (_ & _ & ?)]|constructor|done|done|].
  cbn [app] in Hs. subst t. unfold admit_rows in Hadm.
  assert (sat_add usize_max 32 (vlen s) = 32 + vlen s) as Hused.
  { unfold sat_add, usize_max, u64_max, MAX_HISTORY_SIDECAR_BYTES in *. lia. }
  rewrite Hused in Hadm.
  destruct (admit_loop_spec _ _ _ _ _ _ _ Hadm) as (cut & -> & Hbtr & Hlines & Hcells & Hbytes);
    [unfold MAX_HISTORY_RANGE_BYTES, MAX_HISTORY_SIDECAR_BYTES in *; lia|lia|].
  rewrite flat_wire_app in Hsh. apply Forall2_app_inv_l in Hsh as (ys1 & ys2 & Hsh & Hsh2 & ->).
  apply Forall_app in Hids as [Hids _]. apply shows_at_trim in Hsh.
  destruct Hq as (_ & Hq1 & Hq2 & _ & _ & _ & _ & _ & _ & Hq3).
  unfold range_bounds_bad in Hq3. rewrite !orb_false_iff, !N.ltb_ge in Hq3. destruct Hq3 as [[[_ Hml] _] Hmc].
  pose proof (length_trimmed s (N.to_nat (foldl (sidecar_end s) 0 (all_cells adm)))) as Htrim.
  unfold trim_sidecar_to_rows. cbn [hn_rows hn_sidecar hn_status hn_request_id hn_block_id hn_revision].
  split; [|split_and!; [lia|done|]].
  - constructor; cbn [hn_rows hn_sidecar hn_status hn_request_id hn_block_id hn_revision]; try done; try lia.
    + eapply shown_rows; [done|]. apply (Forall_impl _ _ _ Hids). intros r Hr.
      apply list_elem_of_fmap in Hr as ([id cells] & Hr & Hin). rewrite Hr. cbn.
      by destruct (proj1 (Forall_forall _ _) Hrows _ Hin) as (? & ? & _).
    + by apply Forall_take.
    + eapply shown_checks, shown_cells, Hsh.
    + unfold snapshot_bytes. rewrite !length_app. cbn [hn_rows hn_sidecar].
      match goal with |- context [snapshot_header ?m] => pose proof (length_snapshot_header m) end. lia.
  - exists ys1, (ys2 ++ left). rewrite (assoc_L (++)). split_and!; [done| |done].
    destruct btr; [done|]. destruct ptr; [by rewrite orb_true_r|]. intros _.
    rewrite (Hptr eq_refl). rewrite (Hbtr eq_refl) in Hsh2. by inversion Hsh2.
Qed.

(** C37. A history reply encodes at the first attempt, and the client reads back what the
    terminal returned.  For any admissible request and any rows of valid cells, packing,
    admission and trimming give a snapshot that [try_encode] accepts at once (the shrink
    loop never runs), the payload decodes to the same snapshot, it respects the line and
    cell limits of the request, and its cells read with the sidecar are a prefix of the
    source cells: text, width, continuation, colours and style.  A reply marked Complete
    carries all of them. *)
Theorem history_reply_exact request revision rows :
  wire_ok request → fits 8 revision →
  Forall (λ row, fits 8 row.1 ∧ row.1 ≠ 0 ∧ Forall source_ok row.2) rows →
  let m := history_reply request revision rows in
  ∃ p sent left,
    encode_reply 1 m = Some (Some p) ∧ snapshot_decode p = ok m ∧
    vlen (hn_rows m) ≤ hq_max_lines request ∧ total_cells (hn_rows m) ≤ hq_max_cells request ∧
    flat_source rows = sent ++ left ∧ snapshot_views m = Some sent ∧
    (hn_status m = HRS_Complete → left = []).
Proof.
  intros Hq Hrev Hrows m. destruct (history_reply_shows request revision rows Hq Hrev Hrows)
    as (Hok & Hl & Hc & sent & left & Hflat & Hst & Hsh). fold m in Hok, Hl, Hc, Hst, Hsh.
  exists (snapshot_bytes m), sent, left. cbn [encode_reply]. rewrite snapshot_try_encode_ok by done.
  split_and!; try done; [by apply snapshot_decode_ok|by apply shown_views].
Qed.

(** * The shrink loop ends *)

Definition weight (rows : list HistoryRow) : nat := foldr (λ r n, (S (length (hw_cells r)) + n)%nat) 0%nat rows.

Lemma weight_app a b : weight (a ++ b) = (weight a + weight b)%nat.
Proof. unfold weight. induction a as [|r a IH]; cbn; [done|]. cbn in IH. lia. Qed.

Lemma encode_rows_total rows out n : ∃ r, encode_rows out rows n = Some r.
Proof.
  revert out. induction rows as [|r rows IH]; intros out; cbn [encode_rows]; [by eexists|].
  repeat case_match; try by eexists. apply IH.
Qed.

Lemma snapshot_try_encode_total m : ∃ r, snapshot_try_encode m = Some r.
Proof.
  unfold snapshot_try_encode. case_match; [by eexists|].
  destruct (check_cells_total (all_cells (hn_rows m)) (hn_sidecar m)) as [[] ->]; cbn [try_]; [|by eexists].
  destruct (encode_rows_total (hn_rows m) (snapshot_header m) (vlen (hn_sidecar m))) as [[] ->]; cbn [try_];
    [|by eexists].
  case_match; by eexists.
Qed.

Lemma drop_continuations_length cs : (length (drop_continuations cs) ≤ length cs)%nat.
Proof. induction cs as [|c cs IH]; cbn; [done|]. case_match; cbn; lia. Qed.

Lemma shrink_smaller m m' : shrink_for_encode m = Some (true, m') → (weight (hn_rows m') < weight (hn_rows m))%nat.
Proof.
  unfold shrink_for_encode. destruct (snapshot_try_encode m) as [[|]|]; [done| |done].
  destruct (reverse (hn_rows m)) as [|last before] eqn:Hr; [done|].
  assert (hn_rows m = reverse before ++ [last]) as ->
    by (rewrite <-(reverse_involutive (hn_rows m)), Hr; by rewrite reverse_cons).
  intros Heq. apply (inj Some), pair_eq in Heq as [_ <-]. unfold trim_sidecar_to_rows. cbn [hn_rows]. rewrite weight_app.
  pose proof (drop_continuations_length (reverse (hw_cells last))) as Hd. rewrite length_reverse in Hd.
  replace (weight [last]) with (S (length (hw_cells last))) by (cbn; lia).
  destruct (reverse (hw_cells last)) as [|c cs] eqn:Hc; [lia|].
  destruct (drop_continuations (c :: cs)) as [|x [|y kept]]; [lia..|].
  rewrite weight_app. cbn [length] in Hd. unfold weight at 2. cbn [foldr hw_cells]. rewrite length_reverse. cbn [length]. lia.
Qed.

(** The Runtime's loop always ends: it sends a payload or reports the capacity. *)
Lemma encode_reply_ends fuel m : (weight (hn_rows m) < fuel)%nat → is_Some (encode_reply fuel m).
Proof.
  revert m. induction fuel as [|fuel IH]; intros m Hf; [lia|]. cbn [encode_reply].
  destruct (snapshot_try_encode_total m) as [[p|e] He]; rewrite He; [by eexists|].
  destruct (shrink_for_encode m) as [[[] m']|] eqn:Hs; [|by eexists|].
  - apply shrink_smaller in Hs. case_match; [by eexists|]. apply IH. lia.
  - unfold shrink_for_encode in Hs. rewrite He in Hs. by case_match.
Qed.

(** * A reply with a combining and a wide cell *)

Definition demo_request : HistoryRangeRequest := mkHistoryRangeRequest 7 1 2 3 4 10 100 0.
Definition demo_rows : list (N * list HistorySourceCell) :=
  [(3, [mkSourceCell [101; 204; 129] 1 false 0 0 1; mkSourceCell [228; 184; 173] 2 false 16777217 0 0;
        mkSourceCell [] 0 true 16777217 0 0]);
   (4, [mkSourceCell [97] 1 false 0 0 4])].

Lemma text_ok (text : list N) :
  forallb (λ x, is_scalar x && negb (x =? 0)) text = true →
  Forall (λ x, is_scalar x = true) text ∧ 0 ∉ text.
Proof.
  induction text as [|x text IH]; cbn; [intros _; split; [constructor|set_solver]|].
  rewrite !andb_true_iff, negb_true_iff, N.eqb_neq. intros [[Hx Hz] [Ht Hn]%IH].
  split; [by constructor|]. rewrite not_elem_of_cons. by split.
Qed.

Lemma demo_rows_ok : Forall (λ row, fits 8 row.1 ∧ row.1 ≠ 0 ∧ Forall source_ok row.2) demo_rows.
Proof.
  repeat constructor; try done.
  - exists [101; 769]. split; [done|by apply text_ok].
  - exists [20013]. split; [done|by apply text_ok].
  - exists []. split; [done|by apply text_ok].
  - exists [97]. split; [done|by apply text_ok].
Qed.

Lemma history_reply_exact_witness :
  ∃ p sent left,
    encode_reply 1 (history_reply demo_request 5 demo_rows) = Some (Some p) ∧
    snapshot_decode p = ok (history_reply demo_request 5 demo_rows) ∧
    flat_source demo_rows = sent ++ left ∧
    snapshot_views (history_reply demo_request 5 demo_rows) = Some sent ∧ left = [].
Proof.
  destruct (history_reply_exact demo_request 5 demo_rows) as (p & sent & left & H1 & H2 & _ & _ & H3 & H4 & H5);
    [split_and!; done|done|apply demo_rows_ok|].
  exists p, sent, left. split_and!; try done. apply H5. vm_compute. reflexivity.
Defined.
