(* ===== verification/WireMessage.v ===== *)
(** Whole messages, [crates/seyal-protocol/src/framing/message.rs]: the message types, the
    payload dispatch and frames; the identity envelope of presentation frames
    ([presentation.rs]); the block-state payload of [pass8.rs]. *)

From S2P Require Import Prelude Utf8 Wire WirePane WireControl WireText WireBlocks WireHistory.

Implicit Types (bytes body pre rest p q s payload frame : list N).

(** * Messages *)

Inductive MessageType :=
  | MT_ClientHello | MT_ServerHello | MT_ListExecutions | MT_ExecutionList | MT_Attach
  | MT_Attached | MT_Detach | MT_Detached | MT_Input | MT_Resize | MT_Resync
  | MT_DisplaySnapshot | MT_DisplayDelta | MT_Lifecycle | MT_Error | MT_Goodbye | MT_TerminalKey
  | MT_ResizeRequest | MT_ResizeResult | MT_ComposerCommand | MT_BlockTimeline
  | MT_ComposerResult | MT_ComposerStatus | MT_HistoryRangeRequest | MT_HistoryRangeSnapshot
  | MT_DisplaySnapshotV2 | MT_DisplayDeltaV2 | MT_TerminalKeyV2 | MT_Paste | MT_HostSelection
  | MT_CopiedText | MT_HostSearch | MT_TerminalMouse | MT_ViewportLineIds
  | MT_CreateExecutionRequest | MT_CreateExecutionResult | MT_TerminateExecutionRequest
  | MT_TerminateExecutionResult | MT_SuspendDelivery | MT_ResumeDelivery | MT_SessionOffer
  | MT_SessionConsent | MT_SessionStatus | MT_ComposerTarget | MT_MintWorkspaceRequest
  | MT_MintWorkspaceResult.

Definition MessageType_tag (x : MessageType) : N :=
  match x with
  | MT_ClientHello => 1 | MT_ServerHello => 2 | MT_ListExecutions => 3 | MT_ExecutionList => 4
  | MT_Attach => 5 | MT_Attached => 6 | MT_Detach => 7 | MT_Detached => 8 | MT_Input => 9
  | MT_Resize => 10 | MT_Resync => 11 | MT_DisplaySnapshot => 12 | MT_DisplayDelta => 13
  | MT_Lifecycle => 14 | MT_Error => 15 | MT_Goodbye => 16 | MT_TerminalKey => 17
  | MT_ResizeRequest => 18 | MT_ResizeResult => 19 | MT_ComposerCommand => 20
  | MT_BlockTimeline => 21 | MT_ComposerResult => 22 | MT_ComposerStatus => 23
  | MT_HistoryRangeRequest => 24 | MT_HistoryRangeSnapshot => 25 | MT_DisplaySnapshotV2 => 27
  | MT_DisplayDeltaV2 => 28 | MT_TerminalKeyV2 => 29 | MT_Paste => 30 | MT_HostSelection => 31
  | MT_CopiedText => 32 | MT_HostSearch => 33 | MT_TerminalMouse => 34
  | MT_ViewportLineIds => 35 | MT_CreateExecutionRequest => 36 | MT_CreateExecutionResult => 37
  | MT_TerminateExecutionRequest => 38 | MT_TerminateExecutionResult => 39
  | MT_SuspendDelivery => 40 | MT_ResumeDelivery => 41 | MT_SessionOffer => 42
  | MT_SessionConsent => 43 | MT_SessionStatus => 44 | MT_ComposerTarget => 45
  | MT_MintWorkspaceRequest => 46 | MT_MintWorkspaceResult => 47 end.

Definition MessageType_from_u16 (value : N) : option MessageType :=
  match value with
  | 1 => Some MT_ClientHello | 2 => Some MT_ServerHello | 3 => Some MT_ListExecutions
  | 4 => Some MT_ExecutionList | 5 => Some MT_Attach | 6 => Some MT_Attached
  | 7 => Some MT_Detach | 8 => Some MT_Detached | 9 => Some MT_Input | 10 => Some MT_Resize
  | 11 => Some MT_Resync | 12 => Some MT_DisplaySnapshot | 13 => Some MT_DisplayDelta
  | 14 => Some MT_Lifecycle | 15 => Some MT_Error | 16 => Some MT_Goodbye
  | 17 => Some MT_TerminalKey | 18 => Some MT_ResizeRequest | 19 => Some MT_ResizeResult
  | 20 => Some MT_ComposerCommand | 21 => Some MT_BlockTimeline | 22 => Some MT_ComposerResult
  | 23 => Some MT_ComposerStatus | 24 => Some MT_HistoryRangeRequest
  | 25 => Some MT_HistoryRangeSnapshot | 27 => Some MT_DisplaySnapshotV2
  | 28 => Some MT_DisplayDeltaV2 | 29 => Some MT_TerminalKeyV2 | 30 => Some MT_Paste
  | 31 => Some MT_HostSelection | 32 => Some MT_CopiedText | 33 => Some MT_HostSearch
  | 34 => Some MT_TerminalMouse | 35 => Some MT_ViewportLineIds
  | 36 => Some MT_CreateExecutionRequest | 37 => Some MT_CreateExecutionResult
  | 38 => Some MT_TerminateExecutionRequest | 39 => Some MT_TerminateExecutionResult
  | 40 => Some MT_SuspendDelivery | 41 => Some MT_ResumeDelivery | 42 => Some MT_SessionOffer
  | 43 => Some MT_SessionConsent | 44 => Some MT_SessionStatus | 45 => Some MT_ComposerTarget
  | 46 => Some MT_MintWorkspaceRequest | 47 => Some MT_MintWorkspaceResult | _ => None end.

Inductive Message :=
| Msg_ClientHello (m : ClientHello)
| Msg_ServerHello (m : ServerHello)
| Msg_ListExecutions
| Msg_ExecutionList (m : list ExecutionListEntry)
| Msg_Attach (m : Attach)
| Msg_Attached (m : Attached)
| Msg_Detach (m : AttachmentPayload)
| Msg_Detached (m : AttachmentPayload)
| Msg_Input (m : InputRef)
| Msg_Resize (m : Resize)
| Msg_Resync (m : AttachmentPayload)
| Msg_DisplaySnapshot (payload : list N)
| Msg_DisplayDelta (payload : list N)
| Msg_Lifecycle (m : LifecycleMessage)
| Msg_Error (m : ErrorMessage)
| Msg_Goodbye
| Msg_TerminalKey (m : TerminalKey)
| Msg_ResizeRequest (m : ResizeRequest)
| Msg_ResizeResult (m : ResizeResult)
| Msg_ComposerCommand (m : ComposerCommandRef)
| Msg_BlockTimeline (m : BlockTimeline)
| Msg_ComposerResult (m : ComposerResult)
| Msg_ComposerStatus (m : ComposerStatus)
| Msg_HistoryRangeRequest (m : HistoryRangeRequest)
| Msg_HistoryRangeSnapshot (m : HistoryRangeSnapshot)
| Msg_DisplaySnapshotV2 (payload : list N)
| Msg_DisplayDeltaV2 (payload : list N)
| Msg_TerminalKeyV2 (m : TerminalKeyV2)
| Msg_Paste (m : InputRef)
| Msg_HostSelection (m : HostSelection)
| Msg_CopiedText (m : InputRef)
| Msg_HostSearch (m : HostSearch)
| Msg_TerminalMouse (m : TerminalMouse)
| Msg_ViewportLineIds (m : ViewportLineIds)
| Msg_CreateExecutionRequest (m : CreateExecutionRequest)
| Msg_CreateExecutionResult (m : CreateExecutionResult)
| Msg_TerminateExecutionRequest (m : TerminateExecutionRequest)
| Msg_TerminateExecutionResult (m : TerminateExecutionResult)
| Msg_SuspendDelivery (m : SuspendDelivery)
| Msg_ResumeDelivery (m : ResumeDelivery)
| Msg_SessionOffer (m : SessionOffer)
| Msg_SessionConsent (m : SessionConsent)
| Msg_SessionStatus (m : SessionStatus)
| Msg_ComposerTarget (m : ComposerTarget)
| Msg_MintWorkspaceRequest (m : MintWorkspaceRequest)
| Msg_MintWorkspaceResult (m : MintWorkspaceResult).

(** [Message::X(X::decode(payload)?)]. *)
Definition decode_as {A} `{WireFormat A} (k : A → Message) (payload : list N) : W Message :=
  let? m := decode payload in ok (k m).


Definition decode_message (header : FrameHeader) (payload : list N) : W Message :=
  if negb (vlen payload =? payload_len header) then err ExactLengthMismatch else
  let? kind := ok_or UnknownMessageType (MessageType_from_u16 (message_type header)) in
  match kind with
  | MT_ClientHello => decode_as Msg_ClientHello payload
  | MT_ServerHello => decode_as Msg_ServerHello payload
  | MT_ListExecutions => if negb (bool_decide (payload = [])) then err ExactLengthMismatch else ok Msg_ListExecutions
  | MT_ExecutionList => decode_as Msg_ExecutionList payload
  | MT_Attach => decode_as Msg_Attach payload
  | MT_Attached => decode_as Msg_Attached payload
  | MT_Detach => decode_as Msg_Detach payload
  | MT_Detached => decode_as Msg_Detached payload
  | MT_Input => decode_as Msg_Input payload
  | MT_Resize => decode_as Msg_Resize payload
  | MT_Resync => decode_as Msg_Resync payload
  | MT_DisplaySnapshot => ok (Msg_DisplaySnapshot payload)
  | MT_DisplayDelta => ok (Msg_DisplayDelta payload)
  | MT_Lifecycle => decode_as Msg_Lifecycle payload
  | MT_Error => decode_as Msg_Error payload
  | MT_Goodbye => if negb (bool_decide (payload = [])) then err ExactLengthMismatch else ok Msg_Goodbye
  | MT_TerminalKey => decode_as Msg_TerminalKey payload
  | MT_ResizeRequest => decode_as Msg_ResizeRequest payload
  | MT_ResizeResult => decode_as Msg_ResizeResult payload
  | MT_ComposerCommand => decode_as Msg_ComposerCommand payload
  | MT_BlockTimeline => decode_as Msg_BlockTimeline payload
  | MT_ComposerResult => decode_as Msg_ComposerResult payload
  | MT_ComposerStatus => decode_as Msg_ComposerStatus payload
  | MT_HistoryRangeRequest => decode_as Msg_HistoryRangeRequest payload
  | MT_HistoryRangeSnapshot => decode_as Msg_HistoryRangeSnapshot payload
  | MT_DisplaySnapshotV2 => ok (Msg_DisplaySnapshotV2 payload)
  | MT_DisplayDeltaV2 => ok (Msg_DisplayDeltaV2 payload)
  | MT_TerminalKeyV2 => decode_as Msg_TerminalKeyV2 payload
  | MT_Paste => decode_as Msg_Paste payload
  | MT_HostSelection => decode_as Msg_HostSelection payload
  | MT_CopiedText => decode_as Msg_CopiedText payload
  | MT_HostSearch => decode_as Msg_HostSearch payload
  | MT_TerminalMouse => decode_as Msg_TerminalMouse payload
  | MT_ViewportLineIds => decode_as Msg_ViewportLineIds payload
  | MT_CreateExecutionRequest => decode_as Msg_CreateExecutionRequest payload
  | MT_CreateExecutionResult => decode_as Msg_CreateExecutionResult payload
  | MT_TerminateExecutionRequest => decode_as Msg_TerminateExecutionRequest payload
  | MT_TerminateExecutionResult => decode_as Msg_TerminateExecutionResult payload
  | MT_SuspendDelivery => decode_as Msg_SuspendDelivery payload
  | MT_ResumeDelivery => decode_as Msg_ResumeDelivery payload
  | MT_SessionOffer => decode_as Msg_SessionOffer payload
  | MT_SessionConsent => decode_as Msg_SessionConsent payload
  | MT_SessionStatus => decode_as Msg_SessionStatus payload
  | MT_ComposerTarget => decode_as Msg_ComposerTarget payload
  | MT_MintWorkspaceRequest => decode_as Msg_MintWorkspaceRequest payload
  | MT_MintWorkspaceResult => decode_as Msg_MintWorkspaceResult payload
  end.

Definition encode_frame (kind : MessageType) (payload : list N) : list N :=
  FrameHeader_encode (FrameHeader_new (MessageType_tag kind) (vlen payload mod 2 ^ 32)) ++ payload.

(** The type under which a message is sent, its payload, and which messages a sender
    may build: each payload is valid for its own type. *)
Definition Message_type (m : Message) : MessageType :=
  match m with
  | Msg_ClientHello _ => MT_ClientHello | Msg_ServerHello _ => MT_ServerHello
  | Msg_ListExecutions => MT_ListExecutions | Msg_ExecutionList _ => MT_ExecutionList
  | Msg_Attach _ => MT_Attach | Msg_Attached _ => MT_Attached | Msg_Detach _ => MT_Detach
  | Msg_Detached _ => MT_Detached | Msg_Input _ => MT_Input | Msg_Resize _ => MT_Resize
  | Msg_Resync _ => MT_Resync | Msg_DisplaySnapshot _ => MT_DisplaySnapshot
  | Msg_DisplayDelta _ => MT_DisplayDelta | Msg_Lifecycle _ => MT_Lifecycle
  | Msg_Error _ => MT_Error | Msg_Goodbye => MT_Goodbye | Msg_TerminalKey _ => MT_TerminalKey
  | Msg_ResizeRequest _ => MT_ResizeRequest | Msg_ResizeResult _ => MT_ResizeResult
  | Msg_ComposerCommand _ => MT_ComposerCommand | Msg_BlockTimeline _ => MT_BlockTimeline
  | Msg_ComposerResult _ => MT_ComposerResult | Msg_ComposerStatus _ => MT_ComposerStatus
  | Msg_HistoryRangeRequest _ => MT_HistoryRangeRequest
  | Msg_HistoryRangeSnapshot _ => MT_HistoryRangeSnapshot
  | Msg_DisplaySnapshotV2 _ => MT_DisplaySnapshotV2 | Msg_DisplayDeltaV2 _ => MT_DisplayDeltaV2
  | Msg_TerminalKeyV2 _ => MT_TerminalKeyV2 | Msg_Paste _ => MT_Paste
  | Msg_HostSelection _ => MT_HostSelection | Msg_CopiedText _ => MT_CopiedText
  | Msg_HostSearch _ => MT_HostSearch | Msg_TerminalMouse _ => MT_TerminalMouse
  | Msg_ViewportLineIds _ => MT_ViewportLineIds
  | Msg_CreateExecutionRequest _ => MT_CreateExecutionRequest
  | Msg_CreateExecutionResult _ => MT_CreateExecutionResult
  | Msg_TerminateExecutionRequest _ => MT_TerminateExecutionRequest
  | Msg_TerminateExecutionResult _ => MT_TerminateExecutionResult
  | Msg_SuspendDelivery _ => MT_SuspendDelivery | Msg_ResumeDelivery _ => MT_ResumeDelivery
  | Msg_SessionOffer _ => MT_SessionOffer | Msg_SessionConsent _ => MT_SessionConsent
  | Msg_SessionStatus _ => MT_SessionStatus | Msg_ComposerTarget _ => MT_ComposerTarget
  | Msg_MintWorkspaceRequest _ => MT_MintWorkspaceRequest
  | Msg_MintWorkspaceResult _ => MT_MintWorkspaceResult end.

Definition Message_payload (m : Message) : list N :=
  match m with
  | Msg_ClientHello m => encode m
  | Msg_ServerHello m => encode m
  | Msg_ListExecutions => []
  | Msg_ExecutionList m => encode m
  | Msg_Attach m => encode m
  | Msg_Attached m => encode m
  | Msg_Detach m => encode m
  | Msg_Detached m => encode m
  | Msg_Input m => encode m
  | Msg_Resize m => encode m
  | Msg_Resync m => encode m
  | Msg_DisplaySnapshot m => m
  | Msg_DisplayDelta m => m
  | Msg_Lifecycle m => encode m
  | Msg_Error m => encode m
  | Msg_Goodbye => []
  | Msg_TerminalKey m => encode m
  | Msg_ResizeRequest m => encode m
  | Msg_ResizeResult m => encode m
  | Msg_ComposerCommand m => encode m
  | Msg_BlockTimeline m => encode m
  | Msg_ComposerResult m => encode m
  | Msg_ComposerStatus m => encode m
  | Msg_HistoryRangeRequest m => encode m
  | Msg_HistoryRangeSnapshot m => encode m
  | Msg_DisplaySnapshotV2 m => m
  | Msg_DisplayDeltaV2 m => m
  | Msg_TerminalKeyV2 m => encode m
  | Msg_Paste m => encode m
  | Msg_HostSelection m => encode m
  | Msg_CopiedText m => encode m
  | Msg_HostSearch m => encode m
  | Msg_TerminalMouse m => encode m
  | Msg_ViewportLineIds m => encode m
  | Msg_CreateExecutionRequest m => encode m
  | Msg_CreateExecutionResult m => encode m
  | Msg_TerminateExecutionRequest m => encode m
  | Msg_TerminateExecutionResult m => encode m
  | Msg_SuspendDelivery m => encode m
  | Msg_ResumeDelivery m => encode m
  | Msg_SessionOffer m => encode m
  | Msg_SessionConsent m => encode m
  | Msg_SessionStatus m => encode m
  | Msg_ComposerTarget m => encode m
  | Msg_MintWorkspaceRequest m => encode m
  | Msg_MintWorkspaceResult m => encode m
  end.

Definition Message_ok (m : Message) : Prop :=
  match m with
  | Msg_ClientHello m => wire_ok m
  | Msg_ServerHello m => wire_ok m
  | Msg_ListExecutions => True
  | Msg_ExecutionList m => wire_ok m
  | Msg_Attach m => wire_ok m
  | Msg_Attached m => wire_ok m
  | Msg_Detach m => wire_ok m
  | Msg_Detached m => wire_ok m
  | Msg_Input m => wire_ok m
  | Msg_Resize m => wire_ok m
  | Msg_Resync m => wire_ok m
  | Msg_DisplaySnapshot m => octets m
  | Msg_DisplayDelta m => octets m
  | Msg_Lifecycle m => wire_ok m
  | Msg_Error m => wire_ok m
  | Msg_Goodbye => True
  | Msg_TerminalKey m => wire_ok m
  | Msg_ResizeRequest m => wire_ok m
  | Msg_ResizeResult m => wire_ok m
  | Msg_ComposerCommand m => wire_ok m
  | Msg_BlockTimeline m => wire_ok m
  | Msg_ComposerResult m => wire_ok m
  | Msg_ComposerStatus m => wire_ok m
  | Msg_HistoryRangeRequest m => wire_ok m
  | Msg_HistoryRangeSnapshot m => wire_ok m
  | Msg_DisplaySnapshotV2 m => octets m
  | Msg_DisplayDeltaV2 m => octets m
  | Msg_TerminalKeyV2 m => wire_ok m
  | Msg_Paste m => wire_ok m
  | Msg_HostSelection m => wire_ok m
  | Msg_CopiedText m => wire_ok m
  | Msg_HostSearch m => wire_ok m
  | Msg_TerminalMouse m => wire_ok m
  | Msg_ViewportLineIds m => wire_ok m
  | Msg_CreateExecutionRequest m => wire_ok m
  | Msg_CreateExecutionResult m => wire_ok m
  | Msg_TerminateExecutionRequest m => wire_ok m
  | Msg_TerminateExecutionResult m => wire_ok m
  | Msg_SuspendDelivery m => wire_ok m
  | Msg_ResumeDelivery m => wire_ok m
  | Msg_SessionOffer m => wire_ok m
  | Msg_SessionConsent m => wire_ok m
  | Msg_SessionStatus m => wire_ok m
  | Msg_ComposerTarget m => wire_ok m
  | Msg_MintWorkspaceRequest m => wire_ok m
  | Msg_MintWorkspaceResult m => wire_ok m
  end.

(** * The presentation envelope *)

Definition PREFIX_LEN : N := 24.

Record PresentationEnvelope := mkEnvelope {
  pe_attachment_id : N; pe_resume_sequence : N; pe_payload : list N }.

Definition is_presentation_message (mt : N) : bool :=
  match mt with 12 | 13 | 21 | 26 | 27 | 28 | 35 => true | _ => false end.

Definition envelope_presentation_frame frame (attachment_id resume_sequence : N) : W (list N) :=
  if vlen frame <? HEADER_LEN then err TruncatedHeader else
  hb ← vslice frame 0 HEADER_LEN;
  let? header := FrameHeader_decode hb in
  if negb (vlen frame =? HEADER_LEN + payload_len header) then err ExactLengthMismatch else
  if negb (is_presentation_message (message_type header)) then err MalformedPayload else
  let? new_payload_len := ok_or LengthOverflow (checked_add usize_max (payload_len header) PREFIX_LEN) in
  if MAX_FRAME_PAYLOAD <? new_payload_len then err OversizedPayload else
  rest ← vfrom frame HEADER_LEN;
  ok (FrameHeader_encode (FrameHeader_new (message_type header) (new_payload_len mod 2 ^ 32))
      ++ id_to_bytes attachment_id ++ to_le 8 resume_sequence ++ rest).

Definition decode_presentation_envelope frame : W PresentationEnvelope :=
  if vlen frame <? HEADER_LEN then err TruncatedHeader else
  hb ← vslice frame 0 HEADER_LEN;
  let? header := FrameHeader_decode hb in
  if negb (vlen frame =? HEADER_LEN + payload_len header) then err ExactLengthMismatch else
  if negb (is_presentation_message (message_type header)) then err MalformedPayload else
  if payload_len header <? PREFIX_LEN then err TruncatedPayload else
  payload ← vfrom frame HEADER_LEN;
  id ← vslice payload 0 16;
  attachment_id ← attachment_id_from id;
  resume_sequence ← le_at payload 16 24;
  rest ← vfrom payload PREFIX_LEN;
  ok (mkEnvelope attachment_id resume_sequence rest).

(** * Block state *)

Definition BLOCK_STATE_MESSAGE_TYPE : N := 26.

Inductive BlockStateError :=
  | BSE_ExactLengthMismatch | BSE_ZeroExecutionId | BSE_ZeroBlockId | BSE_ZeroRevision
  | BSE_ZeroStartLineId | BSE_UnknownKind | BSE_UnknownState | BSE_NonzeroReserved.

Inductive BlockKind := BK_TerminalActivity.
Inductive BlockLifecycle := BL_Current | BL_Completed.

Definition BlockKind_tag (x : BlockKind) : N := match x with BK_TerminalActivity => 1 end.
Definition BlockKind_from_u8 (value : N) : result BlockStateError BlockKind :=
  match value with 1 => Ok BK_TerminalActivity | _ => Err BSE_UnknownKind end.
Definition BlockLifecycle_tag (x : BlockLifecycle) : N :=
  match x with BL_Current => 1 | BL_Completed => 2 end.
Definition BlockLifecycle_from_u8 (value : N) : result BlockStateError BlockLifecycle :=
  match value with 1 => Ok BL_Current | 2 => Ok BL_Completed | _ => Err BSE_UnknownState end.

Record BlockState := mkBlockState {
  bs_execution_id : N; bs_block_id : N; bs_revision : N; bs_start_line_id : N; bs_kind : BlockKind;
  bs_state : BlockLifecycle }.

Definition validate_nonzero (v : BlockState) : result BlockStateError unit :=
  if bool_decide (id_to_bytes (bs_execution_id v) = replicate 16 0) then Err BSE_ZeroExecutionId else
  if bool_decide (id_to_bytes (bs_block_id v) = replicate 16 0) then Err BSE_ZeroBlockId else
  if bs_revision v =? 0 then Err BSE_ZeroRevision else
  if bs_start_line_id v =? 0 then Err BSE_ZeroStartLineId else Ok tt.

Definition BlockState_encode (v : BlockState) : result BlockStateError (list N) :=
  match validate_nonzero v with
  | Err e => Err e
  | Ok _ =>
    Ok (id_to_bytes (bs_execution_id v) ++ id_to_bytes (bs_block_id v) ++ to_le 8 (bs_revision v)
        ++ to_le 8 (bs_start_line_id v) ++ [BlockKind_tag (bs_kind v)] ++ [BlockLifecycle_tag (bs_state v)]
        ++ replicate 6 0)
  end.

Definition BlockState_decode bytes : option (result BlockStateError BlockState) :=
  if negb (vlen bytes =? 56) then err BSE_ExactLengthMismatch else
  reserved ← vslice bytes 50 56;
  if negb (bool_decide (reserved = replicate 6 0)) then err BSE_NonzeroReserved else
  execution_id ← le_at bytes 0 16;
  block_id ← le_at bytes 16 32;
  revision ← le_at bytes 32 40;
  start_line_id ← le_at bytes 40 48;
  kind ← vget bytes 48;
  let? kind := Some (BlockKind_from_u8 kind) in
  state ← vget bytes 49;
  let? state := Some (BlockLifecycle_from_u8 state) in
  let value := mkBlockState execution_id block_id revision start_line_id kind state in
  let? _ := Some (validate_nonzero value) in
  ok value.

Definition encode_block_state_frame (v : BlockState) : result BlockStateError (list N) :=
  match BlockState_encode v with
  | Err e => Err e
  | Ok payload => Ok (FrameHeader_encode (FrameHeader_new BLOCK_STATE_MESSAGE_TYPE 56) ++ payload)
  end.

(** * Message types *)

Lemma from_u16_tag k : MessageType_from_u16 (MessageType_tag k) = Some k.
Proof. by destruct k. Qed.

Lemma tag_from_u16 n k : MessageType_from_u16 n = Some k → n = MessageType_tag k.
Proof.
  destruct n as [|n]; [done|].
  repeat (destruct n as [n|n|]; first [discriminate | intros [= <-]; reflexivity | idtac]).
Qed.

Lemma tag_fits k : fits 2 (MessageType_tag k).
Proof. by destruct k. Qed.
#[export] Hint Resolve tag_fits : wire.

(** * Headers *)

Lemma length_header h : length (FrameHeader_encode h) = 24%nat.
Proof. unfold FrameHeader_encode. by rewrite !length_app, !length_to_le. Qed.

Lemma header_octets h : octets (FrameHeader_encode h).
Proof. unfold FrameHeader_encode. rewrite !octets_app. split_and!; eauto with wire. by repeat constructor. Qed.

(** A header is read from any bytes that start with it. *)
Lemma header_decode_encode h rest :
  fits 2 (message_type h) → flags h = 0 → payload_len h ≤ MAX_FRAME_PAYLOAD →
  FrameHeader_decode (FrameHeader_encode h ++ rest) = ok h.
Proof.
  destruct h as [mt fl len]. cbn [message_type flags payload_len]. intros Hmt -> Hlen.
  unfold FrameHeader_decode. rewrite length_app, length_header.
  rewrite (proj2 (N.ltb_ge _ _)) by (unfold HEADER_LEN; lia).
  unfold FrameHeader_encode. cbn [message_type flags payload_len]. rewrite <-!(assoc_L (++)).
  assert (length MAGIC = 8%nat) as HM by done. wire_read.
  assert (fits 4 len) by (unfold fits, MAX_FRAME_PAYLOAD in *; change (256 ^ N.of_nat 4) with 4294967296; lia).
  rewrite !from_le_to_le by (done || apply fits_0). rewrite bool_decide_eq_true_2 by done. cbn [negb].
  rewrite !N.eqb_refl. cbn [negb]. rewrite (proj2 (N.ltb_ge _ _)) by done.
  rewrite checked_add_small by (unfold HEADER_LEN, usize_max, u64_max, MAX_FRAME_PAYLOAD in *; lia). done.
Qed.

(** Any bytes are read or refused, and what is read was a header. *)
Lemma header_decode_exact p :
  octets p → ∃ r, FrameHeader_decode p = Some r ∧ ∀ h, r = Ok h →
    fits 2 (message_type h) ∧ flags h = 0 ∧ payload_len h ≤ MAX_FRAME_PAYLOAD ∧
    ∃ rest, p = FrameHeader_encode h ++ rest.
Proof.
  intros Ho. unfold FrameHeader_decode. wire_case; [wire_case|].
  destruct (cut_field_ge p 24) as (hd & rest & -> & Hhd); [unfold HEADER_LEN in *; to_prop; lia|].
  apply octets_app in Ho as [Hoh _]. clear Heqb. revert Hhd Hoh.
  wire_cut [8; 2; 2; 2; 2; 4; 4]%nat. rewrite <-!(assoc_L (++)). wire_read.
  repeat (wire_case; [wire_case|]).
  to_prop. rewrite checked_add_small by (unfold HEADER_LEN, usize_max, u64_max, MAX_FRAME_PAYLOAD in *; lia).
  cbn [ok_or ok try_]. wire_case. cbn [message_type flags payload_len].
  apply bool_decide_eq_true_1 in Heqb. subst s.
  split_and!; [by apply from_le_fits|done|done|]. exists rest.
  unfold FrameHeader_encode. cbn [message_type flags payload_len].
  rewrite <-Heqb1, <-Heqb2, <-Heqb0, !to_le_from_le by done. by rewrite <-!(assoc_L (++)).
Qed.

(** * Messages *)

Section messages.
Context {A : Type} `{WireLaws A}.

Lemma decode_as_encode (k : A → Message) a : wire_ok a → decode_as k (encode a) = ok (k a).
Proof. intros Ha. unfold decode_as. by rewrite decode_encode. Qed.

Lemma decode_as_total (k : A → Message) p :
  octets p → ∃ r, decode_as k p = Some r ∧ ∀ m, r = Ok m → ∃ a, m = k a ∧ wire_ok a ∧ decode p = ok a.
Proof.
  intros Hp. destruct (decode_total p Hp) as ([a|e] & Hr & Hok); unfold decode_as; rewrite Hr; cbn [try_ ok].
  - eexists. split; [done|]. intros m [= <-]. exists a. split_and!; [done|by apply Hok|done].
  - wire_case.
Qed.
End messages.

(** The payload of every message is read back. *)
Lemma decode_message_back m :
  Message_ok m →
  decode_message (FrameHeader_new (MessageType_tag (Message_type m)) (vlen (Message_payload m))) (Message_payload m)
  = ok m.
Proof.
  intros Hm. unfold decode_message. cbn [FrameHeader_new payload_len message_type].
  rewrite N.eqb_refl, from_u16_tag. cbn [negb ok_or ok try_].
  destruct m; cbn [Message_type Message_payload Message_ok] in *; first [by apply decode_as_encode|done].
Qed.

Definition is_composer_target (m : Message) : bool :=
  match m with Msg_ComposerTarget _ => true | _ => false end.

(** Every payload is read or refused; a message that was read has the type of the
    header, could have been sent, and all but the composer target's was sent as
    exactly these bytes. *)
Lemma decode_message_exact h p :
  octets p → ∃ r, decode_message h p = Some r ∧ ∀ m, r = Ok m →
    Message_ok m ∧ MessageType_tag (Message_type m) = message_type h ∧ vlen p = payload_len h ∧
    (is_composer_target m = false → Message_payload m = p).
Proof.
  intros Hp. unfold decode_message. wire_case; [wire_case|]. apply negb_false_iff, N.eqb_eq in Heqb.
  destruct (MessageType_from_u16 (message_type h)) as [k|] eqn:Hk; cbn [ok_or ok err try_]; [|wire_case].
  apply tag_from_u16 in Hk. destruct k.
  all: try (eexists; split; [reflexivity|]; intros m [= <-]; done).
  all: try (case_bool_decide; cbn [negb]; [subst p|wire_case]; wire_case; split_and!; [exact I|by rewrite Hk|done..]).
  all: match goal with |- ∃ r, decode_as ?k ?p = _ ∧ _ => destruct (decode_as_total k p) as (r & Hr & Hm); [done|] end.
  all: eexists; split; [eassumption|]; intros m' Hrm; destruct (Hm m' Hrm) as (a & -> & Ha & Hd).
  all: split_and!; [exact Ha|by rewrite Hk|done|].
  all: intros Ht; first [discriminate Ht|by apply encode_decode].
Qed.

(** * Frames *)

Lemma length_frame k payload : vlen (encode_frame k payload) = HEADER_LEN + vlen payload.
Proof. unfold encode_frame, HEADER_LEN. rewrite length_app, length_header. lia. Qed.

Lemma frame_header k payload :
  vlen payload ≤ MAX_FRAME_PAYLOAD →
  encode_frame k payload = FrameHeader_encode (FrameHeader_new (MessageType_tag k) (vlen payload)) ++ payload.
Proof.
  intros Hl. unfold encode_frame. rewrite N.mod_small; [done|]. unfold MAX_FRAME_PAYLOAD in Hl. change (2 ^ 32) with 4294967296. lia.
Qed.

(** The header of a frame is read from its first 24 bytes. *)
Lemma frame_header_decode mt len payload :
  fits 2 mt → len ≤ MAX_FRAME_PAYLOAD →
  vslice (FrameHeader_encode (FrameHeader_new mt len) ++ payload) 0 HEADER_LEN
    = Some (FrameHeader_encode (FrameHeader_new mt len)) ∧
  FrameHeader_decode (FrameHeader_encode (FrameHeader_new mt len)) = ok (FrameHeader_new mt len) ∧
  vfrom (FrameHeader_encode (FrameHeader_new mt len) ++ payload) HEADER_LEN = Some payload.
Proof.
  intros Hmt Hlen. split_and!.
  - by eapply vslice_head; [apply length_header|].
  - rewrite <-(app_nil_r (FrameHeader_encode _)). by apply header_decode_encode.
  - unfold vfrom. rewrite length_app, length_header.
    replace (N.of_nat (24 + length payload)) with (HEADER_LEN + vlen payload) by (unfold HEADER_LEN; lia).
    rewrite vslice_shift0 by (rewrite length_header; done). by eapply vslice_all.
Qed.

Lemma envelope_back mt payload id seq :
  fits 2 mt → is_presentation_message mt = true → vlen payload + PREFIX_LEN ≤ MAX_FRAME_PAYLOAD →
  fits 16 id → fits 8 seq →
  let out := FrameHeader_encode (FrameHeader_new mt (vlen payload + PREFIX_LEN)) ++ id_to_bytes id ++ to_le 8 seq ++ payload in
  envelope_presentation_frame (FrameHeader_encode (FrameHeader_new mt (vlen payload)) ++ payload) id seq = ok out ∧
  decode_presentation_envelope out = ok (mkEnvelope id seq payload).
Proof.
  intros Hmt Hp Hl Hid Hseq. cbv zeta. split.
  - unfold envelope_presentation_frame.
    destruct (frame_header_decode mt (vlen payload) payload Hmt) as (-> & Hd & ->);
      [unfold PREFIX_LEN in *; lia|]. rewrite length_app, length_header.
    rewrite (proj2 (N.ltb_ge _ _)) by (unfold HEADER_LEN; lia). cbn [mbind option_bind]. rewrite Hd.
    cbn [ok try_ FrameHeader_new message_type payload_len].
    rewrite (proj2 (N.eqb_eq _ _)) by (unfold HEADER_LEN; lia). rewrite Hp. cbn [negb].
    unfold MAX_FRAME_PAYLOAD, PREFIX_LEN in *.
    rewrite checked_add_small by (unfold usize_max, u64_max; lia). cbn [ok_or ok try_].
    rewrite (proj2 (N.ltb_ge _ _)) by lia. rewrite N.mod_small by (change (2 ^ 32) with 4294967296; lia). done.
  - unfold decode_presentation_envelope. unfold id_to_bytes.
    destruct (frame_header_decode mt (vlen payload + PREFIX_LEN) (to_le 16 id ++ to_le 8 seq ++ payload) Hmt Hl) as (-> & Hd & ->).
    rewrite !length_app, length_header, !length_to_le.
    rewrite (proj2 (N.ltb_ge _ _)) by (unfold HEADER_LEN; lia). cbn [mbind option_bind]. rewrite Hd.
    cbn [ok try_ FrameHeader_new message_type payload_len]. unfold PREFIX_LEN in *.
    rewrite (proj2 (N.eqb_eq _ _)) by (unfold HEADER_LEN; lia). rewrite Hp. cbn [negb].
    rewrite (proj2 (N.ltb_ge _ _)) by lia. wire_read.
    by rewrite !from_le_to_le by (rewrite ?from_le_to_le; done).
Qed.

(** Enveloping returns for any frame, and what it wraps is a presentation frame. *)
Lemma envelope_total frame id seq :
  octets frame → ∃ r, envelope_presentation_frame frame id seq = Some r.
Proof.
  intros Ho. unfold envelope_presentation_frame. case_match; [by eexists|]. apply N.ltb_ge in H.
  destruct (cut_field_ge frame 24) as (hd & rest & -> & Hhd); [unfold HEADER_LEN in H; lia|].
  apply octets_app in Ho as [Hoh _]. erewrite vslice_head by done. cbn [mbind option_bind].
  destruct (header_decode_exact hd Hoh) as ([h|e] & Hh & _); rewrite Hh; cbn [try_]; [|by eexists].
  do 2 (case_match; [by eexists|]). destruct (checked_add usize_max (payload_len h) PREFIX_LEN); cbn [ok_or ok err try_]; [|by eexists].
  case_match; [by eexists|]. rewrite (vfrom_skip _ _ _ 24) by done. unfold HEADER_LEN. rewrite vfrom_all. by eexists.
Qed.

(** * Block state frames *)

Record block_state_ok (v : BlockState) : Prop := mkBlockStateOk {
  bk_execution : fits 16 (bs_execution_id v); bk_block : fits 16 (bs_block_id v);
  bk_revision : fits 8 (bs_revision v); bk_start : fits 8 (bs_start_line_id v) }.

(** A block state is written exactly when its identities, revision and first line are
    nonzero, and then read back. *)
Lemma block_state_back v :
  block_state_ok v →
  match BlockState_encode v with
  | Ok p => BlockState_decode p = ok v
  | Err _ => bs_execution_id v = 0 ∨ bs_block_id v = 0 ∨ bs_revision v = 0 ∨ bs_start_line_id v = 0
  end.
Proof.
  intros [H1 H2 H3 H4]. unfold BlockState_encode. destruct (validate_nonzero v) as [[]|e] eqn:Hv.
  - unfold BlockState_decode, id_to_bytes. rewrite (proj2 (N.eqb_eq _ _)) by (by rewrite !length_app, !length_to_le).
    cbn [negb]. wire_read. rewrite bool_decide_eq_true_2, !from_le_to_le by done. cbn [negb].
    destruct v as [? ? ? ? [] []]; cbn in *; by rewrite Hv.
  - revert Hv. unfold validate_nonzero, id_to_bytes. rewrite <-!to_le_0.
    assert (∀ x, fits 16 x → to_le 16 x = to_le 16 0 → x = 0) as Hz.
    { intros x Hx E. rewrite <-(from_le_to_le 16 x), E by done. apply from_le_to_le, fits_0. }
    case_bool_decide; [auto|]. case_bool_decide; [auto|].
    destruct (N.eqb_spec (bs_revision v) 0); [auto|]. destruct (N.eqb_spec (bs_start_line_id v) 0); [auto|done].
Qed.

(** * The protocol's contract *)

(** C34. Every message survives the wire.  For each of the 46 message types, a message whose
    payload is valid and fits a frame is written by [encode_frame] as a header and a payload
    that the receiver splits at byte 24 and reads back as the same message; a presentation
    frame with room for the 24-byte prefix can be enveloped for an attachment, keeps its
    type, and the envelope gives back attachment, epoch and payload. *)
Theorem frame_round_trip (m : Message) :
  Message_ok m → vlen (Message_payload m) ≤ MAX_FRAME_PAYLOAD →
  let frame := encode_frame (Message_type m) (Message_payload m) in
  (∃ h, FrameHeader_decode (take 24 frame) = ok h ∧ vlen frame = HEADER_LEN + payload_len h ∧
     decode_message h (drop 24 frame) = ok m) ∧
  (is_presentation_message (MessageType_tag (Message_type m)) = true →
   vlen (Message_payload m) + PREFIX_LEN ≤ MAX_FRAME_PAYLOAD →
   ∀ id seq, fits 16 id → fits 8 seq →
   ∃ out h, envelope_presentation_frame frame id seq = ok out ∧
     FrameHeader_decode (take 24 out) = ok h ∧ message_type h = MessageType_tag (Message_type m) ∧
     decode_presentation_envelope out = ok (mkEnvelope id seq (Message_payload m))).
Proof.
  intros Hm Hl. cbv zeta. rewrite frame_header by done. split.
  - destruct (frame_header_decode _ _ (Message_payload m) (tag_fits (Message_type m)) Hl) as (_ & Hd & _).
    eexists. rewrite take_app_length', drop_app_length' by (by rewrite length_header). split; [exact Hd|].
    rewrite length_app, length_header. cbn [FrameHeader_new payload_len].
    split; [unfold HEADER_LEN; lia|]. by apply decode_message_back.
  - intros Hp Hroom id seq Hid Hseq.
    destruct (envelope_back _ (Message_payload m) id seq (tag_fits _) Hp Hroom Hid Hseq) as [He Hd].
    eexists _, _. split; [exact He|]. rewrite take_app_length' by (by rewrite length_header).
    split; [|split; [|exact Hd]].
    + eapply (frame_header_decode _ _ []); [apply tag_fits|done].
    + done.
Qed.

Definition demo_target_bytes : list N :=
  Eval vm_compute in ComposerTarget_encode (mkComposerTarget 1 IT_TrustedShell BS_Local CM_Submit CTR_None 3 1 1).

(** C35. Nothing a peer sends breaks the decoder, and what it accepts is what a sender
    wrote.  Any 24 header bytes and any payload are read or refused without a panic; an
    accepted message is one its sender could build, and its frame is the only encoding of
    it: re-encoding gives the bytes received.  The one exception is the composer target,
    whose decoder ignores four reserved bytes, so that two payloads read as one message. *)
Theorem message_decode_exact :
  (∀ hb p, octets hb → octets p →
     ∃ r, (let? h := FrameHeader_decode hb in decode_message h p) = Some r ∧
       ∀ m, r = Ok m → Message_ok m ∧
         (is_composer_target m = false → take 24 hb ++ p = encode_frame (Message_type m) (Message_payload m))) ∧
  (∃ p q m, p ≠ q ∧ octets p ∧ octets q ∧
     decode_message (FrameHeader_new 45 (vlen p)) p = ok m ∧ decode_message (FrameHeader_new 45 (vlen q)) q = ok m).
Proof.
  split.
  - intros hb p Hh Hp. destruct (header_decode_exact hb Hh) as ([h|e] & Hd & Hok); rewrite Hd; cbn [try_];
      [|eexists; split; [done|by intros ? [=]]].
    destruct (Hok h eq_refl) as (Hmt & Hfl & Hlen & rest & ->).
    destruct (decode_message_exact h p Hp) as (r & Hr & Hm). exists r. split; [done|].
    intros m Hrm. destruct (Hm m Hrm) as (Hmok & Htag & Hpl & Hcan). split; [done|].
    intros Ht. rewrite take_app_length', Hcan by (done || by rewrite length_header). rewrite frame_header by lia. f_equal.
    f_equal. destruct h. cbn in *. unfold FrameHeader_new. congruence.
  - exists demo_target_bytes, (<[20%nat := 1]> demo_target_bytes). eexists.
    split; [discriminate|]. split; [by repeat constructor|]. split; [by repeat constructor|].
    split; vm_compute; reflexivity.
Qed.

Lemma frame_round_trip_witness :
  ∃ h, FrameHeader_decode (take 24 (encode_frame MT_DisplayDelta [1; 2; 3])) = ok h ∧
    decode_message h (drop 24 (encode_frame MT_DisplayDelta [1; 2; 3])) = ok (Msg_DisplayDelta [1; 2; 3]).
Proof.
  destruct (frame_round_trip (Msg_DisplayDelta [1; 2; 3])) as [(h & H1 & _ & H2) _];
    [by repeat constructor|done|]. by exists h.
Defined.
