(* ===== verification/FrameStream.v ===== *)
(** The receiving side of a local connection,
    [crates/seyal-runtime/src/local_ipc/connection/io.rs] with the states of
    [connection/mod.rs]: cutting the byte stream of a peer into frames under the budget of
    one readiness. *)

From S2P Require Import Prelude Utf8 Wire WirePane WireControl WireText WireMessage.

Implicit Types (bytes body pre rest p q s payload frame buf pending arrived : list N).

Definition MAX_RECEIVE_BUFFER_BYTES : N := HEADER_LEN + MAX_FRAME_PAYLOAD.
Definition READ_CHUNK_BYTES : N := HEADER_LEN * 32.
Definition MAX_FRAMES_PER_READINESS : N := 64.

(** * Which messages a state accepts *)

Inductive ConnectionState := CS_AwaitHello | CS_Ready | CS_Attached | CS_Closing.
Inductive StateError := InvalidState.

Definition validate_incoming (state : ConnectionState) (kind : MessageType) : result StateError unit :=
  match state, kind with
  | CS_AwaitHello, MT_ClientHello
  | CS_Ready, (MT_ListExecutions | MT_Attach | MT_CreateExecutionRequest | MT_Goodbye)
  | CS_Attached, (MT_Attach | MT_Input | MT_Paste | MT_HostSelection | MT_HostSearch | MT_TerminalMouse
                  | MT_Resize | MT_Resync | MT_Detach | MT_CreateExecutionRequest | MT_SuspendDelivery
                  | MT_ResumeDelivery | MT_Goodbye) => Ok tt
  | _, _ => Err InvalidState
  end.

(** * Cutting frames *)

(** The events of one connection; its token is the same in all of them. *)
Inductive ServerEvent :=
  | SE_Frame (message_type : N) (payload : list N) | SE_FramingError | SE_Disconnected.

(** [while events.len() < MAX_FRAMES_PER_READINESS]: [fuel] is how many events may still be
    pushed, so the loop condition is [fuel ≠ 0].  The result is the buffer, the events
    and whether the loop returned [Err(FramingCutError)]. *)
Fixpoint drain_loop (fuel : nat) buf (events : list ServerEvent) : option (list N * list ServerEvent * bool) :=
  match fuel with
  | O => Some (buf, events, false)
  | S fuel =>
    if vlen buf <? HEADER_LEN then Some (buf, events, false) else
    hb ← vslice buf 0 HEADER_LEN;
    header ← FrameHeader_decode hb;
    match header with
    | Err _ => Some (buf, events ++ [SE_FramingError], true)
    | Ok header =>
      match checked_add usize_max HEADER_LEN (payload_len header) with
      | None => Some (buf, events, true)
      | Some total =>
        if vlen buf <? total then Some (buf, events, false) else
        payload ← vslice buf HEADER_LEN total;
        drain_loop fuel (drop (N.to_nat total) buf) (events ++ [SE_Frame (message_type header) payload])
      end
    end
  end.

Definition drain_frames buf (events : list ServerEvent) : option (list N * list ServerEvent * bool) :=
  drain_loop (N.to_nat (MAX_FRAMES_PER_READINESS - vlen events)) buf events.

(** * Reading *)

(** What one [recv_with_fd] on the socket does: it hands over up to [n] of the bytes the
    kernel holds, at least one, and no more than the slice it was given has room for;
    or it reports a descriptor, broken control data, or an error.  With nothing
    buffered it would block, or returns 0 bytes when the peer has closed. *)
Inductive Recv := RC_Read (n : N) | RC_Closed | RC_Fd | RC_Malformed | RC_Failed.

Inductive Received := RR_Bytes (bytes : list N) | RR_One | RR_Malformed | RR_WouldBlock | RR_Error.

Definition recv_with_fd (r : Recv) (limit : N) pending : Received * list N :=
  match r with
  | RC_Read n =>
    let count := N.to_nat (N.min (N.max 1 n) limit) in
    if bool_decide (pending = []) then (RR_WouldBlock, []) else (RR_Bytes (take count pending), drop count pending)
  | RC_Closed => (RR_Bytes (take (N.to_nat limit) pending), drop (N.to_nat limit) pending)
  | RC_Fd => (RR_One, pending)
  | RC_Malformed => (RR_Malformed, pending)
  | RC_Failed => (RR_Error, pending)
  end.

(** A connection after a readiness: its buffer, [None] once it is closed, the bytes the
    kernel still holds, and the events. *)
Definition Serviced : Type := option (list N) * list N * list ServerEvent.

Definition close_with_event pending (events : list ServerEvent) : Serviced :=
  (None, pending, events ++ [SE_Disconnected]).

(** The read loop of [service_read]; the script says what the successive calls of
    [recv_with_fd] do, and its end is a call that would block. *)
Fixpoint read_loop (script : list Recv) buf pending (events : list ServerEvent) : option (bool * Serviced) :=
  if negb (vlen events <? MAX_FRAMES_PER_READINESS) then Some (true, (Some buf, pending, events)) else
  let remaining := MAX_RECEIVE_BUFFER_BYTES - vlen buf in
  if remaining =? 0 then Some (false, close_with_event pending (events ++ [SE_FramingError])) else
  match script with
  | [] => Some (true, (Some buf, pending, events))
  | r :: script =>
    match recv_with_fd r (N.min READ_CHUNK_BYTES remaining) pending with
    | (RR_Bytes [], pending) => Some (false, close_with_event pending events)
    | (RR_Bytes bytes, pending) =>
      drained ← drain_frames (buf ++ bytes) events;
      match drained with
      | (_, events, true) => Some (false, close_with_event pending events)
      | (buf, events, false) => read_loop script buf pending events
      end
    | (RR_One, pending) | (RR_Malformed, pending) =>
      Some (false, close_with_event pending (events ++ [SE_FramingError]))
    | (RR_WouldBlock, pending) => Some (true, (Some buf, pending, events))
    | (RR_Error, pending) => Some (false, close_with_event pending events)
    end
  end.

Definition service_read (script : list Recv) (hangup : bool) buf pending : option Serviced :=
  res ← read_loop script buf pending [];
  match res with
  | (true, (Some buf, pending, events)) =>
    if hangup then
      let events := if bool_decide (buf = []) then events else events ++ [SE_FramingError] in
      Some (close_with_event pending events)
    else Some (Some buf, pending, events)
  | (_, serviced) => Some serviced
  end.

(** Successive readinesses of an open connection: before each, [arrived] bytes come in. *)
Fixpoint readinesses (rounds : list (list N * list Recv)) buf pending
    : option (option (list N) * list N * list (list ServerEvent)) :=
  match rounds with
  | [] => Some (Some buf, pending, [])
  | (arrived, script) :: rounds =>
    serviced ← service_read script false buf (pending ++ arrived);
    match serviced with
    | (Some buf, pending, events) =>
      later ← readinesses rounds buf pending;
      Some (later.1, events :: later.2)
    | (None, pending, events) => Some (None, pending, [events])
    end
  end.

(** * The stream of a peer *)

(** A frame as sent, the bytes of a sequence of frames, and the event of one. *)
Definition wire (f : N * list N) : list N := FrameHeader_encode (FrameHeader_new f.1 (vlen f.2)) ++ f.2.
Definition stream (frames : list (N * list N)) : list N := frames ≫= wire.
Definition frame_event (f : N * list N) : ServerEvent := SE_Frame f.1 f.2.
Definition frame_ok (f : N * list N) : Prop := fits 2 f.1 ∧ vlen f.2 ≤ MAX_FRAME_PAYLOAD.

(** The buffer holds no complete frame of what is still to be delivered. *)
Definition incomplete buf (left : list (N * list N)) : Prop :=
  match left with [] => buf = [] | f :: _ => vlen buf < vlen (wire f) end.

Lemma length_wire f : vlen (wire f) = HEADER_LEN + vlen f.2.
Proof. unfold wire, HEADER_LEN. rewrite length_app, length_header. lia. Qed.

Lemma app_prefix {A} (x y a b : list A) :
  x ++ y = a ++ b → (length a ≤ length x)%nat → ∃ z, x = a ++ z ∧ z ++ y = b.
Proof.
  intros H Hl. exists (drop (length a) x). assert (take (length a) x = a) as Ht.
  { rewrite <-(take_app_le x y) by done. rewrite H. by rewrite take_app_length. }
  split; [by rewrite <-Ht at 1; rewrite take_drop|].
  apply (app_inv_head a). rewrite <-H, (assoc_L (++)). by rewrite <-Ht at 1; rewrite take_drop.
Qed.

Lemma drain_loop_spec fuel buf events frames rest :
  Forall frame_ok frames → buf ++ rest = stream frames →
  ∃ sent left buf', drain_loop fuel buf events = Some (buf', events ++ (frame_event <$> sent), false) ∧
    frames = sent ++ left ∧ buf' ++ rest = stream left ∧ (length sent ≤ fuel)%nat ∧
    ((length sent < fuel)%nat → incomplete buf' left) ∧
    vlen buf' + HEADER_LEN * vlen sent ≤ vlen buf.
Proof.
  intros Hf. revert buf events frames Hf. induction fuel as [|fuel IH]; intros buf events frames Hf Hs; cbn [drain_loop].
  { exists [], frames, buf. rewrite app_nil_r. split_and!; (done || cbn; lia). }
  destruct (N.ltb_spec (vlen buf) HEADER_LEN) as [Hb|Hb].
  { exists [], frames, buf. rewrite app_nil_r. split_and!; try (done || cbn; lia).
    intros _. destruct frames as [|f frames]; [by apply app_nil in Hs as [-> _]|].
    cbn [incomplete]. rewrite length_wire. lia. }
  destruct Hf as [|f frames [Hmt Hl] Hf].
  { apply app_nil in Hs as [-> _]. done. }
  change (stream (f :: frames)) with (wire f ++ stream frames) in Hs.
  destruct (frame_header_decode f.1 (vlen f.2) [] Hmt Hl) as (_ & Hd & _).
  unfold wire in Hs. rewrite <-(assoc_L (++)) in Hs.
  destruct (app_prefix _ _ _ _ Hs) as (body & -> & Hbody); [rewrite length_header; unfold HEADER_LEN in Hb; lia|].
  erewrite vslice_head by (apply length_header || done). cbn [mbind option_bind]. rewrite Hd. cbn [mbind option_bind ok].
  cbn [FrameHeader_new payload_len message_type]. unfold MAX_FRAME_PAYLOAD in Hl.
  rewrite checked_add_small by (unfold HEADER_LEN, usize_max, u64_max; lia).
  rewrite length_app, length_header in *.
  destruct (N.ltb_spec (N.of_nat (24 + length body)) (HEADER_LEN + vlen f.2)) as [Hsh|Hsh].
  { exists [], (f :: frames), (FrameHeader_encode (FrameHeader_new f.1 (vlen f.2)) ++ body).
    rewrite app_nil_r. split_and!; try (done || cbn; lia).
    intros _. cbn [incomplete]. rewrite length_wire, length_app, length_header. lia. }
  destruct (app_prefix _ _ _ _ Hbody) as (buf1 & -> & Hbuf1); [unfold HEADER_LEN in Hsh; lia|].
  rewrite vslice_shift0 by (rewrite length_header; done). erewrite vslice_head by done. cbn [mbind option_bind].
  rewrite (assoc_L (++)), drop_app_length'
    by (rewrite length_app, length_header; unfold HEADER_LEN; lia).
  destruct (IH buf1 (events ++ [SE_Frame f.1 f.2]) frames Hf Hbuf1) as (sent & left & buf' & -> & -> & Hleft & Hn & Hinc & Hlt).
  exists (f :: sent), left, buf'. rewrite <-(assoc_L (++)). cbn [length]. split_and!; try (done || cbn; lia).
  - intros ?. apply Hinc. lia.
  - unfold HEADER_LEN in *. rewrite !length_app. lia.
Qed.

Lemma drain_frames_spec buf events frames rest :
  Forall frame_ok frames → buf ++ rest = stream frames → vlen events < MAX_FRAMES_PER_READINESS →
  vlen buf ≤ MAX_RECEIVE_BUFFER_BYTES →
  ∃ sent left buf', drain_frames buf events = Some (buf', events ++ (frame_event <$> sent), false) ∧
    frames = sent ++ left ∧ buf' ++ rest = stream left ∧ vlen events + vlen sent ≤ MAX_FRAMES_PER_READINESS ∧
    (vlen events + vlen sent < MAX_FRAMES_PER_READINESS → incomplete buf' left) ∧
    vlen buf' < MAX_RECEIVE_BUFFER_BYTES.
Proof.
  intros Hf Hs He Hb. unfold drain_frames.
  destruct (drain_loop_spec (N.to_nat (MAX_FRAMES_PER_READINESS - vlen events)) buf events frames rest Hf Hs)
    as (sent & left & buf' & -> & -> & Hl & Hn & Hinc & Hlt).
  exists sent, left, buf'. unfold MAX_FRAMES_PER_READINESS, MAX_RECEIVE_BUFFER_BYTES, HEADER_LEN in *.
  split_and!; try (done || lia).
  - intros ?. apply Hinc. lia.
  - destruct sent as [|f sent]; [|rewrite length_cons in Hlt; lia].
    specialize (Hinc ltac:(cbn; lia)). destruct left as [|f left]; cbn [incomplete] in Hinc; [subst; cbn; unfold MAX_FRAME_PAYLOAD; lia|].
    rewrite length_wire in Hinc. apply Forall_app in Hf as [_ Hf]. apply Forall_cons in Hf as [[_ Hf] _].
    unfold HEADER_LEN in *. lia.
Qed.

Definition reads (script : list Recv) : Prop := Forall (λ r, ∃ n, r = RC_Read n) script.

(** A readiness of a peer that sends whole frames. *)
Lemma read_loop_spec script buf pending events frames future :
  reads script → Forall frame_ok frames → buf ++ pending ++ future = stream frames →
  vlen buf < MAX_RECEIVE_BUFFER_BYTES → vlen events ≤ MAX_FRAMES_PER_READINESS →
  ∃ sent left buf' pending',
    read_loop script buf pending events = Some (true, (Some buf', pending', events ++ (frame_event <$> sent))) ∧
    frames = sent ++ left ∧ buf' ++ pending' ++ future = stream left ∧
    vlen buf' < MAX_RECEIVE_BUFFER_BYTES ∧ vlen events + vlen sent ≤ MAX_FRAMES_PER_READINESS ∧
    (vlen events + vlen sent < MAX_FRAMES_PER_READINESS →
     incomplete buf frames ∨ script ≠ [] ∧ pending ≠ [] → incomplete buf' left) ∧
    ((length pending ≤ length script)%nat → vlen events + vlen sent < MAX_FRAMES_PER_READINESS → pending' = []).
Proof.
  intros Hsc. revert buf pending events frames.
  induction Hsc as [|r script [n ->] Hsc IH]; intros buf pending events frames Hf Hs Hb He; cbn [read_loop].
  { replace (if negb _ then _ else _) with (Some (true, (Some buf, pending, events))).
    2: { rewrite (proj2 (N.eqb_neq _ _)) by lia. by case_match. }
    exists [], frames, buf, pending. rewrite app_nil_r. split_and!; try (done || cbn; lia).
    - by intros _ [?|[]].
    - intros ? _. apply nil_length_inv. cbn in *. lia. }
  destruct (N.ltb_spec (vlen events) MAX_FRAMES_PER_READINESS) as [Hlt|Hge]; cbn [negb].
  2: { exists [], frames, buf, pending. rewrite app_nil_r. split_and!; (done || cbn; lia). }
  rewrite (proj2 (N.eqb_neq _ _)) by lia. unfold recv_with_fd.
  case_bool_decide as Hp.
  { subst pending. exists [], frames, buf, []. rewrite app_nil_r. split_and!; try (done || cbn; lia). by intros _ [?|[]]. }
  set (k := N.to_nat _). assert (1 ≤ k ∧ k ≤ N.to_nat (MAX_RECEIVE_BUFFER_BYTES - vlen buf))%nat as Hk.
  { unfold k, READ_CHUNK_BYTES, HEADER_LEN. lia. }
  clearbody k. destruct (take k pending) as [|b bs] eqn:Hbytes.
  { destruct pending; [done|]. destruct k; [lia|done]. }
  rewrite <-Hbytes.
  assert ((buf ++ take k pending) ++ drop k pending ++ future = stream frames) as Hs'.
  { by rewrite <-Hs, <-(assoc_L (++)), (assoc_L (++) (take k pending)), take_drop. }
  destruct (drain_frames_spec (buf ++ take k pending) events frames (drop k pending ++ future) Hf Hs' Hlt)
    as (sent & left & buf' & -> & -> & Hl & Hn & Hinc & Hbuf); [rewrite length_app, length_take; lia|].
  cbn [mbind option_bind]. apply Forall_app in Hf as [_ Hf].
  destruct (IH buf' (drop k pending) (events ++ (frame_event <$> sent)) left Hf Hl Hbuf)
    as (sent2 & left2 & buf2 & pending2 & -> & -> & Hl2 & Hb2 & Hn2 & Hinc2 & Hp2).
  { rewrite length_app, length_fmap. lia. }
  exists (sent ++ sent2), left2, buf2, pending2. rewrite length_app, length_fmap in *.
  rewrite fmap_app, <-!(assoc_L (++)). split_and!; try (done || lia).
  - intros ? _. apply Hinc2; [lia|]. left. apply Hinc. lia.
  - intros ? ?. apply Hp2; [|lia]. rewrite length_drop. cbn [length] in *. lia.
Qed.

(** * Readinesses in sequence *)

Lemma service_read_spec script buf pending frames future :
  reads script → Forall frame_ok frames → buf ++ pending ++ future = stream frames →
  vlen buf < MAX_RECEIVE_BUFFER_BYTES →
  ∃ sent left buf' pending',
    service_read script false buf pending = Some (Some buf', pending', frame_event <$> sent) ∧
    frames = sent ++ left ∧ buf' ++ pending' ++ future = stream left ∧
    vlen buf' < MAX_RECEIVE_BUFFER_BYTES ∧ vlen sent ≤ MAX_FRAMES_PER_READINESS ∧
    (vlen sent < MAX_FRAMES_PER_READINESS →
     incomplete buf frames ∨ script ≠ [] ∧ pending ≠ [] → incomplete buf' left) ∧
    ((length pending ≤ length script)%nat → vlen sent < MAX_FRAMES_PER_READINESS → pending' = []).
Proof.
  intros Hsc Hf Hs Hb. destruct (read_loop_spec script buf pending [] frames future Hsc Hf Hs Hb)
    as (sent & left & buf' & pending' & Hr & H); [done|].
  exists sent, left, buf', pending'. unfold service_read. rewrite Hr. done.
Qed.

Lemma readinesses_spec rounds buf pending frames future :
  Forall (λ r, reads r.2) rounds → Forall frame_ok frames →
  buf ++ pending ++ concat rounds.*1 ++ future = stream frames → vlen buf < MAX_RECEIVE_BUFFER_BYTES →
  ∃ sent left buf' pending' events,
    readinesses rounds buf pending = Some (Some buf', pending', events) ∧ concat events = frame_event <$> sent ∧
    frames = sent ++ left ∧ buf' ++ pending' ++ future = stream left ∧ length events = length rounds ∧
    Forall (λ e, vlen e ≤ MAX_FRAMES_PER_READINESS) events.
Proof.
  intros Hr. revert buf pending frames.
  induction Hr as [|[arrived script] rounds Hsc Hr IH]; intros buf pending frames Hf Hs Hb; cbn [readinesses].
  { exists [], frames, buf, pending, []. split_and!; by try constructor. }
  cbn in Hs. rewrite <-(assoc_L (++)), (assoc_L (++) pending) in Hs.
  destruct (service_read_spec script buf (pending ++ arrived) frames (concat rounds.*1 ++ future) Hsc Hf Hs Hb)
    as (sent & left & buf' & pending' & -> & -> & Hl & Hb' & Hn & _). cbn [mbind option_bind].
  apply Forall_app in Hf as [_ Hf].
  destruct (IH buf' pending' left Hf Hl Hb') as (sent2 & left2 & buf2 & pending2 & evs & -> & Hevs & -> & Hl2 & Hlen & Hall).
  exists (sent ++ sent2), left2, buf2, pending2, ((frame_event <$> sent) :: evs). cbn [mbind option_bind fst snd].
  rewrite <-(assoc_L (++)), fmap_app. cbn. split_and!; try done; [by rewrite Hevs|by rewrite Hlen|].
  constructor; [|done]. by rewrite length_fmap.
Qed.

(** Without new bytes a readiness delivers nothing, whatever the buffer holds. *)
Lemma service_read_idle script buf :
  reads script → vlen buf < MAX_RECEIVE_BUFFER_BYTES →
  service_read script false buf [] = Some (Some buf, [], []).
Proof.
  intros Hsc Hb. unfold service_read. destruct Hsc as [|r script [n ->] Hsc]; cbn [read_loop];
    rewrite (proj2 (N.eqb_neq _ _)) by lia; done.
Qed.

Definition demo_frame : N * list N := (7, replicate 16 1).
Definition demo_frames : list (N * list N) := replicate 76 demo_frame.

(** A readiness that finds new bytes and may read all of them. *)
Lemma service_read_progress frames script buf pending future :
  Forall frame_ok frames → reads script → buf ++ pending ++ future = stream frames →
  vlen buf < MAX_RECEIVE_BUFFER_BYTES → pending ≠ [] → (length pending ≤ length script)%nat →
  ∃ sent left buf' pending',
    service_read script false buf pending = Some (Some buf', pending', frame_event <$> sent) ∧
    frames = sent ++ left ∧ buf' ++ pending' ++ future = stream left ∧
    (vlen sent = MAX_FRAMES_PER_READINESS ∨
     vlen sent < MAX_FRAMES_PER_READINESS ∧ pending' = [] ∧ incomplete buf' left).
Proof.
  intros Hf Hr Hs Hb Hne Hl. destruct (service_read_spec script buf pending frames future Hr Hf Hs Hb)
    as (sent & left & buf' & pending' & Hread & Hsplit & Hleft & _ & Hsent & Hinc & Hp).
  exists sent, left, buf', pending'. split_and!; [done..|].
  destruct (decide (vlen sent = MAX_FRAMES_PER_READINESS)) as [|Hlt]; [by left|right].
  assert (vlen sent < MAX_FRAMES_PER_READINESS) as Hlt' by lia. split_and!; [done|by apply Hp|].
  apply Hinc; [done|]. right. split; [|done]. intros ->. destruct pending; [done|cbn in Hl; lia].
Qed.

(** C36. The receiver delivers the peer's frames, once each and in order, however the stream is
    cut.  Over any sequence of readinesses and any sizes of the reads, a peer that sends frames
    is never refused: the events are the frames of a prefix, at most 64 per readiness, and what
    was received and not delivered is kept, byte for byte.  A readiness that finds new bytes and
    may read all of them, from whatever the buffer held before, delivers 64 frames or every frame
    that has arrived completely, leaving nothing unread; up to 64 frames are thus delivered by one
    readiness.  Without new bytes a readiness
    delivers nothing, whatever the buffer holds; so complete frames that the limit of 64 left in
    the buffer stay until further bytes arrive, and a hang-up discards them as a framing error:
    both happen for 76 frames of 40 bytes. *)
Theorem stream_delivery :
  (∀ frames rounds future,
     Forall frame_ok frames → Forall (λ r, reads r.2) rounds → concat rounds.*1 ++ future = stream frames →
     ∃ sent left buf pending events,
       readinesses rounds [] [] = Some (Some buf, pending, events) ∧ concat events = frame_event <$> sent ∧
       frames = sent ++ left ∧ buf ++ pending ++ future = stream left ∧ length events = length rounds ∧
       Forall (λ e, vlen e ≤ MAX_FRAMES_PER_READINESS) events) ∧
  (∀ frames script buf pending future,
     Forall frame_ok frames → reads script → buf ++ pending ++ future = stream frames →
     vlen buf < MAX_RECEIVE_BUFFER_BYTES → pending ≠ [] → (length pending ≤ length script)%nat →
     ∃ sent left buf' pending',
       service_read script false buf pending = Some (Some buf', pending', frame_event <$> sent) ∧
       frames = sent ++ left ∧ buf' ++ pending' ++ future = stream left ∧
       (vlen sent = MAX_FRAMES_PER_READINESS ∨
        vlen sent < MAX_FRAMES_PER_READINESS ∧ pending' = [] ∧ incomplete buf' left)) ∧
  (∀ frames script buf pending,
     Forall frame_ok frames → vlen frames ≤ MAX_FRAMES_PER_READINESS → reads script → buf ++ pending = stream frames →
     vlen buf < MAX_RECEIVE_BUFFER_BYTES → pending ≠ [] → (length pending ≤ length script)%nat →
     service_read script false buf pending = Some (Some [], [], frame_event <$> frames)) ∧
  (∀ script buf, reads script → vlen buf < MAX_RECEIVE_BUFFER_BYTES →
     service_read script false buf [] = Some (Some buf, [], [])) ∧
  (∃ script sent left,
     reads script ∧ demo_frames = sent ++ left ∧ left ≠ [] ∧
     service_read script false [] (stream demo_frames) = Some (Some (stream left), [], frame_event <$> sent) ∧
     service_read [] true (stream left) [] = Some (None, [], [SE_FramingError; SE_Disconnected])).
Proof.
  split_and!.
  - intros frames rounds future Hf Hr Hs. by apply (readinesses_spec rounds [] []).
  - exact service_read_progress.
  - intros frames script buf pending Hf Hn Hr Hs Hb Hne Hl.
    destruct (service_read_progress frames script buf pending [] Hf Hr) as
      (sent & left & buf' & pending' & -> & -> & Hleft & Hcase); [by rewrite app_nil_r|done..|].
    rewrite app_nil_r in Hleft. assert (left = []) as ->.
    { destruct left as [|f left]; [done|]. exfalso. rewrite length_app in Hn. cbn [length] in Hn.
      destruct Hcase as [|(_ & -> & Hinc)]; [lia|]. rewrite app_nil_r in Hleft. cbn [incomplete] in Hinc.
      change (stream (f :: left)) with (wire f ++ stream left) in Hleft. rewrite Hleft, length_app in Hinc. lia. }
    apply app_nil in Hleft as [-> ->]. by rewrite app_nil_r.
  - apply service_read_idle.
  - exists (replicate 4 (RC_Read 768)), (replicate 64 demo_frame), (replicate 12 demo_frame).
    split; [apply Forall_replicate; by eexists|]. split; [done|]. split; [done|].
    split; vm_compute; reflexivity.
Qed.
