(* ===== verification/Ids.v ===== *)
(** Process-unique identities, [crates/seyal-core/src/lib.rs]: how a fresh identity is composed
    of the process prefix, the domain of its type and a shared sequence, and why no two
    identities of a process are equal. *)

From S2P Require Import Prelude.

(** * Definitions *)

Definition u64_mod : N := 2 ^ 64.

Definition mix64 (value : N) : N :=
  let value := N.lxor value (N.shiftr value 30) in
  let value := value * 0xbf58476d1ce4e5b9 mod u64_mod in
  let value := N.lxor value (N.shiftr value 27) in
  let value := value * 0x94d049bb133111eb mod u64_mod in
  N.lxor value (N.shiftr value 31).

(** [((namespace as u128) << 64) | sequence as u128]. *)
Definition compose_unique_id (process_prefix domain sequence : N) : N :=
  N.lor (N.shiftl (mix64 (N.lxor process_prefix domain)) 64) sequence.

(** The types that mint identities, and the domain each passes to [unique_id]. *)
Inductive IdDomain :=
  | ID_Runtime | ID_Workspace | ID_Execution | ID_Attachment | ID_Block | ID_Tab | ID_Pane
  | ID_TerminalTab | ID_Window.

Definition domain (d : IdDomain) : N :=
  match d with
  | ID_Runtime => 0x52554e54494d4501
  | ID_Workspace => 0x574f524b53504301
  | ID_Execution => 0x4558454355544501
  | ID_Attachment => 0x4154544143480001
  | ID_Block => 0x424c4f434b000001
  | ID_Tab => 0x5441420000000001
  | ID_Pane => 0x50414e4500000001
  | ID_TerminalTab => 0x5445524d54414201
  | ID_Window => 0x57494e444f570001
  end.

(** [unique_id]: [NEXT_ID] is the shared counter; [None] is the panic on its exhaustion. *)
Definition unique_id (process_prefix : N) (d : IdDomain) (next_id : N) : option (N * N) :=
  next ← checked_add u64_max next_id 1;
  Some (compose_unique_id process_prefix (domain d) next_id, next).

(** * Mixing is injective *)

(** [x ^ (x >> k)] is linear, and only 0 is mapped to 0. *)
Lemma xorshift_inj k x y : 0 < k → N.lxor x (N.shiftr x k) = N.lxor y (N.shiftr y k) → x = y.
Proof.
  intros Hk H. apply N.lxor_eq. set (d := N.lxor x y).
  assert (N.lxor d (N.shiftr d k) = 0) as Hd.
  { unfold d. rewrite N.shiftr_lxor.
    replace (N.lxor (N.lxor x y) (N.lxor (N.shiftr x k) (N.shiftr y k)))
      with (N.lxor (N.lxor x (N.shiftr x k)) (N.lxor y (N.shiftr y k))).
    - rewrite H. apply N.lxor_nilpotent.
    - apply N.bits_inj. intros i. rewrite !N.lxor_spec. by repeat destruct (N.testbit _ _). }
  apply N.lxor_eq in Hd. rewrite N.shiftr_div_pow2 in Hd.
  destruct (N.eq_dec d 0) as [|Hn]; [done|]. exfalso.
  assert (d / 2 ^ k < d) by (apply N.div_lt; [lia|]; apply N.pow_gt_1; lia). lia.
Qed.

Lemma lxor_bound x y : x < u64_mod → y < u64_mod → N.lxor x y < u64_mod.
Proof.
  intros Hx Hy. rewrite <-(N.mod_small _ _ Hx), <-(N.mod_small _ _ Hy). unfold u64_mod. rewrite <-!N.land_ones.
  replace (N.lxor _ _) with (N.land (N.lxor x y) (N.ones 64)).
  { rewrite N.land_ones. by apply N.mod_lt. }
  apply N.bits_inj. intros i. rewrite N.land_spec, !N.lxor_spec, !N.land_spec.
  by repeat destruct (N.testbit _ _).
Qed.

Lemma shiftr_bound k x : x < u64_mod → N.shiftr x k < u64_mod.
Proof.
  intros Hx. rewrite N.shiftr_div_pow2. apply N.le_lt_trans with x; [|done]. apply N.Div0.div_le_upper_bound.
  assert (2 ^ k ≠ 0) by (by apply N.pow_nonzero). nia.
Qed.

Lemma xorshift_bound k x : x < u64_mod → N.lxor x (N.shiftr x k) < u64_mod.
Proof. intros Hx. by apply lxor_bound, shiftr_bound. Qed.

(** Multiplication by a number with an inverse modulo 2^64. *)
Lemma mul_inj a b x y :
  a * b mod u64_mod = 1 → x < u64_mod → y < u64_mod → x * a mod u64_mod = y * a mod u64_mod → x = y.
Proof.
  intros Hab Hx Hy H.
  assert (∀ z, z < u64_mod → (z * a mod u64_mod) * b mod u64_mod = z) as Hz.
  { intros z Hz. rewrite N.Div0.mul_mod_idemp_l, <-N.mul_assoc, <-N.Div0.mul_mod_idemp_r, Hab, N.mul_1_r.
    by apply N.mod_small. }
  rewrite <-(Hz x Hx), <-(Hz y Hy). by rewrite H.
Qed.

Lemma mix64_inj x y : x < u64_mod → y < u64_mod → mix64 x = mix64 y → x = y.
Proof.
  intros Hx Hy H. unfold mix64 in H. apply xorshift_inj in H; [|lia].
  apply (mul_inj _ 0x319642b2d24d8ec3) in H; [|by vm_compute|apply xorshift_bound, N.mod_lt; done..].
  apply xorshift_inj in H; [|lia].
  apply (mul_inj _ 0x96de1b173f119089) in H; [|by vm_compute|by apply xorshift_bound..].
  by apply xorshift_inj in H; [|lia].
Qed.

Lemma mix64_bound x : mix64 x < u64_mod.
Proof. unfold mix64. apply xorshift_bound, N.mod_lt. done. Qed.

(** * Identities are unique *)

Lemma compose_sum prefix d n :
  n < u64_mod → compose_unique_id prefix d n = mix64 (N.lxor prefix d) * u64_mod + n.
Proof.
  intros Hn. unfold compose_unique_id. set (m := mix64 _).
  assert (N.land (N.shiftl m 64) n = 0) as Hz.
  { rewrite <-(N.mod_small _ _ Hn). unfold u64_mod. rewrite <-N.land_ones.
    apply N.bits_inj. intros i. rewrite !N.land_spec, N.bits_0. destruct (N.ltb_spec i 64).
    - by rewrite N.shiftl_spec_low.
    - rewrite N.ones_spec_high by lia. by rewrite !andb_false_r. }
  rewrite <-N.lxor_lor, <-N.add_nocarry_lxor by done. by rewrite N.shiftl_mul_pow2.
Qed.

Lemma compose_inj prefix d e m n :
  prefix < u64_mod → d < u64_mod → e < u64_mod → m < u64_mod → n < u64_mod →
  compose_unique_id prefix d m = compose_unique_id prefix e n → d = e ∧ m = n.
Proof.
  intros Hp Hd He Hm Hn. rewrite !compose_sum by done. intros H.
  assert (mix64 (N.lxor prefix d) = mix64 (N.lxor prefix e) ∧ m = n) as [Hmix ->].
  { unfold u64_mod in *. nia. }
  split; [|done]. apply mix64_inj in Hmix; [|by apply lxor_bound..].
  apply (f_equal (N.lxor prefix)) in Hmix. by rewrite <-!N.lxor_assoc, !N.lxor_nilpotent, !N.lxor_0_l in Hmix.
Qed.

Lemma domain_bound d : domain d < u64_mod.
Proof. by destruct d. Qed.

Lemma domain_inj d e : domain d = domain e → d = e.
Proof. by destruct d, e. Qed.

(** Two identities minted by one process are equal only if they are the same mint. *)
Lemma unique_id_inj prefix d e m n id m' n' :
  prefix < u64_mod →
  unique_id prefix d m = Some (id, m') → unique_id prefix e n = Some (id, n') → d = e ∧ m = n.
Proof.
  unfold unique_id, checked_add. intros Hp. destruct (N.leb_spec (m + 1) u64_max); [|done].
  destruct (N.leb_spec (n + 1) u64_max); [|done]. cbn [mbind option_bind]. intros [= <- _] [= Heq _].
  apply compose_inj in Heq as [Hd ->]; try apply domain_bound; try done; [|unfold u64_max, u64_mod in *; lia..].
  by apply eq_sym, domain_inj in Hd.
Qed.
