(* ===== verification/Attachments.v ===== *)
(** The attachment registry, [crates/seyal-runtime/src/local_ipc/attachment.rs], and the steps
    the Runtime takes on it: the admission of [handle_attach]
    ([runtime/local/session.rs]), detaching, the delivery controls
    ([runtime/local/delivery.rs]) and the end of an execution. *)

From stdpp Require Import gmap.
From S2P Require Import Prelude Wire WirePane WireControl Ids.

(** * The registry *)

Definition MAX_LIVE_ATTACHMENTS : N := 100.
Definition MAX_ATTACHMENTS_PER_CONNECTION : N := 100.
Definition MAX_ATTACHMENTS_PER_CONNECTION_LEGACY : N := 1.

Inductive AttachmentError :=
  | AE_CapacityExceeded | AE_ControllerBusy | AE_UnknownAttachment | AE_StaleIdentity
  | AE_PermissionDenied | AE_WrongConnection | AE_InvalidResumeSequence.

Inductive DeliveryState := DS_Delivering | DS_Suspended.
#[global] Instance DeliveryState_eq : EqDecision DeliveryState.
Proof. solve_decision. Defined.
#[global] Instance Role_eq : EqDecision Role.
Proof. solve_decision. Defined.

Record AttachmentRecord := mkRecord {
  ar_execution_id : N; ar_role : Role; ar_connection_token : N; ar_delivery : DeliveryState;
  ar_resume_sequence : N }.

Record AttachmentRegistry := mkRegistry {
  rg_attachments : gmap N AttachmentRecord; rg_controllers : gmap N N; rg_max_attachments : N }.

#[local] Set Warnings "-clear-no-such-hyp".

Implicit Types (g : AttachmentRegistry) (r : AttachmentRecord) (a e token : N).

Definition with_capacity (max_attachments : N) : AttachmentRegistry := mkRegistry ∅ ∅ max_attachments.
Definition registry_new : AttachmentRegistry := with_capacity MAX_LIVE_ATTACHMENTS.

Definition registry_len g : N := N.of_nat (size (rg_attachments g)).

Definition insert_prevalidated a e (role : Role) token g : AttachmentRegistry :=
  let controllers := if bool_decide (role = Role_Controller) then <[e := a]> (rg_controllers g) else rg_controllers g in
  mkRegistry (<[a := mkRecord e role token DS_Delivering 0]> (rg_attachments g)) controllers (rg_max_attachments g).

(** [create_attachment]; [fresh] is the identity [AttachmentId::new] mints. *)
Definition create_attachment (fresh : N) e (role : Role) token g
    : result AttachmentError (N * AttachmentRegistry) :=
  if bool_decide (role = Role_Controller) && bool_decide (is_Some (rg_controllers g !! e)) then Err AE_ControllerBusy else
  if rg_max_attachments g <=? registry_len g then Err AE_CapacityExceeded else
  Ok (fresh, insert_prevalidated fresh e role token g).

Definition detach a g : result AttachmentError AttachmentRegistry :=
  match rg_attachments g !! a with
  | None => Err AE_UnknownAttachment
  | Some r =>
    let controllers :=
      if bool_decide (ar_role r = Role_Controller) && bool_decide (rg_controllers g !! ar_execution_id r = Some a)
      then delete (ar_execution_id r) (rg_controllers g) else rg_controllers g in
    Ok (mkRegistry (delete a (rg_attachments g)) controllers (rg_max_attachments g))
  end.

Definition require_connection token a g : result AttachmentError AttachmentRecord :=
  match rg_attachments g !! a with
  | None => Err AE_StaleIdentity
  | Some r => if negb (ar_connection_token r =? token) then Err AE_WrongConnection else Ok r
  end.

Definition detach_for_connection token a g : result AttachmentError AttachmentRegistry :=
  match require_connection token a g with Err x => Err x | Ok _ => detach a g end.

(** The identities of the records that pass a test; the order of a [HashMap] is not fixed,
    so the answer is a set. *)
Definition ids_where (f : AttachmentRecord → bool) g : gset N :=
  dom (filter (λ x, f x.2 = true) (rg_attachments g)).

Definition attachments_on_connection token g : gset N :=
  ids_where (λ r, ar_connection_token r =? token) g.
Definition delivering_on_connection token g : gset N :=
  ids_where (λ r, (ar_connection_token r =? token) && bool_decide (ar_delivery r = DS_Delivering)) g.
Definition delivering_viewers_for_execution e g : gset N :=
  ids_where (λ r, (ar_execution_id r =? e) && bool_decide (ar_delivery r = DS_Delivering)) g.
Definition attachments_for_execution e g : N :=
  N.of_nat (size (ids_where (λ r, ar_execution_id r =? e) g)).
Definition has_execution_on_connection token e g : bool :=
  bool_decide (ids_where (λ r, (ar_connection_token r =? token) && (ar_execution_id r =? e)) g ≠ ∅).
Definition has_controller e g : bool := bool_decide (is_Some (rg_controllers g !! e)).

Definition field_of {A} (f : AttachmentRecord → A) a g : result AttachmentError A :=
  match rg_attachments g !! a with None => Err AE_StaleIdentity | Some r => Ok (f r) end.
Definition delivery_of a g := field_of ar_delivery a g.
Definition resume_sequence_of a g := field_of ar_resume_sequence a g.
Definition execution_of a g := field_of ar_execution_id a g.
Definition role_of a g := field_of ar_role a g.

Definition execution_for_connection token a g : result AttachmentError N :=
  match require_connection token a g with Err x => Err x | Ok r => Ok (ar_execution_id r) end.

Definition authorize_mutation token a g : result AttachmentError N :=
  match require_connection token a g with
  | Err x => Err x
  | Ok r => if negb (bool_decide (ar_role r = Role_Controller)) then Err AE_PermissionDenied else Ok (ar_execution_id r)
  end.

(** The previous delivery state and the registry after the change. *)
Definition resume_delivery a (resume_sequence : N) g : result AttachmentError (DeliveryState * AttachmentRegistry) :=
  match rg_attachments g !! a with
  | None => Err AE_StaleIdentity
  | Some r =>
    if (resume_sequence =? 0) || (resume_sequence <=? ar_resume_sequence r) then Err AE_InvalidResumeSequence else
    Ok (ar_delivery r,
        mkRegistry (<[a := mkRecord (ar_execution_id r) (ar_role r) (ar_connection_token r) DS_Delivering resume_sequence]>
                      (rg_attachments g)) (rg_controllers g) (rg_max_attachments g))
  end.

Definition set_delivery a (delivery : DeliveryState) g : result AttachmentError (DeliveryState * AttachmentRegistry) :=
  match rg_attachments g !! a with
  | None => Err AE_StaleIdentity
  | Some r =>
    Ok (ar_delivery r,
        mkRegistry (<[a := mkRecord (ar_execution_id r) (ar_role r) (ar_connection_token r) delivery (ar_resume_sequence r)]>
                      (rg_attachments g)) (rg_controllers g) (rg_max_attachments g))
  end.

Definition remove_all_for_execution e g : gset N * AttachmentRegistry :=
  let ids := ids_where (λ r, ar_execution_id r =? e) g in
  (ids, mkRegistry (filter (λ x, x.1 ∉ ids) (rg_attachments g)) (delete e (rg_controllers g))
          (rg_max_attachments g)).

(** * The Runtime's steps *)

(** The admission checks of [handle_attach] on the registry, in their order; [delivery_control]
    is whether the connection negotiated [CAP_ATTACHMENT_DELIVERY_CONTROL]. *)
Definition attach_admission token e (role : Role) (delivery_control : bool) g : result ErrorCode unit :=
  if MAX_LIVE_ATTACHMENTS <=? registry_len g then Err EC_CapacityExceeded else
  if bool_decide (role = Role_Controller) && has_controller e g then Err EC_ControllerBusy else
  if has_execution_on_connection token e g then Err EC_InvalidState else
  let on_connection := N.of_nat (size (attachments_on_connection token g)) in
  let per_connection_max :=
    if delivery_control then MAX_ATTACHMENTS_PER_CONNECTION else MAX_ATTACHMENTS_PER_CONNECTION_LEGACY in
  if per_connection_max <=? on_connection then Err EC_InvalidState else
  if negb delivery_control && negb (bool_decide (delivering_on_connection token g = ∅)) then Err EC_InvalidState else
  Ok tt.

(** The registry and the identity counter of the process; a mint for any other purpose,
    or for an attach that is refused after its mint, only moves the counter. *)
Record RegistryState := mkState { st_registry : AttachmentRegistry; st_next_id : N }.

Inductive registry_step (prefix : N) : RegistryState → RegistryState → Prop :=
  | step_attach g next token e role delivery_control a next' :
    attach_admission token e role delivery_control g = Ok tt →
    unique_id prefix ID_Attachment next = Some (a, next') →
    registry_step prefix (mkState g next) (mkState (insert_prevalidated a e role token g) next')
  | step_mint g next d a next' :
    unique_id prefix d next = Some (a, next') → registry_step prefix (mkState g next) (mkState g next')
  | step_detach g next token a g' :
    detach_for_connection token a g = Ok g' → registry_step prefix (mkState g next) (mkState g' next)
  | step_close g next a g' :
    detach a g = Ok g' → registry_step prefix (mkState g next) (mkState g' next)
  | step_suspend g next token a e previous g' :
    execution_for_connection token a g = Ok e → set_delivery a DS_Suspended g = Ok (previous, g') →
    registry_step prefix (mkState g next) (mkState g' next)
  | step_resume g next token a e sequence previous g' :
    execution_for_connection token a g = Ok e → resume_delivery a sequence g = Ok (previous, g') →
    registry_step prefix (mkState g next) (mkState g' next)
  | step_end g next e : registry_step prefix (mkState g next) (mkState (remove_all_for_execution e g).2 next).

Inductive registry_reachable (prefix : N) : RegistryState → Prop :=
  | reach_start next : registry_reachable prefix (mkState registry_new next)
  | reach_step s s' : registry_reachable prefix s → registry_step prefix s s' → registry_reachable prefix s'.

(** * The invariant *)

Definition controls (m : gmap N AttachmentRecord) a e : Prop :=
  ∃ r, m !! a = Some r ∧ ar_role r = Role_Controller ∧ ar_execution_id r = e.

Record registry_ok (prefix : N) (s : RegistryState) : Prop := mkRegistryOk {
  ro_controllers : ∀ e a, rg_controllers (st_registry s) !! e = Some a ↔ controls (rg_attachments (st_registry s)) a e;
  ro_bound : registry_len (st_registry s) ≤ MAX_LIVE_ATTACHMENTS;
  ro_one : ∀ a b r r', rg_attachments (st_registry s) !! a = Some r → rg_attachments (st_registry s) !! b = Some r' →
    ar_connection_token r = ar_connection_token r' → ar_execution_id r = ar_execution_id r' → a = b;
  ro_minted : ∀ a, is_Some (rg_attachments (st_registry s) !! a) →
    ∃ n next, n < st_next_id s ∧ unique_id prefix ID_Attachment n = Some (a, next) }.

Lemma controls_insert m a r b e :
  controls (<[a := r]> m) b e ↔
  b = a ∧ ar_role r = Role_Controller ∧ ar_execution_id r = e ∨ b ≠ a ∧ controls m b e.
Proof.
  unfold controls. destruct (decide (b = a)) as [->|Hn].
  - rewrite lookup_insert_eq. naive_solver.
  - rewrite lookup_insert_ne by done. naive_solver.
Qed.

Lemma controls_update m a r r' b e :
  m !! a = Some r → ar_role r' = ar_role r → ar_execution_id r' = ar_execution_id r →
  controls (<[a := r']> m) b e ↔ controls m b e.
Proof.
  intros Ha Hr He. rewrite controls_insert, Hr, He. destruct (decide (b = a)) as [->|Hn]; [|naive_solver].
  split; [|intros (r0 & H1 & H2 & H3); rewrite Ha in H1; injection H1 as <-; by left].
  intros [(_ & H1 & H2)|[]]; [by exists r|done].
Qed.

Lemma controls_delete m a b e : controls (delete a m) b e ↔ b ≠ a ∧ controls m b e.
Proof.
  unfold controls. setoid_rewrite lookup_delete_Some. naive_solver.
Qed.

Lemma elem_of_ids_where f g a :
  a ∈ ids_where f g ↔ ∃ r, rg_attachments g !! a = Some r ∧ f r = true.
Proof.
  unfold ids_where. rewrite elem_of_dom. split.
  - intros [r [Hr Hf]%map_lookup_filter_Some]. by exists r.
  - intros (r & Hr & Hf). exists r. by apply map_lookup_filter_Some.
Qed.

Lemma no_execution_on_connection token e g :
  has_execution_on_connection token e g = false →
  ∀ a r, rg_attachments g !! a = Some r → ar_connection_token r = token → ar_execution_id r ≠ e.
Proof.
  unfold has_execution_on_connection. intros H%bool_decide_eq_false_1 a r Ha Ht He. apply H. intros Hn.
  assert (a ∈ (∅ : gset N)) as Hin; [|by apply not_elem_of_empty in Hin].
  rewrite <-Hn. apply elem_of_ids_where. exists r. split; [done|]. by rewrite Ht, He, !N.eqb_refl.
Qed.

Lemma unique_id_next prefix d n a next : unique_id prefix d n = Some (a, next) → next = n + 1.
Proof. unfold unique_id, checked_add. by case_match; intros [=]. Qed.

Lemma minted_mono prefix next next' (m : gmap N AttachmentRecord) :
  next ≤ next' →
  (∀ a, is_Some (m !! a) → ∃ n k, n < next ∧ unique_id prefix ID_Attachment n = Some (a, k)) →
  ∀ a, is_Some (m !! a) → ∃ n k, n < next' ∧ unique_id prefix ID_Attachment n = Some (a, k).
Proof. intros Hle H a Ha. destruct (H a Ha) as (n & k & ? & ?). exists n, k. split; [lia|done]. Qed.

(** The identity of an admitted attach is not in the registry. *)
Lemma fresh_attachment prefix g next a next' :
  prefix < u64_mod → registry_ok prefix (mkState g next) → unique_id prefix ID_Attachment next = Some (a, next') →
  rg_attachments g !! a = None.
Proof.
  intros Hp Hok Hid. apply eq_None_not_Some. intros Ha. destruct (ro_minted _ _ Hok a Ha) as (n & k & Hn & Hk).
  destruct (unique_id_inj _ _ _ _ _ _ _ _ Hp Hid Hk) as [_ <-]. cbn in Hn. lia.
Qed.

Lemma attach_ok prefix g next token e role dc a next' :
  prefix < u64_mod → registry_ok prefix (mkState g next) → attach_admission token e role dc g = Ok tt →
  unique_id prefix ID_Attachment next = Some (a, next') →
  registry_ok prefix (mkState (insert_prevalidated a e role token g) next').
Proof.
  intros Hp Hok Had Hid. pose proof (fresh_attachment _ _ _ _ _ Hp Hok Hid) as Hfresh.
  pose proof (unique_id_next _ _ _ _ _ Hid) as ->. destruct Hok as [Hc Hb Ho Hm]. cbn [st_registry st_next_id] in *.
  unfold attach_admission in Had. destruct (N.leb_spec MAX_LIVE_ATTACHMENTS (registry_len g)) as [|Hlen]; [done|].
  destruct (bool_decide (role = Role_Controller) && has_controller e g) eqn:Hrole; [done|].
  destruct (has_execution_on_connection token e g) eqn:Hex; [done|]. clear Had.
  pose proof (no_execution_on_connection _ _ _ Hex) as Hno.
  constructor; cbn [st_registry st_next_id insert_prevalidated rg_controllers rg_attachments].
  - intros e' b. rewrite controls_insert, <-Hc. cbn [ar_role ar_execution_id].
    assert (rg_controllers g !! e' ≠ Some a) as Hna.
    { intros (r & Hr & _)%Hc. congruence. }
    case_bool_decide as Hr; [|naive_solver]. unfold has_controller in Hrole.
    apply bool_decide_eq_false_1, eq_None_not_Some in Hrole.
    destruct (decide (e' = e)) as [->|Hne].
    + rewrite lookup_insert_eq. naive_solver.
    + rewrite lookup_insert_ne by done. naive_solver.
  - unfold registry_len, insert_prevalidated in *. cbn [rg_attachments]. rewrite map_size_insert_None by done. unfold MAX_LIVE_ATTACHMENTS in *. lia.
  - intros x y r r'. rewrite !lookup_insert_Some. naive_solver.
  - intros x. destruct (decide (x = a)) as [->|Hx].
    + intros _. exists next, (next + 1). split; [lia|done].
    + rewrite lookup_insert_ne by done. apply (minted_mono prefix next); [lia|done].
Qed.

(** A step that only takes attachments away. *)
Lemma shrink_ok prefix g g' next :
  registry_ok prefix (mkState g next) → rg_attachments g' ⊆ rg_attachments g →
  (∀ e a, rg_controllers g' !! e = Some a ↔ controls (rg_attachments g') a e) →
  registry_ok prefix (mkState g' next).
Proof.
  intros [Hc Hb Ho Hm] Hsub Hc'. cbn [st_registry st_next_id] in *.
  constructor; cbn [st_registry st_next_id]; [done|..].
  - unfold registry_len in *. etransitivity; [|exact Hb]. apply map_subseteq_size in Hsub. lia.
  - intros a b r r' Ha Hr. eapply Ho; by eapply lookup_weaken.
  - intros a [r Ha]. apply Hm. exists r. by eapply lookup_weaken.
Qed.

Lemma detach_ok prefix g next a g' :
  registry_ok prefix (mkState g next) → detach a g = Ok g' → registry_ok prefix (mkState g' next).
Proof.
  intros Hok. unfold detach. destruct (rg_attachments g !! a) as [r|] eqn:Ha; [|done]. intros [= <-].
  apply (shrink_ok prefix g); [done|apply delete_subseteq|]. destruct Hok as [Hc _ _ _]. cbn in *.
  intros e b. rewrite controls_delete, <-Hc.
  assert (∀ e', rg_controllers g !! e' = Some a → e' = ar_execution_id r ∧ ar_role r = Role_Controller) as Hra.
  { intros e' (r0 & H1 & H2 & H3)%Hc. naive_solver. }
  destruct (bool_decide _ && bool_decide _) eqn:Hd.
  - apply andb_true_iff in Hd as [Hr%bool_decide_eq_true_1 Hl%bool_decide_eq_true_1].
    rewrite lookup_delete_Some. naive_solver.
  - apply andb_false_iff in Hd as [Hd|Hd]; apply bool_decide_eq_false_1 in Hd; naive_solver.
Qed.

(** A step that changes the delivery of one attachment. *)
Lemma delivery_ok prefix g next a r r' :
  registry_ok prefix (mkState g next) → rg_attachments g !! a = Some r →
  ar_role r' = ar_role r → ar_execution_id r' = ar_execution_id r → ar_connection_token r' = ar_connection_token r →
  registry_ok prefix (mkState (mkRegistry (<[a := r']> (rg_attachments g)) (rg_controllers g) (rg_max_attachments g)) next).
Proof.
  intros [Hc Hb Ho Hm] Ha H1 H2 H3. cbn [st_registry st_next_id] in *.
  constructor; cbn [st_registry st_next_id rg_controllers rg_attachments].
  - intros e b. by rewrite (controls_update _ _ r).
  - unfold registry_len in *. cbn [rg_attachments]. by rewrite map_size_insert_Some by by eexists.
  - intros x y s s'. rewrite !lookup_insert_Some. intros [[<- <-]|[Hx Hs]] [[<- <-]|[Hy Hs']]; rewrite ?H2, ?H3; eauto.
  - intros x. destruct (decide (x = a)) as [->|Hx]; [intros _; by apply Hm|]. rewrite lookup_insert_ne by done. apply Hm.
Qed.

Lemma end_ok prefix g next e :
  registry_ok prefix (mkState g next) → registry_ok prefix (mkState (remove_all_for_execution e g).2 next).
Proof.
  intros Hok. apply (shrink_ok prefix g); [done|apply map_filter_subseteq|]. destruct Hok as [Hc _ _ _]. cbn in *.
  intros e' b. rewrite lookup_delete_Some, Hc. unfold controls. setoid_rewrite map_lookup_filter_Some. cbn.
  setoid_rewrite elem_of_ids_where. setoid_rewrite N.eqb_eq. naive_solver.
Qed.

Lemma step_ok prefix s s' :
  prefix < u64_mod → registry_ok prefix s → registry_step prefix s s' → registry_ok prefix s'.
Proof.
  intros Hp Hok Hstep. destruct Hstep as [g next token e role dc a next' Had Hid|g next d a next' Hid|g next token a g' Hd
    |g next a g' Hd|g next token a e pr g' He Hd|g next token a e sq pr g' He Hd|g next e].
  - by eapply attach_ok.
  - apply unique_id_next in Hid as ->. destruct Hok as [Hc Hb Ho Hm]. constructor; [done..|].
    apply (minted_mono prefix next); [cbn; lia|done].
  - unfold detach_for_connection in Hd. destruct (require_connection token a g); [|done]. by eapply detach_ok.
  - by eapply detach_ok.
  - unfold set_delivery in Hd. destruct (rg_attachments g !! a) as [r|] eqn:Ha; [|done]. injection Hd as _ <-.
    by eapply delivery_ok.
  - unfold resume_delivery in Hd. destruct (rg_attachments g !! a) as [r|] eqn:Ha; [|done].
    destruct (_ || _); [done|]. injection Hd as _ <-. by eapply delivery_ok.
  - by apply end_ok.
Qed.

Lemma registry_reachable_ok prefix s : prefix < u64_mod → registry_reachable prefix s → registry_ok prefix s.
Proof.
  intros Hp. induction 1 as [next|s s' Hs IH Hstep]; [|by eapply step_ok].
  constructor; cbn; [|done|done|by intros a []].
  intros e a. unfold controls. setoid_rewrite lookup_empty. naive_solver.
Qed.

(** * Authority *)

Lemma authorize_controls token a g e :
  authorize_mutation token a g = Ok e ↔
  ∃ r, rg_attachments g !! a = Some r ∧ ar_connection_token r = token ∧ ar_role r = Role_Controller ∧
       ar_execution_id r = e.
Proof.
  unfold authorize_mutation, require_connection. destruct (rg_attachments g !! a) as [r|]; [|naive_solver].
  destruct (N.eqb_spec (ar_connection_token r) token); cbn [negb]; [|naive_solver].
  case_bool_decide; cbn [negb]; naive_solver.
Qed.

(** What a step may do to an attachment that is there before and after it. *)
Lemma step_sequence prefix s s' a r r' :
  prefix < u64_mod → registry_ok prefix s → registry_step prefix s s' →
  rg_attachments (st_registry s) !! a = Some r → rg_attachments (st_registry s') !! a = Some r' →
  ar_execution_id r' = ar_execution_id r ∧ ar_role r' = ar_role r ∧ ar_connection_token r' = ar_connection_token r ∧
  ar_resume_sequence r ≤ ar_resume_sequence r'.
Proof.
  intros Hp Hok Hstep. destruct Hstep as [g next token e role dc b next' Had Hid|g next d b next' Hid|g next token b g' Hd
    |g next b g' Hd|g next token b e pr g' He Hd|g next token b e sq pr g' He Hd|g next e]; cbn [st_registry]; intros Ha.
  - pose proof (fresh_attachment _ _ _ _ _ Hp Hok Hid) as Hf. cbn. rewrite lookup_insert_ne by congruence. naive_solver.
  - naive_solver.
  - unfold detach_for_connection in Hd. destruct (require_connection token b g); [|done]. revert Hd. unfold detach.
    destruct (rg_attachments g !! b); [|done]. intros [= <-]. cbn. rewrite lookup_delete_Some. naive_solver.
  - revert Hd. unfold detach. destruct (rg_attachments g !! b); [|done]. intros [= <-]. cbn. rewrite lookup_delete_Some.
    naive_solver.
  - unfold set_delivery in Hd. destruct (rg_attachments g !! b) as [s|] eqn:Hb; [|done]. injection Hd as _ <-. cbn.
    rewrite lookup_insert_Some. intros [[<- <-]|[_ ?]]; naive_solver.
  - unfold resume_delivery in Hd. destruct (rg_attachments g !! b) as [s|] eqn:Hb; [|done].
    destruct (_ || _) eqn:Hsq; [done|]. injection Hd as _ <-. cbn. apply orb_false_iff in Hsq as [_ Hsq%N.leb_gt].
    rewrite lookup_insert_Some. intros [[<- <-]|[_ ?]]; [|naive_solver]. rewrite Ha in Hb. injection Hb as <-. cbn.
    split_and!; (done || lia).
  - cbn. rewrite map_lookup_filter_Some. naive_solver.
Qed.

(** C39. Authority over an execution is exclusive, in every state the Runtime can reach.
    Whatever the order of attaches, detaches, closed connections, suspensions, resumptions
    and ended executions: at most one attachment on one connection may mutate an
    execution, and there is one exactly when the registry reports a controller; no
    connection is attached twice to an execution and at most 100 attachments are live; the
    identity that is issued next is not that of a live attachment; and no step moves an
    attachment to another execution, role or connection, or its resume epoch backwards. *)
Theorem exclusive_controller prefix s :
  prefix < u64_mod → registry_reachable prefix s →
  let g := st_registry s in
  (∀ token token' a a' e, authorize_mutation token a g = Ok e → authorize_mutation token' a' g = Ok e →
     token = token' ∧ a = a') ∧
  (∀ e, has_controller e g = true ↔ ∃ token a, authorize_mutation token a g = Ok e) ∧
  (∀ token e a b, execution_for_connection token a g = Ok e → execution_for_connection token b g = Ok e → a = b) ∧
  registry_len g ≤ MAX_LIVE_ATTACHMENTS ∧
  (∀ a next, unique_id prefix ID_Attachment (st_next_id s) = Some (a, next) → rg_attachments g !! a = None) ∧
  (∀ s' a r r', registry_step prefix s s' → rg_attachments g !! a = Some r →
     rg_attachments (st_registry s') !! a = Some r' →
     ar_execution_id r' = ar_execution_id r ∧ ar_role r' = ar_role r ∧
     ar_connection_token r' = ar_connection_token r ∧ ar_resume_sequence r ≤ ar_resume_sequence r').
Proof.
  intros Hp Hr. pose proof (registry_reachable_ok _ _ Hp Hr) as Hok. destruct (Hok) as [Hc Hb Ho Hm]. cbv zeta.
  split_and!.
  - intros token token' a a' e (r & Ha & <- & Hrole & He)%authorize_controls (r' & Ha' & <- & Hrole' & He')%authorize_controls.
    assert (rg_controllers (st_registry s) !! e = Some a) as H1 by (apply Hc; by exists r).
    assert (rg_controllers (st_registry s) !! e = Some a') as H2 by (apply Hc; by exists r').
    assert (a = a') as <- by congruence. split; [congruence|done].
  - intros e. unfold has_controller. rewrite bool_decide_eq_true. setoid_rewrite authorize_controls. split.
    + intros [a (r & ? & ? & ?)%Hc]. by exists (ar_connection_token r), a, r.
    + intros (token & a & r & ? & _ & ? & ?). exists a. apply Hc. by exists r.
  - intros token e a b. unfold execution_for_connection, require_connection.
    destruct (rg_attachments (st_registry s) !! a) as [r|] eqn:Ha; [|done].
    destruct (rg_attachments (st_registry s) !! b) as [r'|] eqn:Hb'; [|by destruct (negb _)].
    destruct (N.eqb_spec (ar_connection_token r) token); cbn [negb]; [|done].
    destruct (N.eqb_spec (ar_connection_token r') token); cbn [negb]; [|done]. intros [= <-] [= He].
    eapply Ho; [done..|congruence|done].
  - done.
  - intros a next Hid. destruct s as [g n]. by eapply fresh_attachment.
  - intros s' a r r' Hstep. by eapply step_sequence.
Qed.

Lemma exclusive_controller_witness :
  ∃ g a, attach_admission 7 9 Role_Controller true registry_new = Ok tt ∧
    g = insert_prevalidated a 9 Role_Controller 7 registry_new ∧ authorize_mutation 7 a g = Ok 9 ∧
    (∀ token b, authorize_mutation token b g = Ok 9 → token = 7 ∧ b = a).
Proof.
  destruct (unique_id 5 ID_Attachment 1) as [[a next]|] eqn:Hid; [|vm_compute in Hid; discriminate].
  set (g := insert_prevalidated a 9 Role_Controller 7 registry_new).
  assert (authorize_mutation 7 a g = Ok 9) as Ha.
  { apply authorize_controls. eexists. split; [apply lookup_insert_eq|done]. }
  destruct (exclusive_controller 5 (mkState g next)) as [Hx _]; [done| |].
  { eapply reach_step; [apply (reach_start 5 1)|]. eapply (step_attach 5 _ 1 7 9 Role_Controller true); [vm_compute; reflexivity|done]. }
  exists g, a. split; [vm_compute; reflexivity|]. split; [done|]. split; [done|].
  intros token b Hb. exact (Hx token 7 b a 9 Hb Ha).
Defined.
