(* ===== verification/CommandTimeline.v ===== *)
(** The Runtime's command-block timeline,
    [crates/seyal-runtime/src/command_block_timeline.rs], and the pure part of its publication,
    [publish_block_timeline] of [runtime/local/history_blocks.rs]: bounded admission keeps the
    timeline within one frame, so publishing never fails to encode. *)

From S2P Require Import Prelude Utf8 Wire WirePane WireControl WireText WireBlocks WireMessage.

Implicit Types (bytes p command : list N) (id start_line end_line : N).

Definition MAX_COMMAND_BYTES : N := 16 * 1024.
Definition MAX_BLOCKS_PER_EXECUTION : N := 128.
Definition TIMELINE_HEADER_BYTES : N := 16.
Definition RECORD_HEADER_BYTES : N := 36.
Definition SCOPE_TRUST_BYTES : N := 4.

#[global] Instance CommandBlockState_eq : EqDecision CommandBlockState.
Proof. solve_decision. Defined.

#[global] Instance BlockScope_eq : EqDecision BlockScope.
Proof. solve_decision. Defined.

(** The lifecycle of a record has the shape of the wire's [CommandBlockState]. *)
Record CommandBlockRecord := mkBlockRecord {
  br_id : N; br_command : list N; br_start_line : N; br_end_line : option N;
  br_lifecycle : CommandBlockState; br_scope : BlockScope; br_trust : BlockTrust;
  br_host_block : option N }.

Record CommandBlockTimeline := mkTimeline {
  tl_next_id : N; tl_records : list CommandBlockRecord; tl_canvas_floor : option N }.

Implicit Types (t : CommandBlockTimeline) (r : CommandBlockRecord).

Inductive CommandBlockTimelineError :=
  | TE_InvalidCommand | TE_Capacity | TE_Exhausted | TE_UnknownBlock | TE_InvalidCompletion.

Definition timeline_default : CommandBlockTimeline := mkTimeline 0 [] None.

(** * Operations *)

Definition allocate_id t : result CommandBlockTimelineError (N * CommandBlockTimeline) :=
  match checked_add u64_max (tl_next_id t) 1 with
  | None => Err TE_Exhausted
  | Some id => Ok (id, mkTimeline id (tl_records t) (tl_canvas_floor t))
  end.

Definition record_len r : N := RECORD_HEADER_BYTES + SCOPE_TRUST_BYTES + vlen (br_command r).

Definition timeline_encoded_len t : N :=
  TIMELINE_HEADER_BYTES + foldr (λ r n, record_len r + n) 0 (tl_records t).

Definition completed r : bool := match br_lifecycle r with CBS_Completed _ => true | CBS_Running => false end.

(** [position] of the first completed record, and [remove] of it: the records before it,
    the record and the records after it. *)
Fixpoint split_completed (l : list CommandBlockRecord)
    : option (list CommandBlockRecord * CommandBlockRecord * list CommandBlockRecord) :=
  match l with
  | [] => None
  | r :: l =>
    if completed r then Some ([], r, l)
    else match split_completed l with
         | None => None
         | Some (before, removed, after) => Some (r :: before, removed, after)
         end
  end.

(** The eviction loop; every round removes one record, so the number of records and one
    more are fuel enough.  The timeline is changed even when the loop gives up. *)
Fixpoint make_room_loop (fuel : nat) (needed : N) t : option (result CommandBlockTimelineError unit * CommandBlockTimeline) :=
  match fuel with
  | O => None
  | S fuel =>
    if negb ((vlen (tl_records t) =? MAX_BLOCKS_PER_EXECUTION) || (MAX_FRAME_PAYLOAD <? timeline_encoded_len t + needed))
    then Some (Ok tt, t) else
    match split_completed (tl_records t) with
    | None => Some (Err TE_Capacity, t)
    | Some (before, removed, after) =>
      let records := before ++ after in
      let floor :=
        if bool_decide (tl_canvas_floor t = Some (br_id removed)) then br_id <$> head records
        else tl_canvas_floor t in
      make_room_loop fuel needed (mkTimeline (tl_next_id t) records floor)
    end
  end.

Definition make_room_for (command_len : N) t : option (result CommandBlockTimelineError unit * CommandBlockTimeline) :=
  let needed := RECORD_HEADER_BYTES + SCOPE_TRUST_BYTES + command_len in
  if MAX_FRAME_PAYLOAD <? TIMELINE_HEADER_BYTES + needed then Some (Err TE_Capacity, t)
  else make_room_loop (S (length (tl_records t))) needed t.

Definition timeline_start id command start_line t
    : option (result CommandBlockTimelineError unit * CommandBlockTimeline) :=
  if (vlen command =? 0) || (MAX_COMMAND_BYTES <? vlen command) then Some (Err TE_InvalidCommand, t) else
  if existsb (λ r, br_id r =? id) (tl_records t) then Some (Err TE_InvalidCommand, t) else
  room ← make_room_for (vlen command) t;
  match room with
  | (Err e, t) => Some (Err e, t)
  | (Ok _, t) =>
    Some (Ok tt, mkTimeline (tl_next_id t)
      (tl_records t ++ [mkBlockRecord id command start_line None CBS_Running BS_Local BT_LocalTrusted None])
      (tl_canvas_floor t))
  end.

(** [iter_mut().find(|record| record.id == id)] with the update [f] of what it finds. *)
Fixpoint update_first id (f : CommandBlockRecord → CommandBlockRecord) (l : list CommandBlockRecord)
    : list CommandBlockRecord :=
  match l with
  | [] => []
  | r :: l => if br_id r =? id then f r :: l else r :: update_first id f l
  end.

Definition start_session id command start_line (host_block : N) t
    : option (result CommandBlockTimelineError unit * CommandBlockTimeline) :=
  started ← timeline_start id command start_line t;
  match started with
  | (Err e, t) => Some (Err e, t)
  | (Ok _, t) =>
    Some (Ok tt, mkTimeline (tl_next_id t)
      (update_first id (λ r, mkBlockRecord (br_id r) (br_command r) (br_start_line r) (br_end_line r) (br_lifecycle r)
                               BS_Session BT_SessionTrusted (Some host_block)) (tl_records t))
      (tl_canvas_floor t))
  end.

(** The start line a completed record gets: it never rewinds. *)
Definition advanced_start r (start : option N) : N :=
  match start with Some s => if br_start_line r <? s then s else br_start_line r | None => br_start_line r end.

Definition completed_record (start : option N) end_line (exit_status : option Z) r : CommandBlockRecord :=
  let start_line := advanced_start r start in
  mkBlockRecord (br_id r) (br_command r) start_line (Some (N.max end_line start_line)) (CBS_Completed exit_status)
    (br_scope r) (br_trust r) (br_host_block r).

(** The canvas floor after the completion: a local block whose start was reminted. *)
Definition completed_floor id (start : option N) r (floor : option N) : option N :=
  if negb (advanced_start r start =? br_start_line r) && bool_decide (br_scope r = BS_Local) then
    match floor with
    | Some f => if id <? f then floor else Some id
    | None => Some id
    end
  else floor.

Definition complete_span id (start : option N) end_line (exit_status : option Z) t
    : result CommandBlockTimelineError unit * CommandBlockTimeline :=
  match list_find (λ r, br_id r = id) (tl_records t) with
  | None => (Err TE_UnknownBlock, t)
  | Some (_, r) =>
    if negb (bool_decide (br_lifecycle r = CBS_Running)) then (Err TE_InvalidCompletion, t) else
    (Ok tt, mkTimeline (tl_next_id t) (update_first id (completed_record start end_line exit_status) (tl_records t))
              (completed_floor id start r (tl_canvas_floor t)))
  end.

(** * Publication *)

Definition COMMAND_BLOCK_FLAG_CANVAS_FLOOR : N := 1.

Definition publish_record (floor : option N) r : CommandBlock :=
  mkCommandBlock (br_id r) (br_command r) (br_start_line r) (br_end_line r) (br_lifecycle r)
    (if bool_decide (floor = Some (br_id r)) then COMMAND_BLOCK_FLAG_CANVAS_FLOOR else 0) (br_scope r) (br_trust r).

Definition published t : list CommandBlock := publish_record (tl_canvas_floor t) <$> tl_records t.

(** The two timelines [publish_block_timeline] builds. *)
Definition legacy_timeline (revision : N) t : BlockTimeline :=
  mkBlockTimeline revision (List.filter local_trusted (published t)).
Definition session_timeline (revision : N) t : BlockTimeline := mkBlockTimeline revision (published t).

(** * Reachable timelines *)

(** What the callers hand over: an identity that was allocated, a line of the terminal, the
    text of a command and an [i32] status. *)
Definition text_ok command : Prop := octets command ∧ is_Some (from_utf8 command).
Definition line_ok (line : N) : Prop := 0 < line ∧ fits 8 line.
Definition status_ok (exit_status : option Z) : Prop :=
  match exit_status with Some z => (- 2 ^ 31 ≤ z < 2 ^ 31)%Z | None => True end.

Inductive timeline_step t : CommandBlockTimeline → Prop :=
  | ts_allocate id t' : allocate_id t = Ok (id, t') → timeline_step t t'
  | ts_start id command line res t' :
    0 < id ≤ tl_next_id t → text_ok command → line_ok line →
    timeline_start id command line t = Some (res, t') → timeline_step t t'
  | ts_session id command line host res t' :
    0 < id ≤ tl_next_id t → text_ok command → line_ok line →
    start_session id command line host t = Some (res, t') → timeline_step t t'
  | ts_complete id start line exit_status res t' :
    (∀ s, start = Some s → line_ok s) → fits 8 line → status_ok exit_status →
    complete_span id start line exit_status t = (res, t') → timeline_step t t'.

Inductive timeline_reachable : CommandBlockTimeline → Prop :=
  | tr_default : timeline_reachable timeline_default
  | tr_step t t' : timeline_reachable t → timeline_step t t' → timeline_reachable t'.

(** * The invariant *)

Definition lifecycle_ok r : Prop :=
  match br_lifecycle r, br_end_line r with
  | CBS_Running, None => True
  | CBS_Completed z, Some e => br_start_line r ≤ e ∧ fits 8 e ∧ status_ok z
  | _, _ => False
  end.

Record block_ok (next_id : N) r : Prop := mkBlockOk {
  bo_id : 0 < br_id r ≤ next_id;
  bo_command : text_ok (br_command r);
  bo_length : 0 < vlen (br_command r) ≤ MAX_COMMAND_BYTES;
  bo_start : line_ok (br_start_line r);
  bo_lifecycle : lifecycle_ok r }.

Record timeline_inv t : Prop := mkTimelineInv {
  ti_next : tl_next_id t ≤ u64_max;
  ti_blocks : Forall (block_ok (tl_next_id t)) (tl_records t);
  ti_ids : NoDup (br_id <$> tl_records t);
  ti_count : vlen (tl_records t) ≤ MAX_BLOCKS_PER_EXECUTION;
  ti_size : timeline_encoded_len t ≤ MAX_FRAME_PAYLOAD }.

Lemma split_completed_spec l before removed after :
  split_completed l = Some (before, removed, after) → l = before ++ removed :: after ∧ completed removed = true.
Proof.
  revert before. induction l as [|r l IH]; intros before; cbn; [done|].
  destruct (completed r) eqn:Hr; [by intros [= <- <- <-]|].
  destruct (split_completed l) as [[[b x] a]|]; [|done]. intros [= <- <- <-].
  destruct (IH b eq_refl) as [-> Hx]. done.
Qed.

Lemma records_len_app (a b : list CommandBlockRecord) :
  foldr (λ r n, record_len r + n) 0 (a ++ b) = foldr (λ r n, record_len r + n) 0 a + foldr (λ r n, record_len r + n) 0 b.
Proof. induction a as [|r a IH]; cbn; [lia|]. rewrite IH. lia. Qed.

Lemma evict_inv t before removed after floor :
  timeline_inv t → tl_records t = before ++ removed :: after →
  timeline_inv (mkTimeline (tl_next_id t) (before ++ after) floor).
Proof.
  intros [Hn Hb Hi Hc Hs] Heq. unfold timeline_encoded_len in Hs. rewrite Heq in *.
  rewrite fmap_app, fmap_cons in Hi. rewrite records_len_app in Hs. rewrite length_app in Hc. cbn in *.
  apply Forall_app in Hb as [Hb1 Hb2]. apply Forall_cons in Hb2 as [_ Hb2].
  constructor; unfold timeline_encoded_len; cbn [tl_next_id tl_records]; [done|by apply Forall_app| | |].
  - rewrite fmap_app. apply NoDup_app in Hi as (H1 & H2 & H3). apply NoDup_cons in H3 as [H3 H4].
    apply NoDup_app. split_and!; [done| |done]. intros x Hx Hx'. apply (H2 x Hx). by right.
  - rewrite length_app. lia.
  - rewrite records_len_app. lia.
Qed.

(** Making room always ends; when it succeeds, the record fits. *)
Lemma make_room_spec fuel needed t :
  timeline_inv t → (length (tl_records t) < fuel)%nat →
  ∃ res t', make_room_loop fuel needed t = Some (res, t') ∧ timeline_inv t' ∧ tl_next_id t' = tl_next_id t ∧
    (∀ r, r ∈ tl_records t' → r ∈ tl_records t) ∧
    (res = Ok tt → vlen (tl_records t') < MAX_BLOCKS_PER_EXECUTION ∧ timeline_encoded_len t' + needed ≤ MAX_FRAME_PAYLOAD).
Proof.
  revert t. induction fuel as [|fuel IH]; intros t Ht Hf; [lia|]. cbn [make_room_loop].
  destruct (_ || _) eqn:Hfull; cbn [negb].
  - destruct (split_completed (tl_records t)) as [[[before removed] after]|] eqn:Hsp.
    2: { eexists _, _. split; [done|]. by split_and!. }
    apply split_completed_spec in Hsp as [Hl _].
    edestruct (IH (mkTimeline (tl_next_id t) (before ++ after)
      (if bool_decide (tl_canvas_floor t = Some (br_id removed)) then br_id <$> head (before ++ after) else tl_canvas_floor t)))
      as (res & t' & -> & Hinv & Hn & Hin & Hres).
    { by eapply evict_inv. }
    { cbn [tl_records]. rewrite Hl, length_app in Hf. cbn in Hf. rewrite length_app. lia. }
    exists res, t'. split_and!; try done. intros r Hr. rewrite Hl. apply Hin in Hr. cbn in Hr. rewrite elem_of_app, elem_of_cons in *. tauto.
  - eexists _, _. split; [done|]. split_and!; try done. intros _. apply orb_false_iff in Hfull as [H1%N.eqb_neq H2%N.ltb_ge].
    destruct Ht. split; [lia|done].
Qed.

Lemma push_inv t r :
  timeline_inv t → block_ok (tl_next_id t) r → br_id r ∉ br_id <$> tl_records t →
  vlen (tl_records t) < MAX_BLOCKS_PER_EXECUTION → timeline_encoded_len t + record_len r ≤ MAX_FRAME_PAYLOAD →
  timeline_inv (mkTimeline (tl_next_id t) (tl_records t ++ [r]) (tl_canvas_floor t)).
Proof.
  intros [Hn Hb Hi Hc Hs] Hr Hfresh Hroom Hsize. unfold timeline_encoded_len in *.
  constructor; unfold timeline_encoded_len; cbn [tl_next_id tl_records]; [done|apply Forall_app; split; [done|by apply Forall_singleton]| | |].
  - rewrite fmap_app. apply NoDup_app. split_and!; [done| |apply NoDup_singleton].
    intros x Hx ->%list_elem_of_singleton. done.
  - rewrite length_app. cbn. lia.
  - rewrite records_len_app. cbn. lia.
Qed.

Lemma existsb_id id (l : list CommandBlockRecord) :
  existsb (λ r, br_id r =? id) l = false → ∀ r, r ∈ l → br_id r ≠ id.
Proof.
  intros H r Hr Hid. apply not_true_iff_false in H. apply H, existsb_exists. exists r.
  split; [by apply list_elem_of_In|]. by apply N.eqb_eq.
Qed.

(** Starting a block always returns, keeps the invariant, and on success appends the
    running record. *)
Lemma start_spec id command line t :
  timeline_inv t → 0 < id ≤ tl_next_id t → text_ok command → line_ok line →
  ∃ res t', timeline_start id command line t = Some (res, t') ∧ timeline_inv t' ∧ tl_next_id t' = tl_next_id t ∧
    (res = Ok tt → ∃ kept, tl_records t' =
       kept ++ [mkBlockRecord id command line None CBS_Running BS_Local BT_LocalTrusted None] ∧
       (∀ r, r ∈ kept → br_id r ≠ id)).
Proof.
  intros Ht Hid Hc Hl. unfold timeline_start. destruct (_ || _) eqn:Hlen; [by eexists _, _|].
  destruct (existsb _ _) eqn:Hdup; [by eexists _, _|]. pose proof (existsb_id _ _ Hdup) as Hfresh.
  apply orb_false_iff in Hlen as [H1%N.eqb_neq H2%N.ltb_ge]. unfold make_room_for.
  destruct (_ <? _) eqn:Hbig; [by eexists _, _|].
  destruct (make_room_spec (S (length (tl_records t))) (RECORD_HEADER_BYTES + SCOPE_TRUST_BYTES + vlen command) t Ht)
    as (res & t' & -> & Hinv & Hn & Hin & Hres); [lia|]. cbn [mbind option_bind].
  destruct res as [[]|e]; [|by eexists _, _]. destruct (Hres eq_refl) as [Hroom Hsize].
  assert (∀ r, r ∈ tl_records t' → br_id r ≠ id) as Hkept by auto.
  eexists _, _. split; [done|]. cbn [tl_next_id tl_records]. split_and!; [|done|by eexists].
  apply (push_inv t'); [done| | |done|done].
  - rewrite Hn. by constructor; cbn; [| |lia| |].
  - cbn. rewrite list_elem_of_fmap. intros (r & Hr & Hr'). by apply (Hkept r).
Qed.

(** The update of the one record with an identity. *)
Lemma update_inv t id f :
  timeline_inv t → (∀ r, r ∈ tl_records t → br_id r = id → block_ok (tl_next_id t) (f r)) →
  (∀ r, br_id (f r) = br_id r) → (∀ r, br_command (f r) = br_command r) →
  ∀ floor, timeline_inv (mkTimeline (tl_next_id t) (update_first id f (tl_records t)) floor).
Proof.
  intros [Hn Hb Hi Hc Hs] Hf Hid Hcm floor.
  assert (br_id <$> update_first id f (tl_records t) = br_id <$> tl_records t) as Hids.
  { clear -Hid. induction (tl_records t) as [|r l IH]; [done|]. cbn. case_match; cbn; [by rewrite Hid|by rewrite IH]. }
  assert (foldr (λ r n, record_len r + n) 0 (update_first id f (tl_records t))
          = foldr (λ r n, record_len r + n) 0 (tl_records t)) as Hlen.
  { clear -Hcm. induction (tl_records t) as [|r l IH]; [done|]. cbn.
    case_match; cbn; [|by rewrite IH]. unfold record_len. by rewrite Hcm. }
  constructor; unfold timeline_encoded_len in *; cbn [tl_next_id tl_records]; [done| |by rewrite Hids| |by rewrite Hlen].
  - clear -Hb Hf. induction Hb as [|r l Hr Hl IH]; [done|]. cbn. destruct (N.eqb_spec (br_id r) id) as [He|].
    + constructor; [|done]. apply Hf; [by left|done].
    + constructor; [done|]. apply IH. intros r' Hr'. apply Hf. by right.
  - apply (f_equal length) in Hids. rewrite !length_fmap in Hids. by rewrite Hids.
Qed.

Lemma completed_block_ok next r start line exit_status :
  block_ok next r → (∀ s, start = Some s → line_ok s) → fits 8 line → status_ok exit_status →
  block_ok next (completed_record start line exit_status r).
Proof.
  intros [H1 H2 H3 [H4 H4'] H5] Hs Hl Hx.
  assert (line_ok (advanced_start r start)) as [Ha Ha'].
  { unfold advanced_start. destruct start as [s|]; [|done]. case_match; [by apply Hs|done]. }
  constructor; cbn; try done. unfold lifecycle_ok. cbn. split_and!; [lia| |done].
  unfold fits in *. by apply N.max_lub_lt.
Qed.

Lemma step_inv t t' : timeline_inv t → timeline_step t t' → timeline_inv t'.
Proof.
  intros Ht [id t1 Ha|id c l res t1 Hid Hc Hl Hs|id c l h res t1 Hid Hc Hl Hs|id st l x res t1 Hst Hl Hx Hs].
  - unfold allocate_id, checked_add in Ha. destruct (N.leb_spec (tl_next_id t + 1) u64_max) as [Hle|]; [|done].
    injection Ha as _ <-. destruct Ht as [Hn Hb Hi Hcn Hsz]. constructor; try done.
    cbn. eapply Forall_impl; [exact Hb|]. intros r []. constructor; try done. lia.
  - destruct (start_spec _ _ _ _ Ht Hid Hc Hl) as (res' & t2 & Hst & Hinv & _). congruence.
  - unfold start_session in Hs. destruct (start_spec _ _ _ _ Ht Hid Hc Hl) as (res' & t2 & Hst & Hinv & _).
    rewrite Hst in Hs. cbn [mbind option_bind] in Hs. destruct res' as [[]|]; injection Hs as _ <-; [|done].
    apply (update_inv t2); try done. intros r Hr _. destruct Hinv as [_ Hb _ _ _].
    rewrite Forall_forall in Hb. by destruct (Hb r Hr).
  - unfold complete_span in Hs. destruct (list_find _ _) as [[i r]|]; [|by injection Hs as _ <-].
    destruct (negb _); injection Hs as _ <-; [done|].
    apply update_inv; try done. intros r' Hr' _. apply completed_block_ok; try done.
    destruct Ht as [_ Hb _ _ _]. rewrite Forall_forall in Hb. by apply Hb.
Qed.

Lemma timeline_reachable_inv t : timeline_reachable t → timeline_inv t.
Proof.
  induction 1 as [|t t' _ IH Hstep]; [|by eapply step_inv].
  constructor; cbn; try done; constructor.
Qed.

(** * Publication never fails to encode *)

Lemma flags_ok (b : bool) : (if b then COMMAND_BLOCK_FLAG_CANVAS_FLOOR else 0) < 256 ∧
  flags_bad (if b then COMMAND_BLOCK_FLAG_CANVAS_FLOOR else 0) = false.
Proof. by destruct b. Qed.

Lemma publish_sendable session floor next r :
  next ≤ u64_max → block_ok next r → session = true ∨ local_trusted (publish_record floor r) = true →
  record_sendable session (publish_record floor r).
Proof.
  intros Hn [Hid Hc Hl [Hs Hs'] Hlc] Hsess. constructor; cbn.
  - split; [|lia]. unfold fits. change (256 ^ N.of_nat 8) with 18446744073709551616. unfold u64_max in Hn. lia.
  - split; [done|lia].
  - unfold state_ok, lifecycle_ok in *. cbn. destruct (br_lifecycle r) as [|[z|]], (br_end_line r); cbn in *; try done;
      by destruct Hlc as (? & ? & ?).
  - apply flags_ok.
  - done.
  - unfold record_refused. cbn. unfold MAX_COMPOSER_COMMAND_BYTES, MAX_COMMAND_BYTES in *.
    rewrite (proj2 (N.eqb_neq _ _)), (proj2 (N.ltb_ge _ _)) by lia. cbn [orb].
    destruct Hsess as [->| ->]; [done|]. by rewrite andb_false_r.
Qed.

Lemma length_published session floor (l : list CommandBlockRecord) :
  vlen (enc_all (record_encode session) (publish_record floor <$> l)) ≤ foldr (λ r n, record_len r + n) 0 l ∧
  (session = true → vlen (enc_all (record_encode session) (publish_record floor <$> l)) = foldr (λ r n, record_len r + n) 0 l).
Proof.
  induction l as [|r l [IH1 IH2]]; [done|]. cbn [fmap list_fmap foldr].
  change (enc_all (record_encode session) (publish_record floor r :: (publish_record floor <$> l)))
    with (record_encode session (publish_record floor r) ++ enc_all (record_encode session) (publish_record floor <$> l)).
  rewrite length_app. pose proof (length_record session (publish_record floor r)) as Hr. cbn [cb_command publish_record] in Hr.
  unfold record_len, RECORD_HEADER_BYTES, SCOPE_TRUST_BYTES in *. unfold record_header_len in Hr.
  change (list_fmap _ _ (publish_record floor) l) with (publish_record floor <$> l) in *. 
  split; [destruct session; lia|]. intros ->. specialize (IH2 eq_refl). lia.
Qed.

Lemma length_filter_encoded session (f : CommandBlock → bool) l :
  vlen (enc_all (record_encode session) (List.filter f l)) ≤ vlen (enc_all (record_encode session) l).
Proof.
  induction l as [|r l IH]; [done|]. cbn [List.filter].
  change (enc_all (record_encode session) (r :: l)) with (record_encode session r ++ enc_all (record_encode session) l).
  rewrite length_app. destruct (f r); [|lia].
  change (enc_all (record_encode session) (r :: List.filter f l))
    with (record_encode session r ++ enc_all (record_encode session) (List.filter f l)). rewrite length_app. lia.
Qed.

Lemma session_sendable t revision :
  timeline_inv t → fits 8 revision → timeline_sendable true (session_timeline revision t).
Proof.
  intros [Hn Hb Hi Hc Hs] Hr. unfold session_timeline, published. constructor; cbn [bt_revision bt_records]; [done| | |].
  - by rewrite length_fmap.
  - apply Forall_fmap. eapply Forall_impl; [exact Hb|]. intros r H. eapply publish_sendable; [done|done|by left].
  - unfold timeline_encoded_len, TIMELINE_HEADER_BYTES in Hs.
    pose proof (length_published true (tl_canvas_floor t) (tl_records t)) as [H _]. lia.
Qed.

Lemma legacy_sendable t revision :
  timeline_inv t → fits 8 revision → timeline_sendable false (legacy_timeline revision t).
Proof.
  intros [Hn Hb Hi Hc Hs] Hr. unfold legacy_timeline, published. constructor; cbn [bt_revision bt_records]; [done| | |].
  - etransitivity; [|exact Hc]. pose proof (List.filter_length_le local_trusted (publish_record (tl_canvas_floor t) <$> tl_records t)) as H.
    rewrite length_fmap in H. lia.
  - apply Forall_forall. intros x Hx. apply list_elem_of_In, filter_In in Hx as [Hx Ht].
    apply list_elem_of_In, list_elem_of_fmap in Hx as (r & -> & Hin). rewrite Forall_forall in Hb.
    eapply publish_sendable; [done|by apply Hb|by right].
  - unfold timeline_encoded_len, TIMELINE_HEADER_BYTES in Hs.
    pose proof (length_published false (tl_canvas_floor t) (tl_records t)) as [H _].
    pose proof (length_filter_encoded false local_trusted (publish_record (tl_canvas_floor t) <$> tl_records t)). lia.
Qed.

(** What a client does with a timeline frame. *)
Lemma published_decodes session m :
  timeline_sendable session m →
  ∃ p, timeline_try_encode session m = Ok p ∧
    timeline_decode session p = (if forallb exit_kept (bt_records m) then ok m else err MalformedPayload) ∧
    vlen p = 16 + vlen (enc_all (record_encode session) (bt_records m)) ∧ vlen p ≤ MAX_FRAME_PAYLOAD.
Proof.
  intros Hm. eexists. split; [by apply timeline_try_encode_ok|]. split; [by apply timeline_decode_sent|].
  destruct Hm as [_ _ _ Hs]. unfold timeline_header. rewrite !length_app, !length_to_le. lia.
Qed.

(** A frame without room for the prefix is refused. *)
Lemma envelope_refused k p id seq :
  is_presentation_message (MessageType_tag k) = true → vlen p ≤ MAX_FRAME_PAYLOAD →
  MAX_FRAME_PAYLOAD < vlen p + PREFIX_LEN →
  envelope_presentation_frame (encode_frame k p) id seq = err OversizedPayload.
Proof.
  intros Hk Hl Hbig. rewrite frame_header by done. unfold envelope_presentation_frame.
  destruct (frame_header_decode _ _ p (tag_fits k) Hl) as (-> & Hd & _). rewrite length_app, length_header.
  rewrite (proj2 (N.ltb_ge _ _)) by (unfold HEADER_LEN; lia). cbn [mbind option_bind]. rewrite Hd.
  cbn [ok try_ FrameHeader_new message_type payload_len].
  rewrite (proj2 (N.eqb_eq _ _)) by (unfold HEADER_LEN; lia). rewrite Hk. cbn [negb].
  unfold MAX_FRAME_PAYLOAD, PREFIX_LEN in *.
  rewrite checked_add_small by (unfold usize_max, u64_max; lia). cbn [ok_or ok try_].
  by rewrite (proj2 (N.ltb_lt _ _)) by lia.
Qed.

(** C38. Publishing the block timeline never fails, but not every client can take what is
    published.  Whatever sequence of allocations, starts, session starts and completions
    led to it, the timeline keeps to its bounds and both schemas encode within one frame.
    A client reads a schema back exactly when no exit status has one of its upper sixteen
    bits set: the encoder writes all 32 bits of a status and the decoder takes two of
    them as reserved.  On a connection with delivery control the frame can be enveloped
    exactly when it leaves 24 bytes of the frame limit, which the timeline's own bound
    does not ensure; the Runtime closes the connection when the envelope is refused. *)
Theorem timeline_published t revision :
  timeline_reachable t → fits 8 revision →
  ∃ legacy session,
    timeline_try_encode false (legacy_timeline revision t) = Ok legacy ∧
    timeline_try_encode true (session_timeline revision t) = Ok session ∧
    timeline_decode false legacy =
      (if forallb exit_kept (bt_records (legacy_timeline revision t)) then ok (legacy_timeline revision t)
       else err MalformedPayload) ∧
    timeline_decode true session =
      (if forallb exit_kept (published t) then ok (session_timeline revision t) else err MalformedPayload) ∧
    vlen legacy ≤ MAX_FRAME_PAYLOAD ∧ vlen session = timeline_encoded_len t ∧
    timeline_encoded_len t ≤ MAX_FRAME_PAYLOAD ∧
    ∀ id seq, fits 16 id → fits 8 seq →
      if timeline_encoded_len t + PREFIX_LEN <=? MAX_FRAME_PAYLOAD
      then ∃ out, envelope_presentation_frame (encode_frame MT_BlockTimeline session) id seq = ok out ∧
             decode_presentation_envelope out = ok (mkEnvelope id seq session)
      else envelope_presentation_frame (encode_frame MT_BlockTimeline session) id seq = err OversizedPayload.
Proof.
  intros Hr Hrev. pose proof (timeline_reachable_inv t Hr) as Hinv.
  destruct (published_decodes false _ (legacy_sendable t revision Hinv Hrev)) as (legacy & Hl1 & Hl2 & _ & Hl3).
  destruct (published_decodes true _ (session_sendable t revision Hinv Hrev)) as (session & Hs1 & Hs2 & Hs3 & Hs4).
  assert (vlen session = timeline_encoded_len t) as Hlen.
  { rewrite Hs3. unfold session_timeline, published, timeline_encoded_len. cbn [bt_records].
    by rewrite (proj2 (length_published true _ _)). }
  exists legacy, session. rewrite <-Hlen. split_and!; try done. intros id seq Hid Hseq.
  destruct (N.leb_spec (vlen session + PREFIX_LEN) MAX_FRAME_PAYLOAD) as [Hle|Hgt].
  - rewrite frame_header by done. eexists.
    apply (envelope_back (MessageType_tag MT_BlockTimeline) session id seq); (done || apply tag_fits).
  - by apply envelope_refused.
Qed.

(** A command that ends with status -1, as the Runtime records it. *)
Definition demo_failed : CommandBlockTimeline :=
  mkTimeline 1 [mkBlockRecord 1 [108; 115] 5 (Some 6) (CBS_Completed (Some (-1)%Z)) BS_Local BT_LocalTrusted None] None.

Lemma demo_failed_reachable : timeline_reachable demo_failed.
Proof.
  eapply tr_step; [eapply tr_step; [eapply tr_step; [apply tr_default|]|]|].
  - eapply (ts_allocate _ 1). vm_compute. reflexivity.
  - eapply (ts_start _ 1 [108; 115] 5); [done|split; [by repeat constructor|by eexists]|done|vm_compute; reflexivity].
  - eapply (ts_complete _ 1 None 6 (Some (-1)%Z)); [done|done|done|vm_compute; reflexivity].
Qed.

Lemma timeline_published_witness :
  ∃ payload, timeline_try_encode true (session_timeline 3 demo_failed) = Ok payload ∧
    timeline_decode true payload = err MalformedPayload.
Proof.
  destruct (timeline_published demo_failed 3 demo_failed_reachable) as (_ & p & _ & H1 & _ & H2 & _); [done|].
  exists p. split; [exact H1|]. rewrite H2. vm_compute. reflexivity.
Defined.

Definition fill_command : list N := replicate (N.to_nat 16343) 97.

Lemma fill_command_ok : text_ok fill_command.
Proof.
  unfold fill_command. generalize (N.to_nat 16343). intros n. split; [by apply Forall_replicate|].
  assert (replicate n 97 = utf8_bytes (replicate n 97)) as ->.
  { unfold utf8_bytes. induction n as [|n IH]; [done|]. cbn in *. by rewrite <-IH. }
  rewrite from_utf8_bytes; [by eexists|]. by apply Forall_replicate.
Qed.

(** [n] running commands with one text. *)
Fixpoint filled command (n : nat) : CommandBlockTimeline :=
  match n with
  | O => timeline_default
  | S n =>
    match allocate_id (filled command n) with
    | Ok (id, t) => match timeline_start id command 1 t with Some (_, t) => t | None => t end
    | Err _ => filled command n
    end
  end.

Lemma filled_reachable command n : text_ok command → timeline_reachable (filled command n).
Proof.
  intros Hc. induction n as [|n IH]; [apply tr_default|]. cbn [filled].
  destruct (allocate_id (filled command n)) as [[id t]|] eqn:Ha; [|done].
  assert (timeline_reachable t) as Ht by (eapply tr_step; [done|by eapply ts_allocate]).
  destruct (timeline_start id command 1 t) as [[res t']|] eqn:Hs; [|done].
  eapply tr_step; [done|]. eapply ts_start; [| | |exact Hs]; [|done|done].
  unfold allocate_id in Ha. destruct (checked_add _ _ _) as [x|] eqn:Hx; [|done]. injection Ha as <- <-. cbn.
  unfold checked_add in Hx. case_match; [|done]. injection Hx as <-. lia.
Qed.

(** Sixteen running commands fill the frame to its last byte: a reachable timeline that
    cannot be enveloped. *)
Lemma filled_overflows :
  ∃ t, timeline_reachable t ∧ MAX_FRAME_PAYLOAD < timeline_encoded_len t + PREFIX_LEN.
Proof.
  exists (filled fill_command 16). split; [apply filled_reachable, fill_command_ok|]. vm_compute. reflexivity.
Qed.
