(* ===== verification/Display.v ===== *)
(** The display protocol, [crates/seyal-protocol/src/display/]: chunks of cells in both
    schemas, their decoder, and the disposable cache a client keeps of the screen.

    A decoder returns [None] where the Rust code would panic, else its [Result].  The
    operations on the cache run in the monad [M]: an error keeps the mutations done before
    it, so that a partial update would be visible. *)

From S2P Require Import Prelude Utf8 Wire WirePane WireMessage.

Implicit Types (bytes payload frame sidecar : list N).

(** * Types *)

Definition DISPLAY_CHUNK_HEADER_LEN : N := 40.
Definition DISPLAY_CELL_LEN : N := 16.
Definition MAX_DISPLAY_CELLS : N := 131072.
Definition MAX_DISPLAY_BATCH_BYTES : N := 4 * 1024 * 1024.
Definition DISPLAY_CHUNK_HEADER_V2_LEN : N := 48.
Definition DISPLAY_SCHEMA_V2 : N := 2.
Definition MAX_GRAPHEME_SIDECAR_BYTES : N := 65536.
Definition MAX_GRAPHEME_UTF8_BYTES : N := 8192.

Inductive DisplayKind := DK_Snapshot | DK_Delta.
#[global] Instance DisplayKind_eq : EqDecision DisplayKind.
Proof. solve_decision. Defined.

Inductive DisplayError :=
| DE_InvalidGeometry | DE_InvalidCursor | DE_InvalidDamage | DE_InvalidChunk | DE_InvalidLength
| DE_InvalidCell | DE_InvalidColor | DE_InvalidAttributes | DE_InvalidUnicode | DE_InvalidRole
| DE_InvalidWidth | DE_InvalidSidecar | DE_WrongMessageType | DE_GenerationMismatch
| DE_DimensionMismatch | DE_IncompleteBatch | DE_BatchTooLarge | DE_Overflow.

Abbreviation D A := (option (result DisplayError A)).

Definition message_type_v1 (kind : DisplayKind) : MessageType :=
  match kind with DK_Snapshot => MT_DisplaySnapshot | DK_Delta => MT_DisplayDelta end.
Definition message_type_v2 (kind : DisplayKind) : MessageType :=
  match kind with DK_Snapshot => MT_DisplaySnapshotV2 | DK_Delta => MT_DisplayDeltaV2 end.

Definition from_message_type (mt : MessageType) : D (DisplayKind * N) :=
  match mt with
  | MT_DisplaySnapshot => ok (DK_Snapshot, 1)
  | MT_DisplayDelta => ok (DK_Delta, 1)
  | MT_DisplaySnapshotV2 => ok (DK_Snapshot, DISPLAY_SCHEMA_V2)
  | MT_DisplayDeltaV2 => ok (DK_Delta, DISPLAY_SCHEMA_V2)
  | _ => err DE_WrongMessageType
  end.

Inductive DisplayColor := DC_Default | DC_Indexed (index : N) | DC_Rgb (r g b : N).

Record DisplayAttributes := mkAttributes { at_bold : bool; at_underline : bool; at_inverse : bool }.
Definition attributes_default : DisplayAttributes := mkAttributes false false false.

Inductive DisplayCellRole := DR_Empty | DR_Lead | DR_Continuation.
#[global] Instance DisplayCellRole_eq : EqDecision DisplayCellRole.
Proof. solve_decision. Defined.

(** [role as u32]. *)
Definition DisplayCellRole_bits (role : DisplayCellRole) : N :=
  match role with DR_Empty => 0 | DR_Lead => 1 | DR_Continuation => 2 end.

Definition DisplayCellRole_from_bits (bits : N) : D DisplayCellRole :=
  match bits with
  | 0 => ok DR_Empty | 1 => ok DR_Lead | 2 => ok DR_Continuation | _ => err DE_InvalidRole
  end.

Record DisplayCell := mkDisplayCell {
  dc_scalar : N; dc_role : DisplayCellRole; dc_width : N; dc_text : list N; dc_sidecar : bool;
  dc_foreground : DisplayColor; dc_background : DisplayColor; dc_attributes : DisplayAttributes }.

(** [DisplayCell::blank]. *)
Definition display_blank : DisplayCell :=
  mkDisplayCell 32 DR_Empty 0 [] false DC_Default DC_Default attributes_default.

Definition lead_scalar (scalar width : N) (fg bg : DisplayColor) (at_ : DisplayAttributes) : DisplayCell :=
  mkDisplayCell scalar DR_Lead width (encode_utf8 scalar) false fg bg at_.

Record DisplayCache := mkCache {
  ca_generation : N; ca_rows : N; ca_columns : N; ca_cursor_row : N; ca_cursor_col : N;
  ca_cursor_visible : bool; ca_alternate_screen : bool; ca_cells : list DisplayCell }.

Definition empty_cache : DisplayCache := mkCache 0 0 0 0 0 false false [].

Record DecodedDisplayChunk := mkChunk {
  dk_kind : DisplayKind; dk_schema : N; dk_generation : N; dk_base_generation : N;
  dk_rows : N; dk_columns : N; dk_cursor_row : N; dk_cursor_col : N;
  dk_cursor_visible : bool; dk_alternate_screen : bool;
  dk_first_row : N; dk_row_count : N; dk_first_col : N; dk_chunk_index : N; dk_chunk_count : N;
  dk_cells : list DisplayCell }.

Record EncodedDisplayBatch := mkBatch {
  eb_kind : DisplayKind; eb_schema : N; eb_generation : N; eb_base_generation : N;
  eb_rows : N; eb_columns : N; eb_frames : list (list N); eb_total_bytes : N }.

(** * Transport batches *)

(** The loop of [into_transport_batches]: [current] are the frames of the open fragment. *)
Fixpoint transport_loop (b : EncodedDisplayBatch) (frames current : list (list N)) (current_bytes : N)
    : list EncodedDisplayBatch :=
  let fragment := mkBatch (eb_kind b) (eb_schema b) (eb_generation b) (eb_base_generation b)
                    (eb_rows b) (eb_columns b) current current_bytes in
  match frames with
  | [] => if bool_decide (current = []) then [] else [fragment]
  | frame :: frames =>
    if negb (bool_decide (current = []))
       && (MAX_DISPLAY_BATCH_BYTES <? sat_add usize_max current_bytes (vlen frame))
    then fragment :: transport_loop b frames [frame] (sat_add usize_max 0 (vlen frame))
    else transport_loop b frames (current ++ [frame]) (sat_add usize_max current_bytes (vlen frame))
  end.

Definition into_transport_batches (b : EncodedDisplayBatch) : list EncodedDisplayBatch :=
  if eb_total_bytes b <=? MAX_DISPLAY_BATCH_BYTES then [b]
  else transport_loop b (eb_frames b) [] 0.

(** * Values on the wire *)

Definition encode_color (color : DisplayColor) : N :=
  match color with
  | DC_Default => 0
  | DC_Indexed index => N.lor (N.shiftl 1 30) index
  | DC_Rgb r g b => N.lor (N.lor (N.lor (N.shiftl 2 30) (N.shiftl r 16)) (N.shiftl g 8)) b
  end.

Definition decode_color (value : N) : D DisplayColor :=
  let kind := N.shiftr value 30 in
  let payload := N.land value 0x3fffffff in
  if (kind =? 0) && (payload =? 0) then ok DC_Default
  else if (kind =? 1) && (payload <=? 0xff) then ok (DC_Indexed payload)
  else if (kind =? 2) && (payload <=? 0xffffff)
  then ok (DC_Rgb (N.land (N.shiftr payload 16) 0xff) (N.land (N.shiftr payload 8) 0xff)
                  (N.land payload 0xff))
  else err DE_InvalidColor.

Definition decode_bool (value : N) : D bool :=
  match value with 0 => ok false | 1 => ok true | _ => err DE_InvalidChunk end.

Definition attribute_bits (at_ : DisplayAttributes) : N :=
  N.lor (N.lor (if at_bold at_ then 1 else 0) (if at_underline at_ then 2 else 0))
        (if at_inverse at_ then 4 else 0).

Definition encode_v2_cell_meta (role : DisplayCellRole) (width : N) (sidecar : bool) (grapheme_len : N)
    (at_ : DisplayAttributes) : N :=
  let meta := N.lor (attribute_bits at_) (N.shiftl (DisplayCellRole_bits role) 3) in
  let meta := N.lor meta (N.shiftl (N.land width 3) 5) in
  if sidecar
  then N.lor (N.lor meta (N.shiftl 1 7)) (N.shiftl (N.land (grapheme_len - 1) 0x1fff) 8)
  else meta.

(** [flags & bit != 0] for the three attribute bits. *)
Definition attributes_of (flags : N) : DisplayAttributes :=
  mkAttributes (N.testbit flags 0) (N.testbit flags 1) (N.testbit flags 2).

Definition validate_geometry (rows columns cursor_row cursor_col : N) : D unit :=
  if (rows =? 0) || (columns =? 0) || (MAX_DISPLAY_ROWS <? rows) || (MAX_DISPLAY_COLUMNS <? columns)
     || (rows <=? cursor_row) || (columns <=? cursor_col)
  then err DE_InvalidGeometry else
  let? cells := ok_or DE_Overflow (checked_mul usize_max rows columns) in
  if MAX_DISPLAY_CELLS <? cells then err DE_InvalidGeometry else ok tt.

Definition validate_v2_span (first_col row_count cell_count columns : N) : D unit :=
  if (cell_count =? 0) || (row_count =? 0) then err DE_InvalidChunk else
  let? whole_row :=
    if first_col =? 0
    then let? n := ok_or DE_Overflow (checked_mul usize_max row_count columns) in ok (cell_count =? n)
    else ok false in
  let? partial_row :=
    if row_count =? 1
    then let? n := ok_or DE_Overflow (checked_add usize_max first_col cell_count) in ok (n <=? columns)
    else ok false in
  if whole_row || partial_row then ok tt else err DE_InvalidChunk.

(** * Schema 1 *)

Definition decode_cell_v1 bytes : D DisplayCell :=
  if negb (vlen bytes =? DISPLAY_CELL_LEN) then err DE_InvalidCell else
  scalar ← le_at bytes 0 4;
  if negb (is_scalar scalar) then err DE_InvalidUnicode else
  fg ← le_at bytes 4 8;
  let? foreground := decode_color fg in
  bg ← le_at bytes 8 12;
  let? background := decode_color bg in
  attr ← le_at bytes 12 14;
  pad ← vslice bytes 14 16;
  if negb (N.land attr (u16_max - 7) =? 0) || negb (bool_decide (pad = replicate 2 0))
  then err DE_InvalidAttributes else
  ok (lead_scalar scalar 1 foreground background (attributes_of attr)).

(** One turn of the cell loop. *)
Definition cell_read_v1 payload (offset : N) : D (DisplayCell * N) :=
  bytes ← vslice payload offset (offset + DISPLAY_CELL_LEN);
  let? cell := decode_cell_v1 bytes in
  ok (cell, offset + DISPLAY_CELL_LEN).

(** The fields both schemas begin with, bytes 0 to 40. *)
Record ChunkHeader := mkChunkHeader {
  ch_generation : N; ch_base_generation : N; ch_rows : N; ch_columns : N;
  ch_cursor_row : N; ch_cursor_col : N; ch_cursor_visible : bool; ch_alternate_screen : bool;
  ch_first_row : N; ch_row_count : N; ch_chunk_index : N; ch_chunk_count : N; ch_cell_count : N }.

Definition read_chunk_header payload : D ChunkHeader :=
  generation ← le_at payload 0 8;
  base_generation ← le_at payload 8 16;
  rows ← le_at payload 16 18;
  columns ← le_at payload 18 20;
  cursor_row ← le_at payload 20 22;
  cursor_col ← le_at payload 22 24;
  visible ← vget payload 24;
  let? cursor_visible := decode_bool visible in
  alternate ← vget payload 25;
  let? alternate_screen := decode_bool alternate in
  pad ← vget payload 26;
  pad' ← vget payload 27;
  if negb (pad =? 0) || negb (pad' =? 0) then err DE_InvalidChunk else
  first_row ← le_at payload 28 30;
  row_count ← le_at payload 30 32;
  chunk_index ← le_at payload 32 34;
  chunk_count ← le_at payload 34 36;
  cell_count ← le_at payload 36 40;
  ok (mkChunkHeader generation base_generation rows columns cursor_row cursor_col cursor_visible
        alternate_screen first_row row_count chunk_index chunk_count cell_count).

(** The checks both schemas make on them. *)
Definition header_bad (h : ChunkHeader) : bool :=
  (ch_row_count h =? 0) || (ch_chunk_count h =? 0) || (ch_chunk_count h <=? ch_chunk_index h)
  || (ch_rows h <? ch_first_row h + ch_row_count h).

Definition chunk_of (kind : DisplayKind) (schema first_col : N) (h : ChunkHeader) (cells : list DisplayCell)
    : DecodedDisplayChunk :=
  mkChunk kind schema (ch_generation h) (ch_base_generation h) (ch_rows h) (ch_columns h)
    (ch_cursor_row h) (ch_cursor_col h) (ch_cursor_visible h) (ch_alternate_screen h)
    (ch_first_row h) (ch_row_count h) first_col (ch_chunk_index h) (ch_chunk_count h) cells.

Definition decode_payload_v1 (kind : DisplayKind) payload : D DecodedDisplayChunk :=
  if vlen payload <? DISPLAY_CHUNK_HEADER_LEN then err DE_InvalidLength else
  let? h := read_chunk_header payload in
  let? _ := validate_geometry (ch_rows h) (ch_columns h) (ch_cursor_row h) (ch_cursor_col h) in
  if bool_decide (kind = DK_Snapshot) && negb (ch_base_generation h =? 0) then err DE_InvalidChunk else
  if header_bad h then err DE_InvalidChunk else
  let? expected_cells := ok_or DE_Overflow (checked_mul usize_max (ch_row_count h) (ch_columns h)) in
  if negb (ch_cell_count h =? expected_cells) then err DE_InvalidChunk else
  let? cells_bytes := ok_or DE_Overflow (checked_mul usize_max (ch_cell_count h) DISPLAY_CELL_LEN) in
  let? expected_len := ok_or DE_Overflow (checked_add usize_max DISPLAY_CHUNK_HEADER_LEN cells_bytes) in
  if negb (vlen payload =? expected_len) then err DE_InvalidLength else
  let? res := read_n (cell_read_v1 payload) (N.to_nat (ch_cell_count h)) DISPLAY_CHUNK_HEADER_LEN in
  ok (chunk_of kind 1 0 h res.1).

(** * Schema 2 *)

Record PendingContinuation := mkPending {
  pc_row : N; pc_foreground : DisplayColor; pc_background : DisplayColor; pc_attributes : DisplayAttributes }.

(** The text of a lead and the sidecar bytes used after it. *)
Definition lead_text sidecar (expected_off text_ref : N) (sidecar_flag : bool) (len_minus_1 : N)
    : D (N * list N * N) :=
  if sidecar_flag then
    let? len := ok_or DE_Overflow (checked_add usize_max len_minus_1 1) in
    if (len =? 0) || (MAX_GRAPHEME_UTF8_BYTES <? len) then err DE_InvalidSidecar else
    if negb (text_ref =? expected_off) then err DE_InvalidSidecar else
    let? end_ := ok_or DE_Overflow (checked_add usize_max text_ref len) in
    if vlen sidecar <? end_ then err DE_InvalidSidecar else
    text ← vslice sidecar text_ref end_;
    match from_utf8 text with
    | None => err DE_InvalidUnicode
    | Some _ =>
      let? scalar := ok_or DE_InvalidUnicode (first_scalar text) in
      ok (scalar, text, end_)
    end
  else if negb (len_minus_1 =? 0) then err DE_InvalidCell
  else if is_scalar text_ref then ok (text_ref, encode_utf8 text_ref, expected_off)
  else err DE_InvalidUnicode.

(** The state [expected_sidecar_off] and [pending_continuation] is passed and returned. *)
Definition decode_cell_v2 bytes sidecar (expected_off : N) (pending : option PendingContinuation)
    (cell_row cell_col columns : N) : D (DisplayCell * (N * option PendingContinuation)) :=
  if negb (vlen bytes =? DISPLAY_CELL_LEN) then err DE_InvalidCell else
  text_ref ← le_at bytes 0 4;
  fg ← le_at bytes 4 8;
  let? foreground := decode_color fg in
  bg ← le_at bytes 8 12;
  let? background := decode_color bg in
  meta ← le_at bytes 12 16;
  let at_ := attributes_of meta in
  let? role := DisplayCellRole_from_bits (N.land (N.shiftr meta 3) 3) in
  let width := N.land (N.shiftr meta 5) 3 in
  if width =? 3 then err DE_InvalidWidth else
  let sidecar_flag := N.testbit meta 7 in
  let len_minus_1 := N.land (N.shiftr meta 8) 0x1fff in
  if negb (N.shiftr meta 21 =? 0) then err DE_InvalidAttributes else
  match pending with
  | Some e =>
    if negb (pc_row e =? cell_row) then err DE_InvalidCell else
    if negb (bool_decide (role = DR_Continuation)) || negb (width =? 0) || sidecar_flag
       || negb (len_minus_1 =? 0) || negb (text_ref =? 0) then err DE_InvalidCell else
    ok (mkDisplayCell 32 DR_Continuation 0 [] false (pc_foreground e) (pc_background e) (pc_attributes e),
        (expected_off, None))
  | None =>
    match role with
    | DR_Empty =>
      if negb (text_ref =? 0) || negb (width =? 0) || sidecar_flag || negb (len_minus_1 =? 0)
      then err DE_InvalidCell
      else ok (mkDisplayCell 32 DR_Empty 0 [] false foreground background at_, (expected_off, None))
    | DR_Continuation => err DE_InvalidCell
    | DR_Lead =>
      if negb (width =? 1) && negb (width =? 2) then err DE_InvalidWidth else
      next_col ← if width =? 2 then checked_add u16_max cell_col 1 else Some 0;
      if (width =? 2) && (columns <=? next_col) then err DE_InvalidCell else
      let? text := lead_text sidecar expected_off text_ref sidecar_flag len_minus_1 in
      ok (mkDisplayCell text.1.1 DR_Lead width text.1.2 sidecar_flag foreground background at_,
          (text.2, if width =? 2 then Some (mkPending cell_row foreground background at_) else None))
    end
  end.

(** [first_row], [row_count], [first_col] and [columns] of the chunk, and the cell's index. *)
Definition cell_place (first_row row_count first_col columns index : N) : D (N * N) :=
  if row_count =? 1 then
    let? cell_col := ok_or DE_Overflow (checked_add u16_max first_col (index mod 65536)) in
    ok (first_row, cell_col)
  else
    let? cell_row := ok_or DE_Overflow (checked_add u16_max first_row ((index / columns) mod 65536)) in
    ok (cell_row, (index mod columns) mod 65536).

Fixpoint decode_cells_v2 payload sidecar (place : N → D (N * N)) (columns : N) (count : nat) (index : N)
    (expected_off : N) (pending : option PendingContinuation)
    : D (list DisplayCell * (N * option PendingContinuation)) :=
  match count with
  | O => ok ([], (expected_off, pending))
  | S count =>
    let offset := DISPLAY_CHUNK_HEADER_V2_LEN + index * DISPLAY_CELL_LEN in
    let? at_ := place index in
    bytes ← vslice payload offset (offset + DISPLAY_CELL_LEN);
    let? cell := decode_cell_v2 bytes sidecar expected_off pending at_.1 at_.2 columns in
    let? rest := decode_cells_v2 payload sidecar place columns count (index + 1) cell.2.1 cell.2.2 in
    ok (cell.1 :: rest.1, rest.2)
  end.

Definition decode_payload_v2 (kind : DisplayKind) payload : D DecodedDisplayChunk :=
  if vlen payload <? DISPLAY_CHUNK_HEADER_V2_LEN then err DE_InvalidLength else
  if MAX_FRAME_PAYLOAD <? vlen payload then err DE_InvalidLength else
  let? h := read_chunk_header payload in
  sidecar_len ← le_at payload 40 44;
  schema ← le_at payload 44 46;
  first_col ← le_at payload 46 48;
  if negb (schema =? DISPLAY_SCHEMA_V2) then err DE_InvalidChunk else
  let? _ := validate_geometry (ch_rows h) (ch_columns h) (ch_cursor_row h) (ch_cursor_col h) in
  if bool_decide (kind = DK_Snapshot) && negb (ch_base_generation h =? 0) then err DE_InvalidChunk else
  if header_bad h || (ch_columns h <=? first_col) || (ch_cell_count h =? 0) then err DE_InvalidChunk else
  if MAX_GRAPHEME_SIDECAR_BYTES <? sidecar_len then err DE_InvalidSidecar else
  let? _ := validate_v2_span first_col (ch_row_count h) (ch_cell_count h) (ch_columns h) in
  let? cells_bytes := ok_or DE_Overflow (checked_mul usize_max (ch_cell_count h) DISPLAY_CELL_LEN) in
  let? expected_len := ok_or DE_Overflow
    (n ← checked_add usize_max DISPLAY_CHUNK_HEADER_V2_LEN cells_bytes; checked_add usize_max n sidecar_len) in
  if negb (vlen payload =? expected_len) then err DE_InvalidLength else
  let? sidecar_start := ok_or DE_Overflow (checked_add usize_max DISPLAY_CHUNK_HEADER_V2_LEN cells_bytes) in
  sidecar ← vslice payload sidecar_start (sidecar_start + sidecar_len);
  let? res := decode_cells_v2 payload sidecar
                (cell_place (ch_first_row h) (ch_row_count h) first_col (ch_columns h)) (ch_columns h)
                (N.to_nat (ch_cell_count h)) 0 0 None in
  if bool_decide (is_Some res.2.2) || negb (res.2.1 =? sidecar_len) then err DE_InvalidSidecar else
  ok (chunk_of kind DISPLAY_SCHEMA_V2 first_col h res.1).

(** * Frames *)

Definition decode_chunk_payload (mt : N) payload : D DecodedDisplayChunk :=
  let? mt := ok_or DE_WrongMessageType (MessageType_from_u16 mt) in
  let? ks := from_message_type mt in
  if ks.2 =? DISPLAY_SCHEMA_V2 then decode_payload_v2 ks.1 payload else decode_payload_v1 ks.1 payload.

Definition decode_chunk frame : D DecodedDisplayChunk :=
  if vlen frame <? HEADER_LEN then err DE_InvalidLength else
  hb ← vslice frame 0 HEADER_LEN;
  let? header := map_err (λ _, DE_InvalidLength) (FrameHeader_decode hb) in
  let? expected := ok_or DE_Overflow (checked_add usize_max HEADER_LEN (payload_len header)) in
  if negb (vlen frame =? expected) then err DE_InvalidLength else
  payload ← vfrom frame HEADER_LEN;
  decode_chunk_payload (message_type header) payload.

(** * The cache *)

(** The loop over the chunks of a batch: the index of the first one is [index]. *)
Fixpoint chunks_agree (first : DecodedDisplayChunk) (index : N) (chunks : list DecodedDisplayChunk) : bool :=
  match chunks with
  | [] => true
  | chunk :: chunks =>
    bool_decide (dk_kind chunk = dk_kind first) && (dk_schema chunk =? dk_schema first)
    && (dk_generation chunk =? dk_generation first) && (dk_base_generation chunk =? dk_base_generation first)
    && (dk_rows chunk =? dk_rows first) && (dk_columns chunk =? dk_columns first)
    && (dk_cursor_row chunk =? dk_cursor_row first) && (dk_cursor_col chunk =? dk_cursor_col first)
    && eqb (dk_cursor_visible chunk) (dk_cursor_visible first)
    && eqb (dk_alternate_screen chunk) (dk_alternate_screen first)
    && (dk_chunk_count chunk =? dk_chunk_count first) && (dk_chunk_index chunk =? index)
    && chunks_agree first (index + 1) chunks
  end.

(** The first loop of [apply_chunks_v1]: the row after the last chunk. *)
Fixpoint contiguous_rows (expected_row : N) (chunks : list DecodedDisplayChunk) : D N :=
  match chunks with
  | [] => ok expected_row
  | chunk :: chunks =>
    if negb (dk_first_col chunk =? 0) || negb (dk_first_row chunk =? expected_row) then err DE_InvalidChunk else
    let? expected_row := ok_or DE_Overflow (checked_add u16_max expected_row (dk_row_count chunk)) in
    contiguous_rows expected_row chunks
  end.

(** A computation that does not touch the cache. *)
Definition lift {A} (m : D A) : M DisplayError DisplayCache A :=
  match m with Some (Ok a) => ret a | Some (Err e) => fail e | None => λ _, Panic end.

Definition put_cells (cells : list DisplayCell) : M DisplayError DisplayCache unit :=
  modify (λ c, mkCache (ca_generation c) (ca_rows c) (ca_columns c) (ca_cursor_row c) (ca_cursor_col c)
                 (ca_cursor_visible c) (ca_alternate_screen c) cells).
Definition put_geometry (rows columns : N) : M DisplayError DisplayCache unit :=
  modify (λ c, mkCache (ca_generation c) rows columns (ca_cursor_row c) (ca_cursor_col c)
                 (ca_cursor_visible c) (ca_alternate_screen c) (ca_cells c)).

(** The loop over the chunks of a schema 1 delta, in place. *)
Fixpoint write_rows (chunks : list DecodedDisplayChunk) : M DisplayError DisplayCache unit :=
  match chunks with
  | [] => ret tt
  | chunk :: chunks =>
    let! columns := gets ca_columns in
    let! first_cell := lift (ok_or DE_Overflow (checked_mul usize_max (dk_first_row chunk) columns)) in
    let! last_cell := lift (ok_or DE_Overflow (checked_add usize_max first_cell (vlen (dk_cells chunk)))) in
    let! cells := gets ca_cells in
    if vlen cells <? last_cell then fail DE_InvalidChunk else
    let! cells := or_panic (vcopy_from cells first_cell (dk_cells chunk)) in
    put_cells cells ;;;
    write_rows chunks
  end.

Definition apply_chunks_v1 (chunks : list DecodedDisplayChunk) (first : DecodedDisplayChunk)
    : M DisplayError DisplayCache unit :=
  let! expected_row :=
    lift (contiguous_rows (if bool_decide (dk_kind first = DK_Snapshot) then 0 else dk_first_row first) chunks) in
  if bool_decide (dk_kind first = DK_Snapshot) && negb (expected_row =? dk_rows first)
  then fail DE_IncompleteBatch else
  match dk_kind first with
  | DK_Snapshot =>
    let! expected_cells := lift (ok_or DE_Overflow (checked_mul usize_max (dk_rows first) (dk_columns first))) in
    let cells := chunks ≫= dk_cells in
    if negb (vlen cells =? expected_cells) then fail DE_IncompleteBatch else
    put_cells cells ;;; put_geometry (dk_rows first) (dk_columns first)
  | DK_Delta =>
    let! c := gets id in
    if negb (ca_generation c =? dk_base_generation first) then fail DE_GenerationMismatch else
    if negb (ca_rows c =? dk_rows first) || negb (ca_columns c =? dk_columns first)
    then fail DE_DimensionMismatch else
    write_rows chunks
  end.

(** The working copy of [apply_chunks_v2] and its three cursors. *)
Record SpanCursor := mkSpanCursor {
  sp_cells : list DisplayCell; sp_row : N; sp_col : N; sp_started : bool }.

(** The loop over the rows of a whole-row span, from [row_offset]. *)
Fixpoint write_span_rows (columns : N) (chunk : DecodedDisplayChunk) (count : nat) (row_offset offset : N)
    (cells : list DisplayCell) : D (list DisplayCell) :=
  match count with
  | O => ok cells
  | S count =>
    let? row := ok_or DE_Overflow (checked_add u16_max (dk_first_row chunk) row_offset) in
    let? start := ok_or DE_Overflow (checked_mul usize_max row columns) in
    let? end_ := ok_or DE_Overflow (checked_add usize_max start columns) in
    if (vlen cells <? end_) || (vlen (dk_cells chunk) <? offset + columns) then err DE_InvalidChunk else
    src ← vslice (dk_cells chunk) offset (offset + columns);
    cells ← vcopy_from cells start src;
    write_span_rows columns chunk count (row_offset + 1) (offset + columns) cells
  end.

Definition apply_span_to_grid (columns : N) (chunk : DecodedDisplayChunk) (from_origin : bool) (s : SpanCursor)
    : D SpanCursor :=
  let? _ := validate_v2_span (dk_first_col chunk) (dk_row_count chunk) (vlen (dk_cells chunk)) columns in
  if (if from_origin
      then if negb (sp_started s) then negb (dk_first_row chunk =? 0) || negb (dk_first_col chunk =? 0)
           else negb (dk_first_row chunk =? sp_row s) || negb (dk_first_col chunk =? sp_col s)
      else sp_started s && (negb (dk_first_row chunk =? sp_row s) || negb (dk_first_col chunk =? sp_col s)))
  then err DE_InvalidChunk else
  if (dk_row_count chunk =? 1) && negb ((dk_first_col chunk =? 0) && (vlen (dk_cells chunk) =? columns))
  then
    let? start := ok_or DE_Overflow
      (base ← checked_mul usize_max (dk_first_row chunk) columns; checked_add usize_max base (dk_first_col chunk)) in
    let? end_ := ok_or DE_Overflow (checked_add usize_max start (vlen (dk_cells chunk))) in
    if vlen (sp_cells s) <? end_ then err DE_InvalidChunk else
    cells ← vcopy_from (sp_cells s) start (dk_cells chunk);
    let? col := ok_or DE_Overflow (checked_add u16_max (dk_first_col chunk) (vlen (dk_cells chunk) mod 65536)) in
    if col =? columns
    then let? row := ok_or DE_Overflow (checked_add u16_max (dk_first_row chunk) 1) in
         ok (mkSpanCursor cells row 0 true)
    else ok (mkSpanCursor cells (dk_first_row chunk) col true)
  else
    let? cells := write_span_rows columns chunk (N.to_nat (dk_row_count chunk)) 0 0 (sp_cells s) in
    let? row := ok_or DE_Overflow (checked_add u16_max (dk_first_row chunk) (dk_row_count chunk)) in
    ok (mkSpanCursor cells row 0 true).

Fixpoint apply_spans (columns : N) (from_origin : bool) (chunks : list DecodedDisplayChunk) (s : SpanCursor)
    : D SpanCursor :=
  match chunks with
  | [] => ok s
  | chunk :: chunks =>
    let s := if negb from_origin && negb (sp_started s)
             then mkSpanCursor (sp_cells s) (dk_first_row chunk) (dk_first_col chunk) true else s in
    let? s := apply_span_to_grid columns chunk from_origin s in
    apply_spans columns from_origin chunks s
  end.

Definition apply_chunks_v2 (chunks : list DecodedDisplayChunk) (first : DecodedDisplayChunk)
    : M DisplayError DisplayCache unit :=
  match dk_kind first with
  | DK_Snapshot =>
    let! expected_cells := lift (ok_or DE_Overflow (checked_mul usize_max (dk_rows first) (dk_columns first))) in
    let! s := lift (apply_spans (dk_columns first) true chunks
                      (mkSpanCursor (replicate (N.to_nat expected_cells) display_blank) 0 0 false)) in
    if negb (sp_row s =? dk_rows first) || negb (sp_col s =? 0) then fail DE_IncompleteBatch else
    put_cells (sp_cells s) ;;; put_geometry (dk_rows first) (dk_columns first)
  | DK_Delta =>
    let! c := gets id in
    if negb (ca_generation c =? dk_base_generation first) then fail DE_GenerationMismatch else
    if negb (ca_rows c =? dk_rows first) || negb (ca_columns c =? dk_columns first)
    then fail DE_DimensionMismatch else
    let! s := lift (apply_spans (dk_columns first) false chunks (mkSpanCursor (ca_cells c) 0 0 false)) in
    put_cells (sp_cells s)
  end.

Definition apply_chunks (chunks : list DecodedDisplayChunk) : M DisplayError DisplayCache unit :=
  match chunks with
  | [] => fail DE_IncompleteBatch
  | first :: _ =>
    if negb (vlen chunks =? dk_chunk_count first) then fail DE_IncompleteBatch else
    if negb (chunks_agree first 0 chunks) then fail DE_InvalidChunk else
    (if dk_schema first =? DISPLAY_SCHEMA_V2 then apply_chunks_v2 chunks first
     else apply_chunks_v1 chunks first) ;;;
    modify (λ c, mkCache (dk_generation first) (ca_rows c) (ca_columns c) (dk_cursor_row first)
                   (dk_cursor_col first) (dk_cursor_visible first) (dk_alternate_screen first) (ca_cells c))
  end.

(** [frames.iter().map(decode_chunk).collect::<Result<Vec<_>, _>>()]. *)
Fixpoint decode_frames (frames : list (list N)) : D (list DecodedDisplayChunk) :=
  match frames with
  | [] => ok []
  | frame :: frames =>
    let? chunk := decode_chunk frame in
    let? chunks := decode_frames frames in
    ok (chunk :: chunks)
  end.

Definition apply_batch (batch : EncodedDisplayBatch) : M DisplayError DisplayCache unit :=
  let! chunks := lift (decode_frames (eb_frames batch)) in
  apply_chunks chunks.
