(* ===== verification/Projection.v ===== *)
(** The projection of a terminal, [crates/seyal-exec/src/projection.rs]: the visible cells as
    values that no longer refer to the terminal, with the host's selection shown as inverse
    video.  Orphaned continuations are projected as empty cells. *)

From S2P Require Import Prelude Utf8 Types Damage LineIds GraphemeStore HistoryTypes Screen Grapheme Osc Selection Core.

Inductive ProjectionColor := PC_Default | PC_Indexed (index : N) | PC_Rgb (r g b : N).

(** [ProjectionColor::from(Color)]. *)
Definition projection_color (c : Color) : ProjectionColor :=
  match c with
  | ColorDefault => PC_Default
  | Indexed i => PC_Indexed i
  | Rgb r g b => PC_Rgb r g b
  end.

Record ProjectionAttributes := mkProjAttributes { pa_bold : bool; pa_underline : bool; pa_inverse : bool }.

Record ProjectionCell := mkProjectionCell {
  pj_role : CellRole; pj_width : N; pj_text : list N; pj_scalar : N;
  pj_foreground : ProjectionColor; pj_background : ProjectionColor; pj_attributes : ProjectionAttributes }.

Definition is_scalar_lossless (c : ProjectionCell) : bool :=
  match pj_role c with
  | Empty => bool_decide (pj_text c = []) && (pj_width c =? 0)
  | Continuation => false
  | Lead => (pj_width c =? 1) && negb (bool_decide (pj_text c = []))
            && match from_utf8 (pj_text c) with Some s => vlen s =? 1 | None => false end
  end.

Record ProjectionDamage := mkProjDamage { pd_full : bool; pd_first_row : N; pd_last_row : N }.
Definition projection_damage_full (rows : N) : ProjectionDamage := mkProjDamage true 0 (rows - 1).

(** [row_count], at 16 bits. *)
Definition damage_row_count (d : ProjectionDamage) : N :=
  default 0 (n ← checked_sub (pd_last_row d) (pd_first_row d); checked_add u16_max n 1).

(** [TerminalProjectionSnapshot] and [TerminalProjectionUpdate] have the same fields. *)
Record TerminalProjection := mkProjection {
  tp_rows : N; tp_columns : N; tp_cursor_row : N; tp_cursor_col : N; tp_cursor_visible : bool;
  tp_alternate_screen : bool; tp_generation : N; tp_damage : ProjectionDamage;
  tp_cells : list ProjectionCell }.

Definition normalized_role (previous : option (CellRole * N)) (role : CellRole) : CellRole :=
  if bool_decide (role = Continuation)
     && negb (match previous with
              | Some (previous_role, width) => bool_decide (previous_role = Lead) && (2 <=? width)
              | None => false
              end)
  then Empty else role.

Section projection.
Context {H : Type}.
Implicit Types (t : TerminalState H) (col row : N) (cells : list ProjectionCell).

(** [selection_covers_cell] of [terminal/host_selection.rs]. *)
Definition selection_covers_cell t col row : option bool :=
  let s := selection t.2 in
  match sel_kind s, alternate_screen (modes t.2), ordered_anchors s with
  | Linear, false, Some (lo, hi) =>
    anchor ← cell_anchor col row (current t.2);
    Some (match anchor with Some a => anchor_le lo a && anchor_le a hi | None => false end)
  | _, _, _ => Some (contains_cell s col row (cols (current t.2)))
  end.

Definition host_highlight t col row : option bool :=
  covered ← selection_covers_cell t col row;
  Some (covered || (copy_active (copy_mode t.2) && (v_col (copy_cursor (copy_mode t.2)) =? col)
                    && (v_row (copy_cursor (copy_mode t.2)) =? row))).

(** The body of the inner loop of [copy_rows]; [cells] are the cells pushed so far. *)
Definition project_cell t col row cells : option ProjectionCell :=
  cell ← cell col row (current t.2);
  let cell := default cell_default cell in
  text ← lead_utf8 t col row;
  let text := default [] text in
  let scalar :=
    match role cell with
    | Lead => default (canonical_scalar cell) (first_scalar text)
    | Empty | Continuation => 32
    end in
  let previous := if 0 <? col then (λ c : ProjectionCell, (pj_role c, pj_width c)) <$> last cells else None in
  let r := normalized_role previous (role cell) in
  let own := (projection_color (fg (cell_style cell)), projection_color (bg (cell_style cell)),
              mkProjAttributes (bold (cell_style cell)) (underline (cell_style cell)) (inverse (cell_style cell))) in
  let '(foreground, background, at_) :=
    default own (if bool_decide (r = Continuation)
                 then (λ lead : ProjectionCell, (pj_foreground lead, pj_background lead, pj_attributes lead)) <$> last cells
                 else None) in
  let structural := bool_decide (r = Empty) || bool_decide (r = Continuation) in
  highlight ← (if bool_decide (r = Continuation) then Some false else host_highlight t col row : option bool);
  let at_ := if (highlight : bool) then mkProjAttributes (pa_bold at_) (pa_underline at_) (negb (pa_inverse at_)) else at_ in
  Some (mkProjectionCell r (if structural then 0 else width cell) (if structural then [] else text)
          (if structural then 32 else scalar) foreground background at_).

Fixpoint project_cols t row (n : nat) col cells : option (list ProjectionCell) :=
  match n with
  | O => Some cells
  | S n => c ← project_cell t col row cells; project_cols t row n (col + 1) (cells ++ [c])
  end.

Fixpoint project_rows t (n : nat) row cells : option (list ProjectionCell) :=
  match n with
  | O => Some cells
  | S n =>
    cells ← project_cols t row (N.to_nat (cols (current t.2))) 0 cells;
    project_rows t n (row + 1) cells
  end.

Definition copy_rows t (first_row row_count : N) : option (list ProjectionCell) :=
  project_rows t (N.to_nat (sat_add u16_max first_row row_count - first_row)) first_row [].

Definition projection_of t (generation : N) (d : ProjectionDamage) cells : TerminalProjection :=
  let s := current t.2 in
  let c := cursor_state (cursor_visible (modes t.2)) s in
  mkProjection (rows s) (cols s) (cs_row c) (cs_col c) (cs_visible c) (alternate_screen (modes t.2))
    generation d cells.

(** [projection::snapshot] and [projection::update]. *)
Definition projection_snapshot t (generation : N) : option TerminalProjection :=
  let rows := rows (current t.2) in
  cells ← copy_rows t 0 rows;
  Some (projection_of t generation (projection_damage_full rows) cells).

Definition projection_update t (generation : N) (d : ProjectionDamage) : option TerminalProjection :=
  let d := if pd_full d then projection_damage_full (rows (current t.2)) else d in
  cells ← copy_rows t (pd_first_row d) (damage_row_count d);
  Some (projection_of t generation d cells).
End projection.
