(* ===== verification/DisplayEncode.v ===== *)
(** The producer of display batches, [crates/seyal-runtime/src/display/]: validation of a
    projection, the plan of schema 2 spans, and the encoders of both schemas. *)

From S2P Require Import Prelude Utf8 Types Projection Wire WirePane WireMessage Display.

Implicit Types (cells row_cells : list ProjectionCell).

(** * Validation, [display/mod.rs] *)

Definition proj_color (c : ProjectionColor) : DisplayColor :=
  match c with
  | PC_Default => DC_Default
  | PC_Indexed i => DC_Indexed i
  | PC_Rgb r g b => DC_Rgb r g b
  end.

(** [validate_geometry] of the Runtime is a copy of the protocol's. *)
Definition validate_snapshot (p : TerminalProjection) : D unit :=
  let? _ := validate_geometry (tp_rows p) (tp_columns p) (tp_cursor_row p) (tp_cursor_col p) in
  let? expected := ok_or DE_Overflow (checked_mul usize_max (tp_rows p) (tp_columns p)) in
  if (MAX_DISPLAY_CELLS <? expected) || negb (vlen (tp_cells p) =? expected)
  then err DE_InvalidGeometry else ok tt.

Definition validate_update (p : TerminalProjection) : D unit :=
  let d := tp_damage p in
  let? _ := validate_geometry (tp_rows p) (tp_columns p) (tp_cursor_row p) (tp_cursor_col p) in
  if (pd_last_row d <? pd_first_row d) || (tp_rows p <=? pd_last_row d) then err DE_InvalidDamage else
  if pd_full d && (negb (pd_first_row d =? 0) || negb (pd_last_row d =? tp_rows p - 1))
  then err DE_InvalidDamage else
  let? expected := ok_or DE_Overflow (checked_mul usize_max (damage_row_count d) (tp_columns p)) in
  if (MAX_DISPLAY_CELLS <? expected) || negb (vlen (tp_cells p) =? expected)
  then err DE_InvalidDamage else ok tt.

(** * The plan of spans, [display/plan.rs] *)

Record SpanPlan := mkSpan {
  sn_row_offset : N; sn_first_col : N; sn_row_count : N; sn_cell_start : N; sn_cell_count : N }.

Definition needs_sidecar (c : ProjectionCell) : D bool :=
  if negb (bool_decide (pj_role c = Lead)) then ok false else
  if bool_decide (pj_text c = []) || (MAX_GRAPHEME_UTF8_BYTES <? vlen (pj_text c)) then err DE_InvalidSidecar else
  match from_utf8 (pj_text c) with
  | None => err DE_InvalidUnicode
  | Some chars => ok (negb (vlen chars =? 1))
  end.

Fixpoint sidecar_bytes_loop cells (total : N) : D N :=
  match cells with
  | [] => ok total
  | c :: cells =>
    let? side := if bool_decide (pj_role c = Lead) then needs_sidecar c else ok false in
    let? total := if side then ok_or DE_Overflow (checked_add usize_max total (vlen (pj_text c))) else ok total in
    sidecar_bytes_loop cells total
  end.
Definition sidecar_bytes_for_cells cells : D N := sidecar_bytes_loop cells 0.

(** The payload of a chunk of [n] cells with [side] bytes of sidecar. *)
Definition chunk_payload_len (n side : N) : D N :=
  ok_or DE_Overflow
    (b ← checked_mul usize_max n DISPLAY_CELL_LEN;
     v ← checked_add usize_max DISPLAY_CHUNK_HEADER_V2_LEN b; checked_add usize_max v side).

Definition max_chunk_payload : N := MAX_FRAME_PAYLOAD - PREFIX_LEN.

(** [next_sidecar > MAX_GRAPHEME_SIDECAR_BYTES || payload > max_chunk_payload]. *)
Definition chunk_full (side payload : N) : bool :=
  (MAX_GRAPHEME_SIDECAR_BYTES <? side) || (max_chunk_payload <? payload).

(** The loop that packs whole rows from [row]; the fuel is the number of rows left. *)
Fixpoint take_rows (fuel : nat) (columns : N) cells (row rows_taken sidecar_bytes : N) : D N :=
  match fuel with
  | O => ok rows_taken
  | S fuel =>
    row_cells ← vslice cells ((row + rows_taken) * columns) ((row + rows_taken + 1) * columns);
    let? row_sidecar := sidecar_bytes_for_cells row_cells in
    let? next_sidecar := ok_or DE_Overflow (checked_add usize_max sidecar_bytes row_sidecar) in
    let? next_cells := ok_or DE_Overflow (checked_mul usize_max (rows_taken + 1) columns) in
    let? payload := chunk_payload_len next_cells next_sidecar in
    if chunk_full next_sidecar payload then ok rows_taken
    else take_rows fuel columns cells row (rows_taken + 1) next_sidecar
  end.

(** The loop that extends a partial-row span that starts at [col]: where it ends.  Every
    turn moves [end_] on, so the columns of a row are enough fuel. *)
Fixpoint take_units (fuel : nat) (columns : N) row_cells (col end_ sidecar_bytes : N) : D N :=
  if columns <=? end_ then ok end_ else
  match fuel with
  | O => None
  | S fuel =>
    c ← vget row_cells end_;
    if (col <? end_) && bool_decide (pj_role c = Continuation) then ok end_ else
    let? unit_end :=
      if bool_decide (pj_role c = Lead) && (pj_width c =? 2) then
        if columns <=? end_ + 1 then err DE_InvalidCell else
        next ← vget row_cells (end_ + 1);
        if negb (bool_decide (pj_role next = Continuation)) then err DE_InvalidCell else ok (end_ + 2)
      else ok (end_ + 1) in
    unit_cells ← vslice row_cells end_ unit_end;
    let? unit_sidecar := sidecar_bytes_for_cells unit_cells in
    let? next_sidecar := ok_or DE_Overflow (checked_add usize_max sidecar_bytes unit_sidecar) in
    let? payload := chunk_payload_len (unit_end - col) next_sidecar in
    if chunk_full next_sidecar payload then ok end_
    else take_units fuel columns row_cells col unit_end next_sidecar
  end.

(** The loop over the partial-row spans of a row. *)
Fixpoint cut_row (fuel : nat) (columns : N) row_cells (row col : N) : D (list SpanPlan) :=
  if columns <=? col then ok [] else
  match fuel with
  | O => None
  | S fuel =>
    let? end_ := take_units (S (N.to_nat columns)) columns row_cells col col 0 in
    if end_ =? col then err DE_InvalidLength else
    let? rest := cut_row fuel columns row_cells row end_ in
    ok (mkSpan (row mod 65536) (col mod 65536) 1 (row * columns + col) (end_ - col) :: rest)
  end.

(** The outer loop, from [row]. *)
Fixpoint plan_loop (fuel : nat) (columns row_count : N) cells (row : N) : D (list SpanPlan) :=
  if row_count <=? row then ok [] else
  match fuel with
  | O => None
  | S fuel =>
    let? rows_taken := take_rows (N.to_nat (row_count - row)) columns cells row 0 0 in
    if 0 <? rows_taken then
      let? rest := plan_loop fuel columns row_count cells (row + rows_taken) in
      ok (mkSpan (row mod 65536) 0 (rows_taken mod 65536) (row * columns) (rows_taken * columns) :: rest)
    else
      row_cells ← vslice cells (row * columns) ((row + 1) * columns);
      let? spans := cut_row (S (N.to_nat columns)) columns row_cells row 0 in
      let? rest := plan_loop fuel columns row_count cells (row + 1) in
      ok (spans ++ rest)
  end.

Definition plan_v2_spans (columns : N) cells : D (list SpanPlan) :=
  let? _ := ok_or DE_Overflow (checked_sub MAX_FRAME_PAYLOAD PREFIX_LEN) in
  if negb (vlen cells mod columns =? 0) then err DE_InvalidDamage else
  let row_count := vlen cells / columns in
  let? spans := plan_loop (S (N.to_nat row_count)) columns row_count cells 0 in
  if bool_decide (vlen spans = 0) then err DE_InvalidDamage else ok spans.

(** * Schema 2, [display/encode_v2.rs] *)

Record DisplayMeta := mkMeta {
  me_generation : N; me_rows : N; me_columns : N; me_cursor_row : N; me_cursor_col : N;
  me_cursor_visible : bool; me_alternate_screen : bool }.

(** [out] and [sidecar] are what the call appends to them. *)
Definition display_role (r : CellRole) : DisplayCellRole :=
  match r with Empty => DR_Empty | Lead => DR_Lead | Continuation => DR_Continuation end.
Definition display_attributes (a : ProjectionAttributes) : DisplayAttributes :=
  mkAttributes (pa_bold a) (pa_underline a) (pa_inverse a).

Definition encode_projection_cell_v2 (c : ProjectionCell) (out sidecar : list N) : D (list N * list N) :=
  let role := display_role (pj_role c) in
  let attrs := display_attributes (pj_attributes c) in
  let? res :=
    match role with
    | DR_Empty | DR_Continuation =>
      if negb (pj_width c =? 0) || negb (bool_decide (pj_text c = [])) then err DE_InvalidCell
      else ok (0, encode_v2_cell_meta role 0 false 0 attrs, sidecar)
    | DR_Lead =>
      if negb (pj_width c =? 1) && negb (pj_width c =? 2) then err DE_InvalidWidth else
      let? side := needs_sidecar c in
      if side then
        if MAX_GRAPHEME_UTF8_BYTES <? vlen (pj_text c) then err DE_InvalidSidecar else
        ok (vlen sidecar mod 2 ^ 32,
            encode_v2_cell_meta role (pj_width c) true (vlen (pj_text c) mod 65536) attrs,
            sidecar ++ pj_text c)
      else ok (pj_scalar c, encode_v2_cell_meta role (pj_width c) false 0 attrs, sidecar)
    end in
  ok (out ++ to_le 4 res.1.1 ++ to_le 4 (encode_color (proj_color (pj_foreground c)))
      ++ to_le 4 (encode_color (proj_color (pj_background c))) ++ to_le 4 res.1.2, res.2).

Fixpoint encode_cells cells (out sidecar : list N) : D (list N * list N) :=
  match cells with
  | [] => ok (out, sidecar)
  | c :: cells => let? res := encode_projection_cell_v2 c out sidecar in encode_cells cells res.1 res.2
  end.

(** The 40 bytes both schemas begin with. *)
Definition encode_chunk_header (m : DisplayMeta) (base_generation first_row row_count chunk_index chunk_count cell_count : N)
    : list N :=
  to_le 8 (me_generation m) ++ to_le 8 base_generation ++ to_le 2 (me_rows m) ++ to_le 2 (me_columns m)
  ++ to_le 2 (me_cursor_row m) ++ to_le 2 (me_cursor_col m) ++ [bool_tag (me_cursor_visible m)]
  ++ [bool_tag (me_alternate_screen m)] ++ [0] ++ [0] ++ to_le 2 first_row ++ to_le 2 row_count
  ++ to_le 2 chunk_index ++ to_le 2 chunk_count ++ to_le 4 cell_count.

Definition encode_v2_chunk_payload (m : DisplayMeta)
    (base_generation first_row row_count first_col chunk_index chunk_count : N) cells : D (list N) :=
  let? res := encode_cells cells [] [] in
  let '(cell_bytes, sidecar) := res in
  if MAX_GRAPHEME_SIDECAR_BYTES <? vlen sidecar then err DE_InvalidSidecar else
  let? payload_len := ok_or DE_Overflow
    (v ← checked_add usize_max DISPLAY_CHUNK_HEADER_V2_LEN (vlen cell_bytes); checked_add usize_max v (vlen sidecar)) in
  if MAX_FRAME_PAYLOAD <? payload_len then err DE_InvalidLength else
  ok (encode_chunk_header m base_generation first_row row_count chunk_index chunk_count (vlen cells mod 2 ^ 32)
      ++ to_le 4 (vlen sidecar) ++ to_le 2 DISPLAY_SCHEMA_V2 ++ to_le 2 first_col ++ cell_bytes ++ sidecar).

(** The loop over the spans, from [chunk_index]: the frames and the bytes counted. *)
Fixpoint encode_spans (m : DisplayMeta) (kind : DisplayKind) (base_generation first_row chunk_count : N) cells
    (spans : list SpanPlan) (chunk_index total_bytes : N) : D (list (list N) * N) :=
  match spans with
  | [] => ok ([], total_bytes)
  | span :: spans =>
    let? absolute_row := ok_or DE_Overflow (checked_add u16_max first_row (sn_row_offset span)) in
    cell_slice ← vslice cells (sn_cell_start span) (sn_cell_start span + sn_cell_count span);
    let? payload := encode_v2_chunk_payload m base_generation absolute_row (sn_row_count span) (sn_first_col span)
                      (chunk_index mod 65536) chunk_count cell_slice in
    let frame := encode_frame (message_type_v2 kind) payload in
    let? total_bytes := ok_or DE_Overflow (checked_add usize_max total_bytes (vlen frame)) in
    let? rest := encode_spans m kind base_generation first_row chunk_count cells spans (chunk_index + 1) total_bytes in
    ok (frame :: rest.1, rest.2)
  end.

Definition encode_cells_v2 (m : DisplayMeta) (kind : DisplayKind) (base_generation first_row first_col row_count : N) cells
    : D EncodedDisplayBatch :=
  let? _ := validate_geometry (me_rows m) (me_columns m) (me_cursor_row m) (me_cursor_col m) in
  if (row_count =? 0) || (me_rows m <=? first_row) || (me_rows m <? first_row + row_count) || (me_columns m <=? first_col)
  then err DE_InvalidDamage else
  let? expected_cells := ok_or DE_Overflow (checked_mul usize_max row_count (me_columns m)) in
  if negb (vlen cells =? expected_cells) || negb (first_col =? 0) then err DE_InvalidDamage else
  let? spans := plan_v2_spans (me_columns m) cells in
  let? chunk_count := if vlen spans <=? u16_max then ok (vlen spans) else err DE_Overflow in
  let? res := encode_spans m kind base_generation first_row chunk_count cells spans 0 0 in
  ok (mkBatch kind DISPLAY_SCHEMA_V2 (me_generation m) base_generation (me_rows m) (me_columns m) res.1 res.2).

Definition meta_of (p : TerminalProjection) : DisplayMeta :=
  mkMeta (tp_generation p) (tp_rows p) (tp_columns p) (tp_cursor_row p) (tp_cursor_col p)
    (tp_cursor_visible p) (tp_alternate_screen p).

Definition encode_snapshot_v2 (p : TerminalProjection) : D EncodedDisplayBatch :=
  let? _ := validate_snapshot p in
  encode_cells_v2 (meta_of p) DK_Snapshot 0 0 0 (tp_rows p) (tp_cells p).

Definition encode_delta_v2 (p : TerminalProjection) (base_generation : N) : D EncodedDisplayBatch :=
  let? _ := validate_update p in
  encode_cells_v2 (meta_of p) DK_Delta base_generation (pd_first_row (tp_damage p)) 0
    (damage_row_count (tp_damage p)) (tp_cells p).
