(* ===== verification/DisplayClient.v ===== *)
(** The client's side of the display, [crates/seyal-client/src/local/]: assembling the chunks of
    one logical update ([display_apply.rs]) and what is done with a received display frame
    ([poll.rs]). *)

From S2P Require Import Prelude Utf8 Wire WirePane WireMessage Display.

Definition MAX_LOGICAL_DISPLAY_BYTES : N := 8 * 1024 * 1024.

(** The errors of [push]. *)
Inductive ClientError := CE_Protocol | CE_Capacity.

Record PendingDisplayBatch := mkPendingBatch {
  pb_chunks : list DecodedDisplayChunk; pb_cells : N; pb_wire_bytes : N }.

(** [clear]. *)
Definition no_pending : PendingDisplayBatch := mkPendingBatch [] 0 0.

Definition superseded (p : PendingDisplayBatch) (chunk : DecodedDisplayChunk) : bool :=
  match head (pb_chunks p) with
  | None => false
  | Some first =>
    (dk_chunk_index chunk =? 0)
    && (negb (bool_decide (dk_kind chunk = dk_kind first)) || negb (dk_schema chunk =? dk_schema first)
        || negb (dk_generation chunk =? dk_generation first)
        || negb (dk_base_generation chunk =? dk_base_generation first)
        || negb (dk_rows chunk =? dk_rows first) || negb (dk_columns chunk =? dk_columns first))
  end.

(** Where the chunk after [previous] has to start, in the [schema] of the new chunk. *)
Definition next_start (schema : N) (previous : DecodedDisplayChunk) : option (result ClientError (N * N)) :=
  if schema =? DISPLAY_SCHEMA_V2 then
    if (dk_row_count previous =? 1)
       && negb ((dk_first_col previous =? 0) && (vlen (dk_cells previous) =? dk_columns previous))
    then
      let? next_col := ok_or CE_Capacity
        (checked_add u16_max (dk_first_col previous) (vlen (dk_cells previous) mod 65536)) in
      if next_col =? dk_columns previous
      then let? row := ok_or CE_Capacity (checked_add u16_max (dk_first_row previous) 1) in ok (row, 0)
      else ok (dk_first_row previous, next_col)
    else
      let? row := ok_or CE_Capacity (checked_add u16_max (dk_first_row previous) (dk_row_count previous)) in
      ok (row, 0)
  else
    let? row := ok_or CE_Capacity (checked_add u16_max (dk_first_row previous) (dk_row_count previous)) in
    ok (row, 0).

(** The checks of a chunk against the ones already there. *)
Definition chunk_follows (p : PendingDisplayBatch) (chunk : DecodedDisplayChunk) : option (result ClientError unit) :=
  match head (pb_chunks p), last (pb_chunks p) with
  | Some first, Some previous =>
    if negb (chunks_agree first (vlen (pb_chunks p)) [chunk]) then err CE_Protocol else
    let? start := next_start (dk_schema chunk) previous in
    if negb (dk_first_row chunk =? start.1) || negb (dk_first_col chunk =? start.2)
    then err CE_Protocol else ok tt
  | _, _ =>
    if negb (dk_chunk_index chunk =? 0) then err CE_Protocol else
    if bool_decide (dk_kind chunk = DK_Snapshot) && negb (dk_schema chunk =? DISPLAY_SCHEMA_V2)
       && negb (dk_first_row chunk =? 0) then err CE_Protocol else
    if bool_decide (dk_kind chunk = DK_Snapshot) && (dk_schema chunk =? DISPLAY_SCHEMA_V2)
       && (negb (dk_first_row chunk =? 0) || negb (dk_first_col chunk =? 0)) then err CE_Protocol else ok tt
  end.

(** The sidecar bytes of a chunk, which are in memory, so that their sum is a [usize]. *)
Definition sidecar_total (cells : list DisplayCell) : N :=
  foldr (λ c n, (if dc_sidecar c then vlen (dc_text c) else 0) + n) 0 cells.

Definition chunk_wire_bytes (chunk : DecodedDisplayChunk) : option N :=
  let header_len := if dk_schema chunk =? DISPLAY_SCHEMA_V2 then DISPLAY_CHUNK_HEADER_V2_LEN
                    else DISPLAY_CHUNK_HEADER_LEN in
  let sidecar_bytes := if dk_schema chunk =? DISPLAY_SCHEMA_V2 then sidecar_total (dk_cells chunk) else 0 in
  value ← checked_add usize_max HEADER_LEN header_len;
  cell_bytes ← checked_mul usize_max (vlen (dk_cells chunk)) DISPLAY_CELL_LEN;
  value ← checked_add usize_max value cell_bytes;
  checked_add usize_max value sidecar_bytes.

(** [push]: whether the update is complete.  A superseded assembly is dropped before the
    new chunk is checked, so it stays dropped when the chunk is refused. *)
Definition push (chunk : DecodedDisplayChunk) (p : PendingDisplayBatch)
    : option (result ClientError bool * PendingDisplayBatch) :=
  let p := if superseded p chunk then no_pending else p in
  checked ← (if dk_chunk_count chunk =? 0 then err CE_Capacity else
    let? _ := chunk_follows p chunk in
    if dk_chunk_count chunk <=? vlen (pb_chunks p) then err CE_Protocol else
    let? geometry_cells := ok_or CE_Capacity (checked_mul usize_max (dk_rows chunk) (dk_columns chunk)) in
    let? next_cells := ok_or CE_Capacity (checked_add usize_max (pb_cells p) (vlen (dk_cells chunk))) in
    if (geometry_cells <? next_cells) || (MAX_DISPLAY_CELLS <? next_cells) then err CE_Capacity else
    let? chunk_bytes := ok_or CE_Capacity (chunk_wire_bytes chunk) in
    let? next_wire_bytes := ok_or CE_Capacity (checked_add usize_max (pb_wire_bytes p) chunk_bytes) in
    if MAX_LOGICAL_DISPLAY_BYTES <? next_wire_bytes then err CE_Capacity else
    ok (next_cells, next_wire_bytes));
  match checked with
  | Err e => Some (Err e, p)
  | Ok (next_cells, next_wire_bytes) =>
    let chunks := pb_chunks p ++ [chunk] in
    Some (Ok (vlen chunks =? dk_chunk_count chunk), mkPendingBatch chunks next_cells next_wire_bytes)
  end.

(** * A received display frame *)

(** What the client does with it: wait for more chunks, ask for a snapshot, show the
    update, or give up with [ClientError::Display]. *)
Inductive ChunkOutcome := CO_Waiting | CO_Resync | CO_Committed | CO_Failed.

Record DisplayClient := mkClient { cl_pending : PendingDisplayBatch; cl_cache : DisplayCache }.

(** The errors of [apply_chunks] after which the client resynchronises. *)
Definition resyncs (e : DisplayError) : bool :=
  match e with
  | DE_GenerationMismatch | DE_DimensionMismatch | DE_InvalidSidecar | DE_InvalidRole
  | DE_InvalidWidth | DE_InvalidChunk | DE_InvalidUnicode | DE_InvalidCell => true
  | _ => false
  end.

(** [accept_display_chunk] up to the commit. *)
Definition accept_display_chunk (chunk : DecodedDisplayChunk) (c : DisplayClient)
    : option (ChunkOutcome * DisplayClient) :=
  pushed ← push chunk (cl_pending c);
  match pushed with
  | (Err _, _) => Some (CO_Resync, mkClient no_pending (cl_cache c))
  | (Ok false, p) => Some (CO_Waiting, mkClient p (cl_cache c))
  | (Ok true, p) =>
    match apply_chunks (pb_chunks p) (cl_cache c) with
    | Ret _ cache => Some (CO_Committed, mkClient no_pending cache)
    | Fail e cache => Some (if resyncs e then (CO_Resync, mkClient no_pending cache)
                            else (CO_Failed, mkClient p cache))
    | Panic | NoFuel => None
    end
  end.

(** The display branch of [poll_prepare], without an envelope. *)
Definition receive_display (frame : list N) (c : DisplayClient) : option (ChunkOutcome * DisplayClient) :=
  decoded ← decode_chunk frame;
  match decoded with
  | Ok chunk => accept_display_chunk chunk c
  | Err _ => Some (CO_Resync, mkClient no_pending (cl_cache c))
  end.

Fixpoint receive_all (frames : list (list N)) (c : DisplayClient) : option (list ChunkOutcome * DisplayClient) :=
  match frames with
  | [] => Some ([], c)
  | frame :: frames =>
    res ← receive_display frame c;
    rest ← receive_all frames res.2;
    Some (res.1 :: rest.1, rest.2)
  end.
