(* ===== verification/DisplayCells.v ===== *)
(** Cells of the display on the wire: an encoded run of cells decodes to the cells a client
    shows, or is refused where leads and continuations do not pair up. *)

From S2P Require Import Prelude Utf8 Types Projection Wire WirePane WireText WireMessage Display DisplayEncode.

Implicit Types (cells piece : list ProjectionCell) (c : ProjectionCell).

Lemma checked_add_ok top a b : a + b ≤ top → checked_add top a b = Some (a + b).
Proof. intros H. unfold checked_add. by apply N.leb_le in H as ->. Qed.

Lemma checked_mul_ok top a b : a * b ≤ top → checked_mul top a b = Some (a * b).
Proof. intros H. unfold checked_mul. by apply N.leb_le in H as ->. Qed.

(** * Bit fields *)

Lemma lor_disjoint a b k : b < 2 ^ k → N.lor (N.shiftl a k) b = a * 2 ^ k + b.
Proof.
  intros Hb. rewrite <-N.shiftl_mul_pow2. assert (N.land (N.shiftl a k) b = 0) as Hl.
  { apply N.bits_inj. intros i. rewrite N.land_spec, N.bits_0. destruct (N.ltb_spec i k).
    - by rewrite N.shiftl_spec_low.
    - rewrite <-(N.mod_small _ _ Hb), <-N.land_ones, N.land_spec, N.ones_spec_high by done. by rewrite !andb_false_r. }
  by rewrite <-N.lxor_lor, N.add_nocarry_lxor.
Qed.

Definition color_ok (color : DisplayColor) : Prop :=
  match color with
  | DC_Default => True
  | DC_Indexed i => i < 256
  | DC_Rgb r g b => r < 256 ∧ g < 256 ∧ b < 256
  end.

Lemma encode_color_value color :
  color_ok color →
  encode_color color = match color with
                       | DC_Default => 0
                       | DC_Indexed i => 1073741824 + i
                       | DC_Rgb r g b => 2147483648 + r * 65536 + g * 256 + b
                       end.
Proof.
  destruct color as [|i|r g b]; cbn [color_ok encode_color]; [done|..].
  - intros Hi. by rewrite lor_disjoint by (change (2 ^ 30) with 1073741824; lia).
  - intros (Hr & Hg & Hb). rewrite (lor_disjoint 2) by (rewrite N.shiftl_mul_pow2; change (2 ^ 16) with 65536; change (2 ^ 30) with 1073741824; lia).
    rewrite !N.shiftl_mul_pow2. change (2 ^ 30) with (16384 * 2 ^ 16). rewrite N.mul_assoc, <-N.mul_add_distr_r, <-N.shiftl_mul_pow2.
    rewrite lor_disjoint by (change (2 ^ 16) with 65536; change (2 ^ 8) with 256; lia).
    change (2 ^ 16) with (256 * 2 ^ 8). rewrite N.mul_assoc, <-N.mul_add_distr_r, <-N.shiftl_mul_pow2.
    rewrite lor_disjoint by done. change (2 ^ 8) with 256. lia.
Qed.

Lemma encode_color_fits color : color_ok color → fits 4 (encode_color color).
Proof.
  intros H. rewrite encode_color_value by done. unfold fits. change (256 ^ N.of_nat 4) with 4294967296.
  destruct color; cbn in H; lia.
Qed.

Lemma decode_encode_color color : color_ok color → decode_color (encode_color color) = ok color.
Proof.
  intros H. rewrite encode_color_value by done. unfold decode_color.
  rewrite N.shiftr_div_pow2. change (N.land ?x 1073741823) with (N.land x (N.ones 30)). rewrite N.land_ones.
  change (2 ^ 30) with 1073741824. destruct color as [|i|r g b]; cbn [color_ok] in H; [done|..].
  - replace ((1073741824 + i) / 1073741824) with 1 by lia. replace ((1073741824 + i) mod 1073741824) with i by lia.
    cbn [N.eqb Pos.eqb andb]. by rewrite (proj2 (N.leb_le i 255)) by lia.
  - set (v := r * 65536 + g * 256 + b).
    replace (2147483648 + r * 65536 + g * 256 + b) with (2147483648 + v) by lia.
    replace ((2147483648 + v) / 1073741824) with 2 by lia. replace ((2147483648 + v) mod 1073741824) with v by lia.
    cbn [N.eqb Pos.eqb andb]. rewrite (proj2 (N.leb_le v 16777215)) by lia.
    rewrite !N.shiftr_div_pow2. change 255 with (N.ones 8). rewrite !N.land_ones.
    change (2 ^ 16) with 65536. change (2 ^ 8) with 256. unfold ok. do 3 f_equal; lia.
Qed.

(** A [meta] word is a byte of flags and, above it, the length of the text in the sidecar. *)
Lemma meta_split L low :
  low < 256 → L < 8192 → let m := L * 256 + low in
  attributes_of m = attributes_of low ∧ N.land (N.shiftr m 3) 3 = N.land (N.shiftr low 3) 3 ∧
  N.land (N.shiftr m 5) 3 = N.land (N.shiftr low 5) 3 ∧ N.testbit m 7 = N.testbit low 7 ∧
  N.land (N.shiftr m 8) 0x1fff = L ∧ N.shiftr m 21 = 0 ∧ fits 4 m.
Proof.
  intros Hlow HL m. unfold attributes_of. rewrite !N.testbit_eqb, !N.shiftr_div_pow2.
  rewrite !(λ x, N.land_ones x 2 : N.land x 3 = x mod 2 ^ 2), (N.land_ones _ 13 : N.land _ 0x1fff = _). unfold fits.
  change (256 ^ N.of_nat 4) with 4294967296.
  change (2 ^ 0) with 1. change (2 ^ 1) with 2. change (2 ^ 2) with 4. change (2 ^ 3) with 8. change (2 ^ 5) with 32.
  change (2 ^ 7) with 128. change (2 ^ 8) with 256. change (2 ^ 13) with 8192. change (2 ^ 21) with 2097152.
  assert (∀ d, d = 1 ∨ d = 2 ∨ d = 4 ∨ d = 128 → (m / d) mod 2 = (low / d) mod 2) as Hbit.
  { subst m. intros d [->|[->|[->| ->]]]; lia. }
  rewrite !Hbit by tauto. split_and!; subst m; first [done|lia].
Qed.

(** The fields of a cell's [meta] word. *)
Lemma meta_fields role width (side : bool) len at_ :
  width ≤ 2 → (side = true → 1 ≤ len ∧ len ≤ MAX_GRAPHEME_UTF8_BYTES) →
  let meta := encode_v2_cell_meta role width side len at_ in
  attributes_of meta = at_ ∧ DisplayCellRole_from_bits (N.land (N.shiftr meta 3) 3) = ok role ∧
  N.land (N.shiftr meta 5) 3 = width ∧ N.testbit meta 7 = side ∧
  N.land (N.shiftr meta 8) 0x1fff = (if side then len - 1 else 0) ∧ N.shiftr meta 21 = 0 ∧ fits 4 meta.
Proof.
  intros Hw Hl. cbv zeta. assert (width = 0 ∨ width = 1 ∨ width = 2) as Hc by lia.
  set (L := if side then len - 1 else 0). assert (L < 8192) as HL.
  { subst L. destruct side; [|done]. specialize (Hl eq_refl). unfold MAX_GRAPHEME_UTF8_BYTES in Hl. lia. }
  set (low := encode_v2_cell_meta role width side 1 at_).
  assert (low < 256) as Hlow by (subst low; clear -Hc; destruct at_ as [[] [] []], role, Hc as [->|[->| ->]], side; reflexivity).
  assert (encode_v2_cell_meta role width side len at_ = L * 256 + low) as ->.
  { rewrite (eq_sym (lor_disjoint L low 8 Hlow) : L * 256 + low = _), N.lor_comm. subst L low. unfold encode_v2_cell_meta. destruct side.
    - change 0x1fff with (N.ones 13). rewrite (N.land_ones (len - 1)), (N.mod_small (len - 1)) by done. by rewrite N.lor_0_r.
    - by rewrite N.lor_0_r. }
  destruct (meta_split L low Hlow HL) as (-> & -> & -> & -> & -> & -> & Hf). subst low. clear -Hc Hf.
  destruct at_ as [[] [] []], role, Hc as [->|[->| ->]], side; by split_and!.
Qed.

(** * One cell *)

(** What the projection of a terminal gives: leads of one or two columns with a text of
    at most 8192 bytes that begins with their scalar, other cells without width and text. *)
Definition encodable c : Prop :=
  color_ok (proj_color (pj_foreground c)) ∧ color_ok (proj_color (pj_background c)) ∧
  match pj_role c with
  | Empty | Continuation => pj_width c = 0 ∧ pj_text c = []
  | Lead => (pj_width c = 1 ∨ pj_width c = 2) ∧ vlen (pj_text c) ≤ MAX_GRAPHEME_UTF8_BYTES ∧
      ∃ chars, Forall (λ ch, is_scalar ch = true) (pj_scalar c :: chars) ∧ pj_text c = utf8_bytes (pj_scalar c :: chars)
  end.

(** Whether the text goes to the sidecar, and what goes there. *)
Definition side_flag c : bool :=
  match pj_role c, from_utf8 (pj_text c) with Lead, Some chars => negb (vlen chars =? 1) | _, _ => false end.
Definition cell_side c : list N := if side_flag c then pj_text c else [].

Definition cell_bytes c (off : N) : list N :=
  to_le 4 (if side_flag c then off else match pj_role c with Lead => pj_scalar c | _ => 0 end)
  ++ to_le 4 (encode_color (proj_color (pj_foreground c))) ++ to_le 4 (encode_color (proj_color (pj_background c)))
  ++ to_le 4 (encode_v2_cell_meta (display_role (pj_role c)) (pj_width c) (side_flag c) (vlen (pj_text c))
                (display_attributes (pj_attributes c))).

Lemma from_utf8_lead s chars :
  Forall (λ ch, is_scalar ch = true) (s :: chars) → from_utf8 (utf8_bytes (s :: chars)) = Some (s :: chars).
Proof. intros H. by apply from_utf8_bytes. Qed.

Lemma lead_text_length s chars :
  Forall (λ ch, is_scalar ch = true) (s :: chars) → 1 ≤ vlen (utf8_bytes (s :: chars)).
Proof. intros H. pose proof (utf8_bytes_length (s :: chars) H). cbn [length] in *. lia. Qed.

Lemma needs_sidecar_ok c : encodable c → needs_sidecar c = ok (side_flag c).
Proof.
  intros (_ & _ & Hc). unfold needs_sidecar, side_flag. destruct (pj_role c); [done| |done].
  destruct Hc as (_ & Hlen & chars & Hs & Ht). cbn [bool_decide decide negb].
  pose proof (lead_text_length _ _ Hs) as H1. rewrite Ht in *.
  rewrite bool_decide_eq_true_2 by done. rewrite from_utf8_lead by done.
  rewrite bool_decide_eq_false_2 by (intros E; rewrite E in H1; cbn in H1; lia).
  by rewrite (proj2 (N.ltb_ge _ _)) by done.
Qed.

Lemma encode_cell_ok c out side :
  encodable c → vlen side < 2 ^ 32 →
  encode_projection_cell_v2 c out side = ok (out ++ cell_bytes c (vlen side), side ++ cell_side c).
Proof.
  intros Hc Hs. pose proof (needs_sidecar_ok c Hc) as Hn. destruct Hc as (_ & _ & Hc).
  unfold encode_projection_cell_v2, cell_bytes, cell_side. destruct (pj_role c) eqn:Hr; cbn [display_role].
  1,3: destruct Hc as [-> ->]; cbn [N.eqb negb orb bool_decide]; rewrite bool_decide_eq_true_2 by done;
    unfold side_flag; rewrite Hr; cbn [negb try_ ok fst snd]; by rewrite app_nil_r.
  destruct Hc as (Hw & Hlen & _). unfold MAX_GRAPHEME_UTF8_BYTES in *.
  assert (negb (pj_width c =? 1) && negb (pj_width c =? 2) = false) as -> by (destruct Hw as [->| ->]; done).
  rewrite Hn. cbn [try_ ok]. destruct (side_flag c).
  - rewrite (proj2 (N.ltb_ge _ _)) by done. cbn [try_ ok fst snd]. by rewrite !N.mod_small by (done || lia).
  - cbn [try_ ok fst snd]. rewrite app_nil_r. unfold encode_v2_cell_meta. done.
Qed.

(** The decoded cell, and the style its continuation inherits. *)
Definition CellStyle : Type := DisplayColor * DisplayColor * DisplayAttributes.
Definition style_of c : CellStyle :=
  (proj_color (pj_foreground c), proj_color (pj_background c), display_attributes (pj_attributes c)).

(** One cell as the client shows it, or [None] where lead and continuation do not pair up:
    a wide lead must be followed by a continuation and nothing else may be. *)
Definition show_cell (pending : option CellStyle) c : option (DisplayCell * option CellStyle) :=
  match pending, pj_role c with
  | Some (fg, bg, at_), Continuation => Some (mkDisplayCell 32 DR_Continuation 0 [] false fg bg at_, None)
  | None, Empty =>
    Some (mkDisplayCell 32 DR_Empty 0 [] false (proj_color (pj_foreground c)) (proj_color (pj_background c))
            (display_attributes (pj_attributes c)), None)
  | None, Lead =>
    Some (mkDisplayCell (pj_scalar c) DR_Lead (pj_width c) (pj_text c) (side_flag c)
            (proj_color (pj_foreground c)) (proj_color (pj_background c)) (display_attributes (pj_attributes c)),
          if pj_width c =? 2 then Some (style_of c) else None)
  | _, _ => None
  end.

Definition pend (row : N) (s : CellStyle) : PendingContinuation := mkPending row s.1.1 s.1.2 s.2.

(** The decoder refuses. *)
Definition refused {A} (m : D A) : Prop := ∃ e, m = err e.

Lemma refused_err {A} e : refused (A := A) (err e).
Proof. by exists e. Qed.
#[local] Hint Resolve refused_err : core.

Lemma refused_try {A B} (m : D A) (k : A → D B) : refused m → refused (try_ m k).
Proof. intros [e ->]. by exists e. Qed.

Lemma length_cell_bytes c off : length (cell_bytes c off) = 16%nat.
Proof. unfold cell_bytes. by rewrite !length_app, !length_to_le. Qed.

Lemma width_le c : encodable c → pj_width c ≤ 2.
Proof. intros (_ & _ & H). destruct (pj_role c); [lia| |lia]. destruct H as ([-> | ->] & _); done. Qed.

Lemma side_flag_lead c : side_flag c = true → pj_role c = Lead.
Proof. unfold side_flag. by destruct (pj_role c). Qed.

Lemma text_ref_fits c off :
  encodable c → off < 2 ^ 32 →
  fits 4 (if side_flag c then off else match pj_role c with Lead => pj_scalar c | _ => 0 end).
Proof.
  intros (_ & _ & Hc) Ho. unfold fits. change (256 ^ N.of_nat 4) with (2 ^ 32). destruct (side_flag c); [done|].
  destruct (pj_role c); [done| |done]. destruct Hc as (_ & _ & chars & Hs & _). inversion Hs as [|? ? H _].
  unfold is_scalar, inr in H. change (2 ^ 32) with 4294967296. lia.
Qed.

Lemma lead_text_ok c pre post off :
  encodable c → pj_role c = Lead → off = vlen pre → off < 2 ^ 32 →
  lead_text (pre ++ cell_side c ++ post) off (if side_flag c then off else pj_scalar c) (side_flag c)
    (if side_flag c then vlen (pj_text c) - 1 else 0)
  = ok (pj_scalar c, pj_text c, off + vlen (cell_side c)).
Proof.
  intros (_ & _ & Hc) Hr -> Ho. rewrite Hr in Hc. destruct Hc as (_ & Hlen & chars & Hs & Ht).
  pose proof (lead_text_length _ _ Hs) as H1. rewrite <-Ht in H1. pose proof (from_utf8_lead _ _ Hs) as Hu.
  rewrite <-Ht in Hu. unfold cell_side. destruct (side_flag c) eqn:Hf; unfold lead_text.
  - unfold MAX_GRAPHEME_UTF8_BYTES in *. rewrite checked_add_small by (unfold usize_max, u64_max; lia). cbn [ok_or ok try_].
    replace (vlen (pj_text c) - 1 + 1) with (vlen (pj_text c)) by lia.
    rewrite (proj2 (N.eqb_neq _ 0)), (proj2 (N.ltb_ge _ _)) by (unfold MAX_GRAPHEME_UTF8_BYTES; lia). cbn [orb].
    rewrite N.eqb_refl. cbn [negb]. change (2 ^ 32) with 4294967296 in Ho.
    rewrite checked_add_small by (unfold usize_max, u64_max; lia). cbn [ok_or ok try_].
    rewrite (proj2 (N.ltb_ge _ _)) by (rewrite !length_app; lia).
    rewrite vslice_shift0, (vslice_head _ _ _ _ eq_refl) by done. cbn [mbind option_bind]. rewrite Hu.
    unfold first_scalar. rewrite Hu. cbn [ok_or ok try_]. done.
  - cbn [N.eqb negb]. inversion Hs as [|? ? Hsc _]. rewrite Hsc.
    assert (chars = []) as ->.
    { unfold side_flag in Hf. rewrite Hr, Hu in Hf. cbn [length] in Hf. destruct chars; [done|]. exfalso.
      apply negb_false_iff, N.eqb_eq in Hf. cbn [length] in Hf. lia. }
    rewrite Ht. unfold utf8_bytes. cbn. rewrite app_nil_r, N.add_0_r. done.
Qed.

(** The decoder on an encoded cell whose continuation, if any is due, is due in this row. *)
Lemma decode_cell_spec c pre post off pending row col columns :
  encodable c → off = vlen pre → off < 2 ^ 32 → col < u16_max →
  let m := decode_cell_v2 (cell_bytes c off) (pre ++ cell_side c ++ post) off (pend row <$> pending) row col columns in
  match show_cell pending c with
  | Some (d, p) => if bool_decide (is_Some p) && (columns <=? col + 1) then refused m
                   else m = ok (d, (off + vlen (cell_side c), pend row <$> p))
  | None => refused m
  end.
Proof.
  intros Hc Hoff Ho Hcol. cbv zeta. pose proof (text_ref_fits c off Hc Ho) as Htr. pose proof (width_le c Hc) as Hw.
  pose proof Hc as (Hfg & Hbg & Hrole).
  destruct (meta_fields (display_role (pj_role c)) (pj_width c) (side_flag c) (vlen (pj_text c)) (display_attributes (pj_attributes c)))
    as (Hat & Hro & Hwi & Hsf & Hlm & Hhi & Hfit); [done| |].
  { intros Hf. rewrite (side_flag_lead c Hf) in Hrole. destruct Hrole as (_ & Hle & chars & Hs & Ht).
    split; [rewrite Ht; by apply lead_text_length|done]. }
  unfold decode_cell_v2. rewrite length_cell_bytes. change (negb (N.of_nat 16 =? DISPLAY_CELL_LEN)) with false. cbv iota.
  unfold cell_bytes. wire_read. rewrite !from_le_to_le by (done || by apply encode_color_fits).
  rewrite decode_encode_color by done. cbn [try_ ok mbind option_bind]. rewrite decode_encode_color by done. cbn [try_ ok].
  rewrite Hat, Hro, Hwi, Hsf, Hlm, Hhi. cbn [try_ ok].
  rewrite (proj2 (N.eqb_neq (pj_width c) 3)) by lia. cbn [negb N.eqb]. clear Hat Hro Hwi Hsf Hlm Hhi Hfit Htr.
  unfold show_cell. destruct pending as [[[pfg pbg] pat]|], (pj_role c) eqn:Hr; cbn [display_role fmap option_fmap option_map];
    unfold pend; cbn [pc_row pc_foreground pc_background pc_attributes fst snd]; rewrite ?N.eqb_refl; cbn [negb].
  - rewrite bool_decide_eq_false_2 by done. cbn [negb orb]. auto.
  - rewrite bool_decide_eq_false_2 by done. cbn [negb orb]. auto.
  - destruct Hrole as [-> _]. assert (side_flag c = false) as Hf by (unfold side_flag; by rewrite Hr).
    unfold cell_side. rewrite Hf. cbn. by rewrite N.add_0_r.
  - destruct Hrole as [-> _]. assert (side_flag c = false) as Hf by (unfold side_flag; by rewrite Hr).
    unfold cell_side. rewrite Hf. cbn. by rewrite N.add_0_r.
  - assert (negb (pj_width c =? 1) && negb (pj_width c =? 2) = false) as -> by (destruct Hrole as [[->| ->] _]; done).
    rewrite lead_text_ok by done. cbn [try_ ok fst snd]. destruct (pj_width c =? 2).
    + rewrite checked_add_ok by (unfold u16_max in *; lia). cbn [mbind option_bind andb].
      rewrite bool_decide_eq_true_2 by done. cbn [andb]. by destruct (columns <=? col + 1).
    + done.
  - auto.
Qed.

(** * A run of cells in one row *)

Fixpoint show (pending : option CellStyle) cells : option (list DisplayCell * option CellStyle) :=
  match cells with
  | [] => Some ([], pending)
  | c :: cells =>
    d ← show_cell pending c;
    rest ← show d.2 cells;
    Some (d.1 :: rest.1, rest.2)
  end.

Lemma show_app pending a b :
  show pending (a ++ b) =
    (x ← show pending a; y ← show x.2 b; Some (x.1 ++ y.1, y.2)).
Proof.
  revert pending. induction a as [|c a IH]; intros pending; cbn [app show].
  { cbn. by destruct (show pending b) as [[]|]. }
  destruct (show_cell pending c) as [[d p]|]; cbn; [|done]. rewrite IH.
  destruct (show p a) as [[x q]|]; cbn; [|done]. by destruct (show q b) as [[y z]|].
Qed.

Definition side_of cells : list N := cells ≫= cell_side.

Fixpoint piece_bytes (off : N) cells : list N :=
  match cells with
  | [] => []
  | c :: cells => cell_bytes c off ++ piece_bytes (off + vlen (cell_side c)) cells
  end.

Lemma length_piece_bytes off cells : vlen (piece_bytes off cells) = 16 * vlen cells.
Proof.
  revert off. induction cells as [|c cells IH]; intros off; [done|]. cbn [piece_bytes length].
  rewrite length_app, length_cell_bytes. specialize (IH (off + vlen (cell_side c))). lia.
Qed.

Lemma piece_bytes_app off a b :
  piece_bytes off (a ++ b) = piece_bytes off a ++ piece_bytes (off + vlen (side_of a)) b.
Proof.
  revert off. induction a as [|c a IH]; intros off; cbn [piece_bytes app]; [by rewrite N.add_0_r|].
  rewrite IH, <-(assoc_L (++)). change (side_of (c :: a)) with (cell_side c ++ side_of a).
  rewrite length_app, Nat2N.inj_add, N.add_assoc. done.
Qed.

Lemma side_of_app a b : side_of (a ++ b) = side_of a ++ side_of b.
Proof. apply bind_app. Qed.

Lemma encode_cells_ok cells out side :
  Forall encodable cells → vlen side + vlen (side_of cells) < 2 ^ 32 →
  encode_cells cells out side = ok (out ++ piece_bytes (vlen side) cells, side ++ side_of cells).
Proof.
  intros Hc. revert out side. induction Hc as [|c cells Hc Hcs IH]; intros out side Hs; cbn [encode_cells piece_bytes].
  { by rewrite !app_nil_r. }
  change (side_of (c :: cells)) with (cell_side c ++ side_of cells) in *. rewrite length_app in Hs.
  rewrite encode_cell_ok by (done || lia). cbn [try_ ok fst snd]. rewrite IH by (rewrite length_app; lia).
  by rewrite length_app, Nat2N.inj_add, <-!(assoc_L (++)).
Qed.

Section decode_cells.
Context (payload sidecar : list N) (place : N → D (N * N)) (columns : N).

Lemma decode_cells_app n m index off p :
  decode_cells_v2 payload sidecar place columns (n + m) index off p =
    (let? a := decode_cells_v2 payload sidecar place columns n index off p in
     let? b := decode_cells_v2 payload sidecar place columns m (index + N.of_nat n) a.2.1 a.2.2 in
     ok (a.1 ++ b.1, b.2)).
Proof.
  revert index off p. induction n as [|n IH]; intros index off p.
  { cbn [Nat.add decode_cells_v2 try_ ok fst snd app]. rewrite N.add_0_r.
    by destruct (decode_cells_v2 _ _ _ _ m index off p) as [[[x y]|e]|]. }
  cbn [Nat.add decode_cells_v2]. destruct (place index) as [[xy|e]|]; cbn [try_]; [|done..].
  destruct (vslice _ _ _) as [s|]; cbn [mbind option_bind]; [|done].
  destruct (decode_cell_v2 _ _ _ _ _ _ _) as [[[d [o q]]|e]|]; cbn [try_ fst snd]; [|done..].
  rewrite IH. replace (index + N.of_nat (S n)) with (index + 1 + N.of_nat n) by lia.
  destruct (decode_cells_v2 _ _ _ _ n _ _ _) as [[[x y]|e]|]; cbn [try_ ok fst snd]; [|done..].
  by destruct (decode_cells_v2 _ _ _ _ m _ _ _) as [[[x' y']|e]|].
Qed.

(** The cells of a piece of one row that starts at [col] and does not go past [columns]. *)
Lemma decode_piece_spec cells row col index off pending head tail pre post :
  Forall encodable cells →
  payload = head ++ piece_bytes off cells ++ tail → vlen head = 48 + 16 * index →
  sidecar = pre ++ side_of cells ++ post → off = vlen pre → vlen sidecar < 2 ^ 32 →
  (∀ j, j < vlen cells → place (index + j) = ok (row, col + j)) →
  col + vlen cells ≤ columns → columns ≤ u16_max →
  let m := decode_cells_v2 payload sidecar place columns (length cells) index off (pend row <$> pending) in
  match show pending cells with
  | Some (ds, p) =>
    if bool_decide (is_Some p) && bool_decide (cells ≠ []) && (columns <=? col + vlen cells) then refused m
    else m = ok (ds, (off + vlen (side_of cells), pend row <$> p))
  | None => refused m
  end.
Proof.
  intros Hc. revert col index off pending head pre.
  induction Hc as [|c cells Hc Hcs IH]; intros col index off pending head pre Hpay Hh Hside Hoff Hs Hplace Hcol Hmax.
  { cbn [show]. rewrite (bool_decide_eq_false_2 ([] ≠ [])) by tauto. rewrite andb_false_r. cbn. by rewrite N.add_0_r. }
  change (side_of (c :: cells)) with (cell_side c ++ side_of cells) in *. cbn [piece_bytes length] in *.
  rewrite <-(assoc_L (++)) in Hpay, Hside. cbv zeta. cbn [show decode_cells_v2].
  assert (vslice payload (DISPLAY_CHUNK_HEADER_V2_LEN + index * DISPLAY_CELL_LEN)
            (DISPLAY_CHUNK_HEADER_V2_LEN + index * DISPLAY_CELL_LEN + DISPLAY_CELL_LEN) = Some (cell_bytes c off)) as Hsl.
  { rewrite Hpay. unfold DISPLAY_CHUNK_HEADER_V2_LEN, DISPLAY_CELL_LEN.
    rewrite vslice_shift0 by lia. apply (vslice_head _ _ _ 16); [apply length_cell_bytes|done]. }
  rewrite Hsl. pose proof (Hplace 0 ltac:(lia)) as Hpl. rewrite !N.add_0_r in Hpl. rewrite Hpl. cbn [try_ ok fst snd mbind option_bind].
  assert (off < 2 ^ 32) by (rewrite Hside, !length_app in Hs; lia).
  pose proof (decode_cell_spec c pre (side_of cells ++ post) off pending row col columns Hc Hoff) as Hcell.
  rewrite <-Hside in Hcell. specialize (Hcell ltac:(done) ltac:(unfold u16_max in *; lia)).
  destruct (show_cell pending c) as [[d p]|]; [|by apply refused_try]. cbn [mbind option_bind fst snd].
  assert (IH' := IH (col + 1) (index + 1) (off + vlen (cell_side c)) p (head ++ cell_bytes c off) (pre ++ cell_side c)).
  rewrite <-!(assoc_L (++)), !length_app, length_cell_bytes in IH'. specialize (IH' Hpay ltac:(lia) Hside ltac:(lia) Hs).
  specialize (IH' ltac:(intros j Hj; rewrite <-!N.add_assoc; apply Hplace; lia)
    ltac:(lia) Hmax). cbv zeta in IH'.
  destruct (bool_decide (is_Some p) && (columns <=? col + 1)) eqn:Hb.
  - apply andb_true_iff in Hb as [Hp Hb%N.leb_le]. destruct cells as [|c' cells]; [|cbn [length] in Hcol; lia].
    cbn [show mbind option_bind fst snd length]. rewrite Hp, bool_decide_eq_true_2, (proj2 (N.leb_le _ _)) by (done || lia).
    cbn [andb]. by apply refused_try.
  - rewrite Hcell. cbn [try_ ok fst snd]. destruct (show p cells) as [[ds q]|] eqn:Hsh; [|by apply refused_try].
    cbn [mbind option_bind fst snd]. rewrite (bool_decide_eq_true_2 (c :: cells ≠ [])), andb_true_r by done.
    replace (col + N.of_nat (S (length cells))) with (col + 1 + vlen cells) by lia.
    destruct cells as [|c' cells].
    + cbn [show] in Hsh. injection Hsh as <- <-. cbn [length]. rewrite N.add_0_r, Hb.
      change (side_of []) with (@nil N). by rewrite app_nil_r.
    + rewrite (bool_decide_eq_true_2 (c' :: cells ≠ [])), andb_true_r in IH' by done.
      destruct (bool_decide (is_Some q) && _); [by apply refused_try|]. rewrite IH'. cbn [try_ ok fst snd].
      rewrite length_app, Nat2N.inj_add, N.add_assoc. done.
Qed.
End decode_cells.

(** * Segments: whole rows, or a piece of one row *)

Record Seg := mkSeg { g_row : N; g_col : N; g_lines : list (list ProjectionCell) }.
Definition g_cells (s : Seg) : list ProjectionCell := concat (g_lines s).

Definition seg_ok (columns : N) (s : Seg) : Prop :=
  (g_lines s ≠ [] ∧ g_col s = 0 ∧ Forall (λ l, vlen l = columns) (g_lines s))
  ∨ (∃ piece, g_lines s = [piece] ∧ piece ≠ [] ∧ g_col s + vlen piece ≤ columns).

(** A line as the client shows it: no continuation may be due at its end. *)
Definition show_line cells : option (list DisplayCell) :=
  match show None cells with Some (ds, None) => Some ds | _ => None end.
Fixpoint show_lines (lines : list (list ProjectionCell)) : option (list DisplayCell) :=
  match lines with
  | [] => Some []
  | l :: lines => d ← show_line l; ds ← show_lines lines; Some (d ++ ds)
  end.

Lemma length_show pending cells ds p : show pending cells = Some (ds, p) → length ds = length cells.
Proof.
  revert pending ds. induction cells as [|c cells IH]; intros pending ds; cbn [show]; [by intros [= <- _]|].
  destruct (show_cell pending c) as [[d q]|]; cbn; [|done].
  destruct (show q cells) as [[x y]|] eqn:Hs; cbn; [|done]. intros [= <- <-]. cbn. f_equal. by eapply IH.
Qed.

Lemma length_show_lines lines ds : show_lines lines = Some ds → length ds = length (concat lines).
Proof.
  revert ds. induction lines as [|l lines IH]; intros ds; cbn [show_lines concat]; [by intros [= <-]|].
  unfold show_line. destruct (show None l) as [[d [q|]]|] eqn:Hl; cbn; [done| |done].
  destruct (show_lines lines) as [x|]; cbn; [|done]. intros [= <-]. rewrite !length_app.
  rewrite (length_show _ _ _ _ Hl), (IH x) by done. done.
Qed.

Lemma show_lines_app a b :
  show_lines (a ++ b) = (x ← show_lines a; y ← show_lines b; Some (x ++ y)).
Proof.
  induction a as [|l a IH]; cbn [app show_lines]; [cbn; by destruct (show_lines b)|].
  destruct (show_line l) as [d|]; cbn; [|done]. rewrite IH. destruct (show_lines a) as [x|]; cbn; [|done].
  destruct (show_lines b) as [y|]; cbn; [|done]. by rewrite (assoc_L (++)).
Qed.

Lemma Forall_concat {A} (P : A → Prop) (ls : list (list A)) : Forall P (concat ls) → Forall (Forall P) ls.
Proof. induction ls as [|l ls IH]; cbn; [constructor|]. intros [? ?]%Forall_app. constructor; auto. Qed.

Lemma vlen_concat_lines {A} (lines : list (list A)) columns :
  Forall (λ l, vlen l = columns) lines → vlen (concat lines) = vlen lines * columns.
Proof. induction 1 as [|l lines Hl _ IH]; cbn [concat length]; [done|]. rewrite length_app. lia. Qed.

Section decode_lines.
Context (payload sidecar : list N) (place : N → D (N * N)) (columns : N).
Hypothesis Hmax : 1 ≤ columns ∧ columns ≤ u16_max.

Lemma decode_lines_spec lines row index off head tail pre post :
  Forall (Forall encodable) lines → Forall (λ l, vlen l = columns) lines →
  payload = head ++ piece_bytes off (concat lines) ++ tail → vlen head = 48 + 16 * index →
  sidecar = pre ++ side_of (concat lines) ++ post → off = vlen pre → vlen sidecar < 2 ^ 32 →
  (∀ k j, k < vlen lines → j < columns → place (index + k * columns + j) = ok (row + k, j)) →
  let m := decode_cells_v2 payload sidecar place columns (length (concat lines)) index off None in
  match show_lines lines with
  | Some ds => m = ok (ds, (off + vlen (side_of (concat lines)), None))
  | None => refused m
  end.
Proof.
  intros Hc. revert row index off head pre.
  induction Hc as [|l lines Hl Hls IH]; intros row index off head pre Hlen Hpay Hh Hside Hoff Hs Hplace.
  { cbn. by rewrite N.add_0_r. }
  apply Forall_cons in Hlen as [Hll Hlen]. cbn [concat] in *.
  rewrite piece_bytes_app, <-(assoc_L (++)) in Hpay. rewrite side_of_app, <-(assoc_L (++)) in Hside.
  cbv zeta. rewrite length_app, decode_cells_app.
  assert (Hpiece := decode_piece_spec payload sidecar place columns l row 0 index off None head _ pre _ Hl Hpay Hh Hside Hoff Hs).
  specialize (Hpiece ltac:(intros j Hj; specialize (Hplace 0 j); rewrite N.mul_0_l, !N.add_0_r in Hplace; apply Hplace; cbn [length]; lia)
    ltac:(lia) ltac:(lia)). cbv zeta in Hpiece. cbn [fmap option_fmap option_map] in Hpiece.
  cbn [show_lines]. unfold show_line.
  destruct (show None l) as [[d p]|]; [|by apply refused_try]. destruct p as [q|]; cbn [mbind option_bind].
  { rewrite bool_decide_eq_true_2, bool_decide_eq_true_2, (proj2 (N.leb_le _ _)) in Hpiece; [by apply refused_try|lia|..|done].
    intros ->. cbn in Hll. lia. }
  rewrite bool_decide_eq_false_2 in Hpiece by (by intros [? [=]]). cbn [andb] in Hpiece.
  rewrite Hpiece. cbn [try_ ok fst snd fmap option_fmap option_map].
  assert (IH' := IH (row + 1) (index + vlen l) (off + vlen (side_of l)) (head ++ piece_bytes off l) (pre ++ side_of l)).
  rewrite <-!(assoc_L (++)), !length_app, !Nat2N.inj_add, length_piece_bytes in IH'.
  specialize (IH' ltac:(done) Hpay ltac:(lia) Hside ltac:(lia) Hs).
  specialize (IH' ltac:(intros k j Hk Hj; replace (index + vlen l + k * columns + j) with (index + (k + 1) * columns + j) by lia;
    replace (row + 1 + k) with (row + (k + 1)) by lia; apply Hplace; [cbn [length]; lia|done])). cbv zeta in IH'.
  destruct (show_lines lines) as [ds|]; [|by apply refused_try]. rewrite IH'. cbn [try_ ok fst snd mbind option_bind].
  rewrite side_of_app, length_app, Nat2N.inj_add, N.add_assoc. done.
Qed.
End decode_lines.

Lemma cell_place_piece r g columns j : g + j ≤ u16_max → cell_place r 1 g columns j = ok (r, g + j).
Proof.
  unfold u16_max, cell_place. intros H. cbn [N.eqb Pos.eqb].
  rewrite N.mod_small, checked_add_ok by (unfold u16_max; lia). done.
Qed.

Lemma cell_place_lines r n g columns k j :
  n ≠ 1 → j < columns → columns ≤ u16_max → r + k ≤ u16_max →
  cell_place r n g columns (k * columns + j) = ok (r + k, j).
Proof.
  unfold u16_max, cell_place. intros Hn Hj Hc Hr. rewrite (proj2 (N.eqb_neq n 1)) by done.
  rewrite N.div_add_l, (N.div_small j), N.add_0_r by lia. rewrite (N.add_comm (k * columns)), N.Div0.mod_add.
  rewrite (N.mod_small j columns), !N.mod_small by lia. by rewrite checked_add_ok by (unfold u16_max; lia).
Qed.

Lemma decode_seg_spec {A} columns s head (K : list DisplayCell → A) :
  seg_ok columns s → Forall encodable (g_cells s) → 1 ≤ columns → columns ≤ u16_max →
  g_row s + vlen (g_lines s) ≤ u16_max → vlen head = 48 → vlen (side_of (g_cells s)) < 2 ^ 32 →
  let m := (let? res := decode_cells_v2 (head ++ piece_bytes 0 (g_cells s) ++ side_of (g_cells s)) (side_of (g_cells s))
              (cell_place (g_row s) (vlen (g_lines s)) (g_col s) columns) columns (length (g_cells s)) 0 0 None in
            if bool_decide (is_Some res.2.2) || negb (res.2.1 =? vlen (side_of (g_cells s))) then err DE_InvalidSidecar
            else ok (K res.1)) in
  match show_lines (g_lines s) with Some ds => m = ok (K ds) | None => refused m end.
Proof.
  intros Hok Hc H1 Hmax Hrow Hh Hs. cbv zeta. unfold g_cells in *.
  destruct Hok as [(Hne & Hcol & Hlen)|(piece & Hl & Hne & Hfit)].
  - assert (Hd := decode_lines_spec (head ++ piece_bytes 0 (concat (g_lines s)) ++ side_of (concat (g_lines s)))
      (side_of (concat (g_lines s))) (cell_place (g_row s) (vlen (g_lines s)) (g_col s) columns) columns (conj H1 Hmax)
      (g_lines s) (g_row s) 0 0 head (side_of (concat (g_lines s))) [] []).
    cbn [app] in Hd. rewrite app_nil_r in Hd.
    specialize (Hd ltac:(by apply Forall_concat) Hlen eq_refl ltac:(lia) eq_refl eq_refl Hs).
    assert (∀ k j, k < vlen (g_lines s) → j < columns →
      cell_place (g_row s) (vlen (g_lines s)) (g_col s) columns (0 + k * columns + j) = ok (g_row s + k, j)) as Hp.
    { intros k j Hk Hj. rewrite Hcol, N.add_0_l. destruct (N.eq_dec (vlen (g_lines s)) 1) as [E|E].
      - rewrite E in Hk |- *. assert (k = 0) as -> by lia. rewrite N.mul_0_l, N.add_0_r, cell_place_piece by lia. done.
      - apply cell_place_lines; lia. }
    specialize (Hd Hp). cbv zeta in Hd. destruct (show_lines (g_lines s)) as [ds|]; [|by apply refused_try].
    rewrite Hd. cbn [try_ ok fst snd]. rewrite N.add_0_l, N.eqb_refl. done.
  - rewrite Hl in *. cbn [concat] in *. rewrite app_nil_r in *.
    assert (Hd := decode_piece_spec (head ++ piece_bytes 0 piece ++ side_of piece) (side_of piece)
      (cell_place (g_row s) (vlen [piece]) (g_col s) columns) columns piece (g_row s) (g_col s) 0 0 None head (side_of piece) [] []).
    cbn [app] in Hd. rewrite app_nil_r in Hd. specialize (Hd Hc eq_refl ltac:(lia) eq_refl eq_refl Hs).
    specialize (Hd ltac:(intros j Hj; rewrite N.add_0_l; apply cell_place_piece; lia) Hfit Hmax). cbv zeta in Hd.
    cbn [show_lines]. unfold show_line. cbn [fmap option_fmap option_map] in Hd.
    destruct (show None piece) as [[d [q|]]|]; cbn [mbind option_bind]; [| |by apply refused_try].
    + destruct (_ && _) in Hd; [by apply refused_try|]. rewrite Hd. cbn [try_ ok fst snd fmap option_fmap option_map].
      rewrite bool_decide_eq_true_2 by done. cbn [orb]. auto.
    + rewrite bool_decide_eq_false_2 in Hd by (by intros [? [=]]). cbn [andb] in Hd. rewrite Hd.
      cbn [try_ ok fst snd fmap option_fmap option_map]. rewrite N.add_0_l, N.eqb_refl, app_nil_r. done.
Qed.

(** * A chunk *)

Lemma geometry_bounds rows columns cursor_row cursor_col :
  validate_geometry rows columns cursor_row cursor_col = ok tt →
  1 ≤ rows ∧ rows ≤ 256 ∧ 1 ≤ columns ∧ columns ≤ 512 ∧ cursor_row < rows ∧ cursor_col < columns.
Proof.
  unfold validate_geometry, MAX_DISPLAY_ROWS, MAX_DISPLAY_COLUMNS. destruct (_ || _) eqn:Hb; [done|]. intros _. lia.
Qed.

(** The bounds of a frame that leaves room for the presentation envelope. *)
Definition seg_fits cells : Prop :=
  vlen (side_of cells) ≤ MAX_GRAPHEME_SIDECAR_BYTES ∧
  48 + 16 * vlen cells + vlen (side_of cells) ≤ max_chunk_payload.

(** A segment is a span the protocol allows, and has a cell. *)
Lemma seg_span columns s :
  seg_ok columns s → 1 ≤ columns → columns ≤ 512 → vlen (g_lines s) ≤ 256 →
  1 ≤ vlen (g_lines s) ∧ 1 ≤ vlen (g_cells s) ∧
  validate_v2_span (g_col s) (vlen (g_lines s)) (vlen (g_cells s)) columns = ok tt.
Proof.
  intros Hok H1 H2 Hn. unfold validate_v2_span, g_cells. destruct Hok as [(Hne & Hcol & Hlen)|(piece & Hl & Hne & Hfit)].
  - assert (1 ≤ vlen (g_lines s)) by (destruct (g_lines s); [done|cbn [length]; lia]).
    rewrite (vlen_concat_lines _ _ Hlen), Hcol. rewrite !(proj2 (N.eqb_neq _ 0)) by nia. cbn [orb N.eqb].
    rewrite checked_mul_ok by (unfold usize_max, u64_max; nia). cbn [ok_or ok try_]. rewrite N.eqb_refl.
    split_and!; [done|nia|]. destruct (vlen (g_lines s) =? 1); [|done].
    rewrite checked_add_ok by (unfold usize_max, u64_max; nia). done.
  - rewrite Hl. cbn [concat length]. rewrite app_nil_r. assert (1 ≤ vlen piece) by (destruct piece; [done|cbn [length]; lia]).
    split_and!; [done|done|]. rewrite (proj2 (N.eqb_neq _ 0)) by lia. change (N.of_nat 1) with 1. cbn [orb N.eqb Pos.eqb].
    rewrite checked_mul_ok, checked_add_ok by (unfold usize_max, u64_max; lia). cbn [ok_or ok try_].
    rewrite (proj2 (N.leb_le _ _)) by done. destruct (g_col s =? 0); cbn [try_ ok]; by rewrite orb_true_r.
Qed.

Section chunk.
Context (m : DisplayMeta) (kind : DisplayKind) (base : N).
Hypothesis Hgeo : validate_geometry (me_rows m) (me_columns m) (me_cursor_row m) (me_cursor_col m) = ok tt.
Hypothesis Hgen : fits 8 (me_generation m).
Hypothesis Hbase : fits 8 base.
Hypothesis Hkind : kind = DK_Snapshot → base = 0.

Definition seg_payload (s : Seg) (index count : N) : list N :=
  encode_chunk_header m base (g_row s) (vlen (g_lines s)) index count (vlen (g_cells s))
  ++ to_le 4 (vlen (side_of (g_cells s))) ++ to_le 2 DISPLAY_SCHEMA_V2 ++ to_le 2 (g_col s)
  ++ piece_bytes 0 (g_cells s) ++ side_of (g_cells s).

Definition seg_chunk (s : Seg) (index count : N) (ds : list DisplayCell) : DecodedDisplayChunk :=
  mkChunk kind DISPLAY_SCHEMA_V2 (me_generation m) base (me_rows m) (me_columns m) (me_cursor_row m)
    (me_cursor_col m) (me_cursor_visible m) (me_alternate_screen m) (g_row s) (vlen (g_lines s)) (g_col s)
    index count ds.

Lemma length_chunk_header first_row row_count index count n :
  length (encode_chunk_header m base first_row row_count index count n) = 40%nat.
Proof. unfold encode_chunk_header. by rewrite !length_app, !length_to_le. Qed.

Lemma read_header_back first_row row_count index count n rest :
  first_row ≤ u16_max → row_count ≤ u16_max → index ≤ u16_max → count ≤ u16_max → n ≤ u32_max →
  read_chunk_header (encode_chunk_header m base first_row row_count index count n ++ rest)
  = ok (mkChunkHeader (me_generation m) base (me_rows m) (me_columns m) (me_cursor_row m) (me_cursor_col m)
          (me_cursor_visible m) (me_alternate_screen m) first_row row_count index count n).
Proof.
  intros H1 H2 H3 H4 H5. destruct (geometry_bounds _ _ _ _ Hgeo) as (? & ? & ? & ? & ? & ?).
  assert (∀ x, x ≤ u16_max → fits 2 x) as Hf by (unfold u16_max, fits; intros; change (256 ^ N.of_nat 2) with 65536; lia).
  assert (fits 4 n) by (unfold u32_max, fits in *; change (256 ^ N.of_nat 4) with 4294967296; lia).
  unfold read_chunk_header, encode_chunk_header. rewrite <-!(assoc_L (++)).
  assert (∀ b, decode_bool (bool_tag b) = ok b) as Hb by (by intros []).
  wire_read. rewrite !from_le_to_le by first [done | apply Hf; unfold u16_max in *; lia].
  rewrite !Hb. done.
Qed.

Lemma encode_chunk_ok s index count :
  Forall encodable (g_cells s) → seg_fits (g_cells s) →
  encode_v2_chunk_payload m base (g_row s) (vlen (g_lines s)) (g_col s) index count (g_cells s)
  = ok (seg_payload s index count) ∧ vlen (seg_payload s index count) ≤ max_chunk_payload.
Proof using Type.
  clear Hkind.
  intros Hc [Hside Hlen]. unfold encode_v2_chunk_payload, MAX_GRAPHEME_SIDECAR_BYTES in *.
  unfold max_chunk_payload in *. assert (vlen (side_of (g_cells s)) < 2 ^ 32) by (change (2 ^ 32) with 4294967296; lia).
  rewrite encode_cells_ok by (done || cbn; lia). cbn [try_ ok length N.of_nat]. rewrite !app_nil_l.
  rewrite (proj2 (N.ltb_ge _ _)) by lia. change (N.of_nat (length (@nil N))) with 0.
  rewrite length_piece_bytes. unfold DISPLAY_CHUNK_HEADER_V2_LEN, MAX_FRAME_PAYLOAD, PREFIX_LEN in *.
  rewrite !checked_add_small by (unfold usize_max, u64_max; lia). cbn [mbind option_bind ok_or ok try_].
  rewrite checked_add_small by (unfold usize_max, u64_max; lia). cbn [ok_or ok try_].
  rewrite (proj2 (N.ltb_ge _ _)) by lia. split.
  - rewrite (N.mod_small (vlen (g_cells s))) by (change (2 ^ 32) with 4294967296; lia). done.
  - unfold seg_payload, encode_chunk_header. rewrite !length_app, !length_to_le. cbn [length].
    pose proof (length_piece_bytes 0 (g_cells s)). lia.
Qed.

(** The fixed part of a payload, 48 bytes. *)
Definition seg_head (s : Seg) (index count : N) : list N :=
  encode_chunk_header m base (g_row s) (vlen (g_lines s)) index count (vlen (g_cells s))
  ++ to_le 4 (vlen (side_of (g_cells s))) ++ to_le 2 DISPLAY_SCHEMA_V2 ++ to_le 2 (g_col s).

Lemma seg_payload_head s index count :
  seg_payload s index count = seg_head s index count ++ piece_bytes 0 (g_cells s) ++ side_of (g_cells s) ∧
  vlen (seg_head s index count) = 48.
Proof.
  unfold seg_payload, seg_head. rewrite <-!(assoc_L (++)). split; [done|].
  by rewrite !length_app, length_chunk_header, !length_to_le.
Qed.

Lemma seg_fields s index count :
  vlen (side_of (g_cells s)) ≤ u32_max → g_col s ≤ u16_max →
  le_at (seg_payload s index count) 40 44 = Some (vlen (side_of (g_cells s))) ∧
  le_at (seg_payload s index count) 44 46 = Some DISPLAY_SCHEMA_V2 ∧
  le_at (seg_payload s index count) 46 48 = Some (g_col s) ∧
  vslice (seg_payload s index count) (48 + 16 * vlen (g_cells s)) (48 + 16 * vlen (g_cells s) + vlen (side_of (g_cells s)))
  = Some (side_of (g_cells s)).
Proof.
  intros Hs Hg. unfold u32_max, u16_max in *.
  assert (fits 4 (vlen (side_of (g_cells s)))) by (unfold fits; change (256 ^ N.of_nat 4) with 4294967296; lia).
  assert (fits 2 (g_col s)) by (unfold fits; change (256 ^ N.of_nat 2) with 65536; lia).
  assert (length (encode_chunk_header m base (g_row s) (vlen (g_lines s)) index count (vlen (g_cells s))) = 40%nat)
    by apply length_chunk_header.
  split_and!; [unfold seg_payload; wire_read; by rewrite from_le_to_le..|].
  destruct (seg_payload_head s index count) as [-> Hh]. rewrite (assoc_L (++)).
  assert (48 + 16 * vlen (g_cells s) = vlen (seg_head s index count ++ piece_bytes 0 (g_cells s))) as E.
  { rewrite length_app. pose proof (length_piece_bytes 0 (g_cells s)). lia. }
  rewrite vslice_shift0 by done. by eapply vslice_all.
Qed.

Lemma decode_payload_reduces s index count :
  seg_ok (me_columns m) s → seg_fits (g_cells s) →
  g_row s + vlen (g_lines s) ≤ me_rows m → g_col s < me_columns m → index < count → count ≤ u16_max →
  decode_payload_v2 kind (seg_payload s index count) =
    (let? res := decode_cells_v2 (seg_head s index count ++ piece_bytes 0 (g_cells s) ++ side_of (g_cells s))
                   (side_of (g_cells s)) (cell_place (g_row s) (vlen (g_lines s)) (g_col s) (me_columns m)) (me_columns m)
                   (length (g_cells s)) 0 0 None in
     if bool_decide (is_Some res.2.2) || negb (res.2.1 =? vlen (side_of (g_cells s))) then err DE_InvalidSidecar
     else ok (seg_chunk s index count res.1)).
Proof using Hgeo Hgen Hbase Hkind.
  intros Hok [Hside Hfit] Hrow Hcol Hi Hn. destruct (geometry_bounds _ _ _ _ Hgeo) as (H1 & H2 & H3 & H4 & H5 & H6).
  destruct (seg_span _ _ Hok H3 H4) as (Hl1 & Hn1 & Hspan); [lia|].
  unfold max_chunk_payload, MAX_FRAME_PAYLOAD, PREFIX_LEN, MAX_GRAPHEME_SIDECAR_BYTES, u16_max in *.
  destruct (seg_fields s index count) as (Hf1 & Hf2 & Hf3 & Hf4); [unfold u32_max; lia|unfold u16_max; lia|].
  destruct (seg_payload_head s index count) as [Hp Hh].
  assert (vlen (seg_payload s index count) = 48 + 16 * vlen (g_cells s) + vlen (side_of (g_cells s))) as Hpl.
  { rewrite Hp, !length_app. pose proof (length_piece_bytes 0 (g_cells s)). lia. }
  unfold decode_payload_v2. rewrite Hpl. unfold DISPLAY_CHUNK_HEADER_V2_LEN, MAX_FRAME_PAYLOAD, MAX_GRAPHEME_SIDECAR_BYTES.
  rewrite !(proj2 (N.ltb_ge _ _)) by lia. unfold seg_payload at 1.
  rewrite read_header_back by (unfold u16_max, u32_max; lia). cbn [try_ ok].
  rewrite Hf1, Hf2, Hf3. cbn [mbind option_bind ch_rows ch_columns ch_cursor_row ch_cursor_col ch_base_generation ch_cell_count ch_row_count ch_first_row].
  rewrite N.eqb_refl, Hgeo. cbn [negb try_ ok].
  assert (bool_decide (kind = DK_Snapshot) && negb (base =? 0) = false) as ->.
  { case_bool_decide; [|done]. by rewrite (Hkind ltac:(done)). }
  unfold header_bad. cbn [ch_rows ch_columns ch_cell_count ch_row_count ch_first_row ch_chunk_index ch_chunk_count].
  rewrite !(proj2 (N.eqb_neq _ 0)), !(proj2 (N.leb_gt _ _)), (proj2 (N.ltb_ge _ (g_row s + _))) by lia. cbn [orb].
  rewrite (proj2 (N.ltb_ge _ _)) by lia. rewrite Hspan. cbn [try_ ok].
  unfold DISPLAY_CELL_LEN. rewrite checked_mul_ok by (unfold usize_max, u64_max; lia). cbn [ok_or ok try_].
  rewrite !checked_add_ok by (unfold usize_max, u64_max; lia). cbn [mbind option_bind ok_or ok try_].
  rewrite checked_add_ok by (unfold usize_max, u64_max; lia). cbn [ok_or ok try_].
  rewrite (N.mul_comm (vlen (g_cells s)) 16), N.eqb_refl, Hf4, Nat2N.id. cbn [negb mbind option_bind]. by rewrite Hp.
Qed.

Lemma decode_chunk_spec s index count :
  seg_ok (me_columns m) s → Forall encodable (g_cells s) → seg_fits (g_cells s) →
  g_row s + vlen (g_lines s) ≤ me_rows m → g_col s < me_columns m → index < count → count ≤ u16_max →
  match show_lines (g_lines s) with
  | Some ds => decode_payload_v2 kind (seg_payload s index count) = ok (seg_chunk s index count ds)
  | None => refused (decode_payload_v2 kind (seg_payload s index count))
  end.
Proof using Hgeo Hgen Hbase Hkind.
  intros Hok Hc Hfit Hrow Hcol Hi Hn. rewrite decode_payload_reduces by done.
  destruct (geometry_bounds _ _ _ _ Hgeo) as (H1 & H2 & H3 & H4 & H5 & H6). destruct Hfit as [Hside _].
  unfold MAX_GRAPHEME_SIDECAR_BYTES, u16_max in *.
  apply (decode_seg_spec (me_columns m) s (seg_head s index count) (seg_chunk s index count)); unfold u16_max; done || lia.
Qed.
End chunk.
