(* ===== verification/DisplayPlan.v ===== *)
(** The plan of spans: it tiles the rows of a projection with segments that fit a frame, and
    cuts a row only where no continuation is due. *)

From S2P Require Import Prelude Utf8 Types Projection Wire WirePane WireText WireMessage Display DisplayEncode DisplayCells.

Implicit Types (cells piece : list ProjectionCell) (c : ProjectionCell).

(** * Sidecars *)

Lemma cell_side_length c : encodable c → vlen (cell_side c) ≤ MAX_GRAPHEME_UTF8_BYTES.
Proof.
  intros (_ & _ & Hc). unfold cell_side. destruct (side_flag c) eqn:Hf; [|done].
  rewrite (side_flag_lead c Hf) in Hc. by destruct Hc as (_ & ? & _).
Qed.

Lemma side_of_length cells : Forall encodable cells → vlen (side_of cells) ≤ MAX_GRAPHEME_UTF8_BYTES * vlen cells.
Proof.
  unfold MAX_GRAPHEME_UTF8_BYTES. induction 1 as [|c cells Hc _ IH]; [done|].
  change (side_of (c :: cells)) with (cell_side c ++ side_of cells). rewrite length_app. cbn [length].
  pose proof (cell_side_length c Hc). unfold MAX_GRAPHEME_UTF8_BYTES in *. lia.
Qed.

Lemma sidecar_bytes_loop_ok cells total :
  Forall encodable cells → total + vlen (side_of cells) ≤ usize_max →
  sidecar_bytes_loop cells total = ok (total + vlen (side_of cells)).
Proof.
  intros Hc. revert total. induction Hc as [|c cells Hc _ IH]; intros total Ht; cbn [sidecar_bytes_loop].
  { by rewrite N.add_0_r. }
  change (side_of (c :: cells)) with (cell_side c ++ side_of cells) in *. rewrite length_app in *.
  assert ((if bool_decide (pj_role c = Lead) then needs_sidecar c else ok false) = ok (side_flag c)) as ->.
  { case_bool_decide as Hr; [by apply needs_sidecar_ok|]. unfold side_flag. by destruct (pj_role c). }
  cbn [try_ ok]. unfold cell_side in *. destruct (side_flag c).
  - rewrite checked_add_ok by lia. cbn [ok_or ok try_]. rewrite IH by lia. unfold ok. do 2 f_equal. lia.
  - cbn [try_ ok]. rewrite IH by (cbn in Ht; lia). done.
Qed.

Lemma sidecar_bytes_ok cells :
  Forall encodable cells → vlen cells ≤ MAX_DISPLAY_CELLS →
  sidecar_bytes_for_cells cells = ok (vlen (side_of cells)).
Proof.
  intros Hc Hl. unfold sidecar_bytes_for_cells. rewrite sidecar_bytes_loop_ok; [done..|].
  pose proof (side_of_length cells Hc). unfold MAX_GRAPHEME_UTF8_BYTES, MAX_DISPLAY_CELLS, usize_max, u64_max in *. lia.
Qed.

Lemma chunk_payload_len_ok n side :
  n ≤ MAX_DISPLAY_CELLS → side ≤ 2 * MAX_GRAPHEME_UTF8_BYTES * MAX_DISPLAY_CELLS →
  chunk_payload_len n side = ok (48 + 16 * n + side).
Proof.
  intros Hn Hs. unfold chunk_payload_len, DISPLAY_CELL_LEN, DISPLAY_CHUNK_HEADER_V2_LEN, MAX_DISPLAY_CELLS, MAX_GRAPHEME_UTF8_BYTES in *.
  rewrite checked_mul_ok by (unfold usize_max, u64_max; lia). cbn [mbind option_bind].
  rewrite checked_add_ok by (unfold usize_max, u64_max; lia). cbn [mbind option_bind].
  rewrite checked_add_ok by (unfold usize_max, u64_max; lia). cbn [ok_or]. unfold ok. do 2 f_equal. lia.
Qed.

Lemma chunk_full_fits cells :
  chunk_full (vlen (side_of cells)) (48 + 16 * vlen cells + vlen (side_of cells)) = false ↔ seg_fits cells.
Proof. unfold chunk_full, seg_fits. rewrite orb_false_iff, !N.ltb_ge. done. Qed.

Lemma vget_middle x c y : vget (x ++ c :: y) (vlen x) = Some c.
Proof. rewrite <- (N.add_0_r (vlen x)), vget_shift by done. apply vget_head. Qed.

Lemma vslice_middle {A} (x y z : list A) : vslice (x ++ y ++ z) (vlen x) (vlen x + vlen y) = Some y.
Proof. rewrite vslice_shift0 by done. by apply (vslice_head y z _ (length y)). Qed.

(** * Whole rows *)

Section plan.
Context (columns : N).
Hypothesis Hcol : 1 ≤ columns ∧ columns ≤ 512.

(** The cells of lines [row] to [row + n]. *)
Definition lines_at (lines : list (list ProjectionCell)) (row n : N) : list (list ProjectionCell) :=
  take (N.to_nat n) (drop (N.to_nat row) lines).

Lemma lines_at_S lines row n :
  row + n < vlen lines → ∃ l, vget lines (row + n) = Some l ∧ lines_at lines row (n + 1) = lines_at lines row n ++ [l].
Proof.
  intros Hn. destruct (vget_Some lines (row + n) Hn) as [l Hl]. exists l. split; [done|]. unfold lines_at, vget in *.
  replace (N.to_nat (n + 1)) with (S (N.to_nat n)) by lia. apply take_S_r. rewrite lookup_drop, <-Hl. f_equal. lia.
Qed.

Lemma lines_at_ok (P : list ProjectionCell → Prop) lines row n : Forall P lines → Forall P (lines_at lines row n).
Proof. intros H. by apply Forall_take, Forall_drop. Qed.

Lemma vlen_lines_at lines row n : row + n ≤ vlen lines → vlen (lines_at lines row n) = n.
Proof. intros H. unfold lines_at. rewrite length_take, length_drop. lia. Qed.

Lemma vslice_line (lines : list (list ProjectionCell)) k l :
  Forall (λ l, vlen l = columns) lines → vget lines k = Some l →
  vslice (concat lines) (k * columns) ((k + 1) * columns) = Some l.
Proof.
  intros Hlen Hk. unfold vget in Hk. apply list_elem_of_split_length in Hk as (a & b & -> & Ha).
  apply Forall_app in Hlen as [Hla [Hl _]%Forall_cons]. rewrite concat_app. cbn [concat].
  pose proof (vlen_concat_lines a columns Hla) as E. assert (k * columns = vlen (concat a)) as -> by nia.
  replace ((k + 1) * columns) with (vlen (concat a) + columns) by nia.
  rewrite vslice_shift0 by done. by eapply vslice_head.
Qed.

Lemma take_rows_spec fuel lines row taken :
  Forall (Forall encodable) lines → Forall (λ l, vlen l = columns) lines → vlen lines ≤ 256 →
  row + taken + N.of_nat fuel = vlen lines → seg_fits (concat (lines_at lines row taken)) →
  ∃ k, take_rows fuel columns (concat lines) row taken (vlen (side_of (concat (lines_at lines row taken)))) = ok k ∧
    taken ≤ k ∧ row + k ≤ vlen lines ∧ seg_fits (concat (lines_at lines row k)).
Proof.
  intros Hc Hlen Hn. revert taken. induction fuel as [|fuel IH]; intros taken Hf Hfit; cbn [take_rows].
  { exists taken. split_and!; [done|lia|lia|done]. }
  destruct (lines_at_S lines row taken) as (l & Hl & Hls); [lia|].
  rewrite (vslice_line _ _ _ Hlen Hl). cbn [mbind option_bind].
  assert (Forall encodable l ∧ vlen l = columns) as [Hcl Hll].
  { unfold vget in Hl. split; [by eapply (Forall_lookup_1 (Forall encodable))|by eapply (Forall_lookup_1 (λ l, vlen l = columns))]. }
  rewrite sidecar_bytes_ok by (done || unfold MAX_DISPLAY_CELLS; lia). cbn [try_ ok].
  assert (vlen (side_of (concat (lines_at lines row (taken + 1)))) = vlen (side_of (concat (lines_at lines row taken))) + vlen (side_of l)) as Hs.
  { rewrite Hls, concat_app, side_of_app, length_app. cbn [concat]. rewrite app_nil_r. lia. }
  assert (vlen (concat (lines_at lines row (taken + 1))) = (taken + 1) * columns) as Hv.
  { rewrite (vlen_concat_lines _ columns) by (by apply lines_at_ok). rewrite vlen_lines_at; lia. }
  pose proof (side_of_length l Hcl). destruct Hfit as [Hfs Hfp].
  unfold MAX_GRAPHEME_SIDECAR_BYTES, MAX_GRAPHEME_UTF8_BYTES in *.
  rewrite checked_add_ok by (unfold usize_max, u64_max; lia). cbn [ok_or ok try_]. rewrite checked_mul_ok by (unfold usize_max, u64_max; nia).
  cbn [ok_or ok try_]. rewrite chunk_payload_len_ok by (unfold MAX_DISPLAY_CELLS, MAX_GRAPHEME_UTF8_BYTES; nia). cbn [try_ ok]. rewrite <-Hs, <-Hv.
  destruct (chunk_full _ _) eqn:Hfull.
  - exists taken. split_and!; [done|lia|lia|done].
  - apply chunk_full_fits in Hfull. destruct (IH (taken + 1)) as (k & Hk & ? & ? & ?); [lia|done|].
    exists k. split_and!; [done|lia|done|done].
Qed.

(** * Cutting a row *)

(** At a cut no continuation is due, or the row cannot be shown at all. *)
Definition cut_ok cells : Prop := (∃ d, show None cells = Some (d, None)) ∨ show None cells = None.

Lemma cut_ok_app a b : cut_ok a → cut_ok b → cut_ok (a ++ b).
Proof.
  intros [[d Ha]|Ha] Hb; [|right; by rewrite show_app, Ha]. unfold cut_ok. rewrite show_app, Ha. cbn.
  destruct Hb as [[d' ->]| ->]; cbn; [left; by eexists|by right].
Qed.

Lemma show_prefix_None a b : show None a = None → show_line (a ++ b) = None.
Proof. intros H. unfold show_line. by rewrite show_app, H. Qed.

(** What follows a cut decides. *)
Lemma show_line_after a b : cut_ok a → show_line b = None → show_line (a ++ b) = None.
Proof.
  intros [[d Ha]|Ha] Hb; [|by apply show_prefix_None]. unfold show_line in *. rewrite show_app, Ha. cbn.
  destruct (show None b) as [[d' [p|]]|]; done.
Qed.

Lemma chunk_full_long u unit :
  Forall encodable u → seg_fits u → vlen (side_of unit) ≤ MAX_GRAPHEME_UTF8_BYTES → vlen (u ++ unit) ≤ columns →
  chunk_full (vlen (side_of (u ++ unit))) (48 + 16 * vlen (u ++ unit) + vlen (side_of (u ++ unit))) = true → 8 ≤ vlen u.
Proof.
  intros Hu [Hs Hp] Hun Hlen. unfold chunk_full, max_chunk_payload, MAX_FRAME_PAYLOAD, PREFIX_LEN.
  rewrite side_of_app, length_app. pose proof (side_of_length u Hu).
  unfold MAX_GRAPHEME_UTF8_BYTES, MAX_GRAPHEME_SIDECAR_BYTES in *. rewrite orb_true_iff, !N.ltb_lt. lia.
Qed.

(** The unit at the head of a row: one cell, or a wide lead with its continuation. *)
Definition unit_end_of (l : list ProjectionCell) (end_ : N) c : D N :=
  if bool_decide (pj_role c = Lead) && (pj_width c =? 2) then
    if columns <=? end_ + 1 then err DE_InvalidCell else
    next ← vget l (end_ + 1);
    if negb (bool_decide (pj_role next = Continuation)) then err DE_InvalidCell else ok (end_ + 2)
  else ok (end_ + 1).

Lemma unit_end_spec x c b :
  encodable c → vlen (x ++ c :: b) = columns →
  (∃ unit b', c :: b = unit ++ b' ∧ unit_end_of (x ++ c :: b) (vlen x) c = ok (vlen x + vlen unit) ∧ unit ≠ [] ∧
     cut_ok unit ∧ (Forall encodable unit → vlen (side_of unit) ≤ MAX_GRAPHEME_UTF8_BYTES)) ∨
  (refused (unit_end_of (x ++ c :: b) (vlen x) c) ∧ show_line (c :: b) = None).
Proof.
  intros Hc Hlen. unfold unit_end_of. destruct (bool_decide (pj_role c = Lead) && (pj_width c =? 2)) eqn:Hw.
  - apply andb_true_iff in Hw as [Hr%bool_decide_eq_true_1 Hw].
    assert (show None [c] = Some ([mkDisplayCell (pj_scalar c) DR_Lead (pj_width c) (pj_text c) (side_flag c)
        (proj_color (pj_foreground c)) (proj_color (pj_background c)) (display_attributes (pj_attributes c))], Some (style_of c))) as Hs.
    { cbn. unfold show_cell. by rewrite Hr, Hw. }
    rewrite length_app in Hlen. cbn [length] in Hlen. destruct b as [|c2 b].
    { right. rewrite (proj2 (N.leb_le _ _)) by (cbn [length] in Hlen; lia). split; [by eexists|]. unfold show_line. by rewrite Hs. }
    rewrite (proj2 (N.leb_gt _ _)) by (cbn [length] in Hlen; lia). rewrite vget_shift by done. cbn [vget mbind option_bind].
    change (vget (c :: c2 :: b) 1) with (Some c2). cbn [mbind option_bind].
    assert (∀ rest, show None (c :: c2 :: rest) = (d ← show_cell (Some (style_of c)) c2; y ← show d.2 rest;
      Some (mkDisplayCell (pj_scalar c) DR_Lead (pj_width c) (pj_text c) (side_flag c)
        (proj_color (pj_foreground c)) (proj_color (pj_background c)) (display_attributes (pj_attributes c)) :: d.1 :: y.1, y.2))) as Hs2.
    { intros rest. change (c :: c2 :: rest) with ([c] ++ c2 :: rest). rewrite show_app, Hs. cbn [mbind option_bind fst snd show].
      destruct (show_cell _ c2) as [[? ?]|]; cbn; [|done]. by destruct (show _ rest) as [[? ?]|]. }
    case_bool_decide as H2; cbn [negb].
    + left. exists [c; c2], b. split_and!; [done|done|done|..].
      * left. rewrite Hs2. unfold show_cell. rewrite H2. cbn. by eexists.
      * intros [H1 [H2' _]%Forall_cons]%Forall_cons. pose proof (cell_side_length c H1).
        unfold side_of. cbn. rewrite app_nil_r. replace (cell_side c2) with (@nil N) by (unfold cell_side, side_flag; by rewrite H2). by rewrite app_nil_r.
    + right. split; [by eexists|]. unfold show_line. rewrite Hs2. unfold show_cell, style_of. by destruct (pj_role c2).
  - left. exists [c], b. split_and!; [done|done|done|..].
    + unfold cut_ok. cbn. unfold show_cell. destruct (pj_role c) eqn:Hr; cbn; [left; by eexists| |by right].
      rewrite bool_decide_eq_true_2 in Hw by done. cbn [andb] in Hw. rewrite Hw. left. by eexists.
    + intros H1%Forall_singleton. unfold side_of. cbn. rewrite app_nil_r. by apply cell_side_length.
Qed.

Lemma take_units_S fuel l col end_ side :
  take_units (S fuel) columns l col end_ side =
  if columns <=? end_ then ok end_ else
    c ← vget l end_;
    if (col <? end_) && bool_decide (pj_role c = Continuation) then ok end_ else
    let? unit_end := unit_end_of l end_ c in
    unit_cells ← vslice l end_ unit_end;
    let? unit_sidecar := sidecar_bytes_for_cells unit_cells in
    let? next_sidecar := ok_or DE_Overflow (checked_add usize_max side unit_sidecar) in
    let? payload := chunk_payload_len (unit_end - col) next_sidecar in
    if chunk_full next_sidecar payload then ok end_
    else take_units fuel columns l col unit_end next_sidecar.
Proof. done. Qed.

(** What one search for a span promises: the units taken, [v], make [u ++ v] a span that fits,
    cut where no continuation is due; a span that stops before the end of a row the client
    can show has at least eight cells. *)
Definition units_taken (a u b : list ProjectionCell) (r : result DisplayError N) : Prop :=
  match r with
  | Err _ => show_line (u ++ b) = None
  | Ok e => ∃ v b', b = v ++ b' ∧ e = vlen a + vlen (u ++ v) ∧ seg_fits (u ++ v) ∧ cut_ok (u ++ v) ∧
      (b' = [] ∨ 8 ≤ vlen (u ++ v) ∨ show_line (u ++ b) = None) ∧ (u = [] → b ≠ [] → v ≠ [])
  end.

Lemma units_taken_none a u b :
  seg_fits u → cut_ok u → (u = [] → b = []) → b = [] ∨ 8 ≤ vlen u ∨ show_line (u ++ b) = None →
  units_taken a u b (Ok (vlen a + vlen u)).
Proof.
  intros Hf Hc Hu Hb. exists [], b. rewrite !app_nil_r. split_and!; try done. intros -> Hn. by destruct Hn, Hu.
Qed.

Lemma units_taken_step a u unit b r : unit ≠ [] → units_taken a (u ++ unit) b r → units_taken a u (unit ++ b) r.
Proof.
  intros Hne. unfold units_taken. destruct r as [e|e]; rewrite <- app_assoc; [|done].
  intros (v & b' & -> & -> & Hf & Hc & Hl & _). exists (unit ++ v), b'. rewrite !(app_assoc u) in *.
  split_and!; try done; [by rewrite app_assoc|]. intros _ _ Hn. by destruct unit.
Qed.

Lemma take_units_spec fuel a u b :
  vlen (a ++ u ++ b) = columns → Forall encodable (u ++ b) → (length b < fuel)%nat → seg_fits u → cut_ok u →
  ∃ r, take_units fuel columns (a ++ u ++ b) (vlen a) (vlen a + vlen u) (vlen (side_of u)) = Some r ∧ units_taken a u b r.
Proof.
  revert u b. induction fuel as [|fuel IH]; [lia|]. intros u b Hlen Henc Hfuel Hf Hc. rewrite take_units_S.
  pose proof Hlen as Hlen'. rewrite !length_app in Hlen'. destruct b as [|c b].
  { rewrite (proj2 (N.leb_le _ _)) by (cbn [length] in Hlen'; lia). eexists. split; [done|].
    apply units_taken_none; auto. }
  cbn [length] in Hlen'. rewrite (proj2 (N.leb_gt _ _)) by lia.
  assert (vlen a + vlen u = vlen (a ++ u)) as Heq by (rewrite length_app; lia).
  rewrite Heq, app_assoc. rewrite vget_middle. cbn [mbind option_bind].
  pose proof (proj1 (Forall_app _ _ _) Henc) as [Hu Hcb]. pose proof (Forall_inv Hcb) as Hce.
  destruct ((vlen a <? vlen (a ++ u)) && bool_decide (pj_role c = Continuation)) eqn:Hcont.
  { apply andb_true_iff in Hcont as [Hlt Hr%bool_decide_eq_true_1]. eexists. split; [done|]. rewrite <- Heq.
    apply units_taken_none; auto; [intros ->; rewrite app_nil_r, N.ltb_irrefl in Hlt; done|].
    right; right. apply show_line_after; [done|]. unfold show_line. cbn. unfold show_cell. by rewrite Hr. }
  destruct (unit_end_spec (a ++ u) c b Hce) as [(unit & b' & Hb & -> & Hne & Hcu & Hsu)|[[e ->] Hs]];
    [by rewrite <- app_assoc| |by eexists; split; [done|apply show_line_after]].
  cbn [try_ ok]. rewrite Hb, vslice_middle. cbn [mbind option_bind]. rewrite Hb in Hcb, Henc.
  pose proof (proj1 (Forall_app _ _ _) Hcb) as [Hunit _]. specialize (Hsu Hunit).
  assert (vlen (u ++ unit) ≤ columns) as Hul. { apply (f_equal length) in Hb. rewrite !length_app in *. cbn [length] in Hb. lia. }
  assert (vlen unit ≤ columns) as Hun by (rewrite length_app in Hul; lia).
  assert (vlen (side_of u) ≤ MAX_GRAPHEME_SIDECAR_BYTES) as Hsu' by apply Hf.
  unfold MAX_GRAPHEME_UTF8_BYTES, MAX_GRAPHEME_SIDECAR_BYTES in *.
  rewrite sidecar_bytes_ok by (try done; unfold MAX_DISPLAY_CELLS; lia). cbn [try_ ok].
  rewrite checked_add_ok by (unfold usize_max, u64_max; lia). cbn [ok_or try_ ok].
  replace (vlen (side_of u) + vlen (side_of unit)) with (vlen (side_of (u ++ unit))) by (rewrite side_of_app, length_app; lia).
  replace (vlen (a ++ u) + vlen unit - vlen a) with (vlen (u ++ unit)) by (rewrite !length_app; lia).
  rewrite chunk_payload_len_ok; unfold MAX_DISPLAY_CELLS, MAX_GRAPHEME_UTF8_BYTES in *; [|lia|rewrite side_of_app, length_app; lia].
  cbn [try_ ok]. destruct (chunk_full _ _) eqn:Hfull.
  - pose proof (chunk_full_long u unit Hu Hf Hsu Hul Hfull). eexists. split; [done|]. rewrite <- Heq, <- Hb.
    apply units_taken_none; auto. intros ->. cbn in *. lia.
  - apply chunk_full_fits in Hfull. rewrite <- app_assoc, (app_assoc u), (length_app a), <- Nat2N.inj_add.
    destruct (IH (u ++ unit) b') as (r & Hr & Ht).
    + rewrite <- app_assoc, <- Hb. done.
    + by rewrite <- app_assoc.
    + apply (f_equal length) in Hb. rewrite length_app in Hb. cbn [length] in *. destruct unit; [done|cbn [length] in *; lia].
    + done.
    + by apply cut_ok_app.
    + exists r. split.
      { rewrite <- Hr. f_equal. rewrite !length_app. lia. }
      by apply units_taken_step.
Qed.

(** The pieces of one row, and the segments of a plan: each starts where the one before it
    ended. *)
Fixpoint row_segs (row col : N) (pieces : list (list ProjectionCell)) : list Seg :=
  match pieces with
  | [] => []
  | p :: pieces => mkSeg row col [p] :: row_segs row (col + vlen p) pieces
  end.

Definition span_of (s : Seg) : SpanPlan :=
  mkSpan (g_row s) (g_col s) (vlen (g_lines s)) (g_row s * columns + g_col s) (vlen (g_cells s)).

Fixpoint tiled (pos : N) (segs : list Seg) : Prop :=
  match segs with
  | [] => True
  | s :: segs => g_row s * columns + g_col s = pos ∧ g_col s < columns ∧ seg_ok columns s ∧ seg_fits (g_cells s) ∧
      tiled (pos + vlen (g_cells s)) segs
  end.

Lemma tiled_app pos a b : tiled pos a → tiled (pos + vlen (a ≫= g_cells)) b → tiled pos (a ++ b).
Proof.
  revert pos. induction a as [|s a IH]; intros pos; cbn [tiled app mbind list_bind]; [by rewrite N.add_0_r|].
  intros (? & ? & ? & ? & Ha) Hb. split_and!; auto. apply IH; [done|]. by rewrite length_app, Nat2N.inj_add, N.add_assoc in Hb.
Qed.

Lemma row_segs_lines row col pieces : row_segs row col pieces ≫= g_lines = pieces.
Proof. revert col. induction pieces as [|p pieces IH]; intros col; cbn; [done|]. by rewrite IH. Qed.

Lemma concat_segs (segs : list Seg) : segs ≫= g_cells = concat (segs ≫= g_lines).
Proof. induction segs as [|s segs IH]; cbn; [done|]. by rewrite concat_app, IH. Qed.

Lemma row_segs_tiled row col pieces :
  Forall (λ p, p ≠ [] ∧ seg_fits p) pieces → col + vlen (concat pieces) ≤ columns →
  tiled (row * columns + col) (row_segs row col pieces).
Proof.
  intros H. revert col. induction H as [|p pieces [Hp Hf] _ IH]; intros col; cbn [row_segs tiled concat]; [done|].
  rewrite length_app. intros Hc. assert (0 < vlen p) by (destruct p; cbn [length]; [done|lia]).
  unfold g_cells; cbn [g_row g_col g_lines concat]. rewrite app_nil_r. split_and!; [done|lia| |done|].
  - right. exists p. split_and!; [done..|cbn; lia].
  - rewrite <- N.add_assoc. apply IH. lia.
Qed.

(** A cut splits what the client shows. *)
Lemma show_line_cut a b : cut_ok a → show_line (a ++ b) = (x ← show_line a; y ← show_line b; Some (x ++ y)).
Proof.
  unfold show_line. rewrite show_app. intros [[d ->]| ->]; cbn; [|done]. by destruct (show None b) as [[? [?|]]|].
Qed.

Definition row_cut (row : N) (a b : list ProjectionCell) (r : result DisplayError (list SpanPlan)) : Prop :=
  match r with
  | Err _ => show_line b = None
  | Ok spans => ∃ pieces, spans = span_of <$> row_segs row (vlen a) pieces ∧ concat pieces = b ∧
      Forall (λ p, p ≠ [] ∧ seg_fits p) pieces ∧ show_line b = show_lines pieces ∧
      (is_Some (show_line b) → 8 * vlen pieces ≤ vlen b + 7)
  end.

Lemma cut_row_spec fuel row (a b : list ProjectionCell) :
  vlen (a ++ b) = columns → Forall encodable b → (length b < fuel)%nat → row < 256 →
  ∃ r, cut_row fuel columns (a ++ b) row (vlen a) = Some r ∧ row_cut row a b r.
Proof.
  revert a b. induction fuel as [|fuel IH]; [lia|]. intros a b Hlen Henc Hfuel Hrow. cbn [cut_row].
  pose proof Hlen as Hlen'. rewrite length_app in Hlen'. destruct b as [|c b'] eqn:Eb.
  { rewrite (proj2 (N.leb_le _ _)) by (cbn [length] in Hlen'; lia). eexists. split; [done|]. by exists []. }
  assert (b ≠ []) as Hne by congruence. rewrite <- Eb in *. clear Eb c b'.
  assert (0 < vlen b) by (destruct b; cbn [length]; [done|lia]). rewrite (proj2 (N.leb_gt _ _)) by lia.
  destruct (take_units_spec (S (N.to_nat columns)) a [] b) as (r & Hr & Ht);
    [done|done|lia|done|left; by eexists|]. cbn [app length] in Hr, Ht. rewrite N.add_0_r in Hr.
  change (vlen (side_of [])) with 0 in Hr. rewrite Hr.
  destruct r as [e|e]; cbn [try_]; [|eexists; by split]. destruct Ht as (v & b' & Hb & He & Hf & Hc & H8 & Hv).
  specialize (Hv eq_refl Hne). cbn [app] in *. assert (0 < vlen v) by (destruct v; cbn [length]; [done|lia]).
  rewrite (proj2 (N.eqb_neq _ _)) by lia. subst b e. apply Forall_app in Henc as [_ Henc]. rewrite length_app in Hlen', Hfuel.
  destruct (IH (a ++ v) b') as (r & Hr' & Ht); [by rewrite <- app_assoc|done|lia|done|].
  rewrite <- app_assoc, length_app, Nat2N.inj_add in Hr'. rewrite Hr'.
  destruct r as [spans|e]; cbn [try_]; [|eexists; split; [done|by apply show_line_after]].
  destruct Ht as (pieces & -> & Hcat & Hps & Hshow & Hcount). eexists. split; [done|]. exists (v :: pieces).
  split_and!.
  - cbn [row_segs fmap list_fmap]. rewrite length_app, Nat2N.inj_add. unfold span_of at 2, g_cells. cbn [g_row g_col g_lines length concat].
    rewrite app_nil_r, !N.mod_small by lia. do 2 f_equal. lia.
  - cbn. by rewrite Hcat.
  - by constructor.
  - cbn [show_lines]. by rewrite show_line_cut, Hshow.
  - rewrite show_line_cut, Hshow in * by done. intros Hs. cbn [length].
    destruct (show_line v) as [x|]; [|by destruct Hs]. destruct (show_lines pieces) as [y|] eqn:Hy; [|by destruct Hs].
    specialize (Hcount (ltac:(done))). rewrite length_app. destruct H8 as [-> |[?|?]]; [|lia|done].
    destruct pieces as [|p pieces]; [cbn [length]; lia|]. apply Forall_cons in Hps as [[Hp _] _]. by destruct p.
Qed.

(** * The plan *)

Definition planned (row : N) rest (r : result DisplayError (list SpanPlan)) : Prop :=
  match r with
  | Err _ => show_lines rest = None
  | Ok spans => ∃ segs, spans = span_of <$> segs ∧ tiled (row * columns) segs ∧ segs ≫= g_cells = concat rest ∧
      show_lines rest = show_lines (segs ≫= g_lines) ∧ (is_Some (show_lines rest) → vlen segs ≤ 64 * vlen rest)
  end.

Lemma planned_app row (t rest : list (list ProjectionCell)) segs r :
  tiled (row * columns) segs → segs ≫= g_cells = concat t → Forall (λ l, vlen l = columns) t →
  show_lines t = show_lines (segs ≫= g_lines) → (is_Some (show_lines t) → vlen segs ≤ 64 * vlen t) →
  planned (row + vlen t) rest r →
  planned row (t ++ rest) match r with Ok spans => Ok ((span_of <$> segs) ++ spans) | Err e => Err e end.
Proof.
  intros Hti Hcat Hlen Hshow Hcount. unfold planned. destruct r as [spans|e]; rewrite show_lines_app.
  - intros (segs' & -> & Hti' & Hcat' & Hshow' & Hcount'). exists (segs ++ segs'). rewrite fmap_app, !bind_app, concat_app, show_lines_app.
    split_and!; [done| |by rewrite Hcat, Hcat'|by rewrite Hshow, Hshow'|].
    + apply tiled_app; [done|]. rewrite Hcat, (vlen_concat_lines _ columns) by done. by rewrite N.mul_add_distr_r in Hti'.
    + intros Hs. destruct (show_lines t); [|by destruct Hs]. destruct (show_lines rest); [|by destruct Hs].
      rewrite !length_app. specialize (Hcount ltac:(done)). specialize (Hcount' ltac:(done)). lia.
  - intros ->. by destruct (show_lines t).
Qed.

Lemma lines_at_rest before rest k : lines_at (before ++ rest) (vlen before) k = take (N.to_nat k) rest.
Proof. unfold lines_at. by rewrite Nat2N.id, drop_app_length. Qed.

(** The rows that go whole. *)
Lemma planned_rows row t rest r :
  t ≠ [] → seg_fits (concat t) → Forall (λ l, vlen l = columns) t → row + vlen t ≤ 256 → planned (row + vlen t) rest r →
  planned row (t ++ rest)
    match r with
    | Ok spans => Ok (mkSpan (row mod 65536) 0 (vlen t mod 65536) (row * columns) (vlen t * columns) :: spans)
    | Err e => Err e
    end.
Proof.
  intros Hne Hf Hlen Hrow Hp. assert (1 ≤ vlen t) by (destruct t; cbn [length]; [done|lia]).
  apply (planned_app row t rest [mkSeg row 0 t]) in Hp; try done.
  - destruct r as [spans|e]; [|done]. eapply eq_rect; [exact Hp|]. cbn. f_equal. unfold span_of. cbn [g_row g_col g_lines].
    rewrite !N.mod_small by lia. unfold g_cells. cbn [g_lines].
    rewrite (vlen_concat_lines _ columns) by done. by rewrite N.add_0_r.
  - cbn [tiled g_row g_col]. split_and!; [lia|lia| |done|done]. by left.
  - cbn. by rewrite app_nil_r.
  - cbn. by rewrite app_nil_r.
  - cbn [length]. lia.
Qed.

(** A row that goes in pieces. *)
Lemma planned_cut row l rest spans r :
  vlen l = columns → row < 256 → row_cut row [] l (Ok spans) → planned (row + 1) rest r →
  planned row (l :: rest) match r with Ok more => Ok (spans ++ more) | Err e => Err e end.
Proof.
  intros Hl Hrow (pieces & -> & Hcat & Hps & Hshow & Hcount) Hp.
  apply (planned_app row [l] rest (row_segs row 0 pieces)); try done.
  - pose proof (row_segs_tiled row 0 pieces Hps) as Ht. rewrite Hcat, N.add_0_r in Ht. apply Ht. lia.
  - rewrite concat_segs, row_segs_lines, Hcat. cbn. by rewrite app_nil_r.
  - by constructor.
  - rewrite row_segs_lines, <- Hshow. cbn. destruct (show_line l); cbn; [by rewrite app_nil_r|done].
  - cbn [show_lines length]. intros Hs. destruct (show_line l); [|by destruct Hs]. specialize (Hcount ltac:(done)).
    assert (length (row_segs row 0 pieces) = length pieces) as ->; [|lia].
    clear. generalize 0. induction pieces; intros; cbn; auto.
Qed.

Lemma plan_loop_spec fuel before rest :
  Forall (Forall encodable) (before ++ rest) → Forall (λ l, vlen l = columns) (before ++ rest) →
  vlen (before ++ rest) ≤ 256 → (length rest < fuel)%nat →
  ∃ r, plan_loop fuel columns (vlen (before ++ rest)) (concat (before ++ rest)) (vlen before) = Some r ∧
    planned (vlen before) rest r.
Proof.
  revert before rest. induction fuel as [|fuel IH]; [lia|]. intros before rest Hc Hlen Hn Hfuel. cbn [plan_loop].
  pose proof Hn as Hn'. rewrite length_app in Hn'. destruct rest as [|l rest].
  { rewrite (proj2 (N.leb_le _ _)) by (rewrite length_app; cbn [length]; lia). eexists. split; [done|]. by exists []. }
  set (lines := before ++ l :: rest) in *. assert (vlen lines = vlen before + 1 + vlen rest) as Hll
    by (unfold lines; rewrite length_app; cbn [length]; lia).
  rewrite (proj2 (N.leb_gt _ _)) by lia.
  destruct (take_rows_spec (N.to_nat (vlen lines - vlen before)) lines (vlen before) 0) as (k & Hk & _ & Hkn & Hfit); auto; [lia|done|].
  change (take_rows _ _ _ _ _ 0) with (take_rows (N.to_nat (vlen lines - vlen before)) columns (concat lines) (vlen before) 0 (vlen (side_of (concat (lines_at lines (vlen before) 0))))).
  rewrite Hk. cbn [try_ ok]. destruct (N.ltb_spec 0 k) as [Hpos|Hz].
  - unfold lines in Hfit. rewrite lines_at_rest in Hfit. set (t := take (N.to_nat k) (l :: rest)) in *.
    assert (vlen t = k) as Ht by (unfold t; rewrite length_take; cbn [length]; lia).
    assert (l :: rest = t ++ drop (N.to_nat k) (l :: rest)) as Heq by (symmetry; apply take_drop).
    assert (lines = (before ++ t) ++ drop (N.to_nat k) (l :: rest)) as Hl by (unfold lines; rewrite Heq at 1; apply app_assoc).
    destruct (IH (before ++ t) (drop (N.to_nat k) (l :: rest))) as (r & Hr & Hp); [by rewrite <- Hl..|rewrite length_drop; cbn [length] in *; lia|].
    rewrite <- Hl, length_app, Nat2N.inj_add, Ht in Hr. rewrite Hr.
    rewrite Heq. rewrite length_app, Nat2N.inj_add in Hp.
    eapply planned_rows in Hp; [| |exact Hfit| |]; [|intros ->; cbn in Ht; lia| |lia].
    + rewrite Ht in Hp. destruct r as [spans|e]; cbn [try_]; (eexists; split; [done|exact Hp]).
    + rewrite Hl in Hlen. by apply Forall_app in Hlen as [[_ ?]%Forall_app _].
  - assert (vget lines (vlen before) = Some l) as Hget.
    { unfold lines. rewrite <- (N.add_0_r (vlen before)), vget_shift by done. apply vget_head. }
    rewrite (vslice_line _ _ _ Hlen Hget). cbn [mbind option_bind].
    assert (vlen l = columns ∧ Forall encodable l) as [Hcl Hel].
    { unfold lines in Hlen, Hc. apply Forall_app in Hlen as [_ [? _]%Forall_cons]. by apply Forall_app in Hc as [_ [? _]%Forall_cons]. }
    destruct (cut_row_spec (S (N.to_nat columns)) (vlen before) [] l) as (r & Hr & Hcut); [done|done|lia|lia|].
    cbn [app length] in Hr. change (N.of_nat 0) with 0 in Hr. rewrite Hr. destruct r as [spans|e]; cbn [try_]; [|eexists; split; [done|cbn in *; by rewrite Hcut]].
    destruct (IH (before ++ [l]) rest) as (r & Hr' & Hp); [rewrite <- app_assoc; done..|cbn [length] in *; lia|].
    rewrite <- app_assoc in Hr'. change (before ++ [l] ++ rest) with lines in Hr'. rewrite length_app in Hr', Hp. cbn [length] in Hr', Hp.
    rewrite Nat2N.inj_add in Hr', Hp. change (N.of_nat 1) with 1 in *. rewrite Hr'. eapply planned_cut in Hp; [|done|lia|exact Hcut].
    destruct r as [more|e]; cbn [try_]; (eexists; split; [done|exact Hp]).
Qed.

(** The plan of the cells of whole rows. *)
Lemma plan_v2_spec lines :
  lines ≠ [] → Forall (Forall encodable) lines → Forall (λ l, vlen l = columns) lines → vlen lines ≤ 256 →
  ∃ r, plan_v2_spans columns (concat lines) = Some r ∧ planned 0 lines r ∧
    (∀ spans, r = Ok spans → spans ≠ []).
Proof.
  intros Hne Hc Hlen Hn. unfold plan_v2_spans. cbn [checked_sub ok_or try_].
  pose proof (vlen_concat_lines lines columns Hlen) as Hv. rewrite Hv.
  rewrite N.Div0.mod_mul. cbn [N.eqb negb]. rewrite N.div_mul by lia.
  destruct (plan_loop_spec (S (N.to_nat (vlen lines))) [] lines) as (r & Hr & Hp); [done|done|done|lia|].
  cbn [app length] in Hr, Hp. change (N.of_nat 0) with 0 in *.
  change (ok_or DE_Overflow (checked_sub MAX_FRAME_PAYLOAD PREFIX_LEN)) with (@ok DisplayError _ (MAX_FRAME_PAYLOAD - PREFIX_LEN)).
  cbn [try_ ok]. rewrite Hr. destruct r as [spans|e]; cbn [try_]; [|eexists; by split_and!].
  assert (spans ≠ []) as Hsp.
  { intros ->. destruct Hp as (segs & Hs & _ & Hcat & _). destruct segs; [|done]. cbn in Hcat. rewrite <- Hcat in Hv. cbn in Hv.
    destruct lines; [done|]. cbn [length] in Hv. nia. }
  rewrite bool_decide_eq_false_2 by (destruct spans; cbn [length]; [done|lia]). eexists. split_and!; [done|done|].
  by intros ? [= <-].
Qed.
End plan.
