(* ===== verification/DisplayApply.v ===== *)
(** Decoded segments on the client's grid: a plan that tiles a range of cells writes exactly the
    shown cells of that range. *)

From S2P Require Import Prelude Utf8 Types Projection Wire WirePane WireText WireMessage Display DisplayEncode DisplayCells DisplayPlan.

Implicit Types (x y z ds cells : list DisplayCell) (s : Seg) (segs : list Seg).

(** * Writing a range *)

Lemma vcopy_middle x y z ds : length y = length ds → vcopy_from (x ++ y ++ z) (vlen x) ds = Some (x ++ ds ++ z).
Proof.
  intros Hl. unfold vcopy_from. rewrite !length_app, (proj2 (N.leb_le _ _)) by lia. f_equal.
  rewrite Nat2N.id, take_app_length. do 2 f_equal. rewrite app_assoc, drop_app_length'; [done|]. rewrite length_app. lia.
Qed.

Lemma ifb_false {A} (b : bool) (t e : A) : b = false → (if b then t else e) = e.
Proof. by intros ->. Qed.

Section grid.
Context (columns : N).
Hypothesis Hcol : 1 ≤ columns ∧ columns ≤ 512.

Lemma write_rows_ok chunk n k done todo x y z :
  dk_cells chunk = done ++ todo → vlen done = k * columns → vlen todo = N.of_nat n * columns →
  length y = length todo → vlen x = (dk_first_row chunk + k) * columns → dk_first_row chunk + k + N.of_nat n ≤ 256 →
  write_span_rows columns chunk n k (vlen done) (x ++ y ++ z) = ok (x ++ todo ++ z).
Proof.
  revert k done todo x y. induction n as [|n IH]; intros k dn todo x y Hc Hd Ht Hy Hx Hb; cbn [write_span_rows].
  { assert (todo = []) as -> by (destruct todo; cbn [length] in Ht; [done|lia]). by destruct y. }
  assert (columns ≤ vlen todo) by lia.
  set (t := take (N.to_nat columns) todo). set (r := drop (N.to_nat columns) todo).
  assert (todo = t ++ r) as Htr by (symmetry; apply take_drop).
  assert (vlen t = columns) as Hlt by (unfold t; rewrite length_take; lia).
  set (y1 := take (N.to_nat columns) y). set (y2 := drop (N.to_nat columns) y).
  assert (y = y1 ++ y2) as Hyy by (symmetry; apply take_drop).
  assert (length y1 = length t ∧ length y2 = length r) as [Hl1 Hl2] by (unfold y1, y2, t, r; rewrite !length_take, !length_drop; lia).
  assert (vlen r = N.of_nat n * columns) by (unfold r; rewrite length_drop; lia).
  clearbody t r y1 y2. subst todo y.
  rewrite checked_add_ok by (unfold u16_max; lia). cbn [ok_or ok try_]. rewrite checked_mul_ok by (unfold usize_max, u64_max; nia). cbn [ok_or ok try_].
  rewrite checked_add_ok by (unfold usize_max, u64_max; nia). cbn [ok_or ok try_].
  rewrite Hc, !length_app in *. rewrite !(proj2 (N.ltb_ge _ _)) by lia. cbn [orb].
  rewrite <- Hlt at 1. rewrite vslice_middle. cbn [mbind option_bind]. rewrite <- Hx, <- (app_assoc y1), vcopy_middle by done.
  cbn [mbind option_bind]. replace (vlen dn + columns) with (vlen (dn ++ t)) by (rewrite length_app; lia).
  rewrite <- (app_assoc t), (app_assoc x). rewrite (app_assoc x t (r ++ z)).
  apply IH; rewrite ?length_app, ?Nat2N.inj_add; [by rewrite <- app_assoc|lia|lia|done|lia|lia].
Qed.

(** * The cursor *)

Lemma row_col (r c : N) : c < columns → (r * columns + c) / columns = r ∧ (r * columns + c) mod columns = c.
Proof.
  intros Hc. rewrite (N.add_comm (r * columns)). split.
  - rewrite N.div_add by lia. rewrite N.div_small by done. done.
  - rewrite N.Div0.mod_add. by apply N.mod_small.
Qed.

(** A segment goes either as one partial row or as whole rows. *)
Definition partial s : bool := (vlen (g_lines s) =? 1) && negb ((g_col s =? 0) && (vlen (g_cells s) =? columns)).
Definition seg_start s : N := g_row s * columns + g_col s.
Definition seg_end s : N := seg_start s + vlen (g_cells s).

Lemma seg_cases s :
  seg_ok columns s →
  if partial s then vlen (g_lines s) = 1 ∧ g_col s + vlen (g_cells s) ≤ columns
  else g_col s = 0 ∧ vlen (g_cells s) = vlen (g_lines s) * columns.
Proof.
  unfold partial, g_cells. intros [(Hne & Hg & Hlen)|(piece & -> & Hne & Hfit)].
  - rewrite (vlen_concat_lines _ _ Hlen), Hg. destruct (N.eqb_spec (vlen (g_lines s)) 1) as [-> |]; cbn [andb]; [|done].
    rewrite N.mul_1_l. cbn [N.eqb andb negb]. by rewrite N.eqb_refl.
  - cbn [length concat]. rewrite app_nil_r. change (N.of_nat 1) with 1. cbn [N.eqb Pos.eqb andb].
    destruct (N.eqb_spec (g_col s) 0); cbn [andb negb]; [|done].
    destruct (N.eqb_spec (vlen piece) columns) as [->|]; cbn [negb]; [by rewrite N.mul_1_l|done].
Qed.

(** Where the next segment starts. *)
Lemma seg_end_at s :
  seg_ok columns s →
  (seg_end s / columns, seg_end s mod columns) =
  if partial s then if g_col s + vlen (g_cells s) =? columns then (g_row s + 1, 0) else (g_row s, g_col s + vlen (g_cells s))
  else (g_row s + vlen (g_lines s), 0).
Proof.
  intros Hok. pose proof (seg_cases s Hok) as Hc. unfold seg_end, seg_start. destruct (partial s).
  - destruct Hc as [_ Hc]. destruct (N.eqb_spec (g_col s + vlen (g_cells s)) columns) as [He|He].
    + destruct (row_col (g_row s + 1) 0) as [H1 H2]; [lia|].
      replace (g_row s * columns + g_col s + vlen (g_cells s)) with ((g_row s + 1) * columns + 0) by lia. congruence.
    + destruct (row_col (g_row s) (g_col s + vlen (g_cells s))) as [H1 H2]; [lia|].
      rewrite <- N.add_assoc. congruence.
  - destruct Hc as [-> ->]. destruct (row_col (g_row s + vlen (g_lines s)) 0) as [H1 H2]; [lia|].
    replace (g_row s * columns + 0 + vlen (g_lines s) * columns) with ((g_row s + vlen (g_lines s)) * columns + 0) by lia. congruence.
Qed.

Definition chunk_of_seg s ds (chunk : DecodedDisplayChunk) : Prop :=
  dk_first_row chunk = g_row s ∧ dk_first_col chunk = g_col s ∧ dk_row_count chunk = vlen (g_lines s) ∧ dk_cells chunk = ds.

Lemma apply_span_ok s ds (chunk : DecodedDisplayChunk) (from_origin : bool) x y z (row col : N) (started : bool) :
  seg_ok columns s → g_row s + vlen (g_lines s) ≤ 256 → g_col s < columns → chunk_of_seg s ds chunk →
  length ds = length (g_cells s) → length y = length ds → vlen x = seg_start s →
  (if started then row = g_row s ∧ col = g_col s else from_origin = true → seg_start s = 0) →
  apply_span_to_grid columns chunk from_origin (mkSpanCursor (x ++ y ++ z) row col started)
  = ok (mkSpanCursor (x ++ ds ++ z) (seg_end s / columns) (seg_end s mod columns) true).
Proof.
  intros Hok Hrow Hc (Hr & Hfc & Hn & Hd) Hlen Hy Hx Hat. unfold apply_span_to_grid. rewrite Hr, Hfc, Hn, Hd.
  assert (vlen ds = vlen (g_cells s)) as -> by lia.
  destruct (seg_span _ _ Hok (proj1 Hcol) (proj2 Hcol)) as (Hl1 & Hn1 & ->); [lia|]. cbn [try_ ok sp_started sp_row sp_col sp_cells].
  rewrite ifb_false.
  2: { destruct started; cbn [negb andb].
       - destruct Hat as [-> ->]. rewrite !N.eqb_refl. by destruct from_origin.
       - destruct from_origin; [|done]. specialize (Hat eq_refl). unfold seg_start in Hat.
         assert (g_row s = 0 ∧ g_col s = 0) as [-> ->] by nia. done. }
  pose proof (seg_cases s Hok) as Hcase. pose proof (seg_end_at s Hok) as He. fold (partial s). unfold seg_start in *.
  destruct (partial s).
  - destruct Hcase as [_ Hfit]. rewrite checked_mul_ok by (unfold usize_max, u64_max; nia). cbn [mbind option_bind].
    rewrite checked_add_ok by (unfold usize_max, u64_max; nia). cbn [ok_or ok try_].
    rewrite checked_add_ok by (unfold usize_max, u64_max; nia). cbn [ok_or ok try_].
    rewrite (proj2 (N.ltb_ge _ _)) by (rewrite !length_app; lia). rewrite <- Hx, vcopy_middle by done. cbn [mbind option_bind].
    rewrite N.mod_small by lia. rewrite checked_add_ok by (unfold u16_max; lia). cbn [ok_or ok try_].
    destruct (N.eqb_spec (g_col s + vlen (g_cells s)) columns); injection He as -> ->; [|done].
    rewrite checked_add_ok by (unfold u16_max; lia). done.
  - destruct Hcase as [H0 Hcells]. injection He as -> ->.
    change 0 with (vlen (@nil DisplayCell)) at 2. rewrite (write_rows_ok chunk _ 0 [] ds x y z); [|done|done|lia|done|lia|lia].
    cbn [try_ ok]. rewrite checked_add_ok by (unfold u16_max; lia). done.
Qed.

(** * A plan *)

Fixpoint chunks_of_segs segs (shown : list (list DisplayCell)) (chunks : list DecodedDisplayChunk) : Prop :=
  match segs, shown, chunks with
  | [], [], [] => True
  | s :: segs, ds :: shown, chunk :: chunks =>
    chunk_of_seg s ds chunk ∧ length ds = length (g_cells s) ∧ chunks_of_segs segs shown chunks
  | _, _, _ => False
  end.

Lemma apply_spans_started segs shown chunks from_origin x y z :
  tiled columns (vlen x) segs → Forall (λ s, g_row s + vlen (g_lines s) ≤ 256) segs →
  chunks_of_segs segs shown chunks → length y = length (concat shown) →
  apply_spans columns from_origin chunks (mkSpanCursor (x ++ y ++ z) (vlen x / columns) (vlen x mod columns) true)
  = ok (mkSpanCursor (x ++ concat shown ++ z) (vlen (x ++ concat shown) / columns) (vlen (x ++ concat shown) mod columns) true).
Proof.
  revert shown chunks x y. induction segs as [|s segs IH]; intros [|ds shown] [|chunk chunks] x y Ht Hr Hc Hy; try done.
  { destruct y; [|done]. cbn [concat app apply_spans]. by rewrite app_nil_r. }
  cbn [apply_spans sp_started negb]. rewrite andb_false_r. cbn [concat] in *. rewrite length_app in Hy.
  destruct Ht as (Hpos & Hg & Hok & _ & Ht). apply Forall_cons in Hr as [Hrow Hr]. destruct Hc as (Hch & Hlen & Hc).
  set (y1 := take (length ds) y). set (y2 := drop (length ds) y).
  assert (y = y1 ++ y2) as Hyy by (symmetry; apply take_drop).
  assert (length y1 = length ds ∧ length y2 = length (concat shown)) as [Hl1 Hl2]
    by (unfold y1, y2; rewrite length_take, length_drop; lia). clearbody y1 y2. subst y.
  destruct (row_col (g_row s) (g_col s) Hg) as [E1 E2]. rewrite Hpos in E1, E2.
  rewrite <- (app_assoc y1). rewrite (apply_span_ok s ds chunk) by done. cbn [try_ ok].
  assert (seg_end s = vlen (x ++ ds)) as -> by (unfold seg_end, seg_start; rewrite Hpos, length_app; lia).
  rewrite (app_assoc x ds), (IH shown); [by rewrite <- !app_assoc| |done|done|done].
  by rewrite length_app, Nat2N.inj_add, Hlen.
Qed.

Lemma apply_spans_ok segs shown chunks (from_origin : bool) x y z :
  segs ≠ [] → tiled columns (vlen x) segs → Forall (λ s, g_row s + vlen (g_lines s) ≤ 256) segs →
  chunks_of_segs segs shown chunks → length y = length (concat shown) → (from_origin = true → x = []) →
  apply_spans columns from_origin chunks (mkSpanCursor (x ++ y ++ z) 0 0 false)
  = ok (mkSpanCursor (x ++ concat shown ++ z) (vlen (x ++ concat shown) / columns) (vlen (x ++ concat shown) mod columns) true).
Proof.
  intros Hne Ht Hr Hc Hy Hx. rewrite <- (apply_spans_started segs shown chunks from_origin x y z) by done.
  destruct segs as [|s segs]; [done|]. destruct shown as [|ds shown]; [done|]. destruct chunks as [|chunk chunks]; [done|].
  destruct Ht as (Hpos & Hg & _). destruct Hc as ((Hr1 & Hc1 & _) & _). destruct (row_col (g_row s) (g_col s) Hg) as [E1 E2].
  rewrite Hpos in E1, E2. cbn [apply_spans sp_started]. destruct from_origin; cbn [negb andb].
  - rewrite (Hx eq_refl) in *. cbn [length] in *. done.
  - cbn [sp_cells]. by rewrite E1, E2, Hr1, Hc1.
Qed.
End grid.
