(* ===== verification/DisplayBatch.v ===== *)
(** A planned batch on its way: the frames the producer writes for it, and what the client's
    assembly makes of them one by one. *)

From S2P Require Import Prelude Utf8 Types Projection Wire WirePane WireText WireMessage Display DisplayEncode DisplayClient DisplayCells DisplayPlan DisplayApply.

Implicit Types (ds : list DisplayCell) (s : Seg) (segs before : list Seg) (shown more : list (list DisplayCell)).

(** * Shown segments *)

Fixpoint show_segs segs : option (list (list DisplayCell)) :=
  match segs with
  | [] => Some []
  | s :: segs => ds ← show_lines (g_lines s); shown ← show_segs segs; Some (ds :: shown)
  end.

Lemma show_segs_lines segs : show_lines (segs ≫= g_lines) = (λ l, concat l) <$> show_segs segs.
Proof.
  induction segs as [|s segs IH]; cbn [mbind list_bind show_segs]; [done|]. rewrite show_lines_app, IH.
  destruct (show_lines (g_lines s)) as [ds|]; cbn; [|done]. by destruct (show_segs segs).
Qed.

Lemma show_segs_app a b : show_segs (a ++ b) = (x ← show_segs a; y ← show_segs b; Some (x ++ y)).
Proof.
  induction a as [|s a IH]; cbn [app show_segs]; [cbn; by destruct (show_segs b)|].
  destruct (show_lines (g_lines s)); cbn; [|done]. rewrite IH. destruct (show_segs a); cbn; [|done]. by destruct (show_segs b).
Qed.

Lemma show_segs_length segs shown :
  show_segs segs = Some shown → length shown = length segs ∧ length (concat shown) = length (segs ≫= g_cells).
Proof.
  revert shown. induction segs as [|s segs IH]; intros shown; cbn [show_segs]; [by intros [= <-]|].
  destruct (show_lines (g_lines s)) as [ds|] eqn:Hs; cbn; [|done]. destruct (show_segs segs) as [rest|]; cbn; [|done].
  intros [= <-]. destruct (IH rest) as [H1 H2]; [done|]. cbn [length concat mbind list_bind]. rewrite !length_app, H1, H2, (length_show_lines _ _ Hs). done.
Qed.

(** What the client counts as sidecar is what the producer put there. *)
Lemma sidecar_total_app a b : sidecar_total (a ++ b) = sidecar_total a + sidecar_total b.
Proof. unfold sidecar_total. induction a as [|c a IH]; cbn; [done|]. rewrite IH. lia. Qed.

Lemma sidecar_total_show pending cells ds p : show pending cells = Some (ds, p) → sidecar_total ds = vlen (side_of cells).
Proof.
  revert pending ds. induction cells as [|c cells IH]; intros pending ds; cbn [show]; [by intros [= <- _]|].
  destruct (show_cell pending c) as [[d q]|] eqn:Hd; cbn; [|done]. destruct (show q cells) as [[rest q']|] eqn:Hr; cbn; [|done].
  intros [= <- ->]. change (side_of (c :: cells)) with (cell_side c ++ side_of cells). rewrite length_app, Nat2N.inj_add. fold (side_of cells). rewrite <- (IH _ _ Hr).
  change (sidecar_total (d :: rest)) with ((if dc_sidecar d then vlen (dc_text d) else 0) + sidecar_total rest). f_equal.
  unfold show_cell in Hd. unfold cell_side, side_flag.
  destruct pending as [[[? ?] ?]|]; destruct (pj_role c) eqn:Hrole; simplify_eq; cbn; try done.
  unfold side_flag. rewrite Hrole. by destruct (from_utf8 (pj_text c)) as [chars|]; [destruct (negb _)|].
Qed.

Lemma sidecar_total_lines lines ds : show_lines lines = Some ds → sidecar_total ds = vlen (side_of (concat lines)).
Proof.
  revert ds. induction lines as [|l lines IH]; intros ds; cbn [show_lines concat]; [by intros [= <-]|].
  unfold show_line. destruct (show None l) as [[d [q|]]|] eqn:Hl; cbn; [done| |done].
  destruct (show_lines lines) as [x|]; cbn; [|done]. intros [= <-].
  rewrite sidecar_total_app, side_of_app, length_app, (sidecar_total_show _ _ _ _ Hl), (IH x) by done. lia.
Qed.

(** * The rows of a plan *)

Definition shift_seg (first_row : N) s : Seg := mkSeg (first_row + g_row s) (g_col s) (g_lines s).

Lemma tiled_shift columns first_row pos segs :
  tiled columns pos segs → tiled columns (first_row * columns + pos) (shift_seg first_row <$> segs).
Proof.
  revert pos. induction segs as [|s segs IH]; intros pos; cbn [fmap list_fmap tiled]; [done|].
  intros (<- & ? & ? & ? & Ht). split_and!; [cbn; lia|done..|]. rewrite <- N.add_assoc. by apply IH.
Qed.

Lemma seg_nonempty columns s : 1 ≤ columns → seg_ok columns s → 1 ≤ vlen (g_cells s).
Proof.
  intros Hc. unfold g_cells. intros [(Hne & _ & Hl)|(piece & -> & Hne & _)].
  - rewrite (vlen_concat_lines _ _ Hl). destruct (g_lines s); cbn [length]; [done|nia].
  - cbn. rewrite app_nil_r. destruct piece; cbn [length]; [done|lia].
Qed.

Lemma tiled_rows columns pos segs rows :
  1 ≤ columns → tiled columns pos segs → pos + vlen (segs ≫= g_cells) ≤ rows * columns →
  Forall (λ s, g_row s + vlen (g_lines s) ≤ rows) segs.
Proof.
  intros Hc. revert pos. induction segs as [|s segs IH]; intros pos; cbn [tiled mbind list_bind]; [by constructor|].
  rewrite length_app. intros (<- & Hg & Hok & _ & Ht) Hle. constructor.
  - pose proof (seg_cases columns s Hok) as Hcase. destruct (partial columns s).
    + destruct Hcase as [-> _]. pose proof (seg_nonempty columns s Hc Hok). nia.
    + destruct Hcase as [H0 Hl]. nia.
  - apply (IH (g_row s * columns + g_col s + vlen (g_cells s))); [done|lia].
Qed.

Lemma tiled_prefix columns pos a b : tiled columns pos (a ++ b) → tiled columns pos a.
Proof. revert pos. induction a as [|x a IH]; intros pos; cbn; [done|]. intros (? & ? & ? & ? & Ha). split_and!; auto. Qed.

Lemma tiled_last columns pos a s :
  tiled columns pos (a ++ [s]) →
  seg_start columns s = pos + vlen (a ≫= g_cells) ∧ g_col s < columns ∧
  ∀ init l, a = init ++ [l] → seg_end columns l = seg_start columns s.
Proof.
  revert pos. induction a as [|x a IH]; intros pos; cbn [app tiled mbind list_bind].
  { intros (<- & ? & _). split_and!; [unfold seg_start; cbn; lia|done|]. by intros [] ?. }
  intros (Hx & _ & _ & _ & Ht). destruct (IH _ Ht) as (Hs & Hg & Hl). split_and!; [rewrite length_app; lia|done|].
  intros [|y init] l [= -> ->]; [|by eapply Hl]. rewrite Hs. unfold seg_end. unfold seg_start at 1. cbn. lia.
Qed.

(** * Frames *)

Section batch.
Context (m : DisplayMeta) (kind : DisplayKind) (base count : N).

Definition seg_frame s (index : N) : list N := encode_frame (message_type_v2 kind) (seg_payload m base s index count).
Fixpoint seg_frames (index : N) segs : list (list N) :=
  match segs with [] => [] | s :: segs => seg_frame s index :: seg_frames (index + 1) segs end.

(** The bytes of a frame. *)
Definition seg_wire s : N := 24 + (48 + 16 * vlen (g_cells s) + vlen (side_of (g_cells s))).
Fixpoint wire segs : N := match segs with [] => 0 | s :: segs => seg_wire s + wire segs end.

Lemma wire_app a b : wire (a ++ b) = wire a + wire b.
Proof. induction a as [|s a IH]; cbn [app wire]; [done|]. rewrite IH. lia. Qed.

(** A segment that goes on the wire as the producer plans it. *)
Definition placed s : Prop :=
  seg_ok (me_columns m) s ∧ Forall encodable (g_cells s) ∧ seg_fits (g_cells s) ∧
  g_row s + vlen (g_lines s) ≤ me_rows m ∧ g_col s < me_columns m.

Lemma seg_payload_length s index : vlen (seg_payload m base s index count) = 48 + 16 * vlen (g_cells s) + vlen (side_of (g_cells s)).
Proof.
  destruct (seg_payload_head m base s index count) as [-> Hh]. rewrite !length_app.
  pose proof (length_piece_bytes 0 (g_cells s)). lia.
Qed.

Lemma seg_frame_length s index : vlen (seg_frame s index) = seg_wire s.
Proof. unfold seg_frame, seg_wire. rewrite length_frame, seg_payload_length. done. Qed.

Lemma seg_wire_small s : seg_fits (g_cells s) → seg_wire s ≤ 2 ^ 21.
Proof.
  intros [_ H]. unfold seg_wire. unfold max_chunk_payload, MAX_FRAME_PAYLOAD, PREFIX_LEN in H. change (2 ^ 21) with 2097152. lia.
Qed.

(** ** The client's assembly *)

Fixpoint seg_chunks (index : N) segs shown : list DecodedDisplayChunk :=
  match segs, shown with
  | s :: segs, ds :: shown => seg_chunk m kind base s index count ds :: seg_chunks (index + 1) segs shown
  | _, _ => []
  end.

(** What the client holds after the segments [before]. *)
Definition pending_of before shown : PendingDisplayBatch :=
  mkPendingBatch (seg_chunks 0 before shown) (vlen (concat shown)) (wire before).

Lemma seg_chunks_app index a b shown more :
  length a = length shown → seg_chunks index (a ++ b) (shown ++ more) = seg_chunks index a shown ++ seg_chunks (index + vlen a) b more.
Proof.
  revert index shown. induction a as [|s a IH]; intros index [|ds shown]; cbn [length app seg_chunks]; intros Hl; try done.
  { by rewrite N.add_0_r. }
  rewrite IH by lia. by replace (index + 1 + vlen a) with (index + N.of_nat (S (length a))) by lia.
Qed.

Lemma length_seg_chunks index segs shown : length segs = length shown → length (seg_chunks index segs shown) = length segs.
Proof. revert index shown. induction segs as [|s segs IH]; intros index [|ds shown]; cbn; intros; try done. f_equal. apply IH. lia. Qed.

Lemma chunks_agree_segs first ds0 index segs shown :
  chunks_agree (seg_chunk m kind base first 0 count ds0) index (seg_chunks index segs shown) = true.
Proof.
  revert index shown. induction segs as [|s segs IH]; intros index [|ds shown]; cbn [seg_chunks chunks_agree]; try done.
  rewrite IH. cbn. rewrite bool_decide_eq_true_2 by done. by rewrite !N.eqb_refl, !eqb_reflx.
Qed.

Lemma placed_end s : placed s → seg_end (me_columns m) s ≤ me_rows m * me_columns m.
Proof.
  intros (Hok & _ & _ & Hr & Hg). unfold seg_end, seg_start. pose proof (seg_cases _ _ Hok) as Hcase.
  destruct (partial _ s); destruct Hcase as [Hc1 Hc2]; nia.
Qed.

Lemma chunk_wire_seg s index ds :
  placed s → show_lines (g_lines s) = Some ds → chunk_wire_bytes (seg_chunk m kind base s index count ds) = Some (seg_wire s).
Proof.
  intros (_ & _ & [_ Hfit] & _) Hs. unfold chunk_wire_bytes, seg_wire. cbn [dk_schema dk_cells seg_chunk].
  rewrite N.eqb_refl, (sidecar_total_lines _ _ Hs), (length_show_lines _ _ Hs). fold (g_cells s).
  unfold max_chunk_payload, MAX_FRAME_PAYLOAD, PREFIX_LEN in Hfit.
  unfold HEADER_LEN, DISPLAY_CHUNK_HEADER_V2_LEN, DISPLAY_CELL_LEN. rewrite checked_add_ok by done. cbn [mbind option_bind].
  rewrite checked_mul_ok by (unfold usize_max, u64_max; lia). cbn [mbind option_bind].
  rewrite checked_add_ok by (unfold usize_max, u64_max; lia). cbn [mbind option_bind].
  rewrite checked_add_ok by (unfold usize_max, u64_max; lia). f_equal. lia.
Qed.

Lemma last_seg_chunks init l shown ds :
  length init = length shown →
  last (seg_chunks 0 (init ++ [l]) (shown ++ [ds])) = Some (seg_chunk m kind base l (vlen init) count ds).
Proof. intros Hl. rewrite seg_chunks_app by done. cbn [seg_chunks]. by rewrite last_snoc. Qed.

Hypothesis Hgeo : validate_geometry (me_rows m) (me_columns m) (me_cursor_row m) (me_cursor_col m) = ok tt.
Hypothesis Hgen : fits 8 (me_generation m).
Hypothesis Hbase : fits 8 base.
Hypothesis Hkind : kind = DK_Snapshot → base = 0.
Hypothesis Hcount : count ≤ u16_max.

(** The client reads the frame of a segment. *)
Lemma decode_seg_frame s index :
  placed s → index < count →
  match show_lines (g_lines s) with
  | Some ds => decode_chunk (seg_frame s index) = ok (seg_chunk m kind base s index count ds)
  | None => refused (decode_chunk (seg_frame s index))
  end.
Proof using Hgeo Hgen Hbase Hkind Hcount.
  intros (Hok & Hc & Hfit & Hr & Hg) Hi.
  assert (vlen (seg_payload m base s index count) ≤ MAX_FRAME_PAYLOAD) as Hp.
  { rewrite seg_payload_length. destruct Hfit as [_ Hfit]. unfold max_chunk_payload in Hfit. lia. }
  assert (decode_chunk (seg_frame s index) = decode_payload_v2 kind (seg_payload m base s index count)) as ->.
  { unfold decode_chunk. rewrite seg_frame_length. unfold seg_frame. rewrite frame_header by done.
    destruct (frame_header_decode (MessageType_tag (message_type_v2 kind)) (vlen (seg_payload m base s index count))
                (seg_payload m base s index count)) as (-> & Hd & ->); [by destruct kind|done|].
    rewrite (proj2 (N.ltb_ge _ _)) by (unfold seg_wire, HEADER_LEN; lia). cbn [mbind option_bind]. rewrite Hd. cbn [map_err try_ ok].
    cbn [payload_len message_type FrameHeader_new]. rewrite checked_add_ok by (unfold HEADER_LEN, usize_max, u64_max, MAX_FRAME_PAYLOAD in *; lia).
    cbn [ok_or try_ ok]. unfold seg_wire, HEADER_LEN. rewrite seg_payload_length, N.eqb_refl. cbn [negb]. by destruct kind. }
  by apply (decode_chunk_spec m kind base Hgeo Hgen Hbase Hkind).
Qed.

(** ** The producer *)

Lemma encode_spans_ok first_row segs index total cells pre :
  cells = pre ++ (segs ≫= g_cells) → tiled (me_columns m) (vlen pre) segs → Forall encodable (segs ≫= g_cells) →
  Forall (λ s, first_row + (g_row s + vlen (g_lines s)) ≤ me_rows m) segs →
  index + vlen segs ≤ count → total + vlen segs * 2 ^ 21 ≤ 2 ^ 40 →
  encode_spans m kind base first_row count cells (span_of (me_columns m) <$> segs) index total
  = ok (seg_frames index (shift_seg first_row <$> segs), total + wire segs).
Proof using Hgeo Hcount.
  clear Hkind. revert index total pre. destruct (geometry_bounds _ _ _ _ Hgeo) as (H1 & H2 & H3 & H4 & H5 & H6).
  induction segs as [|s segs IH]; intros index total pre Hc Ht He Hr Hi Hb; cbn [fmap list_fmap encode_spans].
  { cbn. by rewrite N.add_0_r. }
  destruct Ht as (Hpos & Hg & Hok & Hfit & Ht). apply Forall_cons in Hr as [Hrow Hr]. cbn [mbind list_bind] in Hc, He.
  apply Forall_app in He as [Hes He]. cbn [length] in Hi, Hb. change (2 ^ 40) with 1099511627776 in *. change (2 ^ 21) with 2097152 in *.
  cbn [span_of sn_row_offset sn_cell_start sn_cell_count sn_row_count sn_first_col].
  rewrite checked_add_ok by (unfold u16_max; lia). cbn [ok_or try_ ok].
  rewrite Hpos.
  assert (vslice cells (vlen pre) (vlen pre + vlen (g_cells s)) = Some (g_cells s)) as -> by (rewrite Hc; apply vslice_middle).
  cbn [mbind option_bind]. unfold u16_max in Hcount. rewrite N.mod_small by lia.
  destruct (encode_chunk_ok m base (shift_seg first_row s) index count Hes Hfit) as [Henc _].
  change (g_row (shift_seg first_row s)) with (first_row + g_row s) in Henc.
  change (vlen (g_lines (shift_seg first_row s))) with (vlen (g_lines s)) in Henc.
  change (g_col (shift_seg first_row s)) with (g_col s) in Henc. change (g_cells (shift_seg first_row s)) with (g_cells s) in Henc.
  rewrite Henc. cbn [try_ ok]. fold (seg_frame (shift_seg first_row s) index). rewrite seg_frame_length.
  change (seg_wire (shift_seg first_row s)) with (seg_wire s). pose proof (seg_wire_small s Hfit) as Hw. change (2 ^ 21) with 2097152 in Hw.
  rewrite checked_add_ok by (unfold usize_max, u64_max; lia). cbn [ok_or try_ ok].
  rewrite (IH (index + 1) (total + seg_wire s) (pre ++ g_cells s)).
  - cbn [try_ ok fst snd seg_frames wire]. unfold ok. do 3 f_equal. lia.
  - by rewrite <- app_assoc.
  - by rewrite length_app, Nat2N.inj_add.
  - done.
  - done.
  - lia.
  - change (2 ^ 40) with 1099511627776. change (2 ^ 21) with 2097152. lia.
Qed.

Lemma next_start_seg s index ds :
  placed s → length ds = length (g_cells s) →
  next_start DISPLAY_SCHEMA_V2 (seg_chunk m kind base s index count ds)
  = ok (seg_end (me_columns m) s / me_columns m, seg_end (me_columns m) s mod me_columns m).
Proof using Hgeo Hcount.
  clear Hkind. intros (Hok & _ & _ & Hr & Hg) Hl. destruct (geometry_bounds _ _ _ _ Hgeo) as (H1 & H2 & H3 & H4 & H5 & H6).
  unfold next_start. cbn [dk_row_count dk_first_col dk_cells dk_columns dk_first_row seg_chunk]. rewrite N.eqb_refl, Hl.
  fold (partial (me_columns m) s). rewrite seg_end_at by (done || lia). pose proof (seg_cases _ _ Hok) as Hcase.
  destruct (partial (me_columns m) s).
  - destruct Hcase as [_ Hfit]. rewrite N.mod_small by lia. rewrite checked_add_ok by (unfold u16_max; lia). cbn [ok_or try_ ok].
    destruct (_ =? _); [|done]. rewrite checked_add_ok by (unfold u16_max; lia). done.
  - rewrite checked_add_ok by (unfold u16_max; lia). done.
Qed.

(** The next segment follows the ones before it. *)
Lemma chunk_follows_seg before shown s ds start :
  tiled (me_columns m) start (before ++ [s]) → Forall placed before → show_segs before = Some shown →
  (kind = DK_Snapshot → start = 0) →
  chunk_follows (pending_of before shown) (seg_chunk m kind base s (vlen before) count ds) = ok tt.
Proof using Hgeo Hcount.
  clear Hkind. intros Ht Hp Hs Hk. destruct (tiled_last _ _ _ _ Ht) as (Hst & Hg & Hl).
  destruct (geometry_bounds _ _ _ _ Hgeo) as (H1 & H2 & H3 & H4 & H5 & H6).
  destruct (show_segs_length _ _ Hs) as [Hlen _]. unfold chunk_follows. cbn [pending_of pb_chunks].
  destruct before as [|l init _] using rev_ind.
  { destruct shown; [|done]. cbn. case_bool_decide as Hkd; [|done]. cbn. specialize (Hk Hkd). cbn in Hst. unfold seg_start in Hst.
    assert (g_row s = 0 ∧ g_col s = 0) as [-> ->] by nia. done. }
  rewrite show_segs_app in Hs. destruct (show_segs init) as [shown0|] eqn:Hs0; [|done]. cbn in Hs.
  destruct (show_lines (g_lines l)) as [dl|] eqn:Hdl; [|done]. cbn in Hs. injection Hs as <-.
  destruct (show_segs_length _ _ Hs0) as [Hl0 _]. rewrite last_seg_chunks by done.
  assert (∃ f d0, head (seg_chunks 0 (init ++ [l]) (shown0 ++ [dl])) = Some (seg_chunk m kind base f 0 count d0)) as (f & d0 & ->).
  { destruct init, shown0; try done; cbn; by eauto. }
  rewrite length_seg_chunks by (rewrite !length_app; cbn [length]; lia).
  pose proof (chunks_agree_segs f d0 (vlen (init ++ [l])) [s] [ds]) as Ha. cbn [seg_chunks] in Ha. rewrite Ha. cbn [negb dk_schema seg_chunk].
  apply Forall_app in Hp as [_ [Hpl _]%Forall_cons].
  fold (seg_chunk m kind base l (vlen init) count dl). rewrite next_start_seg by (done || by apply length_show_lines).
  cbn [try_ ok fst snd dk_first_row dk_first_col]. rewrite (Hl init l eq_refl). unfold seg_start.
  destruct (row_col (me_columns m) (conj H3 H4) (g_row s) (g_col s) Hg) as [-> ->]. by rewrite !N.eqb_refl.
Qed.

Lemma push_seg before shown s ds start :
  tiled (me_columns m) start (before ++ [s]) → Forall placed before → placed s →
  show_segs before = Some shown → show_lines (g_lines s) = Some ds →
  (kind = DK_Snapshot → start = 0) → vlen before < count → wire before ≤ MAX_LOGICAL_DISPLAY_BYTES →
  push (seg_chunk m kind base s (vlen before) count ds) (pending_of before shown)
  = Some (if MAX_LOGICAL_DISPLAY_BYTES <? wire (before ++ [s]) then (Err CE_Capacity, pending_of before shown)
          else (Ok (vlen before + 1 =? count), pending_of (before ++ [s]) (shown ++ [ds]))).
Proof using Hgeo Hcount.
  clear Hkind. intros Ht Hp Hps Hs Hds Hk Hi Hw. destruct (geometry_bounds _ _ _ _ Hgeo) as (H1 & H2 & H3 & H4 & H5 & H6).
  destruct (show_segs_length _ _ Hs) as [Hl Hcl]. pose proof (length_show_lines _ _ Hds) as Hdl. fold (g_cells s) in Hdl.
  unfold push. rewrite ifb_false.
  2: { unfold superseded. cbn [pending_of pb_chunks]. destruct before as [|b before], shown as [|d shown]; try done. }
  cbn [dk_chunk_count seg_chunk]. rewrite (proj2 (N.eqb_neq count 0)) by lia. fold (seg_chunk m kind base s (vlen before) count ds).
  rewrite (chunk_follows_seg _ _ _ _ start) by done. cbn [try_ ok pending_of pb_chunks pb_cells pb_wire_bytes].
  rewrite length_seg_chunks by done. rewrite (proj2 (N.leb_gt _ _)) by done. cbn [dk_rows dk_columns dk_cells seg_chunk].
  rewrite checked_mul_ok by (unfold usize_max, u64_max; nia). cbn [ok_or try_ ok].
  assert (vlen (concat shown) + vlen ds ≤ me_rows m * me_columns m) as Hcells.
  { pose proof (placed_end s Hps) as He. destruct (tiled_last _ _ _ _ Ht) as (Hst & _). unfold seg_end in He. lia. }
  rewrite checked_add_ok by (unfold usize_max, u64_max; nia). cbn [ok_or try_ ok].
  rewrite !(proj2 (N.ltb_ge _ _)) by (unfold MAX_DISPLAY_CELLS; nia). cbn [orb].
  fold (seg_chunk m kind base s (vlen before) count ds). rewrite chunk_wire_seg by done. cbn [ok_or try_ ok].
  destruct Hps as (_ & _ & Hfit & _). pose proof (seg_wire_small s Hfit) as Hsw. change (2 ^ 21) with 2097152 in Hsw.
  rewrite checked_add_ok by (unfold usize_max, u64_max, MAX_LOGICAL_DISPLAY_BYTES in *; lia). cbn [ok_or try_ ok].
  rewrite wire_app. cbn [wire]. rewrite N.add_0_r. destruct (_ <? _); [done|].
  cbn [mbind option_bind ok]. unfold pending_of. rewrite seg_chunks_app by done. cbn [seg_chunks].
  rewrite !length_app, length_seg_chunks by done. cbn [length]. rewrite concat_app. cbn [concat]. rewrite app_nil_r, length_app.
  rewrite wire_app. cbn [wire]. rewrite N.add_0_r. rewrite !Nat2N.inj_add. done.
Qed.

(** ** Receiving *)

(** After a refusal the rest of the batch is refused too: an assembly starts at chunk 0. *)
Lemma receive_rest segs index cache :
  Forall placed segs → 0 < index → index + vlen segs ≤ count →
  receive_all (seg_frames index segs) (mkClient no_pending cache)
  = Some (replicate (length segs) CO_Resync, mkClient no_pending cache).
Proof using Hgeo Hgen Hbase Hkind Hcount.
  intros Hp. revert index. induction Hp as [|s segs Hs _ IH]; intros index Hi Hn; cbn [seg_frames receive_all]; [done|].
  cbn [length] in Hn. assert (receive_display (seg_frame s index) (mkClient no_pending cache)
    = Some (CO_Resync, mkClient no_pending cache)) as ->.
  { unfold receive_display. pose proof (decode_seg_frame s index Hs ltac:(lia)) as Hd.
    destruct (show_lines (g_lines s)) as [ds|]; [|by destruct Hd as [e ->]]. rewrite Hd. cbn [mbind option_bind ok].
    unfold accept_display_chunk, push. cbn [superseded no_pending pb_chunks head cl_pending]. cbn [dk_chunk_count seg_chunk].
    rewrite (proj2 (N.eqb_neq count 0)) by lia. unfold chunk_follows. cbn [no_pending pb_chunks head dk_chunk_index seg_chunk].
    rewrite (proj2 (N.eqb_neq index 0)) by lia. done. }
  cbn [mbind option_bind snd]. rewrite IH by lia. done.
Qed.

(** The batch was not shown: the client waited, refused one frame and with it all that follow,
    and kept its cells. *)
Definition refused_by (frames : list (list N)) (c : DisplayClient) : Prop :=
  ∃ k n, receive_all frames c = Some (replicate k CO_Waiting ++ replicate (S n) CO_Resync, mkClient no_pending (cl_cache c)).

Lemma refused_now frame frames c n :
  receive_display frame c = Some (CO_Resync, mkClient no_pending (cl_cache c)) →
  receive_all frames (mkClient no_pending (cl_cache c)) = Some (replicate n CO_Resync, mkClient no_pending (cl_cache c)) →
  refused_by (frame :: frames) c.
Proof using Type.
  intros H1 H2. exists 0%nat, n. cbn [receive_all]. rewrite H1. cbn [mbind option_bind snd]. rewrite H2. done.
Qed.

Lemma refused_later frame frames c c' :
  receive_display frame c = Some (CO_Waiting, c') → cl_cache c' = cl_cache c → refused_by frames c' → refused_by (frame :: frames) c.
Proof using Type.
  intros H1 H2 (k & n & H3). exists (S k), n. cbn [receive_all]. rewrite H1. cbn [mbind option_bind snd]. rewrite H3, H2. done.
Qed.

Lemma receive_seg before shown s start cache :
  tiled (me_columns m) start (before ++ [s]) → Forall placed before → placed s → show_segs before = Some shown →
  (kind = DK_Snapshot → start = 0) → vlen before < count → wire before ≤ MAX_LOGICAL_DISPLAY_BYTES →
  receive_display (seg_frame s (vlen before)) (mkClient (pending_of before shown) cache) =
  match show_lines (g_lines s) with
  | Some ds =>
    if MAX_LOGICAL_DISPLAY_BYTES <? wire (before ++ [s]) then Some (CO_Resync, mkClient no_pending cache) else
    let p := pending_of (before ++ [s]) (shown ++ [ds]) in
    if vlen before + 1 =? count then
      match apply_chunks (pb_chunks p) cache with
      | Ret _ cache' => Some (CO_Committed, mkClient no_pending cache')
      | Fail e cache' => Some (if resyncs e then (CO_Resync, mkClient no_pending cache') else (CO_Failed, mkClient p cache'))
      | _ => None
      end
    else Some (CO_Waiting, mkClient p cache)
  | None => Some (CO_Resync, mkClient no_pending cache)
  end.
Proof using Hgeo Hgen Hbase Hkind Hcount.
  intros Ht Hp Hps Hs Hk Hi Hw. unfold receive_display. pose proof (decode_seg_frame s (vlen before) Hps Hi) as Hd.
  destruct (show_lines (g_lines s)) as [ds|] eqn:Hds; [|by destruct Hd as [e ->]]. rewrite Hd. cbn [mbind option_bind ok].
  unfold accept_display_chunk. cbn [cl_pending cl_cache]. rewrite (push_seg _ _ _ _ start) by done. cbn [mbind option_bind].
  destruct (_ <? _); [done|]. destruct (_ =? _); done.
Qed.

(** The frames of the segments after [before], from the point where those were accepted. *)
Lemma receive_segs segs before shown start cache :
  segs ≠ [] → tiled (me_columns m) start (before ++ segs) → Forall placed (before ++ segs) →
  show_segs before = Some shown → (kind = DK_Snapshot → start = 0) → count = vlen (before ++ segs) →
  wire before ≤ MAX_LOGICAL_DISPLAY_BYTES →
  let frames := seg_frames (vlen before) segs in let c := mkClient (pending_of before shown) cache in
  match show_segs segs with
  | Some more =>
    if MAX_LOGICAL_DISPLAY_BYTES <? wire (before ++ segs) then refused_by frames c else
    match apply_chunks (seg_chunks 0 (before ++ segs) (shown ++ more)) cache with
    | Ret _ cache' => receive_all frames c = Some (replicate (pred (length segs)) CO_Waiting ++ [CO_Committed], mkClient no_pending cache')
    | Fail e cache' => cache' = cache → resyncs e = true → refused_by frames c
    | _ => True
    end
  | None => refused_by frames c
  end.
Proof using Hgeo Hgen Hbase Hkind Hcount.
  revert before shown. induction segs as [|s segs IH]; intros before shown; [done|]. intros _ Ht Hp Hs Hk Hn Hw. cbn zeta.
  assert (before ++ s :: segs = (before ++ [s]) ++ segs) as Happ by (by rewrite <- app_assoc).
  pose proof Hp as [Hpb [Hps Hpr]%Forall_cons]%Forall_app. rewrite length_app in Hn. cbn [length] in Hn.
  assert (tiled (me_columns m) start (before ++ [s])) as Ht1.
  { rewrite Happ in Ht. by eapply tiled_prefix. }
  pose proof (receive_seg before shown s start cache Ht1 Hpb Hps Hs Hk ltac:(lia) Hw) as Hr. cbn [seg_frames show_segs].
  assert (receive_all (seg_frames (vlen before + 1) segs) (mkClient no_pending cache)
          = Some (replicate (length segs) CO_Resync, mkClient no_pending cache)) as Hrest by (apply receive_rest; [done|lia..]).
  destruct (show_lines (g_lines s)) as [ds|] eqn:Hds; cbn [mbind option_bind]; [|by eapply refused_now].
  assert (show_segs (before ++ [s]) = Some (shown ++ [ds])) as Hs' by (rewrite show_segs_app, Hs; cbn; by rewrite Hds).
  assert (wire (before ++ [s]) ≤ wire (before ++ s :: segs)) as Hmono by (rewrite Happ, (wire_app (before ++ [s])); lia).
  destruct (N.ltb_spec MAX_LOGICAL_DISPLAY_BYTES (wire (before ++ [s]))) as [Hbig|Hsmall].
  { destruct (show_segs segs); cbn [mbind option_bind]; [rewrite (proj2 (N.ltb_lt _ _)) by lia|]; by eapply refused_now. }
  destruct segs as [|s' segs].
  - cbn [length] in Hn. rewrite (proj2 (N.eqb_eq _ _)) in Hr by lia. cbn [show_segs mbind option_bind pending_of pb_chunks] in *.
    rewrite (proj2 (N.ltb_ge _ _)) by done. destruct (apply_chunks _ cache) as [u cache'|e cache'| |]; try done.
    + cbn [receive_all seg_frames length pred replicate app]. by rewrite Hr.
    + intros -> He. rewrite He in Hr. by eapply refused_now.
  - rewrite (proj2 (N.eqb_neq _ _)) in Hr by (cbn [length] in Hn; lia).
    specialize (IH (before ++ [s]) (shown ++ [ds])). rewrite <- Happ in IH. cbn zeta in IH.
    rewrite (length_app before [s]), (Nat2N.inj_add _ (length [s])) in IH. change (vlen [s]) with 1 in IH.
    specialize (IH ltac:(done) Ht Hp Hs' Hk ltac:(rewrite length_app; cbn [length] in *; lia) Hsmall).
    destruct (show_segs (s' :: segs)) as [more|]; cbn [mbind option_bind]; [|by eapply refused_later].
    rewrite <- (app_assoc shown) in IH. cbn [app] in IH. destruct (_ <? _); [by eapply refused_later|].
    destruct (apply_chunks _ cache) as [u cache'|e cache'| |]; try done.
    + cbn [receive_all]. rewrite Hr. cbn [mbind option_bind snd]. rewrite IH. done.
    + intros He Hre. eapply refused_later; [done|done|by apply IH].
Qed.
End batch.
