(* ===== verification/DisplayMirror.v ===== *)
(** The display end to end: what the Runtime sends of a projection is what the client shows. *)

From S2P Require Import Prelude Utf8 Types Projection Wire WirePane WireText WireMessage Display DisplayEncode DisplayClient DisplayCells DisplayPlan DisplayApply DisplayBatch.

Implicit Types (ds : list DisplayCell) (segs : list Seg) (p q : TerminalProjection) (c : DisplayClient).

(** * Rows *)

Fixpoint split_rows (n : nat) (columns : N) (cells : list ProjectionCell) : list (list ProjectionCell) :=
  match n with
  | O => []
  | S n => take (N.to_nat columns) cells :: split_rows n columns (drop (N.to_nat columns) cells)
  end.

Lemma split_rows_ok n columns cells :
  vlen cells = N.of_nat n * columns →
  concat (split_rows n columns cells) = cells ∧ Forall (λ l, vlen l = columns) (split_rows n columns cells) ∧
  length (split_rows n columns cells) = n.
Proof.
  revert cells. induction n as [|n IH]; intros cells Hl; cbn [split_rows concat length].
  { destruct cells; [by split_and!|cbn [length] in Hl; lia]. }
  destruct (IH (drop (N.to_nat columns) cells)) as (-> & Hf & ->); [rewrite length_drop; lia|].
  rewrite take_drop. split_and!; [done| |done]. constructor; [rewrite length_take; lia|done].
Qed.

Lemma split_rows_app n k columns a b :
  vlen a = N.of_nat n * columns → split_rows (n + k) columns (a ++ b) = split_rows n columns a ++ split_rows k columns b.
Proof.
  revert a. induction n as [|n IH]; intros a Hl; cbn [Nat.add split_rows app].
  { destruct a; [done|cbn [length] in Hl; lia]. }
  rewrite take_app_le, drop_app_le by lia. rewrite IH; [done|]. rewrite length_drop. lia.
Qed.

Lemma take_mid_drop {A} (l : list A) lo n : l = take lo l ++ take n (drop lo l) ++ drop (lo + n) l.
Proof. by rewrite <- drop_drop, !take_drop. Qed.

(** * Frames in transport batches *)

Lemma transport_loop_frames b frames current bytes : transport_loop b frames current bytes ≫= eb_frames = current ++ frames.
Proof.
  revert current bytes. induction frames as [|f frames IH]; intros current bytes; cbn [transport_loop].
  - case_bool_decide as Hc; cbn; [by rewrite Hc|by rewrite !app_nil_r].
  - destruct (_ && _); cbn [mbind list_bind eb_frames]; rewrite IH; [done|by rewrite <- app_assoc].
Qed.

(** Cutting a batch for the transport keeps its frames in order. *)
Lemma transport_frames b : into_transport_batches b ≫= eb_frames = eb_frames b.
Proof. unfold into_transport_batches. destruct (_ <=? _); cbn; [by rewrite app_nil_r|apply transport_loop_frames]. Qed.

(** * Applying a whole batch *)

Definition shown_cache (m : DisplayMeta) ds : DisplayCache :=
  mkCache (me_generation m) (me_rows m) (me_columns m) (me_cursor_row m) (me_cursor_col m)
    (me_cursor_visible m) (me_alternate_screen m) ds.

Definition accepts (m : DisplayMeta) (kind : DisplayKind) (base : N) (cache : DisplayCache) : bool :=
  match kind with
  | DK_Snapshot => true
  | DK_Delta => (ca_generation cache =? base) && (ca_rows cache =? me_rows m) && (ca_columns cache =? me_columns m)
  end.

Lemma chunks_of_seg_chunks m kind base count index segs shown :
  show_segs segs = Some shown → chunks_of_segs segs shown (seg_chunks m kind base count index segs shown).
Proof.
  revert index shown. induction segs as [|s segs IH]; intros index shown; cbn [show_segs]; [by intros [= <-]|].
  destruct (show_lines (g_lines s)) as [d|] eqn:Hd; cbn; [|done]. destruct (show_segs segs) as [rest|]; cbn; [|done].
  intros [= <-]. split_and!; [by split_and!|by apply length_show_lines|by apply IH].
Qed.

Section apply.
Context (m : DisplayMeta) (base count : N) (segs : list Seg) (shown : list (list DisplayCell)).
Hypothesis Hgeo : validate_geometry (me_rows m) (me_columns m) (me_cursor_row m) (me_cursor_col m) = ok tt.
Hypothesis Hne : segs ≠ [].
Hypothesis Hcount : count = vlen segs.
Hypothesis Hshown : show_segs segs = Some shown.
Hypothesis Hrows : Forall (λ s, g_row s + vlen (g_lines s) ≤ me_rows m) segs.

Lemma apply_reduces kind cache :
  ∃ first, apply_chunks (seg_chunks m kind base count 0 segs shown) cache =
    (apply_chunks_v2 (seg_chunks m kind base count 0 segs shown) first ;;;
     modify (λ d, mkCache (me_generation m) (ca_rows d) (ca_columns d) (me_cursor_row m)
                    (me_cursor_col m) (me_cursor_visible m) (me_alternate_screen m) (ca_cells d))) cache ∧
    dk_kind first = kind ∧ dk_rows first = me_rows m ∧ dk_columns first = me_columns m ∧ dk_base_generation first = base.
Proof using Hne Hcount Hshown Hrows.
  destruct (show_segs_length _ _ Hshown) as [Hl _]. destruct segs as [|s segs'], shown as [|d shown']; try done.
  exists (seg_chunk m kind base s 0 count d). split_and!; try done. unfold apply_chunks.
  pose proof (length_seg_chunks m kind base count 0 (s :: segs') (d :: shown')) as Hlen.
  pose proof (chunks_agree_segs m kind base count s d 0 (s :: segs') (d :: shown')) as Ha.
  cbn [seg_chunks] in *. rewrite Hlen by done. cbn [dk_chunk_count seg_chunk dk_schema].
  rewrite Hcount, N.eqb_refl in *. cbn [negb]. rewrite Ha. done.
Qed.

Lemma apply_snapshot cache :
  tiled (me_columns m) 0 segs → vlen (concat shown) = me_rows m * me_columns m →
  apply_chunks (seg_chunks m DK_Snapshot base count 0 segs shown) cache = Ret tt (shown_cache m (concat shown)).
Proof using Hgeo Hne Hcount Hshown Hrows.
  intros Ht Hl. destruct (geometry_bounds _ _ _ _ Hgeo) as (H1 & H2 & H3 & H4 & H5 & H6).
  destruct (apply_reduces DK_Snapshot cache) as (first & -> & Hk & Hr & Hc & Hb). unfold apply_chunks_v2. rewrite Hk, Hr, Hc.
  rewrite checked_mul_ok by (unfold usize_max, u64_max; nia). cbn [ok_or lift].
  pose proof (apply_spans_ok (me_columns m) (conj H3 H4) segs shown (seg_chunks m DK_Snapshot base count 0 segs shown) true
    [] (replicate (N.to_nat (me_rows m * me_columns m)) display_blank) []) as Ha.
  rewrite !app_nil_r, !app_nil_l in Ha. unfold bind at 1. unfold bind at 1. cbn [ret ok lift]. unfold ret, bind at 1. rewrite Ha; first last; try done.
  { rewrite length_replicate. lia. } { by apply chunks_of_seg_chunks. } { eapply Forall_impl; [exact Hrows|]. cbn. lia. }
  cbn [lift ok]. unfold ret. cbn [sp_row sp_col sp_cells]. rewrite Hl, N.div_mul, N.Div0.mod_mul by lia. rewrite N.eqb_refl. done.
Qed.

Lemma apply_delta cache first_row x y z :
  tiled (me_columns m) (first_row * me_columns m) segs → ca_cells cache = x ++ y ++ z →
  vlen x = first_row * me_columns m → length y = length (concat shown) → accepts m DK_Delta base cache = true →
  apply_chunks (seg_chunks m DK_Delta base count 0 segs shown) cache = Ret tt (shown_cache m (x ++ concat shown ++ z)).
Proof using Hgeo Hne Hcount Hshown Hrows.
  intros Ht Hcells Hx Hy Hacc. destruct (geometry_bounds _ _ _ _ Hgeo) as (H1 & H2 & H3 & H4 & H5 & H6).
  destruct (apply_reduces DK_Delta cache) as (first & -> & Hk & Hr & Hc & Hb). unfold apply_chunks_v2. rewrite Hk, Hr, Hc, Hb.
  unfold accepts in Hacc. apply andb_true_iff in Hacc as [[Hg Hrs]%andb_true_iff Hcs].
  unfold bind at 1. unfold bind at 1. cbn [gets id]. unfold id. rewrite Hg, Hrs, Hcs. cbn [negb orb]. unfold bind at 1. rewrite Hcells.
  rewrite (apply_spans_ok (me_columns m) (conj H3 H4) segs shown); try done.
  - cbn [lift ok]. unfold ret. cbn [sp_cells]. unfold put_cells, shown_cache. cbn. apply N.eqb_eq in Hrs, Hcs. by rewrite Hrs, Hcs.
  - by rewrite Hx.
  - eapply Forall_impl; [exact Hrows|]. cbn. lia.
  - by apply chunks_of_seg_chunks.
Qed.

(** A delta for another screen is refused without a change. *)
Lemma apply_delta_refused cache :
  accepts m DK_Delta base cache = false →
  ∃ e, apply_chunks (seg_chunks m DK_Delta base count 0 segs shown) cache = Fail e cache ∧ resyncs e = true.
Proof using Hne Hcount Hshown Hrows.
  intros Hacc. destruct (apply_reduces DK_Delta cache) as (first & -> & Hk & Hr & Hc & Hb). unfold apply_chunks_v2. rewrite Hk, Hr, Hc, Hb.
  unfold accepts in Hacc. unfold bind at 1. unfold bind at 1. cbn [gets id]. unfold id.
  destruct (ca_generation cache =? base); cbn [andb negb] in *; [|by eexists].
  destruct (ca_rows cache =? me_rows m), (ca_columns cache =? me_columns m); try done; by eexists.
Qed.
End apply.

(** * The producer's batch *)

Lemma shift_lines first_row segs : (shift_seg first_row <$> segs) ≫= g_lines = segs ≫= g_lines.
Proof. induction segs as [|s segs IH]; cbn; [done|]. by rewrite IH. Qed.
Lemma shift_cells first_row segs : (shift_seg first_row <$> segs) ≫= g_cells = segs ≫= g_cells.
Proof. by rewrite !concat_segs, shift_lines. Qed.
Lemma shift_wire first_row segs : wire (shift_seg first_row <$> segs) = wire segs.
Proof. induction segs as [|s segs IH]; cbn [fmap list_fmap wire]; [done|]. by rewrite IH. Qed.

Lemma tiled_placed m first_row pos segs :
  1 ≤ me_columns m → tiled (me_columns m) pos segs → Forall encodable (segs ≫= g_cells) →
  first_row * me_columns m + pos + vlen (segs ≫= g_cells) ≤ me_rows m * me_columns m →
  Forall (placed m) (shift_seg first_row <$> segs).
Proof.
  intros Hc Ht He Hle. pose proof (tiled_rows (me_columns m) (first_row * me_columns m + pos) (shift_seg first_row <$> segs) (me_rows m) Hc) as Hr.
  rewrite shift_cells in Hr. specialize (Hr (tiled_shift _ _ _ _ Ht) Hle). clear Hle. revert pos Ht Hr He.
  induction segs as [|s segs IH]; intros pos; cbn [fmap list_fmap tiled mbind list_bind]; [by constructor|].
  intros (_ & Hg & Hok & Hf & Ht) [Hrow Hr]%Forall_cons [He1 He2]%Forall_app. constructor; [|by eapply IH]. by split_and!.
Qed.

Lemma encode_batch m kind base first_row row_count cells :
  validate_geometry (me_rows m) (me_columns m) (me_cursor_row m) (me_cursor_col m) = ok tt →
  Forall encodable cells → 1 ≤ row_count → first_row + row_count ≤ me_rows m → vlen cells = row_count * me_columns m →
  ∃ r, encode_cells_v2 m kind base first_row 0 row_count cells = Some r ∧
    match r with
    | Err _ => show_lines (split_rows (N.to_nat row_count) (me_columns m) cells) = None
    | Ok b => ∃ segs, eb_frames b = seg_frames m kind base (vlen segs) 0 segs ∧ eb_total_bytes b = wire segs ∧ segs ≠ [] ∧
        vlen segs ≤ u16_max ∧ tiled (me_columns m) (first_row * me_columns m) segs ∧ Forall (placed m) segs ∧
        show_lines (split_rows (N.to_nat row_count) (me_columns m) cells) = (λ l, concat l) <$> show_segs segs ∧
        vlen (segs ≫= g_cells) = vlen cells
    end.
Proof.
  intros Hgeo He Hn Hr Hl. destruct (geometry_bounds _ _ _ _ Hgeo) as (H1 & H2 & H3 & H4 & H5 & H6).
  destruct (split_rows_ok (N.to_nat row_count) (me_columns m) cells) as (Hcat & Hlen & Hcnt); [lia|].
  set (lines := split_rows (N.to_nat row_count) (me_columns m) cells) in *.
  unfold encode_cells_v2. rewrite Hgeo. cbn [try_ ok].
  rewrite (proj2 (N.eqb_neq row_count 0)), !(proj2 (N.leb_gt _ _)), (proj2 (N.ltb_ge _ _)) by lia. cbn [orb].
  rewrite checked_mul_ok by (unfold usize_max, u64_max; nia). cbn [ok_or try_ ok]. rewrite Hl, N.eqb_refl. cbn [negb orb N.eqb].
  destruct (plan_v2_spec (me_columns m) (conj H3 H4) lines) as (r & Hp & Hpl & Hne); [|apply Forall_concat; by rewrite Hcat|done|lia|].
  { intros Hz. rewrite Hz in Hcnt. cbn in Hcnt. lia. }
  rewrite Hcat in Hp. rewrite Hp. destruct r as [spans|e]; cbn [try_]; [|eexists; by split].
  destruct Hpl as (segs & -> & Ht & Hsc & Hshow & Hbound). specialize (Hne _ eq_refl). rewrite Hcat in Hsc. rewrite length_fmap.
  destruct (N.leb_spec (vlen segs) u16_max) as [Hmax|Hmax].
  2: { eexists. split; [done|]. destruct (show_lines lines); [|done]. specialize (Hbound ltac:(done)). unfold u16_max in Hmax. lia. }
  cbn [try_ ok]. rewrite (encode_spans_ok m kind base (vlen segs) Hgeo Hmax first_row segs 0 0 cells []); cycle 1; try done; try (by rewrite Hsc).
  - pose proof (tiled_rows _ 0 segs row_count H3 Ht) as Hrows. eapply Forall_impl; [apply Hrows; rewrite Hsc; lia|]. cbn. lia.
  - unfold u16_max in Hmax. change (2 ^ 40) with 1099511627776. change (2 ^ 21) with 2097152. lia.
  - cbn [try_ ok fst snd]. eexists. split; [done|]. exists (shift_seg first_row <$> segs). cbn [eb_frames eb_total_bytes].
    rewrite length_fmap, shift_wire, shift_cells, Hsc, Hshow, <- (shift_lines first_row segs), show_segs_lines.
    split_and!; try done.
    + intros Hz%fmap_nil_inv. by rewrite Hz in Hne.
    + replace (first_row * me_columns m) with (first_row * me_columns m + 0) by lia. by apply tiled_shift.
    + apply (tiled_placed m first_row 0); [done|done|by rewrite Hsc|]. rewrite Hsc. nia.
Qed.

(** * The client's side of a batch *)

(** The client is not in the middle of another batch of this generation: it holds nothing,
    or chunks of an update that the new one supersedes. *)
Definition starts_fresh (generation : N) c : Prop :=
  cl_pending c = no_pending ∨ ∃ first, head (pb_chunks (cl_pending c)) = Some first ∧ dk_generation first ≠ generation.

(** What reaches the client of a batch, in order. *)
Definition sent (b : EncodedDisplayBatch) : list (list N) := into_transport_batches b ≫= eb_frames.

(** The cells a batch leaves, if the cache is one it applies to. *)
Definition updated (m : DisplayMeta) (kind : DisplayKind) (base first_row row_count : N) (cache : DisplayCache) ds
    : option (list DisplayCell) :=
  match kind with
  | DK_Snapshot => Some ds
  | DK_Delta =>
    if accepts m DK_Delta base cache
    then Some (take (N.to_nat (first_row * me_columns m)) (ca_cells cache) ++ ds
               ++ drop (N.to_nat ((first_row + row_count) * me_columns m)) (ca_cells cache))
    else None
  end.

Definition cache_wf (cache : DisplayCache) : Prop := vlen (ca_cells cache) = ca_rows cache * ca_columns cache.

Definition committed (b : EncodedDisplayBatch) c (cache : DisplayCache) : Prop :=
  ∃ k, receive_all (sent b) c = Some (replicate k CO_Waiting ++ [CO_Committed], mkClient no_pending cache).

Section receive.
Context (m : DisplayMeta) (kind : DisplayKind) (base : N).
Hypothesis Hgeo : validate_geometry (me_rows m) (me_columns m) (me_cursor_row m) (me_cursor_col m) = ok tt.
Hypothesis Hgen : fits 8 (me_generation m).
Hypothesis Hbase : fits 8 base.
Hypothesis Hkind : kind = DK_Snapshot → base = 0.

(** A superseded assembly is as good as none. *)
Lemma receive_fresh count segs c :
  count ≤ u16_max → segs ≠ [] → Forall (placed m) segs → 0 < count → starts_fresh (me_generation m) c →
  receive_all (seg_frames m kind base count 0 segs) c = receive_all (seg_frames m kind base count 0 segs) (mkClient no_pending (cl_cache c)).
Proof using Hgeo Hgen Hbase Hkind.
  intros Hc Hne Hp H0 Hf. destruct segs as [|s segs]; [done|]. apply Forall_cons in Hp as [Hp _]. cbn [seg_frames receive_all].
  assert (receive_display (seg_frame m kind base count s 0) c
          = receive_display (seg_frame m kind base count s 0) (mkClient no_pending (cl_cache c))) as ->; [|done].
  unfold receive_display. pose proof (decode_seg_frame m kind base count Hgeo Hgen Hbase Hkind Hc s 0 Hp H0) as Hd.
  destruct (show_lines (g_lines s)) as [ds|]; [|by destruct Hd as [e ->]]. rewrite Hd. cbn [mbind option_bind ok].
  unfold accept_display_chunk. cbn [cl_pending cl_cache]. destruct Hf as [->|(first & Hh & Hg)]; [done|].
  assert (superseded (cl_pending c) (seg_chunk m kind base s 0 count ds) = true) as Hs.
  { unfold superseded. rewrite Hh. cbn [dk_chunk_index seg_chunk dk_kind dk_schema dk_generation]. cbn [N.eqb andb].
    rewrite (proj2 (N.eqb_neq (me_generation m) _)) by done. cbn [negb]. by rewrite !orb_true_r. }
  unfold push. rewrite Hs. done.
Qed.

Lemma apply_updated count segs shown cache first_row row_count :
  segs ≠ [] → count = vlen segs → show_segs segs = Some shown → Forall (placed m) segs →
  tiled (me_columns m) (first_row * me_columns m) segs → vlen (segs ≫= g_cells) = row_count * me_columns m →
  first_row + row_count ≤ me_rows m → (kind = DK_Snapshot → first_row = 0 ∧ row_count = me_rows m) → cache_wf cache →
  let r := apply_chunks (seg_chunks m kind base count 0 segs shown) cache in
  match updated m kind base first_row row_count cache (concat shown) with
  | Some cells => r = Ret tt (shown_cache m cells)
  | None => ∃ e, r = Fail e cache ∧ resyncs e = true
  end.
Proof using Hgeo.
  clear Hkind. intros Hne Hc Hs Hp Ht Hv Hr Hk Hwf. cbn zeta. destruct (show_segs_length _ _ Hs) as [_ Hl].
  assert (Forall (λ s, g_row s + vlen (g_lines s) ≤ me_rows m) segs) as Hrows
    by (eapply Forall_impl; [exact Hp|]; by intros s (_ & _ & _ & ? & _)).
  unfold updated. destruct kind.
  - destruct (Hk eq_refl) as [-> ->]. apply (apply_snapshot m base count segs shown); try done. lia.
  - destruct (accepts m DK_Delta base cache) eqn:Ha; [|by apply (apply_delta_refused m base count segs shown)].
    set (lo := first_row * me_columns m) in *. set (hi := (first_row + row_count) * me_columns m).
    assert (hi = lo + row_count * me_columns m) as Hhi by (unfold hi, lo; lia).
    assert (hi ≤ vlen (ca_cells cache)).
    { unfold accepts in Ha. apply andb_true_iff in Ha as [[_ Ha1%N.eqb_eq]%andb_true_iff Ha2%N.eqb_eq].
      unfold cache_wf in Hwf. rewrite Hwf, Ha1, Ha2. unfold hi. nia. }
    apply (apply_delta m base count segs shown Hgeo Hne Hc Hs Hrows cache first_row (take (N.to_nat lo) (ca_cells cache))
             (take (N.to_nat (row_count * me_columns m)) (drop (N.to_nat lo) (ca_cells cache)))); try done.
    + replace (N.to_nat hi) with (N.to_nat lo + N.to_nat (row_count * me_columns m))%nat by lia. apply take_mid_drop.
    + rewrite length_take. lia.
    + rewrite length_take, length_drop. lia.
Qed.

Lemma batch_received first_row row_count cells c :
  Forall encodable cells → 1 ≤ row_count → first_row + row_count ≤ me_rows m → vlen cells = row_count * me_columns m →
  (kind = DK_Snapshot → first_row = 0 ∧ row_count = me_rows m) → starts_fresh (me_generation m) c → cache_wf (cl_cache c) →
  ∃ r, encode_cells_v2 m kind base first_row 0 row_count cells = Some r ∧
    match r, show_lines (split_rows (N.to_nat row_count) (me_columns m) cells) with
    | Ok b, Some ds =>
      match (if MAX_LOGICAL_DISPLAY_BYTES <? eb_total_bytes b then None
             else updated m kind base first_row row_count (cl_cache c) ds) with
      | Some shown => committed b c (shown_cache m shown)
      | None => refused_by (sent b) c
      end
    | Ok b, None => refused_by (sent b) c
    | Err _, shown => shown = None
    end.
Proof using Hgeo Hgen Hbase Hkind.
  intros He Hn Hr Hl Hk Hf Hwf. destruct (encode_batch m kind base first_row row_count cells) as (r & Hr' & Hb); try done.
  exists r. split; [done|]. destruct r as [b|e]; [|done].
  destruct Hb as (segs & Hfr & Htot & Hne & Hmax & Ht & Hp & -> & Hv). unfold committed, refused_by, sent. rewrite transport_frames, Hfr, Htot.
  assert (0 < vlen segs) by (destruct segs; cbn [length]; [done|lia]). rewrite receive_fresh by done.
  pose proof (receive_segs m kind base (vlen segs) Hgeo Hgen Hbase Hkind Hmax segs [] [] (first_row * me_columns m) (cl_cache c)) as Hrec.
  cbn [app] in Hrec. specialize (Hrec Hne Ht Hp eq_refl). cbn zeta in Hrec.
  specialize (Hrec ltac:(intros Hks; destruct (Hk Hks) as [-> _]; lia) eq_refl ltac:(done)).
  change (pending_of m kind base (vlen segs) [] []) with no_pending in Hrec.
  change (seg_frames m kind base (vlen segs) (vlen []) segs) with (seg_frames m kind base (vlen segs) 0 segs) in Hrec.
  destruct (show_segs segs) as [shown|] eqn:Hs; cbn [fmap option_fmap option_map]; [|done].
  destruct (_ <? _); [done|].
  pose proof (apply_updated (vlen segs) segs shown (cl_cache c) first_row row_count Hne eq_refl Hs Hp Ht ltac:(lia) Hr Hk Hwf) as Ha.
  cbn zeta in Ha. destruct (updated _ _ _ _ _ _ _) as [u|].
  - rewrite Ha in Hrec. eauto.
  - destruct Ha as (e & Ha & Hre). rewrite Ha in Hrec. by apply Hrec.
Qed.
End receive.

(** * Projections *)

(** What the client is to show of the [n] rows of a projection; [None] if it cannot. *)
Definition projected p (n : N) : option (list DisplayCell) := show_lines (split_rows (N.to_nat n) (tp_columns p) (tp_cells p)).

Definition cache_of p ds : DisplayCache := shown_cache (meta_of p) ds.

(** The cache shows the screen [q]. *)
Definition mirrors (cache : DisplayCache) q : Prop := ∃ ds, projected q (tp_rows q) = Some ds ∧ cache = cache_of q ds.

(** The screen [q] with the rows of the update [p]. *)
Definition overlay q p : TerminalProjection :=
  mkProjection (tp_rows p) (tp_columns p) (tp_cursor_row p) (tp_cursor_col p) (tp_cursor_visible p)
    (tp_alternate_screen p) (tp_generation p) (projection_damage_full (tp_rows p))
    (take (N.to_nat (pd_first_row (tp_damage p) * tp_columns p)) (tp_cells q) ++ tp_cells p
     ++ drop (N.to_nat ((pd_first_row (tp_damage p) + damage_row_count (tp_damage p)) * tp_columns p)) (tp_cells q)).

Lemma validate_snapshot_ok p :
  validate_snapshot p = ok tt →
  validate_geometry (tp_rows p) (tp_columns p) (tp_cursor_row p) (tp_cursor_col p) = ok tt ∧
  vlen (tp_cells p) = tp_rows p * tp_columns p.
Proof.
  unfold validate_snapshot. destruct (validate_geometry _ _ _ _) as [[[]|e]|] eqn:Hg; [|done..]. cbn [try_ ok].
  destruct (geometry_bounds _ _ _ _ Hg) as (H1 & H2 & H3 & H4 & H5 & H6).
  rewrite checked_mul_ok by (unfold usize_max, u64_max; nia). cbn [ok_or try_ ok].
  destruct (N.eqb_spec (vlen (tp_cells p)) (tp_rows p * tp_columns p)); [done|]. cbn [negb]. by rewrite orb_true_r.
Qed.

Lemma validate_update_ok p :
  validate_update p = ok tt →
  validate_geometry (tp_rows p) (tp_columns p) (tp_cursor_row p) (tp_cursor_col p) = ok tt ∧
  1 ≤ damage_row_count (tp_damage p) ∧ pd_first_row (tp_damage p) + damage_row_count (tp_damage p) ≤ tp_rows p ∧
  vlen (tp_cells p) = damage_row_count (tp_damage p) * tp_columns p.
Proof.
  unfold validate_update. destruct (validate_geometry _ _ _ _) as [[[]|e]|] eqn:Hg; [|done..]. cbn [try_ ok].
  destruct (geometry_bounds _ _ _ _ Hg) as (H1 & H2 & H3 & H4 & H5 & H6). destruct (tp_damage p) as [full lo hi].
  cbn [pd_first_row pd_last_row pd_full]. destruct (N.ltb_spec hi lo), (N.leb_spec (tp_rows p) hi); try done. cbn [orb].
  assert (damage_row_count (mkProjDamage full lo hi) = hi - lo + 1) as Hc.
  { unfold damage_row_count. cbn [pd_first_row pd_last_row]. unfold checked_sub. rewrite (proj2 (N.leb_le _ _)) by done. cbn [mbind option_bind].
    rewrite checked_add_ok by (unfold u16_max; lia). done. }
  rewrite Hc. destruct (_ && _); [done|].
  rewrite checked_mul_ok by (unfold usize_max, u64_max; nia). cbn [ok_or try_ ok].
  destruct (N.eqb_spec (vlen (tp_cells p)) ((hi - lo + 1) * tp_columns p)) as [->|]; cbn [negb]; [|by rewrite orb_true_r].
  intros _. split_and!; [done|lia|lia|done].
Qed.

(** The rows of an update replace the same rows of what is shown. *)
Lemma projected_overlay q p dq ds :
  let lo := pd_first_row (tp_damage p) in let n := damage_row_count (tp_damage p) in
  projected q (tp_rows q) = Some dq → projected p n = Some ds → tp_rows q = tp_rows p → tp_columns q = tp_columns p →
  lo + n ≤ tp_rows p → vlen (tp_cells q) = tp_rows q * tp_columns q → vlen (tp_cells p) = n * tp_columns p →
  projected (overlay q p) (tp_rows p)
  = Some (take (N.to_nat (lo * tp_columns p)) dq ++ ds ++ drop (N.to_nat ((lo + n) * tp_columns p)) dq).
Proof.
  cbn zeta. unfold projected, overlay. set (lo := pd_first_row (tp_damage p)). set (n := damage_row_count (tp_damage p)).
  cbn [tp_columns tp_cells]. intros Hq Hp Hr Hc Hn Hvq Hvp. rewrite Hr, Hc in *.
  set (w := tp_columns p) in *. set (l := N.to_nat (lo * w)). set (k := N.to_nat (n * w)).
  replace (N.to_nat ((lo + n) * w)) with (l + k)%nat by lia.
  replace (N.to_nat (tp_rows p)) with (N.to_nat lo + (N.to_nat n + N.to_nat (tp_rows p - lo - n)))%nat in * by lia.
  rewrite (take_mid_drop (tp_cells q) l k) in Hq. assert (N.of_nat l + N.of_nat k ≤ vlen (tp_cells q)) by (rewrite Hvq; nia).
  rewrite split_rows_app in Hq by (rewrite length_take; lia). rewrite split_rows_app in Hq by (rewrite length_take, length_drop; lia).
  rewrite split_rows_app by (rewrite length_take; lia). rewrite split_rows_app by lia.
  rewrite !show_lines_app in *. rewrite Hp.
  destruct (split_rows_ok (N.to_nat lo) w (take l (tp_cells q))) as (Hca & _); [rewrite length_take; lia|].
  destruct (split_rows_ok (N.to_nat n) w (take k (drop l (tp_cells q)))) as (Hcy & _); [rewrite length_take, length_drop; lia|].
  destruct (show_lines (split_rows (N.to_nat lo) w _)) as [a|] eqn:Ha; [|done]. cbn [mbind option_bind] in Hq |- *.
  destruct (show_lines (split_rows (N.to_nat n) w (take k _))) as [y|] eqn:Hy; [|done]. cbn [mbind option_bind] in Hq |- *.
  destruct (show_lines (split_rows _ w (drop (l + k) _))) as [b|]; [|done]. cbn [mbind option_bind] in Hq |- *. injection Hq as <-.
  apply length_show_lines in Ha, Hy. rewrite Hca, length_take in Ha. rewrite Hcy, length_take, length_drop in Hy. do 2 f_equal.
  - symmetry. apply take_app_length'. lia.
  - f_equal. rewrite app_assoc. symmetry. apply drop_app_length'. rewrite length_app. lia.
Qed.

(** ** The two kinds of update *)

Section mirror.
Context (p : TerminalProjection) (c : DisplayClient).
Hypothesis Henc : Forall encodable (tp_cells p).
Hypothesis Hgen : fits 8 (tp_generation p).
Hypothesis Hfresh : starts_fresh (tp_generation p) c.
Hypothesis Hwf : cache_wf (cl_cache c).

Lemma snapshot_mirrors :
  validate_snapshot p = ok tt →
  ∃ r, encode_snapshot_v2 p = Some r ∧
    match r, projected p (tp_rows p) with
    | Ok b, Some ds =>
      if MAX_LOGICAL_DISPLAY_BYTES <? eb_total_bytes b then refused_by (sent b) c else committed b c (cache_of p ds)
    | Ok b, None => refused_by (sent b) c
    | Err _, shown => shown = None
    end.
Proof using Henc Hgen Hfresh Hwf.
  intros Hv. destruct (validate_snapshot_ok p Hv) as [Hgeo Hl]. destruct (geometry_bounds _ _ _ _ Hgeo) as (H1 & _).
  destruct (batch_received (meta_of p) DK_Snapshot 0 Hgeo Hgen ltac:(done) ltac:(done) 0 (tp_rows p) (tp_cells p) c) as (r & Hr & Hm);
    try done.
  exists r. unfold encode_snapshot_v2. rewrite Hv. split; [done|]. destruct r as [b|e]; [|done].
  unfold projected. cbn [meta_of me_columns] in Hm. destruct (show_lines _); [|done]. by destruct (_ <? _).
Qed.

Lemma delta_mirrors q :
  validate_update p = ok tt → fits 8 (tp_generation q) → mirrors (cl_cache c) q → vlen (tp_cells q) = tp_rows q * tp_columns q →
  tp_rows q = tp_rows p → tp_columns q = tp_columns p →
  ∃ r, encode_delta_v2 p (tp_generation q) = Some r ∧
    match r, projected p (damage_row_count (tp_damage p)) with
    | Ok b, Some _ =>
      if MAX_LOGICAL_DISPLAY_BYTES <? eb_total_bytes b then refused_by (sent b) c
      else ∃ cache, committed b c cache ∧ mirrors cache (overlay q p)
    | Ok b, None => refused_by (sent b) c
    | Err _, shown => shown = None
    end.
Proof using Henc Hgen Hfresh Hwf.
  intros Hv Hgq (dq & Hq & Hcq) Hlq Hrows Hcols. destruct (validate_update_ok p Hv) as (Hgeo & H1 & Hn & Hl).
  destruct (batch_received (meta_of p) DK_Delta (tp_generation q) Hgeo Hgen Hgq ltac:(done) (pd_first_row (tp_damage p))
    (damage_row_count (tp_damage p)) (tp_cells p) c) as (r & Hr & Hm); try done.
  exists r. unfold encode_delta_v2. rewrite Hv. split; [done|]. destruct r as [b|e]; [|done].
  unfold projected at 1. cbn [meta_of me_columns] in Hm. destruct (show_lines _) as [ds|] eqn:Hs; [|done].
  destruct (_ <? _); [done|]. unfold updated, accepts in Hm. rewrite Hcq in Hm. cbn [ca_generation ca_rows ca_columns cache_of shown_cache meta_of
    me_generation me_rows me_columns] in Hm. rewrite Hrows, Hcols, !N.eqb_refl in Hm. cbn [andb] in Hm.
  eexists. split; [exact Hm|]. eexists. split; [exact (projected_overlay q p dq ds Hq Hs Hrows Hcols Hn Hlq Hl)|done].
Qed.

(** A delta for another generation or another geometry is refused. *)
Lemma delta_refused base b :
  validate_update p = ok tt → fits 8 base → encode_delta_v2 p base = ok b →
  (ca_generation (cl_cache c), ca_rows (cl_cache c), ca_columns (cl_cache c)) ≠ (base, tp_rows p, tp_columns p) → refused_by (sent b) c.
Proof using Henc Hgen Hfresh Hwf.
  intros Hv Hb He Hne. destruct (validate_update_ok p Hv) as (Hgeo & H1 & Hn & Hl).
  destruct (batch_received (meta_of p) DK_Delta base Hgeo Hgen Hb ltac:(done) (pd_first_row (tp_damage p))
    (damage_row_count (tp_damage p)) (tp_cells p) c) as (r & Hr & Hm); try done.
  unfold encode_delta_v2 in He. rewrite Hv in He. cbn [try_ ok] in He. rewrite Hr in He. injection He as ->.
  destruct (show_lines _); [|done]. destruct (_ <? _); [done|]. unfold updated, accepts in Hm.
  cbn [meta_of me_rows me_columns] in Hm.
  destruct (N.eqb_spec (ca_generation (cl_cache c)) base), (N.eqb_spec (ca_rows (cl_cache c)) (tp_rows p)),
    (N.eqb_spec (ca_columns (cl_cache c)) (tp_columns p)); try done. destruct Hne. congruence.
Qed.
End mirror.
