(* ===== verification/ProjectionSafe.v ===== *)
(** The projection of a reachable terminal: it is always defined, one row at a time, and its
    cells are ones the display protocol can carry. *)

From S2P Require Import Parser.
From S2P Require Import Prelude Utf8 Types Damage LineIds GraphemeStore HistoryTypes Screen ScreenSafe Grapheme Osc Selection Core CoreSafe.
From S2P Require Import Projection Wire WirePane WireText WireMessage Display DisplayEncode DisplayCells.

Section projection.
Context {H : Type} `{HistoryLaws H} `{UnicodeTables} `{DequeCapacity}.
Implicit Types (t : TerminalState H) (acc ps : list ProjectionCell) (xs : list Cell).

(** * One cell *)

(** The style a continuation takes is that of the projected cell before it. *)
Lemma project_cell_skip t c r acc ps :
  c = 0 ∨ ps ≠ [] → project_cell t c r (acc ++ ps) = project_cell t c r ps.
Proof.
  intros Hp. unfold project_cell. destruct (cell c r (current t.2)) as [x|]; [|done]. cbn [mbind option_bind].
  destruct (lead_utf8 t c r) as [txt|]; [|done]. cbn [mbind option_bind].
  destruct ps as [|p ps] using rev_ind; [|by rewrite app_assoc, !last_snoc].
  destruct Hp as [-> | Hp]; [|done]. rewrite app_nil_r. by destruct (role (default cell_default x)).
Qed.

Lemma is_text_scalar bytes :
  is_text bytes → ∃ ch chars, first_scalar bytes = Some ch ∧ Forall (λ ch, is_scalar ch = true) (ch :: chars) ∧
    bytes = utf8_bytes (ch :: chars).
Proof.
  intros (ch & chars & Hs & ->). exists ch, chars. split_and!; [|done..]. unfold first_scalar. by rewrite from_utf8_bytes.
Qed.

Lemma color_carried x : color_in x → color_ok (proj_color (projection_color x)).
Proof. destruct x; cbn; unfold u8_max; lia. Qed.

(** The bytes of a lead, whatever the store holds under its identity. *)
Definition lead_bytes (g : GraphemeStore) (x : Cell) : list N :=
  if overflow x then [239; 191; 189]
  else match get (store_id x) g with Some bytes => bytes | None => encode_utf8 (character x) end.

Lemma lead_bytes_text g x :
  store_ok g → is_scalar (character x) = true → is_text (lead_bytes g x) ∧ vlen (lead_bytes g x) ≤ MAX_GRAPHEME_UTF8_BYTES.
Proof.
  intros [Hg Ht] Hx. unfold lead_bytes. destruct (overflow x).
  { split; [|done]. exists 65533, []. split; [by repeat constructor|done]. }
  destruct (get (store_id x) g) as [bytes|] eqn:Hget.
  - split; [eauto|]. unfold get in Hget. destruct (_ =? _); [done|].
    destruct (entries g !! N.to_nat (store_id x)) as [[y|]|] eqn:Hy; cbn in Hget; simplify_eq.
    by destruct (sw_payload g Hg _ _ Hy).
  - split; [exists (character x), []; split; [by repeat constructor|cbn; by rewrite app_nil_r]|].
    unfold encode_utf8, MAX_GRAPHEME_UTF8_BYTES. repeat case_match; cbn; lia.
Qed.

Lemma normalized_cases previous rl :
  normalized_role previous rl = Empty ∨ normalized_role previous rl = Continuation ∨ (normalized_role previous rl = Lead ∧ rl = Lead).
Proof. unfold normalized_role. destruct rl; cbn; [auto..|]. destruct (negb _); cbn; auto. Qed.

Section one.
Context (c r : N) (t : TerminalState H).
Hypothesis Ht : terminal_wf c r t.

Lemma current_wf : screen_wf (current t.2) ∧ cols (current t.2) = c ∧ rows (current t.2) = r ∧ store_ok (grapheme_store t.2).
Proof using Ht. destruct Ht as (_ & _ & Hi). destruct (current_in c r t.2 Hi) as (? & ? & ?). split_and!; [done..|]. apply Hi. Qed.

(** The cell at a place of the grid. *)
Definition cell_at (j i : N) : Cell := default cell_default (vget (cells (current t.2)) (i * c + j)).

Lemma cell_at_get j i : j < c → i < r → cell j i (current t.2) = Some (Some (cell_at j i)) ∧ cell_ok (cell_at j i).
Proof using Ht.
  intros Hj Hi. destruct current_wf as (Hs & Hc & Hr & _). destruct (w_cells _ Hs) as [Hl Hf].
  unfold cell, cell_at, index_of. rewrite Hc, Hr in *. rewrite !(proj2 (N.leb_gt _ _)) by lia. cbn [orb].
  destruct (vget_Some (cells (current t.2)) (i * c + j)) as [x Hx]; [nia|]. rewrite Hx. cbn. split; [done|].
  by eapply (Forall_lookup_1 cell_ok).
Qed.

Lemma highlight_defined j i : j < c → i < r → ∃ b, host_highlight t j i = Some b.
Proof using Ht.
  intros Hj Hi. destruct current_wf as (Hs & Hc & Hr & _). destruct (w_anchors _ Hs) as [Hl _].
  assert (∃ a, cell_anchor j i (current t.2) = Some a) as [a Ha].
  { unfold cell_anchor, index_of. rewrite Hc, Hr in *. rewrite !(proj2 (N.ltb_lt _ _)) by lia. apply vget_Some. nia. }
  assert (∃ b, selection_covers_cell t j i = Some b) as [b Hb].
  { unfold selection_covers_cell. repeat case_match; try by eexists. rewrite Ha. cbn. by eexists. }
  unfold host_highlight. rewrite Hb. cbn. by eexists.
Qed.

(** What is projected of a cell after [previous] in its row. *)
Definition carries (previous : option (CellRole * N)) (x : Cell) (p : ProjectionCell) : Prop :=
  encodable p ∧ pj_role p = normalized_role previous (role x) ∧
  (pj_role p = Lead → pj_width p = width x ∧ pj_text p = lead_bytes (grapheme_store t.2) x).

Lemma project_cell_ok j i ps :
  j < c → i < r → Forall encodable ps → (j = 0 ↔ ps = []) →
  ∃ p, project_cell t j i ps = Some p ∧ carries ((λ p, (pj_role p, pj_width p)) <$> last ps) (cell_at j i) p.
Proof using Ht.
  intros Hj Hi Hps Hz. destruct (cell_at_get j i Hj Hi) as [Hx [[Hfg Hbg] Hok]]. destruct (highlight_defined j i Hj Hi) as [hl Hhl].
  destruct current_wf as (_ & _ & _ & Hstore). unfold project_cell, lead_utf8. rewrite Hx. cbn [mbind option_bind from_option]. unfold id.
  set (x := cell_at j i) in *. set (previous := (if 0 <? j then _ else _) : option (CellRole * N)).
  assert (previous = (λ p, (pj_role p, pj_width p)) <$> last ps) as Hprev.
  { unfold previous. destruct (N.ltb_spec 0 j) as [?|?]; [done|]. by rewrite (proj1 Hz) by lia. }
  clearbody previous. set (rl := normalized_role previous (role x)).
  match goal with |- context [match ?e with (_, _) => _ end] => set (style := e) end. assert (color_ok (proj_color style.1.1) ∧ color_ok (proj_color style.1.2)) as [Hs1 Hs2].
  { unfold style. fold rl. destruct (bool_decide (rl = Continuation)); [|split; by apply color_carried].
    destruct (last ps) as [q|] eqn:Hl; [|split; by apply color_carried].
    apply last_Some_elem_of in Hl. rewrite Forall_forall in Hps. by destruct (Hps q Hl) as (? & ? & _). }
  destruct style as [[fgc bgc] att]. cbn [fst snd] in Hs1, Hs2. rewrite Hhl.
  assert (∃ hb, (if bool_decide (rl = Continuation) then Some false else Some hl) = Some hb) as [hb ->] by (destruct (bool_decide (rl = Continuation)); eauto).
  cbn [mbind option_bind]. eexists. split; [done|]. unfold carries. cbn [pj_role pj_width pj_text]. rewrite <- Hprev. fold rl.
  destruct (normalized_cases previous (role x)) as [Hrl|[Hrl|[Hrl Hlead]]]; fold rl in Hrl; rewrite Hrl in *; cbn [bool_decide].
  1-2: by (split; [split_and!|]).
  rewrite Hlead in *. change (bool_decide (Lead = Empty) || bool_decide (Lead = Continuation)) with false.
  cbv iota. fold (lead_bytes (grapheme_store t.2) x).
  destruct Hok as (Hch & Hw1 & Hw2), (lead_bytes_text _ x Hstore Hch) as [Htext Hlen].
  destruct (is_text_scalar _ Htext) as (ch & chars & Hfirst & Hall & Hbytes). rewrite Hfirst. cbn [from_option].
  split_and!; [|done|done]. split_and!; [done|done|]. cbn. split_and!; [lia|done|]. by exists chars.
Qed.

(** * Rows *)

Definition last_shape ps : option (CellRole * N) := (λ p, (pj_role p, pj_width p)) <$> last ps.

Fixpoint cells_from (n : nat) (j i : N) : list Cell :=
  match n with O => [] | S n => cell_at j i :: cells_from n (j + 1) i end.

Fixpoint projects (previous : option (CellRole * N)) xs ps : Prop :=
  match xs, ps with
  | [], [] => True
  | x :: xs, p :: ps => carries previous x p ∧ projects (Some (pj_role p, pj_width p)) xs ps
  | _, _ => False
  end.

Lemma project_cols_ok n j i ps :
  j + N.of_nat n ≤ c → i < r → Forall encodable ps → (j = 0 ↔ ps = []) →
  ∃ qs, project_cols t i n j ps = Some (ps ++ qs) ∧ projects (last_shape ps) (cells_from n j i) qs ∧ length qs = n.
Proof using Ht.
  revert j ps. induction n as [|n IH]; intros j ps Hj Hi Hps Hz; cbn [project_cols cells_from].
  { exists []. by rewrite app_nil_r. }
  destruct (project_cell_ok j i ps ltac:(lia) Hi Hps Hz) as (p & -> & Hp). cbn [mbind option_bind].
  destruct (IH (j + 1) (ps ++ [p])) as (qs & -> & Hqs & Hlen); [lia|done| | |].
  - apply Forall_app. split; [done|]. constructor; [apply Hp|done].
  - split; [lia|]. intros Hnil. by destruct ps.
  - exists (p :: qs). rewrite <- app_assoc. split_and!; [done| |cbn; lia]. split; [done|].
    unfold last_shape in Hqs. by rewrite last_snoc in Hqs.
Qed.

Lemma project_cols_skip n j i acc ps :
  j = 0 ∨ ps ≠ [] → project_cols t i n j (acc ++ ps) = (λ l, acc ++ l) <$> project_cols t i n j ps.
Proof using Type.
  revert j ps. induction n as [|n IH]; intros j ps Hz; cbn [project_cols]; [done|].
  rewrite project_cell_skip by done. destruct (project_cell t j i ps) as [p|]; [|done]. cbn [mbind option_bind].
  rewrite <- app_assoc. apply IH. right. by destruct ps.
Qed.

(** A row of the projection does not depend on the rows before it. *)
Definition project_row (i : N) : option (list ProjectionCell) := project_cols t i (N.to_nat c) 0 [].

Fixpoint project_lines (n : nat) (i : N) : option (list (list ProjectionCell)) :=
  match n with
  | O => Some []
  | S n => l ← project_row i; lines ← project_lines n (i + 1); Some (l :: lines)
  end.

Lemma project_rows_lines n i acc :
  project_rows t n i acc = (λ lines, acc ++ concat lines) <$> project_lines n i.
Proof using Ht.
  revert i acc. induction n as [|n IH]; intros i acc; cbn [project_rows project_lines].
  { cbn. by rewrite app_nil_r. }
  destruct current_wf as (_ & Hc & _). rewrite Hc. rewrite <- (app_nil_r acc) at 1. rewrite project_cols_skip by auto.
  unfold project_row. destruct (project_cols t i (N.to_nat c) 0 []) as [l|]; cbn [fmap option_fmap option_map mbind option_bind]; [|done].
  rewrite IH. destruct (project_lines n (i + 1)) as [lines|]; cbn; [|done]. by rewrite <- app_assoc.
Qed.

Definition line_of (i : N) (l : list ProjectionCell) : Prop :=
  vlen l = c ∧ Forall encodable l ∧ projects None (cells_from (N.to_nat c) 0 i) l.

Lemma project_row_ok i : i < r → ∃ l, project_row i = Some l ∧ line_of i l.
Proof using Ht.
  intros Hi. unfold project_row. destruct (project_cols_ok (N.to_nat c) 0 i []) as (l & Hl & Hp & Hlen); [lia|done|constructor|done|].
  exists l. split; [done|]. unfold line_of. split_and!; [lia| |done]. clear Hl Hlen. revert Hp. generalize (cells_from (N.to_nat c) 0 i), (last_shape []).
  induction l as [|p l IH]; intros [|x xs] prev; cbn; try done. intros [Hp Hl]. constructor; [apply Hp|by eapply IH].
Qed.

(** * What the client can show of a row *)

(** Every wide lead is followed by its continuation. *)
Fixpoint leads_paired xs : bool :=
  match xs with
  | [] => true
  | x :: xs =>
    (if bool_decide (role x = Lead) && (width x =? 2)
     then match xs with y :: _ => bool_decide (role y = Continuation) | [] => false end else true)
    && leads_paired xs
  end.

Definition due (previous : option (CellRole * N)) : bool :=
  match previous with Some (rl, w) => bool_decide (rl = Lead) && (2 <=? w) | None => false end.

Definition shown_all (pending : option CellStyle) ps : bool :=
  match show pending ps with Some (_, None) => true | _ => false end.

Lemma show_projects previous xs ps pending :
  projects previous xs ps → (bool_decide (is_Some pending) = due previous) →
  shown_all pending ps =
    (if due previous then match xs with y :: _ => bool_decide (role y = Continuation) | [] => false end else true) && leads_paired xs.
Proof using Type.
  revert previous ps pending. induction xs as [|x xs IH]; intros previous [|p ps] pending; cbn [projects leads_paired]; try done.
  - intros _ Hd. unfold shown_all. cbn. destruct pending, (due previous); done.
  - intros [(He & Hr & Hw) Hps] Hd. pose proof (λ q, IH _ ps q Hps) as IHp. clear IH Hps.
    assert (∀ d q, show_cell pending p = Some (d, q) → shown_all pending (p :: ps) = shown_all q ps) as Hcons.
    { intros d q Hq. unfold shown_all. cbn [show]. rewrite Hq. cbn [mbind option_bind fst snd]. by destruct (show q ps) as [[? ?]|]. }
    assert (show_cell pending p = None → shown_all pending (p :: ps) = false) as Hnone.
    { intros Hq. unfold shown_all. cbn [show]. by rewrite Hq. }
    unfold normalized_role in Hr. fold (due previous) in Hr. unfold show_cell in Hcons, Hnone.
    destruct (due previous), pending as [[[fgc bgc] att]|]; try done; cbn [negb] in Hr; rewrite ?andb_true_r, ?andb_false_r in Hr.
    + rewrite Hr in *. destruct (role x); [by rewrite Hnone..|]. rewrite (Hcons _ _ eq_refl). by rewrite (IHp None).
    + destruct (role x) eqn:Hx; cbn in Hr; rewrite Hr in *.
      * rewrite (Hcons _ _ eq_refl). by rewrite (IHp None).
      * destruct (Hw eq_refl) as [Hwd _]. rewrite (Hcons _ _ eq_refl). destruct He as (_ & _ & He). rewrite Hr in He.
        destruct He as [Hwidth _]. rewrite IHp; cbn [due]; rewrite <- ?Hwd; by destruct Hwidth as [-> | ->].
      * rewrite (Hcons _ _ eq_refl). by rewrite (IHp None).
Qed.

Lemma show_line_paired i l : line_of i l → is_Some (show_line l) ↔ leads_paired (cells_from (N.to_nat c) 0 i) = true.
Proof using Type.
  intros (_ & _ & Hp). pose proof (show_projects None _ _ None Hp eq_refl) as Hs. cbn [due andb] in Hs. rewrite <- Hs.
  unfold shown_all, show_line. destruct (show None l) as [[d [q|]]|]; split; try done; by intros [? ?].
Qed.
End one.
End projection.
