(* ===== verification/DisplayTerminal.v ===== *)
(** From the terminal to the client: what a display client holds after an update is the
    screen of the terminal. *)

From S2P Require Import Parser.
From S2P Require Import Prelude Utf8 Types Damage LineIds GraphemeStore HistoryTypes Screen ScreenSafe Grapheme Osc Selection Core CoreSafe.
From S2P Require Import Projection Wire WirePane WireText WireMessage Display DisplayEncode DisplayClient DisplayCells.
From S2P Require Import DisplayPlan DisplayApply DisplayBatch DisplayMirror ProjectionSafe.

Lemma split_rows_concat (columns : N) (lines : list (list ProjectionCell)) :
  Forall (λ l, vlen l = columns) lines → split_rows (length lines) columns (concat lines) = lines.
Proof.
  induction 1 as [|l lines Hl _ IH]; cbn [length split_rows concat]; [done|].
  rewrite take_app_length', drop_app_length' by lia. by rewrite IH.
Qed.

Section terminal.
Context {H : Type} `{HistoryLaws H} `{UnicodeTables} `{DequeCapacity}.
Implicit Types (t : TerminalState H) (d : ProjectionDamage) (c r : N).

(** Every wide lead in the [n] rows from [i] has its continuation. *)
Fixpoint rows_paired t (n : nat) (i : N) : bool :=
  match n with
  | O => true
  | S n => leads_paired (cells_from (cols (current t.2)) t (N.to_nat (cols (current t.2))) 0 i) && rows_paired t n (i + 1)
  end.

Lemma project_lines_shown c r t n i :
  terminal_wf c r t → i + N.of_nat n ≤ r →
  ∃ lines, project_lines c t n i = Some lines ∧ length lines = n ∧ Forall (λ l, vlen l = c) lines ∧
    Forall (Forall encodable) lines ∧ (is_Some (show_lines lines) ↔ rows_paired t n i = true).
Proof.
  intros Ht. destruct (current_wf c r t Ht) as (_ & Hc & _).
  revert i. induction n as [|n IH]; intros i Hi; cbn [project_lines rows_paired]; [exists []; by split_and!|].
  destruct (project_row_ok c r t Ht i) as (l & -> & Hl); [lia|]. destruct (IH (i + 1)) as (lines & -> & Hlen & H1' & H2' & Hs); [lia|].
  exists (l :: lines). pose proof Hl as (Hv & He & _). split_and!; [done|cbn; lia|by constructor|by constructor|].
  rewrite andb_true_iff, <- Hs, Hc, <- (show_line_paired c t i l Hl). cbn [show_lines].
  destruct (show_line l) as [x|]; cbn; [|split; [by intros []|by intros [[] _]]].
  destruct (show_lines lines) as [y|]; cbn; [|split; [by intros []|by intros [_ []]]]. done.
Qed.

Lemma project_lines_app c t a b i :
  project_lines c t (a + b) i = (x ← project_lines c t a i; y ← project_lines c t b (i + N.of_nat a); Some (x ++ y)).
Proof.
  revert i. induction a as [|a IH]; intros i; cbn [Nat.add project_lines].
  { rewrite N.add_0_r. cbn. by destruct (project_lines c t b i). }
  destruct (project_row c t i) as [l|]; cbn [mbind option_bind]; [|done]. rewrite IH.
  replace (i + N.of_nat (S a)) with (i + 1 + N.of_nat a) by lia.
  destruct (project_lines c t a (i + 1)) as [x|]; cbn; [|done]. by destruct (project_lines c t b _).
Qed.

Lemma project_lines_same c t t0 n i :
  (∀ k, i ≤ k → k < i + N.of_nat n → project_row c t0 k = project_row c t k) → project_lines c t0 n i = project_lines c t n i.
Proof.
  revert i. induction n as [|n IH]; intros i Hk; cbn [project_lines]; [done|]. rewrite Hk by lia.
  rewrite IH; [done|]. intros. apply Hk; lia.
Qed.

(** * Snapshots *)

Lemma geometry_valid c r t :
  terminal_wf c r t →
  validate_geometry r c (row (cursor (current t.2))) (col (cursor (current t.2))) = ok tt.
Proof.
  intros Ht. destruct (current_wf c r t Ht) as (Hs & Hc & Hr & _). destruct Ht as ((? & ? & ? & ?) & _).
  destruct (w_cursor _ Hs) as [? ?]. rewrite Hc, Hr in *.
  unfold validate_geometry, MAX_DISPLAY_ROWS, MAX_DISPLAY_COLUMNS, MAX_TERMINAL_COLUMNS, MAX_TERMINAL_ROWS in *.
  rewrite !(proj2 (N.eqb_neq _ 0)), !(proj2 (N.ltb_ge _ _)), !(proj2 (N.leb_gt _ _)) by lia. cbn [orb].
  rewrite checked_mul_ok by (unfold usize_max, u64_max; nia). cbn [ok_or try_ ok].
  rewrite (proj2 (N.ltb_ge _ _)) by (unfold MAX_DISPLAY_CELLS; nia). done.
Qed.

Lemma projection_snapshot_ok c r t generation :
  terminal_wf c r t →
  ∃ lines, project_lines c t (N.to_nat r) 0 = Some lines ∧
    projection_snapshot t generation = Some (projection_of t generation (projection_damage_full r) (concat lines)).
Proof.
  intros Ht. destruct (current_wf c r t Ht) as (Hs & Hc & Hr & _).
  destruct (project_lines_shown c r t (N.to_nat r) 0 Ht) as (lines & Hl & _); [lia|]. exists lines. split; [done|].
  unfold projection_snapshot, copy_rows. rewrite Hr.
  replace (N.to_nat (sat_add u16_max 0 r - 0)) with (N.to_nat r)
    by (destruct Ht as ((? & ? & ? & ?) & _); unfold sat_add, u16_max, MAX_TERMINAL_ROWS in *; lia).
  rewrite (project_rows_lines c r t Ht), Hl. done.
Qed.

(** The damage of an update: all rows, or rows of the screen. *)
Definition damage_in r d : Prop := if pd_full d then True else pd_first_row d ≤ pd_last_row d ∧ pd_last_row d < r.
Definition effective r d : ProjectionDamage := if pd_full d then projection_damage_full r else d.

Lemma effective_ok c r t d :
  terminal_wf c r t → damage_in r d →
  let e := effective r d in
  pd_first_row e ≤ pd_last_row e ∧ pd_last_row e < r ∧ damage_row_count e = pd_last_row e - pd_first_row e + 1 ∧
  (pd_full e = true → pd_first_row e = 0 ∧ pd_last_row e = r - 1).
Proof.
  intros ((? & ? & ? & ?) & _) Hd. cbn zeta. unfold MAX_TERMINAL_ROWS in *.
  assert (pd_first_row (effective r d) ≤ pd_last_row (effective r d) ∧ pd_last_row (effective r d) < r) as [Hlo Hhi].
  { unfold effective, damage_in in *. destruct (pd_full d); cbn; lia. }
  split_and!; [done|done| |].
  - unfold damage_row_count, checked_sub. rewrite (proj2 (N.leb_le _ _)) by done. cbn [mbind option_bind].
    rewrite checked_add_ok by (unfold u16_max; lia). done.
  - unfold effective. destruct (pd_full d) eqn:Hf; [done|]. by rewrite Hf.
Qed.

Lemma projection_update_ok c r t generation d :
  terminal_wf c r t → damage_in r d →
  let e := effective r d in
  ∃ lines, project_lines c t (N.to_nat (damage_row_count e)) (pd_first_row e) = Some lines ∧
    projection_update t generation d = Some (projection_of t generation e (concat lines)).
Proof.
  intros Ht Hd. cbn zeta. destruct (current_wf c r t Ht) as (Hs & Hc & Hr & _).
  destruct (effective_ok c r t d Ht Hd) as (Hlo & Hhi & Hn & _).
  destruct (project_lines_shown c r t (N.to_nat (damage_row_count (effective r d))) (pd_first_row (effective r d)) Ht) as (lines & Hl & _); [lia|].
  exists lines. split; [done|]. unfold projection_update, copy_rows. rewrite Hr. fold (effective r d).
  replace (N.to_nat (sat_add u16_max (pd_first_row (effective r d)) (damage_row_count (effective r d)) - pd_first_row (effective r d)))
    with (N.to_nat (damage_row_count (effective r d)))
    by (destruct Ht as ((? & ? & ? & ?) & _); unfold sat_add, u16_max, MAX_TERMINAL_ROWS in *; lia).
  rewrite (project_rows_lines c r t Ht), Hl. done.
Qed.

(** The rows outside the damage look the same as before. *)
Definition unchanged_outside c r t0 t d : Prop :=
  let e := effective r d in
  ∀ i, i < r → i < pd_first_row e ∨ pd_last_row e < i → project_row c t0 i = project_row c t i.

Lemma take_concat (columns : N) (lines : list (list ProjectionCell)) k :
  Forall (λ l, vlen l = columns) lines → (k ≤ length lines)%nat →
  take (N.to_nat (N.of_nat k * columns)) (concat lines) = concat (take k lines) ∧
  drop (N.to_nat (N.of_nat k * columns)) (concat lines) = concat (drop k lines).
Proof.
  intros Hl Hk. rewrite <- (take_drop k lines) at 1 3. rewrite concat_app.
  assert (length (concat (take k lines)) = N.to_nat (N.of_nat k * columns)) as Hv.
  { pose proof (vlen_concat_lines (take k lines) columns (Forall_take _ _ _ Hl)) as Hv. rewrite length_take, Nat.min_l in Hv by done. lia. }
  split; [by apply take_app_length'|by apply drop_app_length'].
Qed.

(** The old screen with the rows of the update is the new screen. *)
Lemma overlay_snapshot c r t0 t g0 generation d q u p :
  terminal_wf c r t0 → terminal_wf c r t → damage_in r d → unchanged_outside c r t0 t d →
  projection_snapshot t0 g0 = Some q → projection_update t generation d = Some u → projection_snapshot t generation = Some p →
  overlay q u = p.
Proof.
  intros Ht0 Ht Hd Hsame Hq Hu Hp. destruct (effective_ok c r t d Ht Hd) as (Hlo & Hhi & Hn & _).
  destruct (projection_snapshot_ok c r t0 g0 Ht0) as (lq & Hlq & Hq'). destruct (projection_snapshot_ok c r t generation Ht) as (lp & Hlp & Hp').
  destruct (projection_update_ok c r t generation d Ht Hd) as (lu & Hlu & Hu').
  destruct (project_lines_shown c r t0 (N.to_nat r) 0 Ht0) as (lq' & Hlq' & Hlen & Hw & _); [lia|].
  rewrite Hlq in Hlq'. injection Hlq' as <-. rewrite Hq in Hq'. rewrite Hp in Hp'. rewrite Hu in Hu'. simplify_eq.
  destruct (current_wf c r t Ht) as (_ & Hc & Hr & _). unfold overlay. cbn [projection_of tp_rows tp_columns tp_damage tp_cells tp_cursor_row
    tp_cursor_col tp_cursor_visible tp_alternate_screen tp_generation]. rewrite Hr, Hc. unfold projection_of. rewrite Hr, Hc. f_equal.
  set (lo := pd_first_row (effective r d)) in *. set (n := damage_row_count (effective r d)) in *.
  destruct (take_concat c lq (N.to_nat lo) Hw) as [Ha _]; [lia|]. destruct (take_concat c lq (N.to_nat (lo + n)) Hw) as [_ Hb]; [lia|].
  rewrite !N2Nat.id in Ha, Hb. rewrite Ha, Hb, <- !concat_app. f_equal.
  replace (N.to_nat r) with (N.to_nat lo + (N.to_nat n + N.to_nat (r - lo - n)))%nat in Hlq, Hlp by lia.
  rewrite !project_lines_app in Hlq, Hlp. rewrite N2Nat.id, N.add_0_l in Hlq, Hlp. rewrite Hlu in Hlp.
  assert (project_lines c t0 (N.to_nat lo) 0 = project_lines c t (N.to_nat lo) 0) as Hpre.
  { apply project_lines_same. intros k _ Hk. apply Hsame; [lia|]. left. fold lo. lia. }
  assert (project_lines c t0 (N.to_nat (r - lo - n)) (lo + N.of_nat (N.to_nat n)) = project_lines c t (N.to_nat (r - lo - n)) (lo + N.of_nat (N.to_nat n))) as Hpost.
  { apply project_lines_same. intros k Hk1 Hk2. apply Hsame; [lia|]. right. fold lo in Hn. lia. }
  rewrite Hpre, Hpost in Hlq.
  destruct (project_lines_shown c r t (N.to_nat lo) 0 Ht) as (x & Hx & Hxl & _); [lia|].
  destruct (project_lines_shown c r t0 (N.to_nat n) lo Ht0) as (y & Hy & Hyl & _); [lia|].
  rewrite Hx, ?Hy in *. cbn [mbind option_bind] in Hlq, Hlp. destruct (project_lines c t _ _) as [z|]; [|done].
  cbn [mbind option_bind] in Hlq, Hlp. simplify_eq. f_equal; [by rewrite take_app_length'|]. f_equal.
  rewrite app_assoc, drop_app_length'; [done|]. rewrite length_app. lia.
Qed.

(** * Delivery *)

(** What comes of an encoded update for the screen [p]: the client shows it, if its rows can be
    shown and it is not too large; otherwise the client refuses it as a whole.  The encoder itself
    fails only for rows that cannot be shown. *)
Definition delivered (res : result DisplayError EncodedDisplayBatch) (client : DisplayClient) (p : TerminalProjection) (paired : bool) : Prop :=
  match res with
  | Ok b =>
    if paired && (eb_total_bytes b <=? MAX_LOGICAL_DISPLAY_BYTES)
    then ∃ cache, committed b client cache ∧ mirrors cache p else refused_by (sent b) client
  | Err _ => paired = false
  end.

Lemma delivered_intro res client p paired shown (Q : EncodedDisplayBatch → list DisplayCell → Prop) :
  (is_Some shown ↔ paired = true) →
  (∀ b ds, shown = Some ds → Q b ds → ∃ cache, committed b client cache ∧ mirrors cache p) →
  match res, shown with
  | Ok b, Some ds => if MAX_LOGICAL_DISPLAY_BYTES <? eb_total_bytes b then refused_by (sent b) client else Q b ds
  | Ok b, None => refused_by (sent b) client
  | Err _, shown => shown = None
  end → delivered res client p paired.
Proof.
  intros Hs HQ Hm. unfold delivered. destruct res as [b|e].
  - destruct shown as [ds|]; [rewrite (proj1 Hs) by done|destruct paired; [by destruct (proj2 Hs eq_refl)|done]].
    cbn [andb]. rewrite N.ltb_antisym in Hm. destruct (_ <=? _); [|done]. cbn [negb] in Hm. eauto.
  - subst shown. destruct paired; [by destruct (proj2 Hs eq_refl)|done].
Qed.

Section deliver.
Context (c r : N) (t : TerminalState H) (generation : N) (client : DisplayClient).
Hypothesis Ht : terminal_wf c r t.
Hypothesis Hgen : fits 8 generation.
Hypothesis Hfresh : starts_fresh generation client.
Hypothesis Hwf : cache_wf (cl_cache client).

(** The cells of [n] projected rows. *)
Lemma projected_lines i n lines p :
  project_lines c t (N.to_nat n) i = Some lines → i + n ≤ r → tp_cells p = concat lines → tp_columns p = c →
  Forall encodable (tp_cells p) ∧ vlen (tp_cells p) = n * c ∧ (is_Some (projected p n) ↔ rows_paired t (N.to_nat n) i = true).
Proof using Ht.
  intros Hl Hi Hp Hc. destruct (project_lines_shown c r t (N.to_nat n) i Ht) as (lines' & Hl' & Hlen & Hw & He & Hs); [lia|].
  rewrite Hl in Hl'. injection Hl' as <-. unfold projected. rewrite Hp, Hc. rewrite <- Hlen, split_rows_concat by done.
  split_and!; [|rewrite (vlen_concat_lines _ c Hw); lia|by rewrite Hlen].
  clear -He. induction He; cbn; [constructor|]. by apply Forall_app.
Qed.

Lemma snapshot_valid :
  ∃ p, projection_snapshot t generation = Some p ∧ tp_rows p = r ∧ tp_columns p = c ∧ tp_generation p = generation ∧
    validate_snapshot p = ok tt ∧ Forall encodable (tp_cells p) ∧ vlen (tp_cells p) = r * c ∧
    (is_Some (projected p r) ↔ rows_paired t (N.to_nat r) 0 = true).
Proof using Ht.
  destruct (projection_snapshot_ok c r t generation Ht) as (lines & Hl & Hp). destruct (current_wf c r t Ht) as (_ & Hc & Hr & _).
  destruct (projected_lines 0 r lines (projection_of t generation (projection_damage_full r) (concat lines)) Hl ltac:(lia) eq_refl Hc) as (He & Hv & Hs).
  eexists. split_and!; [exact Hp|exact Hr|exact Hc|done| |exact He|exact Hv|exact Hs].
  unfold validate_snapshot. cbn [projection_of tp_rows tp_columns tp_cursor_row tp_cursor_col tp_cells cursor_state cs_row cs_col].
  rewrite Hr, Hc, (geometry_valid c r t Ht). cbn [try_ ok]. destruct Ht as ((? & ? & ? & ?) & _). unfold MAX_TERMINAL_COLUMNS, MAX_TERMINAL_ROWS in *.
  rewrite checked_mul_ok by (unfold usize_max, u64_max; nia). cbn [ok_or try_ ok]. cbn [projection_of tp_cells] in Hv.
  rewrite Hv, N.eqb_refl, (proj2 (N.ltb_ge _ _)) by (unfold MAX_DISPLAY_CELLS; nia). done.
Qed.

Lemma update_valid d :
  damage_in r d →
  let e := effective r d in
  ∃ u, projection_update t generation d = Some u ∧ tp_rows u = r ∧ tp_columns u = c ∧ tp_generation u = generation ∧ tp_damage u = e ∧
    validate_update u = ok tt ∧ Forall encodable (tp_cells u) ∧
    (is_Some (projected u (damage_row_count e)) ↔ rows_paired t (N.to_nat (damage_row_count e)) (pd_first_row e) = true).
Proof using Ht.
  intros Hd. cbn zeta. destruct (effective_ok c r t d Ht Hd) as (Hlo & Hhi & Hn & Hfull).
  destruct (projection_update_ok c r t generation d Ht Hd) as (lines & Hl & Hu). destruct (current_wf c r t Ht) as (_ & Hc & Hr & _).
  destruct (projected_lines _ _ lines (projection_of t generation (effective r d) (concat lines)) Hl ltac:(lia) eq_refl Hc) as (He & Hv & Hs).
  eexists. split_and!; [exact Hu|exact Hr|exact Hc|done|done| |exact He|exact Hs].
  unfold validate_update. cbn [projection_of tp_rows tp_columns tp_cursor_row tp_cursor_col tp_cells tp_damage cursor_state cs_row cs_col].
  rewrite Hr, Hc, (geometry_valid c r t Ht). cbn [try_ ok]. destruct Ht as ((? & ? & ? & ?) & _). unfold MAX_TERMINAL_COLUMNS, MAX_TERMINAL_ROWS in *.
  rewrite (proj2 (N.ltb_ge (pd_last_row _) _)), (proj2 (N.leb_gt r _)) by done. cbn [orb].
  rewrite ifb_false.
  2: { destruct (pd_full (effective r d)); [|done]. destruct (Hfull eq_refl) as [-> ->]. by rewrite !N.eqb_refl. }
  rewrite checked_mul_ok by (unfold usize_max, u64_max; nia). cbn [ok_or try_ ok]. cbn [projection_of tp_cells] in Hv.
  rewrite Hv, N.eqb_refl, (proj2 (N.ltb_ge _ _)) by (unfold MAX_DISPLAY_CELLS; nia). done.
Qed.

Lemma snapshot_delivered :
  ∃ p res, projection_snapshot t generation = Some p ∧ encode_snapshot_v2 p = Some res ∧
    delivered res client p (rows_paired t (N.to_nat r) 0).
Proof using Ht Hgen Hfresh Hwf.
  destruct snapshot_valid as (p & Hp & Hr & Hc & Hg & Hv & He & _ & Hs). rewrite <- Hg in Hgen, Hfresh. rewrite <- Hr in Hs.
  destruct (snapshot_mirrors p client He Hgen Hfresh Hwf Hv) as (res & Hres & Hm). exists p, res. split_and!; [done|done|].
  rewrite Hr in *. eapply delivered_intro; [exact Hs| |exact Hm]. cbn beta. intros b ds Hds Hb. exists (cache_of p ds). split; [done|].
  exists ds. by rewrite Hr.
Qed.

Lemma delta_delivered d t0 g0 q :
  damage_in r d → terminal_wf c r t0 → fits 8 g0 → unchanged_outside c r t0 t d →
  projection_snapshot t0 g0 = Some q → mirrors (cl_cache client) q →
  let e := effective r d in
  ∃ u p res, projection_update t generation d = Some u ∧ projection_snapshot t generation = Some p ∧
    encode_delta_v2 u g0 = Some res ∧ delivered res client p (rows_paired t (N.to_nat (damage_row_count e)) (pd_first_row e)).
Proof using Ht Hgen Hfresh Hwf.
  intros Hd Ht0 Hg0 Hsame Hq Hmir. cbn zeta. destruct (update_valid d Hd) as (u & Hu & Hur & Huc & Hug & Hud & Huv & Hue & Hus).
  destruct snapshot_valid as (p & Hp & Hpr & Hpc & _).
  assert (tp_rows q = r ∧ tp_columns q = c ∧ tp_generation q = g0 ∧ vlen (tp_cells q) = r * c) as (Hqr & Hqc & Hqg & Hqv).
  { destruct (projection_snapshot_ok c r t0 g0 Ht0) as (lq & Hlq & Hq'). rewrite Hq in Hq'. injection Hq' as ->.
    destruct (current_wf c r t0 Ht0) as (_ & Hc0 & Hr0 & _).
    destruct (project_lines_shown c r t0 (N.to_nat r) 0 Ht0) as (lq' & Hlq' & Hlen & Hw & _); [lia|]. rewrite Hlq in Hlq'. injection Hlq' as <-.
    split_and!; [done..|]. cbn. rewrite (vlen_concat_lines _ c Hw). lia. }
  pose proof (overlay_snapshot c r t0 t g0 generation d q u p Ht0 Ht Hd Hsame Hq Hu Hp) as Hover.
  rewrite <- Hug in Hgen, Hfresh. rewrite <- Hqg in Hg0.
  destruct (delta_mirrors u client Hue Hgen Hfresh Hwf q Huv Hg0 Hmir) as (res & Hres & Hm); [by rewrite Hqr, Hqc|congruence|congruence|].
  exists u, p, res. rewrite Hqg, Hover in *. split_and!; [done..|]. rewrite Hud in Hm.
  by eapply delivered_intro; [exact Hus| |exact Hm].
Qed.
(** A delta for another generation or size than the client holds is refused. *)
Lemma stale_delta_refused d u base b :
  damage_in r d → projection_update t generation d = Some u → fits 8 base → encode_delta_v2 u base = ok b →
  (ca_generation (cl_cache client), ca_rows (cl_cache client), ca_columns (cl_cache client)) ≠ (base, r, c) →
  refused_by (sent b) client.
Proof using Ht Hgen Hfresh Hwf.
  intros Hd Hu Hb He Hne. destruct (update_valid d Hd) as (u' & Hu' & Hur & Huc & Hug & _ & Huv & Hue & _).
  rewrite Hu in Hu'. injection Hu' as <-. rewrite <- Hug in Hgen, Hfresh. rewrite <- Hur, <- Huc in Hne.
  by apply (delta_refused u client Hue Hgen Hfresh Hwf base b).
Qed.
End deliver.
End terminal.

(** * The theorem *)

(** "中", then the cursor on the second half of the glyph and an erase to the end of the line. *)
Definition cut_glyph : list N := [228; 184; 173; 27; 91; 49; 59; 50; 72; 27; 91; 75].

Lemma cut_glyph_unpaired :
  ∃ t1 a t2, new_terminal (H := list HistoryLine) 8 2 new_allocator = Ret t1 a ∧
    @feed (list HistoryLine) _ demo_tables exact_capacity cut_glyph t1 = Ret tt t2 ∧ rows_paired t2 2 0 = false ∧
    ∃ p b, projection_snapshot t2 1 = Some p ∧ encode_snapshot_v2 p = ok b.
Proof.
  assert (match new_terminal (H := list HistoryLine) 8 2 new_allocator with
          | Ret t1 _ =>
            match @feed (list HistoryLine) _ demo_tables exact_capacity cut_glyph t1 with
            | Ret _ t2 =>
              negb (rows_paired t2 2 0)
              && match projection_snapshot t2 1 with
                 | Some p => match encode_snapshot_v2 p with Some (Ok _) => true | _ => false end
                 | None => false
                 end
            | _ => false
            end
          | _ => false
          end = true) as Hrun by (vm_compute; reflexivity).
  destruct (new_terminal 8 2 new_allocator) as [t1 a| | |]; [|done..]. exists t1, a.
  destruct (@feed (list HistoryLine) _ demo_tables exact_capacity cut_glyph t1) as [[] t2| | |]; [|done..].
  apply andb_true_iff in Hrun as [Hpair%negb_true_iff Hsent]. exists t2. split_and!; [done..|].
  destruct (projection_snapshot t2 1) as [p|]; [|done]. exists p.
  destruct (encode_snapshot_v2 p) as [[b|e]|] eqn:Hb; [|done..]. by exists b.
Qed.

(** C40. The display client mirrors the terminal.  For every reachable terminal the projection,
    the plan of spans and the encoder never panic.  The frames of a snapshot, cut into transport
    batches, leave any client that is not in the middle of the same update with exactly the
    projected screen: cells, wide glyphs, text, colours, attributes, cursor and modes.  The
    frames of a delta against a screen the client mirrors turn it into the mirror of the new
    screen, if the rows outside the damage did not change.  Both happen exactly when every wide
    lead in the rows sent is followed by its continuation and the update is at most
    [MAX_LOGICAL_DISPLAY_BYTES] long.  Otherwise nothing of the update is shown: either the
    encoder returns an error, which it does only if a lead lacks its continuation, and there is
    nothing to send; or the client refuses the frames sent, asks for a snapshot and keeps what it
    shows.  It also refuses a delta for a generation or size it does not hold.  Screens that cannot be
    shown do occur: erasing a line from the second half of a wide glyph leaves a lead without
    continuation, which the Runtime sends and the client refuses each time. *)
Theorem display_mirrors {H : Type} `{HistoryLaws H} `{UnicodeTables} `{DequeCapacity} (c r : N) (t : TerminalState H)
    (generation : N) (client : DisplayClient) :
  terminal_wf c r t → fits 8 generation → starts_fresh generation client → cache_wf (cl_cache client) →
  (∃ p res, projection_snapshot t generation = Some p ∧ encode_snapshot_v2 p = Some res ∧
     delivered res client p (rows_paired t (N.to_nat r) 0)) ∧
  (∀ d t0 g0 q, damage_in r d → terminal_wf c r t0 → fits 8 g0 → unchanged_outside c r t0 t d →
     projection_snapshot t0 g0 = Some q → mirrors (cl_cache client) q →
     let e := effective r d in
     ∃ u p res, projection_update t generation d = Some u ∧ projection_snapshot t generation = Some p ∧
       encode_delta_v2 u g0 = Some res ∧
       delivered res client p (rows_paired t (N.to_nat (damage_row_count e)) (pd_first_row e))) ∧
  (∀ d u base b, damage_in r d → projection_update t generation d = Some u → fits 8 base → encode_delta_v2 u base = ok b →
     (ca_generation (cl_cache client), ca_rows (cl_cache client), ca_columns (cl_cache client)) ≠ (base, r, c) →
     refused_by (sent b) client) ∧
  (∃ t1 a t2, new_terminal (H := list HistoryLine) 8 2 new_allocator = Ret t1 a ∧
     @feed (list HistoryLine) _ demo_tables exact_capacity cut_glyph t1 = Ret tt t2 ∧ rows_paired t2 2 0 = false ∧
     ∃ p b, projection_snapshot t2 1 = Some p ∧ encode_snapshot_v2 p = ok b).
Proof.
  intros Ht Hg Hf Hw. split_and!.
  - by apply (snapshot_delivered c r t generation client).
  - intros d t0 g0 q. by apply (delta_delivered c r t generation client).
  - intros d u base b. by apply (stale_delta_refused c r t generation client).
  - apply cut_glyph_unpaired.
Qed.

(** The cut glyph reaches a client that holds nothing: the snapshot is refused. *)
Lemma display_mirrors_witness :
  ∃ (t : TerminalState (list HistoryLine)) p b, rows_paired t 2 0 = false ∧ projection_snapshot t 1 = Some p ∧
    encode_snapshot_v2 p = ok b ∧ refused_by (sent b) (mkClient no_pending empty_cache).
Proof.
  destruct (@new_terminal_wf (list HistoryLine) _ _ exact_capacity 8 2) as (t0 & a0 & Hnew & Hwf & _); [done|].
  destruct cut_glyph_unpaired as (t1 & a & t2 & Hnew' & Hfeed & Hpair & p' & b & Hp' & Hb). rewrite Hnew in Hnew'. injection Hnew' as <- <-.
  assert (@terminal_wf (list HistoryLine) _ _ exact_capacity 8 2 t2) as Hwf2.
  { pose proof (@feed_wf (list HistoryLine) _ _ demo_tables exact_capacity 8 2 cut_glyph t0 Hwf) as Hf. unfold wp in Hf.
    rewrite Hfeed in Hf. apply Hf. repeat constructor; done. }
  destruct (@display_mirrors (list HistoryLine) _ _ demo_tables exact_capacity 8 2 t2 1 (mkClient no_pending empty_cache) Hwf2)
    as ((p & res & Hp & Hres & Hd) & _); [done|by left|done|]. change (N.to_nat 2) with 2%nat in Hd. rewrite Hpair in Hd.
  rewrite Hp in Hp'. injection Hp' as <-. rewrite Hb in Hres. injection Hres as <-. by exists t2, p, b.
Defined.
